(* ===== verification/_CoqProject ===== *)
-Q . S2P
Prelude.v
Text.v
Regex.v
Command.v
FileSystem.v
Containers.v
FileUtil.v
Bytes.v
Ini.v
IniNumbers.v
Storage.v
AggStorage.v
Config.v
Logger.v
Streams.v
Header.v
Client.v
ClientInvariant.v
Serial.v
Versioning.v
Environment.v
Queue.v
Watchdog.v
Transfer.v
Chksum.v
AxlStorage.v
DaosStorage.v
Ec.v
Aggregator.v
Manager.v
IpcQueue.v
WorkQueue.v
IpcSegment.v
SocketQueue.v
SocketServer.v
ThalliumQueue.v
ThalliumServer.v
System.v
Async.v
FileMode.v
Aggregation.v
CApi.v
Python.v
Heatdis.v
Inspect.v
Backend.v
Daemon.v
Attach.v
Cache.v
