(* ===== verification/Prelude.v ===== *)
(** * VELOC: a verification development

    VELOC is a library for checkpointing applications on clusters.  A process
    protects regions of its memory; a checkpoint writes them to a file in the
    scratch directory of the node, and a backend then moves the file to persistent
    storage, protects it with checksums and erasure codes, and removes old versions.
    After a failure the process finds out which version is available, gets the file
    back and recovers its memory.

    The sources are below [src/]: [lib] (the client library, its C interface and
    cached files), [common] (commands, queues, configuration, files), [modules] (what
    the backend does with a command), [storage] (where checkpoints go), [backend]
    (the process), [tools] and [bindings]; the public headers are in [include/], and
    a sample application is in [test/], beside [src/].  This development translates
    them into definitions and proves what makes them correct; where the code does not
    do what it means to, it proves that instead.


    ** How the code is translated

    - Results.  A computation over a state [S] is [comp S A], a function from the
      state to an [outcome] and a new state.  An outcome is a value, an exception,
      the end of the process ([FATAL] is [Exit (-1)]), a computation that never
      returns ([Hang]) or undefined behaviour ([Undef]).  The state survives every
      outcome, so that what a failing call leaves behind can be stated.
    - Integers are [Z]; where the width matters, [u32], [u64], [i32] and [i64] wrap.
    - Bytes, strings and paths are lists of bytes and strings; [std::set] and
      [std::map] with an [int] key are sorted lists ([Containers]), other maps are
      [gmap]s.
    - The operating system ([FileSystem]) is a map from paths to files, links and
      directories together with a schedule: what the kernel decides for the calls to
      come, let through, fail, or transfer only a part.  A theorem for all schedules
      holds for every pattern of I/O errors; one with the empty schedule shows that
      the code succeeds when nothing fails.  States that contain more than the files
      are instances of [HasSys].
    - Libraries that are not part of the sources are arguments: MPI, ER, AXL, DAOS,
      OpenSSL, Boost's allocator in shared memory, the serialization libraries,
      pickle.  What the code relies on is a class or a record of hypotheses
      ([AxlCopies], [DaosKV], [Archive], [communicator] and so on), and every theorem
      that uses one has a witness with a concrete instance.
    - Threads and processes are step relations, or functions from an event to the
      next state, and the theorems quantify over all interleavings.
    - Loops whose recursion is not structural have fuel computed from the input:
      [transfer_fuel] (a byte of the source or a decision of the schedule per
      iteration; [file_transfer_loop_hang] shows that a loop that exceeds it never
      ends), [header_fuel] (12 bytes of the file per iteration), the length of the
      text for the INI parser ([ini_parse_ends]), the count for the loops of the
      cache.  The fuel of the sample application is the number of rounds after which
      it is killed; [ITER_TIMES + 1] rounds are enough for its end.  The fuel of a
      DAOS listing is an argument, since the number of batches is up to the library.


    ** Files

    Foundations.  [Prelude] (status codes, outcomes, the monad, the logic of
    preserved invariants), [Text] ([std::string], numbers as text), [Regex] (the
    regular expressions that occur), [FileSystem], [Containers], [Bytes] (integers in
    files), [Streams] ([std::ifstream] and [std::ofstream] with their buffer),
    [Environment] (files and clock).

    Common code.  [Command]: [common/command.cpp], names of files and the patterns
    that read them back.  [FileUtil]: [common/file_util.cpp], scans and transfers, in
    both build variants.  [Header]: [common/ckpt_util.cpp].  [Ini],
    [IniNumbers] and [Config]: [common/INIReader.h] and [common/config.cpp],
    parameters, their sources and the choice of the storage module, with the
    constructor of the versioning module.  [Logger]: [common/debug.hpp] and
    [common/logger_state.hpp].

    Storage.  [Storage]: the interface [storage_module_t] and [posix_module.cpp].
    [AggStorage]: [posix_agg_module.cpp], one file for all ranks.  [AxlStorage] and
    [DaosStorage]: [axl_module.cpp] and [daos_module.cpp].

    Client.  [Client]: every call of [lib/client.cpp], over the interface
    [comm_client_t] of the queues.  [ClientInvariant]: its invariant.  [Serial]: the
    serialization adapters [include/veloc/boost.hpp], [cereal.hpp] and [bitsery.hpp].
    [CApi]: [lib/veloc.cpp] and the constructors of the client.  [Python]:
    [bindings/python/veloc/__init__.py], over the C interface.  [Inspect]:
    [tools/veloc-inspect.cpp].  [Cache]: [lib/posix_cache.cpp] with its thread.

    Backend.  One file per module of [modules/]: [Watchdog], [Transfer], [Chksum],
    [Ec], [Versioning], [Aggregator] (with its threads), and [Manager], the chain of
    them.  [Queue] is the contract of the queues between clients and backend (elements
    are delivered in the order of the enqueues, each completed once, and a status is
    that of a task that ran), and
    [IpcQueue], [SocketQueue] and [ThalliumQueue] are [common/ipc_queue.hpp],
    [socket_queue.hpp] and [thallium_queue.hpp]; [IpcSegment] is the shared memory
    with its size, [SocketServer] the system calls on the sockets, [ThalliumServer]
    the remote procedures for all clients with the main loop.  [Backend]:
    [backend/main.cpp], the protocol of the ready file, and the start of
    [backend/work_queue.cpp].  [Daemon]: its arguments and the fork, with that start in
    the child.  [Attach]: the
    names of the shared objects, by which clients and backends find each other.  The
    main loop is in [WorkQueue] with parallel tasks and the clients' queues, for
    whatever the modules do, in [System] with the modules, for one task after the
    other, and in [Async] with the modules beside a running application.  In
    [WorkQueue] and [Async] the loop looks at the queues and then sleeps, in two
    steps, as [dequeue_any] does; a notification between the two is lost, and the
    theorems that need it to arrive say so ([timely_step]).

    Composition.  [System] connects client, queue, work queue, modules and storage;
    [Async] does so for asynchronous mode and [FileMode] for the file-based interface,
    as [test/heatdis_file.c] uses it; [Aggregation] connects the clients of an
    aggregated checkpoint with its storage module.  [Heatdis] runs the sample
    application [test/heatdis_mem.c] on the whole system, through the C interface, over
    any number of failures.


    ** What is shown

    - Data survive.  [system_roundtrip] end to end, [async_roundtrip] with the
      backend at work while the application goes on, [file_roundtrip] for files that
      the application writes itself, [heatdis_survives] for an application that is
      killed and restarted, [python_roundtrip] for the bindings;
      [mixed_roundtrip], [checkpoint_recover] and [checkpoint_mem_layout] for memory,
      objects and file; [posix_flush_restore] (and [_routed], for files of the
      application), [agg_flush_concat], [agg_restore_rank], [axl_flush_restore],
      [daos_flush_restore] for the storage modules under I/O errors;
      [aggregation_metadata] for all ranks of a communicator; [inspect_extract];
      [cache_write_back] for every interleaving; [transfer_variants_agree].
    - States stay well-formed: [client_invariant], [capi_invariant].
    - The right checkpoint is found: [match_stem], [match_isolated], [filename_inj],
      [posix_get_versions], [versioning_test]; [versioning_keeps_newest] says exactly
      which files a checkpoint removes, for any limits.
    - Bad input is handled: [read_header_sound], [chksum_verdict],
      [config_make_sound], [ini_parse_spec] (with [ini_parse_ends]);
      [capi_init_file] and [GetInteger_reads] for good input.
    - Bounds are kept: [socket_server_bounded] for the table of connections,
      [socket_path_fits] for the socket's path, [ipc_capacity] for the shared memory.
    - The backend keeps its promises: [notify_command_result], [transfer_spacing],
      [watchdog_reports] (who is reported in which round, and who is not),
      [ec_agreement], [agg_generation], [backend_single_instance], [daemon_starts];
      [attach_same_queue] for the clients that launch it; [log_usable].
    - The queues refine their contract: [ipc_refinement], [socket_refinement];
      [ipc_wait_wakes] for the condition variables.  The one over Thallium does not
      ([thallium_loses_failure]); [thallium_wait_complete] is what it promises.  The
      main loop keeps the contract with its parallel tasks, and the queues are empty
      when it sleeps and no notification was lost: [work_queue_contract],
      [work_queue_safe], [work_queue_drains].
    - Where the code fails: among others [ipc_lost_wakeup], [agg_missed_generation],
      [start_main_loop_races], [backend_sigterm_two], [daemon_signal_early],
      [ipc_dequeue_loses], [async_notification_lost], [sync_processes_cross] (races),
      [work_queue_deadlock], [system_test_hangs], [daemon_start_hangs],
      [daemon_start_stalls], [attach_orphaned], [posix_transfer_past_end]
      (non-termination), [async_failure_leaks], [end_ignores_success],
      [heatdis_torn], [posix_flush_exact], [backend_interval_evicts],
      [versioning_prunes_new], [checkpoint_header_lost],
      [cache_flush_inverted], [cache_short_write], [thallium_loses_failure] (wrong
      results), [checkpoint_some_undefined], [capi_finalize_dangling],
      [agg_restore_short_header], [socket_overflow], [host_name_overread],
      [python_second_checkpoint] (undefined behaviour), [capi_recover_size],
      [read_header_wraps] (overflow), [socket_client_ends_backend] (a client ends the backend).


    ** Not modelled

    - What is logged: only [Logger] has messages, the other files leave them out, and
      keep of a message only that it can end the process.
    - CPU affinity and priorities; the interleaving of the modules inside parallel
      tasks, apart from the aggregator: their work on the files is one step; in
      [backend/main.cpp] the start of MPI and the closing of the standard descriptors.
    - The other test programs, of the file-based sample all but its checkpoint and its
      restart, and of the sample application several processes with their exchange of
      halos; the arithmetic of [double].
    - Class declarations in headers, wrappers that only pass a call on, destructors
      that only free memory or close handles, includes and build files, which have no
      behaviour of their own: these are what is left of the sources.
    - Memory exhaustion, apart from the shared memory; time points and counters far
      from the limits of 64 bits are not wrapped.
*)

From stdpp Require Export base tactics numbers list gmap sets strings sorting.
From stdpp Require Import relations.
From Stdlib Require Export ZArith Lia.

(** ** Notations of the development *)

Declare Scope veloc_scope.
Delimit Scope veloc_scope with veloc.
Global Open Scope veloc_scope.

Local Open Scope Z_scope.

(** ** Status codes ([src/common/status.hpp], [include/veloc/defs.h]) *)

Definition VELOC_SUCCESS : Z := 0.
Definition VELOC_FAILURE : Z := -1.
Definition VELOC_IGNORED : Z := -2.

Definition VELOC_CKPT_ALL : Z := 0.
Definition VELOC_CKPT_SOME : Z := 1.
Definition VELOC_CKPT_REST : Z := 2.
Definition VELOC_RECOVER_ALL : Z := 0.
Definition VELOC_RECOVER_SOME : Z := 1.
Definition VELOC_RECOVER_REST : Z := 2.
Definition VELOC_OBSERVE_CKPT_END : Z := 0.

(** ** Machine integers (LP64: [int] 32 bits, [long] and [size_t] 64 bits) *)

Definition u32 (z : Z) : Z := z mod 2 ^ 32.
Definition u64 (z : Z) : Z := z mod 2 ^ 64.
Definition i32 (z : Z) : Z := (z + 2 ^ 31) mod 2 ^ 32 - 2 ^ 31.
Definition i64 (z : Z) : Z := (z + 2 ^ 63) mod 2 ^ 64 - 2 ^ 63.

Definition INT_MAX : Z := 2 ^ 31 - 1.
Definition INT_MIN : Z := - 2 ^ 31.
Definition LONG_MAX : Z := 2 ^ 63 - 1.
Definition SIZE_MAX : Z := 2 ^ 64 - 1.

Definition is_int (z : Z) : Prop := INT_MIN ≤ z ≤ INT_MAX.
Definition is_size (z : Z) : Prop := 0 ≤ z ≤ SIZE_MAX.

Global Instance is_int_dec z : Decision (is_int z).
Proof. unfold is_int. apply _. Defined.
Global Instance is_size_dec z : Decision (is_size z).
Proof. unfold is_size. apply _. Defined.

(** ** Outcomes of C++ code

    A C++ function returns a value, throws an exception, terminates the
    process (the [FATAL] macro of [common/debug.hpp] calls [exit(-1)]), never
    returns, or has undefined behaviour. *)

Inductive exn :=
| ios_failure
| bad_function_call
| out_of_range
| invalid_argument
| regex_error
| bad_alloc
| runtime_error.

Inductive outcome (A : Type) :=
| Val (a : A)
| Raise (e : exn)
| Exit (code : Z)
| Hang
| Undef.
Arguments Val {A} _.
Arguments Raise {A} _.
Arguments Exit {A} _.
Arguments Hang {A}.
Arguments Undef {A}.

Definition FATAL {A} : outcome A := Exit (-1).

(** Signed arithmetic that leaves the type is undefined. *)
Definition int_ok (z : Z) : outcome Z :=
  if (INT_MIN <=? z) && (z <=? INT_MAX) then Val z else Undef.
Definition long_ok (z : Z) : outcome Z :=
  if (- 2 ^ 63 <=? z) && (z <=? LONG_MAX) then Val z else Undef.

Global Instance outcome_ret : MRet outcome := @Val.
Global Instance outcome_bind : MBind outcome := λ A B f m,
  match m with
  | Val a => f a
  | Raise e => Raise e
  | Exit c => Exit c
  | Hang => Hang
  | Undef => Undef
  end.
Global Instance outcome_fmap : FMap outcome := λ A B f m,
  match m with
  | Val a => Val (f a)
  | Raise e => Raise e
  | Exit c => Exit c
  | Hang => Hang
  | Undef => Undef
  end.

(** Stateful C++ code: the state reached is kept whatever the outcome, since a
    file half written by code that then throws stays half written. *)

Definition comp (S A : Type) : Type := S → outcome A * S.

Global Instance comp_ret {S} : MRet (comp S) := λ A a s, (Val a, s).
Global Instance comp_bind {S} : MBind (comp S) := λ A B f m s,
  match m s with
  | (Val a, s') => f a s'
  | (Raise e, s') => (Raise e, s')
  | (Exit c, s') => (Exit c, s')
  | (Hang, s') => (Hang, s')
  | (Undef, s') => (Undef, s')
  end.

Definition stop {S A} (o : outcome A) : comp S A := λ s, (o, s).
Definition get {S} : comp S S := λ s, (Val s, s).
Definition put {S} (s : S) : comp S unit := λ _, (Val tt, s).
Definition modify {S} (f : S → S) : comp S unit := λ s, (Val tt, f s).
Definition gets {S A} (f : S → A) : comp S A := λ s, (Val (f s), s).

(** [try { m } catch (std::ios_base::failure &) { h }] *)
Definition try_ios {S A} (m h : comp S A) : comp S A := λ s,
  match m s with
  | (Raise ios_failure, s') => h s'
  | r => r
  end.

(** Iterating a computation over a list, as a range-based [for] does. *)
Fixpoint mforeach {S A} (f : A → comp S unit) (l : list A) : comp S unit :=
  match l with
  | [] => mret tt
  | x :: l => f x ;; mforeach f l
  end.

(** ** Automation *)

Create HintDb veloc discriminated.
Create Rewrite HintDb veloc.

Ltac unfold_comp :=
  unfold mbind, mret, comp_bind, comp_ret, outcome_bind, outcome_ret,
    stop, get, put, modify, gets, try_ios in *.

(** [mcase] runs a computation one branch further: it splits on the scrutinee
    of the outermost match or conditional and simplifies the equations. *)
Ltac mcase :=
  repeat (case_match; simplify_eq/=; try done).

(** Runs the first computation of a bind in [H]. *)
Ltac bind_case H o st E :=
  match type of H with (?m ≫= _) ?s = _ => destruct (m s) as [o st] eqn:E end.

Ltac zbool :=
  repeat match goal with
  | H : (_ <? _) = true |- _ => apply Z.ltb_lt in H
  | H : (_ <? _) = false |- _ => apply Z.ltb_ge in H
  | H : (_ <=? _) = true |- _ => apply Z.leb_le in H
  | H : (_ <=? _) = false |- _ => apply Z.leb_gt in H
  | H : (_ =? _) = true |- _ => apply Z.eqb_eq in H
  | H : (_ =? _) = false |- _ => apply Z.eqb_neq in H
  | H : _ && _ = true |- _ => apply andb_true_iff in H as [? ?]
  | H : _ || _ = false |- _ => apply orb_false_iff in H as [? ?]
  | H : bool_decide _ = true |- _ => apply bool_decide_eq_true in H
  | H : bool_decide _ = false |- _ => apply bool_decide_eq_false in H
  | H : negb _ = true |- _ => apply negb_true_iff in H
  | H : negb _ = false |- _ => apply negb_false_iff in H
  end.

(** ** Lemmas on machine integers *)

Lemma u64_small z : is_size z → u64 z = z.
Proof. unfold is_size, SIZE_MAX, u64. intros. apply Z.mod_small. lia. Qed.

Lemma u64_range z : is_size (u64 z).
Proof.
  unfold is_size, SIZE_MAX, u64.
  pose proof (Z.mod_pos_bound z (2 ^ 64) eq_refl). lia.
Qed.

Lemma i32_small z : is_int z → i32 z = z.
Proof.
  unfold is_int, INT_MIN, INT_MAX, i32. intros.
  rewrite Z.mod_small; lia.
Qed.

Lemma i64_small z : - 2 ^ 63 ≤ z ≤ LONG_MAX → i64 z = z.
Proof. unfold LONG_MAX, i64. intros. rewrite Z.mod_small; lia. Qed.

#[export] Hint Resolve u64_range : veloc.
#[export] Hint Rewrite u64_small i32_small i64_small using lia : veloc.

(** ** Lemmas on computations *)

Lemma stop_bind {S A B} (a : A) (k : A → comp S B) s : (stop (Val a) ≫= k) s = k a s.
Proof. done. Qed.

Lemma get_bind {S B} (k : S → comp S B) s : (get ≫= k) s = k s s.
Proof. done. Qed.
Lemma gets_bind {S A B} (g : S → A) (k : A → comp S B) s : (gets g ≫= k) s = k (g s) s.
Proof. done. Qed.
Lemma modify_bind {S B} (g : S → S) (k : unit → comp S B) s : (modify g ≫= k) s = k tt (g s).
Proof. done. Qed.
Lemma ret_bind {S A B} (a : A) (k : A → comp S B) s : (mret a ≫= k) s = k a s.
Proof. done. Qed.

Lemma comp_bind_unfold {S A B} (m : comp S A) (k : A → comp S B) s :
  (m ≫= k) s = match m s with
               | (Val a, s') => k a s'
               | (Raise e, s') => (Raise e, s')
               | (Exit c, s') => (Exit c, s')
               | (Hang, s') => (Hang, s')
               | (Undef, s') => (Undef, s')
               end.
Proof. done. Qed.

(** Runs the first computation of a bind in [H], whatever its outcome, and keeps
    what [spec] says of it as [E]. *)
Ltac bind_spec H spec E :=
  match type of H with
  | (?m ≫= ?k) ?s = _ =>
      let o := fresh "o" in let st := fresh "st" in
      rewrite (comp_bind_unfold m k s) in H;
      destruct (m s) as [o st] eqn:E; apply spec in E
  end.

Lemma comp_bind_assoc {S A B C} (m : comp S A) (k : A → comp S B) (k' : B → comp S C) s :
  ((m ≫= k) ≫= k') s = (m ≫= λ a, k a ≫= k') s.
Proof. unfold mbind, comp_bind. by destruct (m s) as [[] s']. Qed.

Lemma comp_bind_val {S A B} (m : comp S A) (f : A → comp S B) s a s' :
  m s = (Val a, s') → (m ≫= f) s = f a s'.
Proof. intros H. unfold mbind, comp_bind. by rewrite H. Qed.

Lemma comp_bind_raise {S A B} (m : comp S A) (k : A → comp S B) s e s' :
  m s = (Raise e, s') → (m ≫= k) s = (Raise e, s').
Proof. intros H. unfold mbind, comp_bind. by rewrite H. Qed.

Lemma comp_bind_inv {S A B} (m : comp S A) (f : A → comp S B) s b s' :
  (m ≫= f) s = (Val b, s') → ∃ a s1, m s = (Val a, s1) ∧ f a s1 = (Val b, s').
Proof.
  unfold mbind, comp_bind. destruct (m s) as [[a| | | |] s1]; naive_solver.
Qed.

Lemma mforeach_app {S A} (f : A → comp S unit) (l k : list A) s s1 :
  mforeach f l s = (Val tt, s1) → mforeach f (l ++ k) s = mforeach f k s1.
Proof.
  revert s. induction l as [|x l IH]; simpl; intros s H.
  - unfold mret, comp_ret in H. by simplify_eq.
  - apply comp_bind_inv in H as ([] & s2 & H1 & H2).
    erewrite comp_bind_val by done. by apply IH.
Qed.

(** ** Termination *)

(** A relation that decreases a measure has no infinite sequences. *)
Lemma sn_measure {A} (R : A → A → Prop) (f : A → nat) :
  (∀ x y, R x y → (f y < f x)%nat) → ∀ x, sn R x.
Proof.
  intros Hf x. remember (f x) as n eqn:Hn. revert x Hn. induction (lt_wf n) as [n _ IH]; intros x ->.
  constructor. intros y Hy. eapply IH; [|done]. by apply Hf.
Qed.

(** ** Invariants of computations

    [preserves P m]: whatever the outcome of [m], a state that satisfies [P]
    leads to one that does. *)

Create HintDb preserve discriminated.

Definition preserves {S A} (P : S → Prop) (m : comp S A) : Prop :=
  ∀ s o s', m s = (o, s') → P s → P s'.

Section preserves.
Context {S : Type} (P : S → Prop).

Lemma preserves_ret {A} (a : A) : preserves P (mret a).
Proof. intros s o s' H. unfold mret, comp_ret in H. by simplify_eq. Qed.

Lemma preserves_stop {A} (o : outcome A) : preserves P (stop o).
Proof. intros s o' s' H. unfold stop in H. by simplify_eq. Qed.

Lemma preserves_get : preserves P get.
Proof. intros s o s' H. unfold get in H. by simplify_eq. Qed.

Lemma preserves_gets {A} (g : S → A) : preserves P (gets g).
Proof. intros s o s' H. unfold gets in H. by simplify_eq. Qed.

Lemma preserves_modify (g : S → S) : (∀ s, P s → P (g s)) → preserves P (modify g).
Proof. intros Hg s o s' H. unfold modify in H. simplify_eq. by apply Hg. Qed.

Lemma preserves_bind {A B} (m : comp S A) (k : A → comp S B) :
  preserves P m → (∀ a, preserves P (k a)) → preserves P (m ≫= k).
Proof.
  intros Hm Hk s o s' H Hs. unfold mbind, comp_bind in H.
  destruct (m s) as [[a| | | |] s1] eqn:E; simplify_eq; try (by eapply Hm).
  eapply Hk; [done|]. by eapply Hm.
Qed.

(** The continuation may use what it has just read. *)
Lemma preserves_get_bind {B} (k : S → comp S B) :
  (∀ s o s', k s s = (o, s') → P s → P s') → preserves P (get ≫= k).
Proof. intros Hk s o s' H Hs. rewrite get_bind in H. by eapply Hk. Qed.

Lemma preserves_try {A} (m h : comp S A) :
  preserves P m → preserves P h → preserves P (try_ios m h).
Proof.
  intros Hm Hh s o s' H Hs. unfold try_ios in H. destruct (m s) as [[a|[]| | |] s1] eqn:E;
    simplify_eq; try (by eapply Hm). eapply Hh; [done|]. by eapply Hm.
Qed.

Lemma preserves_foreach {A} (g : A → comp S unit) l :
  (∀ a, a ∈ l → preserves P (g a)) → preserves P (mforeach g l).
Proof.
  induction l as [|x l IH]; intros Hg; [apply preserves_ret|].
  apply preserves_bind; [apply Hg; left|]. intros _. apply IH. intros a Ha. apply Hg. by right.
Qed.
End preserves.

#[export] Hint Resolve preserves_ret preserves_stop preserves_get preserves_gets
  preserves_bind preserves_try preserves_modify : preserve.
