(* ===== verification/Text.v ===== *)
(** * Text: [std::string] and the conversions between text and integers

    Lemmas on [string], and the parts of the C++ library through which VELOC
    turns numbers into text and back: [std::to_string] (the standard [pretty]
    printer of [Z]) and [std::stoi]. *)

From stdpp Require Export pretty.
From Stdlib Require Export Ascii.
From S2P Require Import Prelude.

Local Open Scope Z_scope.

(** ** Characters *)

Definition is_digit (c : ascii) : bool :=
  match Ascii.is_nat c with Some _ => true | None => false end.

Definition is_char (c d : ascii) : bool := bool_decide (d = c).

(** [isspace] in the C locale *)
Definition isspace (c : ascii) : bool := Ascii.is_space c.

Definition is_lower (c : ascii) : bool :=
  let n := N_of_ascii c in ((97 <=? n) && (n <=? 122))%N.
Definition is_upper (c : ascii) : bool :=
  let n := N_of_ascii c in ((65 <=? n) && (n <=? 90))%N.

Definition tolower_char (c : ascii) : ascii :=
  if is_upper c then ascii_of_N (N_of_ascii c + 32) else c.
Definition toupper_char (c : ascii) : ascii :=
  if is_lower c then ascii_of_N (N_of_ascii c - 32) else c.

(** ** Strings *)

Fixpoint sforall (p : ascii → bool) (s : string) : bool :=
  match s with
  | EmptyString => true
  | String c s => p c && sforall p s
  end.

Fixpoint smap (f : ascii → ascii) (s : string) : string :=
  match s with
  | EmptyString => EmptyString
  | String c s => String (f c) (smap f s)
  end.

Definition tolower : string → string := smap tolower_char.
Definition toupper : string → string := smap toupper_char.

(** The longest prefix of [s] whose characters satisfy [p], and the rest. *)
Fixpoint sspan (p : ascii → bool) (s : string) : string * string :=
  match s with
  | EmptyString => (EmptyString, EmptyString)
  | String c s' =>
      if p c then let '(a, b) := sspan p s' in (String c a, b)
      else (EmptyString, s)
  end.

Definition shead_is (p : ascii → bool) (s : string) : bool :=
  match s with
  | EmptyString => false
  | String c _ => p c
  end.

Fixpoint scount (p : ascii → bool) (s : string) : nat :=
  match s with
  | EmptyString => 0
  | String c s => (if p c then 1 else 0) + scount p s
  end.

(** ** Numbers *)

(** [std::to_string] of an integer. *)
Definition to_string (z : Z) : string := pretty z.

(** Reads the decimal digits at the head of [s] into the accumulator. *)
Fixpoint parse_digits (acc : Z) (s : string) : Z * string :=
  match s with
  | EmptyString => (acc, s)
  | String c s' =>
      match Ascii.is_nat c with
      | Some d => parse_digits (acc * 10 + Z.of_nat d) s'
      | None => (acc, s)
      end
  end.

(** The value of the longest decimal numeral at the head of [s] after blanks
    and an optional sign, as [strtol] in base 10 computes it before it clips
    it to the range; [None] when there is no digit. *)
Definition scan_decimal (s : string) : option (Z * string) :=
  let '(_, s1) := sspan isspace s in
  let '(neg, s2) := match s1 with
                    | String "-" r => (true, r)
                    | String "+" r => (false, r)
                    | _ => (false, s1)
                    end in
  if shead_is is_digit s2 then
    let '(v, rest) := parse_digits 0 s2 in
    Some (if neg then - v else v, rest)
  else None.

(** [std::stoi]: throws when there is no numeral or when it is not an [int]. *)
Definition stoi (s : string) : outcome Z :=
  match scan_decimal s with
  | None => Raise invalid_argument
  | Some (v, _) => if bool_decide (is_int v) then Val v else Raise out_of_range
  end.

(** ** Lemmas on strings *)

Lemma is_char_true c d : is_char c d = true ↔ d = c.
Proof. unfold is_char. by rewrite bool_decide_eq_true. Qed.

Lemma sapp_nil_l s : "" +:+ s = s.
Proof. done. Qed.

Lemma sapp_cons c s t : String c s +:+ t = String c (s +:+ t).
Proof. done. Qed.

Lemma sapp_nil_r s : s +:+ "" = s.
Proof. induction s as [|c s IH]; [done|]. by rewrite sapp_cons, IH. Qed.

Lemma sapp_assoc s t u : (s +:+ t) +:+ u = s +:+ (t +:+ u).
Proof. induction s as [|c s IH]; [done|]. by rewrite !sapp_cons, IH. Qed.

Lemma length_sapp s t :
  String.length (s +:+ t) = (String.length s + String.length t)%nat.
Proof. induction s as [|c s IH]; [done|]. rewrite sapp_cons. simpl. lia. Qed.

Lemma sapp_inj_r s t u : s +:+ u = t +:+ u → s = t.
Proof.
  intros H. assert (String.length s = String.length t) as Hl.
  { apply (f_equal String.length) in H. rewrite !length_sapp in H. lia. }
  revert t H Hl. induction s as [|c s IH]; intros [|d t] H Hl; simpl in Hl; try done.
  rewrite !sapp_cons in H. simplify_eq. f_equal. apply IH; [done|lia].
Qed.

Lemma sforall_app p s t : sforall p (s +:+ t) = sforall p s && sforall p t.
Proof.
  induction s as [|c s IH]; [done|]. rewrite sapp_cons. simpl.
  rewrite IH. by rewrite andb_assoc.
Qed.

Lemma sforall_impl (p q : ascii → bool) s :
  (∀ c, p c = true → q c = true) → sforall p s = true → sforall q s = true.
Proof.
  intros Hpq. induction s as [|c s IH]; simpl; [done|].
  rewrite !andb_true_iff. naive_solver.
Qed.

(** Two strings that agree up to their first character outside [p] have the
    same prefix and the same rest. *)
Lemma sspan_app p s t :
  sforall p s = true → shead_is p t = false → sspan p (s +:+ t) = (s, t).
Proof.
  intros Hs Ht. induction s as [|c s IH]; simpl in Hs.
  - rewrite sapp_nil_l. destruct t as [|d t]; [done|]. simpl in *. by rewrite Ht.
  - apply andb_true_iff in Hs as [Hc Hs]. rewrite sapp_cons. simpl.
    by rewrite Hc, (IH Hs).
Qed.

Lemma sspan_spec p s a b :
  sspan p s = (a, b) → s = a +:+ b ∧ sforall p a = true ∧ shead_is p b = false.
Proof.
  revert a b. induction s as [|c s IH]; simpl; intros a b H; simplify_eq; [done|].
  destruct (p c) eqn:Hc; simplify_eq.
  - destruct (sspan p s) as [a' b'] eqn:E. simplify_eq.
    destruct (IH _ _ eq_refl) as (-> & Ha & Hb).
    rewrite sapp_cons. simpl. by rewrite Hc, Ha.
  - done.
Qed.

Lemma sapp_split_unique p s t s' t' :
  sforall p s = true → shead_is p t = false →
  sforall p s' = true → shead_is p t' = false →
  s +:+ t = s' +:+ t' → s = s' ∧ t = t'.
Proof.
  intros Hs Ht Hs' Ht' Heq. apply (f_equal (sspan p)) in Heq.
  rewrite !sspan_app in Heq by done. by simplify_eq.
Qed.

Lemma scount_app p s t : scount p (s +:+ t) = (scount p s + scount p t)%nat.
Proof. induction s as [|c s IH]; [done|]. rewrite sapp_cons. simpl. lia. Qed.

Lemma scount_0 p s : scount p s = 0%nat ↔ sforall (λ c, negb (p c)) s = true.
Proof.
  induction s as [|c s IH]; simpl; [done|]. rewrite andb_true_iff, <-IH.
  destruct (p c); simpl; split; try lia; naive_solver.
Qed.

(** ** Lemmas on numbers *)

Lemma pretty_N_char_digit n :
  (n < 10)%N → Ascii.is_nat (pretty_N_char n) = Some (N.to_nat n).
Proof.
  intros H.
  assert (n = 0 ∨ n = 1 ∨ n = 2 ∨ n = 3 ∨ n = 4 ∨ n = 5
          ∨ n = 6 ∨ n = 7 ∨ n = 8 ∨ n = 9)%N as Hn by lia.
  naive_solver.
Qed.

Lemma pretty_N_go_digits x s :
  sforall is_digit s = true → sforall is_digit (pretty_N_go x s) = true.
Proof.
  revert s. induction (N.lt_wf_0 x) as [x _ IH]; intros s Hs.
  assert (x = 0 ∨ 0 < x)%N as [->|Hx] by lia; [by rewrite pretty_N_go_0|].
  rewrite pretty_N_go_step by done. apply IH; [by apply N.div_lt|].
  simpl. unfold is_digit. rewrite pretty_N_char_digit by by apply N.mod_lt.
  done.
Qed.

Lemma to_string_digits z : 0 ≤ z → sforall is_digit (to_string z) = true.
Proof.
  intros Hz. destruct z as [|p|p]; [done| |lia].
  unfold to_string, pretty, pretty_Z, pretty, pretty_positive, pretty, pretty_N.
  rewrite decide_False by done. by apply pretty_N_go_digits.
Qed.

Lemma pretty_N_go_nonempty x s : (0 < x)%N ∨ s ≠ "" → pretty_N_go x s ≠ "".
Proof.
  revert s. induction (N.lt_wf_0 x) as [x _ IH]; intros s Hs.
  assert (x = 0 ∨ 0 < x)%N as [->|Hx] by lia.
  - rewrite pretty_N_go_0. destruct Hs; [lia|done].
  - rewrite pretty_N_go_step by done. apply IH; [by apply N.div_lt|]. by right.
Qed.

Lemma to_string_nonempty z : to_string z ≠ "".
Proof.
  destruct z as [|p|p]; try done.
  unfold to_string, pretty, pretty_Z, pretty, pretty_positive, pretty, pretty_N.
  rewrite decide_False by done. apply pretty_N_go_nonempty. by left.
Qed.

Lemma to_string_head z : 0 ≤ z → shead_is is_digit (to_string z) = true.
Proof.
  intros Hz. pose proof (to_string_digits z Hz) as Hd.
  pose proof (to_string_nonempty z) as Hn.
  destruct (to_string z); [done|]. simpl in *. by apply andb_true_iff in Hd as [-> _].
Qed.

Lemma parse_pretty_N_go x s :
  ∃ k : Z, 0 ≤ k ∧ ∀ a, parse_digits a (pretty_N_go x s)
                        = parse_digits (a * 10 ^ k + Z.of_N x) s.
Proof.
  revert s. induction (N.lt_wf_0 x) as [x _ IH]; intros s.
  assert (x = 0 ∨ 0 < x)%N as [->|Hx] by lia.
  - exists 0. split; [done|]. intros a. rewrite pretty_N_go_0. f_equal. lia.
  - destruct (IH (x / 10)%N (N.div_lt x 10 Hx eq_refl)
                (String (pretty_N_char (x mod 10)) s)) as (k & Hk & Hp).
    exists (k + 1). split; [lia|]. intros a.
    rewrite pretty_N_go_step by done. rewrite Hp. simpl.
    rewrite pretty_N_char_digit by by apply N.mod_lt.
    f_equal. rewrite Z.pow_add_r by lia.
    rewrite N_nat_Z, N2Z.inj_div, N2Z.inj_mod.
    pose proof (Z.div_mod (Z.of_N x) (Z.of_N 10) ltac:(done)). lia.
Qed.

Lemma parse_digits_stop a s : shead_is is_digit s = false → parse_digits a s = (a, s).
Proof.
  destruct s as [|c s]; [done|]. simpl. unfold is_digit.
  by destruct (Ascii.is_nat c).
Qed.

Lemma pretty_N_go_app x s t : pretty_N_go x s +:+ t = pretty_N_go x (s +:+ t).
Proof.
  revert s. induction (N.lt_wf_0 x) as [x _ IH]; intros s.
  assert (x = 0 ∨ 0 < x)%N as [->|Hx] by lia; [by rewrite !pretty_N_go_0|].
  rewrite !(pretty_N_go_step x) by done. rewrite IH; [done|by apply N.div_lt].
Qed.

Lemma parse_to_string z t :
  0 ≤ z → shead_is is_digit t = false →
  parse_digits 0 (to_string z +:+ t) = (z, t).
Proof.
  intros Hz Ht. destruct z as [|p|p]; [| |lia].
  - change (to_string 0 +:+ t) with (String "0"%char t). simpl.
    by rewrite parse_digits_stop.
  - unfold to_string, pretty, pretty_Z, pretty, pretty_positive, pretty, pretty_N.
    rewrite decide_False by done. rewrite pretty_N_go_app, sapp_nil_l.
    destruct (parse_pretty_N_go (N.pos p) t) as (k & _ & ->).
    rewrite parse_digits_stop by done. done.
Qed.

Lemma is_digit_not_space c : is_digit c = true → isspace c = false.
Proof. destruct c as [[] [] [] [] [] [] [] []]; done. Qed.

Lemma scan_decimal_to_string z t :
  0 ≤ z → shead_is is_digit t = false →
  scan_decimal (to_string z +:+ t) = Some (z, t).
Proof.
  intros Hz Ht. unfold scan_decimal.
  pose proof (to_string_head z Hz) as Hh. pose proof (parse_to_string z t Hz Ht) as Hp.
  destruct (to_string z) as [|c s]; [done|]. simpl in Hh.
  rewrite sapp_cons in *. simpl (sspan _ _). rewrite is_digit_not_space by done.
  assert (c ≠ "-"%char ∧ c ≠ "+"%char) as [? ?] by (split; intros ->; done).
  assert (match String c (s +:+ t) with
          | String "-" r => (true, r)
          | String "+" r => (false, r)
          | _ => (false, String c (s +:+ t))
          end = (false, String c (s +:+ t))) as ->.
  { destruct c as [[] [] [] [] [] [] [] []]; done. }
  simpl (shead_is _ _). by rewrite Hh, Hp.
Qed.

Lemma stoi_to_string z : 0 ≤ z ≤ INT_MAX → stoi (to_string z) = Val z.
Proof.
  intros Hz. unfold stoi. rewrite <-(sapp_nil_r (to_string z)).
  rewrite scan_decimal_to_string by (done || lia).
  rewrite bool_decide_true; [done|]. unfold is_int, INT_MIN, INT_MAX in *. lia.
Qed.

Lemma parse_digits_nonneg a s : 0 ≤ a → 0 ≤ (parse_digits a s).1.
Proof.
  revert a. induction s as [|c s IH]; simpl; intros a Ha; [done|].
  destruct (Ascii.is_nat c); simpl; [apply IH; lia|done].
Qed.

(** A numeral made of digits never reads back as a negative number. *)
Lemma stoi_digits s z :
  sforall is_digit s = true → stoi s = Val z → 0 ≤ z ≤ INT_MAX.
Proof.
  intros Hs. unfold stoi, scan_decimal.
  destruct s as [|c s]; [done|]. simpl in Hs. apply andb_true_iff in Hs as [Hc Hs].
  simpl (sspan _ _). rewrite is_digit_not_space by done.
  assert (match String c s with
          | String "-" r => (true, r)
          | String "+" r => (false, r)
          | _ => (false, String c s)
          end = (false, String c s)) as ->.
  { destruct c as [[] [] [] [] [] [] [] []]; done. }
  simpl (shead_is _ _). rewrite Hc.
  pose proof (parse_digits_nonneg 0 (String c s) ltac:(done)) as Hp.
  destruct (parse_digits 0 (String c s)) as [v r]. simpl in Hp.
  case_bool_decide as Hi; intros; simplify_eq. unfold is_int in Hi. lia.
Qed.
