(* ===== verification/Regex.v ===== *)
(** * Regex: the part of [std::regex] that VELOC uses

    The ECMAScript patterns of [command_t::regex] are sequences, alternatives,
    character classes, greedy repetitions of a character class, and capture
    groups.  [rmatch] is the backtracking matcher of the C++ library for them:
    alternatives are tried from left to right, repetitions from the longest to
    the shortest, and the captures are those of the first success. *)

From S2P Require Import Prelude Text.

Inductive regex :=
| RChar (p : ascii → bool)
| RSeq (r1 r2 : regex)
| RAlt (r1 r2 : regex)
| RStar (p : ascii → bool)
| RPlus (p : ascii → bool)
| RGroup (r : regex).

(** Repeats [p] greedily, then calls [k] on what is left. *)
Fixpoint rstar {A} (p : ascii → bool) (s : string) (k : string → option A) : option A :=
  match s with
  | EmptyString => k s
  | String c s' =>
      if p c then
        match rstar p s' k with
        | Some a => Some a
        | None => k s
        end
      else k s
  end.

(** The text consumed between [s] and its suffix [rest]. *)
Definition consumed (s rest : string) : string :=
  String.substring 0 (String.length s - String.length rest) s.

Fixpoint rmatch (r : regex) (s : string) (caps : list string)
    (k : string → list string → option (list string)) : option (list string) :=
  match r with
  | RChar p =>
      match s with
      | String c s' => if p c then k s' caps else None
      | EmptyString => None
      end
  | RSeq r1 r2 => rmatch r1 s caps (λ s' caps', rmatch r2 s' caps' k)
  | RAlt r1 r2 =>
      match rmatch r1 s caps k with
      | Some x => Some x
      | None => rmatch r2 s caps k
      end
  | RStar p => rstar p s (λ s', k s' caps)
  | RPlus p =>
      match s with
      | String c s' => if p c then rstar p s' (λ s'', k s'' caps) else None
      | EmptyString => None
      end
  | RGroup r => rmatch r s caps (λ s' caps', k s' (caps' ++ [consumed s s']))
  end.

(** [std::regex_match]: the whole text has to match. *)
Definition regex_match (r : regex) (s : string) : option (list string) :=
  rmatch r s [] (λ rest caps, if decide (rest = "") then Some caps else None).

(** ** Lemmas *)

Lemma substring_full s : String.substring 0 (String.length s) s = s.
Proof. induction s as [|c s IH]; simpl; congruence. Qed.

Lemma substring_app s t : String.substring 0 (String.length s) (s +:+ t) = s.
Proof.
  induction s as [|c s IH]; [by destruct t|]. rewrite sapp_cons. simpl. congruence.
Qed.

Lemma consumed_app s t : consumed (s +:+ t) t = s.
Proof.
  unfold consumed. rewrite length_sapp.
  replace (String.length s + String.length t - String.length t)%nat
    with (String.length s) by lia.
  apply substring_app.
Qed.

Lemma rmatch_seq r1 r2 s caps k :
  rmatch (RSeq r1 r2) s caps k = rmatch r1 s caps (λ s' caps', rmatch r2 s' caps' k).
Proof. done. Qed.

Lemma rmatch_char (p : ascii → bool) c s caps k :
  p c = true → rmatch (RChar p) (String c s) caps k = k s caps.
Proof. intros H. simpl. by rewrite H. Qed.

Lemma rmatch_char_inv (p : ascii → bool) s caps k x :
  rmatch (RChar p) s caps k = Some x →
  ∃ c s', s = String c s' ∧ p c = true ∧ k s' caps = Some x.
Proof. destruct s as [|c s]; simpl; [done|]. destruct (p c) eqn:?; naive_solver. Qed.

(** When the continuation accepts the longest repetition, that is the match. *)
Lemma rstar_longest {A} (p : ascii → bool) s t (k : string → option A) a :
  sforall p s = true → shead_is p t = false → k t = Some a →
  rstar p (s +:+ t) k = Some a.
Proof.
  intros Hs Ht Hk. induction s as [|c s IH]; simpl in Hs.
  - rewrite sapp_nil_l. destruct t as [|d t]; [done|]. simpl in *. by rewrite Ht.
  - apply andb_true_iff in Hs as [Hc Hs]. rewrite sapp_cons. simpl.
    by rewrite Hc, (IH Hs).
Qed.

(** When the continuation rejects every shorter repetition, only the longest
    one counts. *)
Lemma rstar_only {A} (p : ascii → bool) s t (k : string → option A) :
  sforall p s = true → shead_is p t = false →
  (∀ c u, p c = true → k (String c u) = None) →
  rstar p (s +:+ t) k = k t.
Proof.
  intros Hs Ht Hk. induction s as [|c s IH]; simpl in Hs.
  - rewrite sapp_nil_l. destruct t as [|d t]; [done|]. simpl in *. by rewrite Ht.
  - apply andb_true_iff in Hs as [Hc Hs]. rewrite sapp_cons. simpl.
    rewrite Hc, (IH Hs). destruct (k t); [done|]. by apply Hk.
Qed.

Lemma rstar_some {A} (p : ascii → bool) s (k : string → option A) a :
  rstar p s k = Some a → ∃ u v, s = u +:+ v ∧ sforall p u = true ∧ k v = Some a.
Proof.
  revert a. induction s as [|c s IH]; simpl; intros a H.
  - by exists "", "".
  - destruct (p c) eqn:Hc; [|by exists "", (String c s)].
    destruct (rstar p s k) as [b|] eqn:E; simplify_eq.
    + destruct (IH _ eq_refl) as (u & v & -> & Hu & Hv).
      exists (String c u), v. rewrite sapp_cons. simpl. by rewrite Hc, Hu.
    + by exists "", (String c s).
Qed.

Lemma rmatch_plus_inv (p : ascii → bool) s caps k x :
  rmatch (RPlus p) s caps k = Some x →
  ∃ u t, s = u +:+ t ∧ u ≠ "" ∧ sforall p u = true ∧ k t caps = Some x.
Proof.
  destruct s as [|c s]; simpl; [done|]. destruct (p c) eqn:Hc; [|done].
  intros (u & t & -> & Hu & Hk)%rstar_some. exists (String c u), t.
  rewrite sapp_cons. simpl. by rewrite Hc, Hu.
Qed.

(** Every match consumes a prefix and hands the rest to the continuation. *)
Lemma rmatch_some r s caps k x :
  rmatch r s caps k = Some x → ∃ u t cs, s = u +:+ t ∧ k t cs = Some x.
Proof.
  revert s caps k. induction r as [p|r1 IH1 r2 IH2|r1 IH1 r2 IH2|p|p|r IH];
    intros s caps k H.
  - apply rmatch_char_inv in H as (c & s' & -> & _ & Hk).
    by exists (String c ""), s', caps.
  - rewrite rmatch_seq in H.
    apply IH1 in H as (u1 & t1 & cs1 & -> & (u2 & t2 & cs2 & -> & Hk)%IH2).
    exists (u1 +:+ u2), t2, cs2. by rewrite sapp_assoc.
  - simpl in H. destruct (rmatch r1 s caps k) eqn:E; simplify_eq; eauto.
  - simpl in H. apply rstar_some in H as (u & v & -> & _ & Hk). by exists u, v, caps.
  - apply rmatch_plus_inv in H as (u & t & -> & _ & _ & Hk). by exists u, t, caps.
  - simpl in H. apply IH in H as (u & t & cs & -> & Hk). by exists u, t, (cs ++ [consumed (u +:+ t) t]).
Qed.
