(* ===== verification/Command.v ===== *)
(** * Command: [src/common/command.hpp] and [src/common/command.cpp]

    The command record that the client sends to the backend, the file names it
    stands for and the pattern by which those file names are recognised. *)

From S2P Require Import Prelude Text Regex.

Local Open Scope Z_scope.

Module command_t.

Definition INIT : Z := 0.
Definition CHECKPOINT : Z := 1.
Definition RESTART : Z := 2.
Definition TEST : Z := 3.
Definition STATUS : Z := 4.

Definition ID_EC : Z := -1.
Definition ID_AGG : Z := -2.

Definition CKPT_NAME_MAX : Z := 128.

(** [PATH_MAX] of [limits.h] on Linux *)
Definition PATH_MAX : Z := 4096.

(** The character arrays [name] and [original] hold C strings: their value is
    the text before the terminating zero.  [original] is empty until a path is
    assigned ([original[0] == 0]). *)
Record t := mk {
  unique_id : Z;
  command : Z;
  version : Z;
  offset : Z;
  name : string;
  original : string
}.

(** The constructor: a name that does not fit the array is fatal. *)
Definition make (r c v : Z) (src : string) : outcome t :=
  if CKPT_NAME_MAX <? Z.of_nat (String.length src) + 1 then FATAL
  else Val {| unique_id := r; command := c; version := v; offset := 0;
              name := src; original := "" |}.

Definition assign_path (cmd : t) (src : string) : outcome t :=
  if PATH_MAX <? Z.of_nat (String.length src) + 1 then FATAL
  else Val {| unique_id := cmd.(unique_id); command := cmd.(command);
              version := cmd.(version); offset := cmd.(offset);
              name := cmd.(name); original := src |}.

Definition set_version (cmd : t) (v : Z) : t :=
  {| unique_id := cmd.(unique_id); command := cmd.(command); version := v;
     offset := cmd.(offset); name := cmd.(name); original := cmd.(original) |}.

Definition set_offset (cmd : t) (o : Z) : t :=
  {| unique_id := cmd.(unique_id); command := cmd.(command);
     version := cmd.(version); offset := o; name := cmd.(name);
     original := cmd.(original) |}.

(** ** File names *)

Definition stem (cmd : t) : string :=
  cmd.(name) +:+ "-" +:+ to_string cmd.(unique_id) +:+
    "-" +:+ to_string cmd.(version) +:+ ".dat".

Definition filename (cmd : t) (prefix : string) : string :=
  prefix +:+ "/" +:+ stem cmd.

Definition meta_filename (cmd : t) (prefix : string) : string :=
  filename cmd prefix +:+ ".chksum".

Definition agg_filename (cmd : t) (prefix : string) : string :=
  prefix +:+ "/" +:+ cmd.(name) +:+ "-agg-" +:+ to_string cmd.(version) +:+ ".dat".

(** [operator<<] *)
Definition print (cmd : t) : string :=
  "(Rank = '" +:+ to_string cmd.(unique_id) +:+ "', Command = '" +:+
    to_string cmd.(command) +:+ "', Version = '" +:+ to_string cmd.(version) +:+
    "', File = '" +:+ stem cmd +:+ "')".

(** ** The pattern of checkpoint file names *)

(** The ECMAScript [.] matches anything but a line terminator. *)
Definition not_newline (c : ascii) : bool :=
  negb (bool_decide (c = "010"%char)) && negb (bool_decide (c = "013"%char)).

(** The characters with a meaning of their own in a pattern, [.] apart. *)
Definition is_meta (c : ascii) : bool :=
  match c with
  | "\" | "^" | "$" | "|" | "?" | "*" | "+" | "(" | ")" | "[" | "]" | "{" | "}" =>
      true
  | _ => false
  end%char.

(** The text "-([0-9]+|ec|agg)-([0-9]+).*" as a pattern. *)
Definition tail_regex : regex :=
  RSeq (RChar (is_char "-"))
 (RSeq (RGroup (RAlt (RPlus is_digit)
               (RAlt (RSeq (RChar (is_char "e")) (RChar (is_char "c")))
                     (RSeq (RChar (is_char "a"))
                     (RSeq (RChar (is_char "g")) (RChar (is_char "g")))))))
 (RSeq (RChar (is_char "-"))
 (RSeq (RGroup (RPlus is_digit))
       (RStar not_newline)))).

(** The name is pasted into the pattern as it is, so a [.] in it stands for any
    character.  [None]: a name with other pattern operators, which the checkpoint
    and restart calls refuse and whose patterns are not modelled. *)
Fixpoint name_regex (n : string) (tail : regex) : option regex :=
  match n with
  | EmptyString => Some tail
  | String c n =>
      if is_meta c then None else
      r ← name_regex n tail;
      Some (RSeq (RChar (if decide (c = "."%char) then not_newline else is_char c)) r)
  end.

Definition regex (cname : string) : option regex := name_regex cname tail_regex.

(** [command_t::match]: [None] when the text does not match, otherwise the
    identifier and the version; [std::stoi] may throw. *)
Definition match_ (str : string) (ex : Regex.regex) : outcome (option (Z * Z)) :=
  match regex_match ex str with
  | Some [g1; g2] =>
      id ← (if decide (g1 = "ec") then Val ID_EC
            else if decide (g1 = "agg") then Val ID_AGG
            else stoi g1);
      v ← stoi g2;
      Val (Some (id, v))
  | _ => Val None
  end.

(** [validate_name] of [src/lib/client.cpp]: the pattern "[a-zA-Z0-9_\\.]+". *)
Definition name_char (c : ascii) : bool :=
  is_lower c || is_upper c || is_digit c || is_char "_" c || is_char "." c.

Definition validate_name (n : string) : bool :=
  match regex_match (RPlus name_char) n with
  | Some _ => true
  | None => false
  end.

(** The name pattern [n] accepts the text [m]: the same text, except that a
    [.] of [n] accepts any character. *)
Fixpoint name_accepts (n m : string) : bool :=
  match n, m with
  | EmptyString, EmptyString => true
  | String c n, String d m =>
      (if decide (c = "."%char) then not_newline d else is_char c d) && name_accepts n m
  | _, _ => false
  end.

Definition is_dash (c : ascii) : bool := is_char "-" c.

(** The commands that checkpoint and restart calls build: a validated name that
    fits its array, and an identifier and a version that are non-negative
    [int]s. *)
Definition wf (cmd : t) : bool :=
  validate_name cmd.(name)
  && (Z.of_nat (String.length cmd.(name)) + 1 <=? CKPT_NAME_MAX)
  && (0 <=? cmd.(unique_id)) && (cmd.(unique_id) <=? INT_MAX)
  && (0 <=? cmd.(version)) && (cmd.(version) <=? INT_MAX).

End command_t.


Import command_t.

(** ** Names *)

Lemma name_char_spec c :
  name_char c = true →
  is_meta c = false ∧ not_newline c = true ∧ is_dash c = false ∧ c ≠ "/"%char.
Proof. destruct c as [[] [] [] [] [] [] [] []]; vm_compute; naive_solver. Qed.

Lemma is_digit_spec c :
  is_digit c = true → not_newline c = true ∧ is_dash c = false ∧ c ≠ "/"%char.
Proof. destruct c as [[] [] [] [] [] [] [] []]; vm_compute; naive_solver. Qed.

Lemma validate_name_spec n :
  validate_name n = true ↔ n ≠ "" ∧ sforall name_char n = true.
Proof.
  unfold validate_name, regex_match. destruct n as [|c n]; simpl; [naive_solver|].
  destruct (name_char c); simpl; [|naive_solver].
  split.
  - destruct (rstar _ _ _) as [x|] eqn:E; [|done]. intros _.
    apply rstar_some in E as (u & v & -> & Hu & Hv).
    destruct (decide (v = "")) as [->|]; [|done]. by rewrite sapp_nil_r.
  - intros [_ Hn]. rewrite <-(sapp_nil_r n).
    by erewrite rstar_longest by done.
Qed.

Lemma name_regex_some n tail :
  sforall name_char n = true → is_Some (name_regex n tail).
Proof.
  induction n as [|c n IH]; simpl; [by eauto|].
  rewrite andb_true_iff. intros [Hc Hn].
  destruct (name_char_spec c Hc) as [-> _]. destruct (IH Hn) as [r ->]. by eauto.
Qed.

Lemma regex_valid n : validate_name n = true → is_Some (regex n).
Proof. intros [_ H]%validate_name_spec. by apply name_regex_some. Qed.

Lemma name_accepts_refl n : sforall name_char n = true → name_accepts n n = true.
Proof.
  induction n as [|c n IH]; simpl; [done|]. rewrite !andb_true_iff.
  intros [Hc Hn]. split; [|by apply IH]. case_decide.
  - by apply name_char_spec.
  - by apply is_char_true.
Qed.

(** A name without a dot accepts itself only. *)
Lemma name_accepts_nodot n m :
  scount (is_char ".") n = 0%nat → name_accepts n m = true → m = n.
Proof.
  revert m. induction n as [|c n IH]; intros [|d m]; simpl; try done.
  intros Hd [Hc Hm]%andb_true_iff.
  destruct (is_char "." c) eqn:E; [lia|]. case_decide as Hdot.
  { apply (is_char_true "."%char c) in Hdot. congruence. }
  apply is_char_true in Hc as ->. f_equal. by apply IH.
Qed.

(** ** The matcher on the pattern of [command_t::regex] *)

(** The name part consumes one character per character of the name. *)
Fixpoint strip_name (n s : string) : option string :=
  match n with
  | EmptyString => Some s
  | String c n =>
      match s with
      | EmptyString => None
      | String d s =>
          if (if decide (c = "."%char) then not_newline d else is_char c d)
          then strip_name n s else None
      end
  end.

Lemma rmatch_name n tail r s caps k :
  name_regex n tail = Some r →
  rmatch r s caps k =
    match strip_name n s with
    | Some s' => rmatch tail s' caps k
    | None => None
    end.
Proof.
  revert r s. induction n as [|c n IH]; simpl; intros r s H; [by simplify_eq|].
  destruct (is_meta c); [done|].
  destruct (name_regex n tail) as [r'|]; simplify_eq/=.
  destruct s as [|d s]; [done|].
  destruct (decide (c = "."%char)); by (case_match; [apply IH|done]).
Qed.

Lemma strip_name_accepts n m s :
  name_accepts n m = true → strip_name n (m +:+ s) = Some s.
Proof.
  revert m. induction n as [|c n IH]; intros [|d m]; try done.
  rewrite sapp_cons. simpl. intros [-> Hm]%andb_true_iff. by apply IH.
Qed.

Lemma strip_name_inv n s s' :
  strip_name n s = Some s' → ∃ m, s = m +:+ s' ∧ name_accepts n m = true.
Proof.
  revert s. induction n as [|c n IH]; simpl; intros s H; simplify_eq.
  - by exists "".
  - destruct s as [|d s]; [done|].
    destruct (if decide (c = "."%char) then _ else _) eqn:E; [|done].
    destruct (IH _ H) as (m & -> & Hm). exists (String d m).
    rewrite sapp_cons. split; [done|]. simpl. by rewrite E, Hm.
Qed.

Definition at_end (rest : string) (caps : list string) : option (list string) :=
  if decide (rest = "") then Some caps else None.

(** The identifier group: a numeral, "ec" or "agg". *)
Definition id_text (g : string) : Prop :=
  (g ≠ "" ∧ sforall is_digit g = true) ∨ g = "ec" ∨ g = "agg".

Lemma tail_version v rest caps :
  v ≠ "" → sforall is_digit v = true → shead_is is_digit rest = false →
  sforall not_newline rest = true →
  rmatch (RSeq (RGroup (RPlus is_digit)) (RStar not_newline)) (v +:+ rest) caps at_end
  = Some (caps ++ [v]).
Proof.
  intros Hv Hd Hr Hn. destruct v as [|c v]; [done|]. rewrite sapp_cons. simpl.
  apply andb_true_iff in Hd as [Hc Hd]. rewrite Hc.
  apply rstar_longest; [done|done|].
  rewrite <-sapp_cons, consumed_app. rewrite <-(sapp_nil_r rest).
  by apply rstar_longest.
Qed.

Lemma rmatch_id g t caps k :
  id_text g → shead_is is_digit t = false →
  (∀ c u cs, is_digit c = true → k (String c u) cs = None) →
  rmatch (RGroup (RAlt (RPlus is_digit)
                 (RAlt (RSeq (RChar (is_char "e")) (RChar (is_char "c")))
                       (RSeq (RChar (is_char "a"))
                       (RSeq (RChar (is_char "g")) (RChar (is_char "g")))))))
         (g +:+ t) caps k
  = k t (caps ++ [g]).
Proof.
  intros Hg Ht Hk.
  destruct Hg as [[Hne Hd]|[->| ->]].
  - destruct g as [|c g]; [done|]. rewrite sapp_cons. simpl.
    apply andb_true_iff in Hd as [Hc Hd]. rewrite Hc, rstar_only by eauto.
    rewrite <-sapp_cons, consumed_app.
    destruct (k t (caps ++ [String c g])) eqn:E; [done|].
    assert (is_char "e" c = false ∧ is_char "a" c = false) as [-> ->]; [|done].
    destruct c as [[] [] [] [] [] [] [] []]; done.
  - rewrite !sapp_cons, sapp_nil_l. simpl. rewrite <-(sapp_nil_l t) at 2 4.
    rewrite <-!sapp_cons, consumed_app, sapp_nil_l. by destruct (k t _).
  - rewrite !sapp_cons, sapp_nil_l. simpl. rewrite <-(sapp_nil_l t) at 2 4.
    by rewrite <-!sapp_cons, consumed_app, sapp_nil_l.
Qed.

Lemma tail_accepts g v rest :
  id_text g → v ≠ "" → sforall is_digit v = true → shead_is is_digit rest = false →
  sforall not_newline rest = true →
  rmatch tail_regex ("-" +:+ g +:+ "-" +:+ v +:+ rest) [] at_end = Some [g; v].
Proof.
  intros Hg Hv Hd Hr Hn. unfold tail_regex.
  rewrite rmatch_seq, (sapp_cons "-" ""), sapp_nil_l, rmatch_char by done.
  rewrite rmatch_seq, rmatch_id; [|done|done|].
  - rewrite rmatch_seq, (sapp_cons "-" ""), sapp_nil_l, rmatch_char by done.
    by rewrite tail_version.
  - intros c u cs Hc. rewrite rmatch_seq. simpl.
    destruct (is_char "-" c) eqn:E; [|done].
    by apply is_char_true in E as ->.
Qed.

Lemma tail_inv s caps :
  rmatch tail_regex s [] at_end = Some caps →
  ∃ g v rest, s = "-" +:+ g +:+ "-" +:+ v +:+ rest ∧ v ≠ "" ∧ sforall is_digit v = true.
Proof.
  unfold tail_regex. rewrite rmatch_seq.
  intros (c & s1 & -> & ->%is_char_true & H)%rmatch_char_inv.
  rewrite rmatch_seq in H. apply rmatch_some in H as (g & t & cs & -> & H).
  rewrite rmatch_seq in H.
  apply rmatch_char_inv in H as (c & s2 & -> & ->%is_char_true & H).
  rewrite rmatch_seq in H. cbn [rmatch] in H.
  apply (rmatch_plus_inv is_digit s2 cs (λ s' cs', rmatch (RStar not_newline) s'
    (cs' ++ [consumed s2 s']) at_end)) in H as (v & rest & -> & Hv & Hd & _).
  by exists g, v, rest.
Qed.

(** ** VELOC's own file names *)

Lemma digits_no_dash s : sforall is_digit s = true → scount is_dash s = 0%nat.
Proof.
  intros H. apply scount_0. revert H. apply sforall_impl.
  intros c Hc. by apply is_digit_spec in Hc as (_ & -> & _).
Qed.

Lemma name_no_dash s : sforall name_char s = true → scount is_dash s = 0%nat.
Proof.
  intros H. apply scount_0. revert H. apply sforall_impl.
  intros c Hc. by apply name_char_spec in Hc as (_ & _ & -> & _).
Qed.

(** A text with exactly the two dashes of a checkpoint file name is matched by
    the pattern of [n] exactly when [n] accepts the text before the first. *)
Lemma regex_match_two_dashes n r m g v rest :
  regex n = Some r → scount is_dash m = 0%nat → scount is_dash g = 0%nat →
  scount is_dash rest = 0%nat → id_text g → v ≠ "" → sforall is_digit v = true →
  shead_is is_digit rest = false → sforall not_newline rest = true →
  regex_match r (m +:+ "-" +:+ g +:+ "-" +:+ v +:+ rest)
  = if name_accepts n m then Some [g; v] else None.
Proof.
  intros Hr Hm Hg Hrest Hid Hv Hd Hh Hn. unfold regex_match.
  rewrite (rmatch_name n tail_regex r) by done. fold at_end.
  destruct (name_accepts n m) eqn:Hacc.
  - rewrite strip_name_accepts by done. by apply tail_accepts.
  - destruct (strip_name n _) as [s'|] eqn:Hs; [|done].
    destruct (rmatch tail_regex s' [] at_end) as [caps|] eqn:Ht; [|done]. exfalso.
    apply strip_name_inv in Hs as (m' & Heq & Hm').
    apply tail_inv in Ht as (g' & v' & rest' & -> & _ & _).
    assert (scount is_dash m' = 0%nat) as Hm'0.
    { apply (f_equal (scount is_dash)) in Heq. rewrite !scount_app in Heq.
      rewrite (digits_no_dash v Hd), Hm, Hg, Hrest in Heq. simpl in Heq. lia. }
    apply (sapp_split_unique (λ c, negb (is_dash c))) in Heq as [<- _];
      [congruence|by apply scount_0|done|by apply scount_0|done].
Qed.

Lemma wf_spec c :
  wf c = true ↔
  validate_name c.(name) = true ∧ Z.of_nat (String.length c.(name)) + 1 ≤ CKPT_NAME_MAX ∧
  0 ≤ c.(unique_id) ≤ INT_MAX ∧ 0 ≤ c.(version) ≤ INT_MAX.
Proof. unfold wf. rewrite !andb_true_iff, !Z.leb_le. tauto. Qed.

Lemma wf_name c : wf c = true → sforall name_char c.(name) = true.
Proof. intros (H & _)%wf_spec. by apply validate_name_spec in H as [_ ?]. Qed.

Lemma id_text_to_string z : 0 ≤ z → id_text (to_string z).
Proof. left. split; [apply to_string_nonempty|by apply to_string_digits]. Qed.

Lemma to_string_not_word z : 0 ≤ z → to_string z ≠ "ec" ∧ to_string z ≠ "agg".
Proof.
  intros Hz. pose proof (to_string_digits z Hz) as Hd.
  split; intros E; rewrite E in Hd; done.
Qed.

Lemma no_slash (p : ascii → bool) s :
  (∀ c, p c = true → c ≠ "/"%char) → sforall p s = true →
  scount (is_char "/") s = 0%nat.
Proof.
  intros Hp Hs. apply scount_0. revert Hs. apply sforall_impl.
  intros c Hc. apply negb_true_iff. destruct (is_char "/" c) eqn:E; [|done].
  apply is_char_true in E. by apply Hp in Hc.
Qed.

Lemma name_no_slash s : sforall name_char s = true → scount (is_char "/") s = 0%nat.
Proof. apply no_slash. intros c Hc. by apply name_char_spec. Qed.

Lemma to_string_no_slash z : 0 ≤ z → scount (is_char "/") (to_string z) = 0%nat.
Proof.
  intros Hz. apply (no_slash is_digit); [|by apply to_string_digits].
  intros c Hc. by apply is_digit_spec.
Qed.

Lemma stem_no_slash c : wf c = true → scount (is_char "/") (stem c) = 0%nat.
Proof.
  intros Hwf. pose proof (wf_name c Hwf) as Hn.
  apply wf_spec in Hwf as (_ & _ & [Hi _] & [Hv _]).
  unfold stem. by rewrite !scount_app, name_no_slash, !to_string_no_slash.
Qed.

Lemma match_stem_aux n r c :
  regex n = Some r → wf c = true →
  match_ (stem c) r
  = Val (if name_accepts n c.(name) then Some (c.(unique_id), c.(version)) else None).
Proof.
  intros Hr Hwf. pose proof (wf_name c Hwf) as Hn.
  apply wf_spec in Hwf as (_ & _ & Hi & Hv).
  unfold match_, stem.
  rewrite (regex_match_two_dashes n); try done.
  - destruct (name_accepts n (name c)); [|done].
    destruct (to_string_not_word (unique_id c)) as [? ?]; [lia|].
    rewrite !decide_False by done.
    by rewrite !stoi_to_string by lia.
  - by apply name_no_dash.
  - apply digits_no_dash, to_string_digits. lia.
  - apply id_text_to_string. lia.
  - apply to_string_nonempty.
  - apply to_string_digits. lia.
Qed.

(** C35: the pattern of a valid name recognises exactly the checkpoint files of
    the names it accepts, and reads back the identifier and the version that
    [stem] wrote into the file name. *)
Theorem match_stem (n : string) (c : command_t.t) :
  validate_name n = true → wf c = true →
  ∃ r, regex n = Some r ∧
    match_ (stem c) r
    = Val (if name_accepts n c.(name) then Some (c.(unique_id), c.(version)) else None).
Proof.
  intros Hn Hc. destruct (regex_valid n Hn) as [r Hr].
  exists r. split; [done|]. by apply match_stem_aux.
Qed.

Definition sample : command_t.t :=
  {| unique_id := 12; command := CHECKPOINT; version := 340; offset := 0;
     name := "heatdis"; original := "" |}.

Lemma match_stem_witness :
  ∃ r, regex "heatdis" = Some r ∧ match_ (stem sample) r = Val (Some (12, 340)).
Proof. apply (match_stem "heatdis" sample); vm_compute; reflexivity. Defined.

(** Names without a dot are isolated from each other: the pattern of [n]
    recognises a checkpoint file only when it is a file of [n]. *)
Theorem match_isolated (n : string) (r : Regex.regex) (c : command_t.t) (id v : Z) :
  regex n = Some r → scount (is_char ".") n = 0%nat → wf c = true →
  match_ (stem c) r = Val (Some (id, v)) →
  c.(name) = n ∧ c.(unique_id) = id ∧ c.(version) = v.
Proof.
  intros Hr Hd Hc. rewrite (match_stem_aux n) by done.
  destruct (name_accepts n (name c)) eqn:Hacc; intros ?; simplify_eq.
  by apply name_accepts_nodot in Hacc as ->.
Qed.

Lemma match_isolated_witness :
  sample.(name) = "heatdis" ∧ sample.(unique_id) = 12 ∧ sample.(version) = 340.
Proof.
  destruct (regex "heatdis") as [r|] eqn:Hr; [|vm_compute in Hr; discriminate].
  apply (match_isolated "heatdis" r sample 12 340); [exact Hr|vm_compute; reflexivity..|].
  vm_compute in Hr. injection Hr as <-. vm_compute. reflexivity.
Defined.

(** A dot in a name is a wildcard in the pattern, so the files of one valid
    name can be recognised as files of another: "run.1" claims those of
    "runA1". *)
Theorem match_dot_collision :
  ∃ (n : string) (r : Regex.regex) (c : command_t.t),
    validate_name n = true ∧ regex n = Some r ∧ wf c = true ∧ c.(name) ≠ n ∧
    match_ (stem c) r = Val (Some (c.(unique_id), c.(version))).
Proof.
  destruct (regex "run.1") as [r|] eqn:Hr; [|by vm_compute in Hr].
  exists "run.1", r, {| unique_id := 0; command := CHECKPOINT; version := 7;
    offset := 0; name := "runA1"; original := "" |}.
  rewrite (match_stem_aux "run.1") by done. done.
Qed.

Lemma stem_inj_aux c1 c2 :
  wf c1 = true → wf c2 = true → stem c1 = stem c2 →
  c1.(name) = c2.(name) ∧ c1.(unique_id) = c2.(unique_id) ∧ c1.(version) = c2.(version).
Proof.
  intros H1 H2 Heq.
  destruct (regex_valid (name c1)) as [r Hr]; [by apply wf_spec in H1 as [? _]|].
  pose proof (match_stem_aux _ r c1 Hr H1) as M1.
  pose proof (match_stem_aux _ r c2 Hr H2) as M2.
  rewrite Heq, M2 in M1. rewrite (name_accepts_refl (name c1)) in M1 by by apply wf_name.
  destruct (name_accepts _ _); [|done]. injection M1 as Hi Hv.
  unfold stem in Heq. rewrite Hi, Hv in Heq. by apply sapp_inj_r in Heq.
Qed.

(** Distinct checkpoints have distinct file names. *)
Theorem filename_inj (c1 c2 : command_t.t) (prefix : string) :
  wf c1 = true → wf c2 = true → filename c1 prefix = filename c2 prefix →
  c1.(name) = c2.(name) ∧ c1.(unique_id) = c2.(unique_id) ∧ c1.(version) = c2.(version).
Proof.
  intros H1 H2 Heq. unfold filename in Heq. simplify_eq. by apply stem_inj_aux.
Qed.

Lemma filename_inj_witness :
  sample.(name) = sample.(name) ∧ sample.(unique_id) = sample.(unique_id)
  ∧ sample.(version) = sample.(version).
Proof. apply (filename_inj sample sample "/tmp"); vm_compute; reflexivity. Defined.
