(* ===== verification/FileSystem.v ===== *)
(** * FileSystem: the POSIX calls that VELOC makes

    The operating system is not VELOC's code: this file fixes the documented
    behaviour of the calls the sources use.  The state holds the directory tree
    (a map from full paths to regular files, symbolic links and directories) and
    a schedule, the list of what the kernel decides for the calls to come: let
    the call through, make it fail, or transfer only part of what was asked.  An
    exhausted schedule lets every call through.  Theorems quantify over all
    schedules, so they hold for every pattern of I/O errors and short transfers.

    A file descriptor is the path the call resolved to: the sources never rename
    a file nor use a descriptor after unlinking its path.  Paths are compared as
    text, and only the last component may be a symbolic link. *)

From Stdlib Require Export Strings.Byte.
From S2P Require Import Prelude Text.

Local Open Scope Z_scope.

Abbreviation byte := Byte.byte.
Global Instance byte_eq_dec : EqDecision byte := Byte.byte_eq_dec.

(** ** Sequences indexed by machine integers *)

Fixpoint ztake {A} (n : Z) (l : list A) : list A :=
  match l with
  | [] => []
  | x :: l => if n <=? 0 then [] else x :: ztake (n - 1) l
  end.

Fixpoint zdrop {A} (n : Z) (l : list A) : list A :=
  match l with
  | [] => []
  | x :: l => if n <=? 0 then x :: l else zdrop (n - 1) l
  end.

Definition zlen {A} (l : list A) : Z := Z.of_nat (length l).

(** The contents of a file after [bs] was written at [off]: a gap is filled
    with zeros, what lies behind the written part stays. *)
Definition splice (off : Z) (bs data : list byte) : list byte :=
  match bs with
  | [] => data
  | _ => ztake off data
         ++ replicate (Z.to_nat (off - zlen data)) Byte.x00
         ++ bs ++ zdrop (off + zlen bs) data
  end.

(** ** State *)

Inductive node :=
| Reg (data : list byte)
| Sym (target : string)
| Dir.

Inductive decision := Go | Fail | Short (n : nat).

Record sys := mk_sys {
  files : gmap string node;
  sched : list decision
}.

Definition set_files (s : sys) (f : gmap string node) : sys :=
  {| files := f; sched := s.(sched) |}.

Abbreviation posix := (comp sys).

(** Larger states that contain the file system. *)
Class HasSys (S : Type) := {
  the_sys : S → sys;
  with_sys : S → sys → S;
  the_with_sys st s : the_sys (with_sys st s) = s;
  with_the_sys st : with_sys st (the_sys st) = st;
}.
Global Program Instance sys_has_sys : HasSys sys :=
  {| the_sys s := s; with_sys _ s := s |}.
Next Obligation. done. Qed.
Next Obligation. done. Qed.
Global Program Instance pair_has_sys {S R} `{HasSys S} : HasSys (S * R) :=
  {| the_sys st := the_sys st.1; with_sys st s := (with_sys st.1 s, st.2) |}.
Next Obligation. intros. apply the_with_sys. Qed.
Next Obligation. intros ? ? ? [s r]. simpl. by rewrite with_the_sys. Qed.

Definition on_sys {S} `{HasSys S} {A} (m : posix A) : comp S A := λ st,
  let '(o, s') := m (the_sys st) in (o, with_sys st s').

(** Code that does not touch the second component of the state. *)
Definition on_fst {S R A} (m : comp S A) : comp (S * R) A := λ '(s, r),
  let '(o, s') := m s in (o, (s', r)).

(** What the kernel decides for this call. *)
Definition next : posix decision := λ s,
  match s.(sched) with
  | [] => (Val Go, s)
  | d :: ds => (Val d, {| files := s.(files); sched := ds |})
  end.

Definition next_ok : posix bool :=
  d ← next; mret (match d with Fail => false | _ => true end).

(** ** Paths *)

(** The directory part of a path: the text before its last slash. *)
Fixpoint dirname (p : string) : option string :=
  match p with
  | EmptyString => None
  | String c p' =>
      match dirname p' with
      | Some d => Some (String c d)
      | None => if decide (c = "/"%char) then Some "" else None
      end
  end.

(** The last component of a path: the text after its last slash. *)
Fixpoint basename (p : string) : string :=
  match p with
  | EmptyString => ""
  | String c p' =>
      match dirname p' with
      | Some _ => basename p'
      | None => if decide (c = "/"%char) then p' else p
      end
  end.

Definition SYMLOOP_MAX : nat := 40.

(** Follows the symbolic links at the end of a path. *)
Fixpoint resolve_ (fuel : nat) (f : gmap string node) (p : string) : option string :=
  match f !! p with
  | Some (Sym t) =>
      match fuel with
      | O => None
      | S fuel => resolve_ fuel f t
      end
  | _ => Some p
  end.
Definition resolve (f : gmap string node) (p : string) : option string :=
  resolve_ SYMLOOP_MAX f p.

(** The file a path leads to, with the path it was found at. *)
Definition lookup_path (f : gmap string node) (p : string) : option (string * node) :=
  match resolve f p with
  | Some q => (λ nd, (q, nd)) <$> f !! q
  | None => None
  end.

Definition is_dir (f : gmap string node) (p : string) : bool :=
  match f !! p with Some Dir => true | _ => false end.

(** A new entry can be made at [p]: its directory exists. *)
Definition parent_ok (f : gmap string node) (p : string) : bool :=
  match dirname p with
  | Some d => bool_decide (d = "") || is_dir f d
  | None => false
  end.

(** ** Calls *)

(** [open(p, O_RDONLY)]: [None] is -1. *)
Definition open_rd (p : string) : posix (option string) :=
  ok ← next_ok;
  s ← get;
  mret (if (ok : bool) then fst <$> lookup_path s.(files) p else None).

(** [open(p, O_CREAT | O_WRONLY, 0644)], with [O_TRUNC] when [trunc]. *)
Definition open_wr (trunc : bool) (p : string) : posix (option string) :=
  ok ← next_ok;
  s ← get;
  if (ok : bool) then
    match resolve s.(files) p with
    | None => mret None
    | Some q =>
        match s.(files) !! q with
        | Some (Reg d) =>
            put (set_files s (<[q := Reg (if trunc then [] else d)]> s.(files)));;
            mret (Some q)
        | Some _ => mret None
        | None =>
            if parent_ok s.(files) q then
              put (set_files s (<[q := Reg []]> s.(files)));; mret (Some q)
            else mret None
        end
    end
  else mret None.

(** [pread(fd, buf, n, off)]: the bytes read; [None] is -1. *)
Definition pread (fd : string) (n off : Z) : posix (option (list byte)) :=
  d ← next;
  s ← get;
  mret (if LONG_MAX <? off then None else
        match s.(files) !! fd, d with
        | _, Fail => None
        | Some (Reg data), Go => Some (ztake n (zdrop off data))
        | Some (Reg data), Short k =>
            Some (ztake (Z.max 1 (Z.of_nat k)) (ztake n (zdrop off data)))
        | _, _ => None
        end).

(** [pwrite(fd, bs, |bs|, off)]: the number of bytes written; [None] is -1. *)
Definition pwrite (fd : string) (bs : list byte) (off : Z) : posix (option Z) :=
  d ← next;
  s ← get;
  if LONG_MAX <? off then mret None else
  match s.(files) !! fd, d with
  | _, Fail => mret None
  | Some (Reg data), _ =>
      let w := match d with
               | Short k => ztake (Z.max 1 (Z.of_nat k)) bs
               | _ => bs
               end in
      put (set_files s (<[fd := Reg (splice off w data)]> s.(files)));;
      mret (Some (zlen w))
  | _, _ => mret None
  end.

(** [copy_file_range(fs, &soff, fd, &doff, n, 0)]: copies inside the kernel. *)
Definition copy_file_range (fs : string) (soff : Z) (fd : string) (doff n : Z) :
    posix (option Z) :=
  d ← next;
  s ← get;
  if (LONG_MAX <? soff) || (LONG_MAX <? doff) then mret None else
  match s.(files) !! fs, s.(files) !! fd, d with
  | _, _, Fail => mret None
  | Some (Reg src), Some (Reg dst), _ =>
      let bs := ztake n (zdrop soff src) in
      let w := match d with
               | Short k => ztake (Z.max 1 (Z.of_nat k)) bs
               | _ => bs
               end in
      put (set_files s (<[fd := Reg (splice doff w dst)]> s.(files)));;
      mret (Some (zlen w))
  | _, _, _ => mret None
  end.

(** The size a directory reports is up to the file system. *)
Definition DIR_SIZE : Z := 4096.

(** [stat(p)]: the size; [None] is -1. *)
Definition stat_size (p : string) : posix (option Z) :=
  ok ← next_ok;
  s ← get;
  mret (if (ok : bool) then
          match lookup_path s.(files) p with
          | Some (_, Reg d) => Some (zlen d)
          | Some _ => Some DIR_SIZE
          | None => None
          end
        else None).

(** [unlink(p) == 0]: removes the entry itself, a link is not followed. *)
Definition unlink (p : string) : posix bool :=
  ok ← next_ok;
  s ← get;
  match s.(files) !! p with
  | Some (Reg _) | Some (Sym _) =>
      if (ok : bool)
      then put (set_files s (delete p s.(files)));; mret true
      else mret false
  | _ => mret false
  end.

(** [symlink(target, p) == 0] *)
Definition symlink (target p : string) : posix bool :=
  ok ← next_ok;
  s ← get;
  match s.(files) !! p with
  | Some _ => mret false
  | None =>
      if (ok : bool) && parent_ok s.(files) p
      then put (set_files s (<[p := Sym target]> s.(files)));; mret true
      else mret false
  end.

(** [access(p, R_OK) == 0] *)
Definition access (p : string) : posix bool :=
  ok ← next_ok;
  s ← get;
  mret ((ok : bool) && bool_decide (is_Some (lookup_path s.(files) p))).

(** [mkdir(p, 0755)] *)
Definition mkdir (p : string) : posix bool :=
  ok ← next_ok;
  s ← get;
  match s.(files) !! p with
  | Some _ => mret false
  | None =>
      if (ok : bool) && parent_ok s.(files) p
      then put (set_files s (<[p := Dir]> s.(files)));; mret true
      else mret false
  end.

(** [opendir(p) != NULL] *)
Definition opendir (p : string) : posix bool :=
  ok ← next_ok;
  s ← get;
  mret ((ok : bool) && is_dir s.(files) p).

(** What [readdir] yields for the directory [p]: names and kinds. *)
Definition entries (f : gmap string node) (p : string) : list (string * node) :=
  omap (λ '(k, nd), if decide (dirname k = Some p) then Some (basename k, nd) else None)
       (map_to_list f).

Global Arguments lookup_path : simpl never.
Global Arguments resolve : simpl never.
Global Arguments parent_ok : simpl never.
Global Arguments LONG_MAX : simpl never.
Global Arguments zlen : simpl never.

(** ** Lemmas on sequences *)

Lemma ztake_take {A} n (l : list A) : ztake n l = take (Z.to_nat n) l.
Proof.
  revert n. induction l as [|x l IH]; intros n; simpl; [by destruct (Z.to_nat n)|].
  destruct (Z.leb_spec n 0).
  - by replace (Z.to_nat n) with 0%nat by lia.
  - rewrite IH. by replace (Z.to_nat n) with (S (Z.to_nat (n - 1))) by lia.
Qed.

Lemma zdrop_drop {A} n (l : list A) : zdrop n l = drop (Z.to_nat n) l.
Proof.
  revert n. induction l as [|x l IH]; intros n; simpl; [by destruct (Z.to_nat n)|].
  destruct (Z.leb_spec n 0).
  - by replace (Z.to_nat n) with 0%nat by lia.
  - rewrite IH. by replace (Z.to_nat n) with (S (Z.to_nat (n - 1))) by lia.
Qed.

Lemma zlen_nonneg {A} (l : list A) : 0 ≤ zlen l.
Proof. unfold zlen. lia. Qed.
#[export] Hint Resolve zlen_nonneg : veloc.

Lemma zlen_app {A} (l k : list A) : zlen (l ++ k) = zlen l + zlen k.
Proof. unfold zlen. rewrite length_app. lia. Qed.

Lemma zlen_ztake {A} n (l : list A) : 0 ≤ n → zlen (ztake n l) = Z.min n (zlen l).
Proof. unfold zlen. rewrite ztake_take, length_take. lia. Qed.

Lemma zlen_zdrop {A} n (l : list A) : 0 ≤ n → zlen (zdrop n l) = Z.max 0 (zlen l - n).
Proof. unfold zlen. rewrite zdrop_drop, length_drop. lia. Qed.

Lemma zlen_nil {A} (l : list A) : zlen l = 0 → l = [].
Proof. unfold zlen. destruct l; simpl; [done|lia]. Qed.

Lemma ztake_all {A} n (l : list A) : zlen l ≤ n → ztake n l = l.
Proof. unfold zlen. intros. rewrite ztake_take. apply take_ge. lia. Qed.

Lemma ztake_0 {A} n (l : list A) : n ≤ 0 → ztake n l = [].
Proof. intros. rewrite ztake_take. by replace (Z.to_nat n) with 0%nat by lia. Qed.

Lemma zdrop_0 {A} n (l : list A) : n ≤ 0 → zdrop n l = l.
Proof. intros. rewrite zdrop_drop. by replace (Z.to_nat n) with 0%nat by lia. Qed.

Lemma zdrop_all {A} n (l : list A) : zlen l ≤ n → zdrop n l = [].
Proof. unfold zlen. intros. rewrite zdrop_drop. apply drop_ge. lia. Qed.

Lemma zdrop_zdrop {A} n m (l : list A) :
  0 ≤ n → 0 ≤ m → zdrop n (zdrop m l) = zdrop (m + n) l.
Proof. intros. rewrite !zdrop_drop, drop_drop. f_equal. lia. Qed.

Lemma ztake_ztake {A} n m (l : list A) : 0 ≤ n → 0 ≤ m →
  ztake n (ztake m l) = ztake (Z.min n m) l.
Proof. intros. rewrite !ztake_take, take_take. f_equal. lia. Qed.

(** Reading [n] bytes and then [m] more is reading [n + m]. *)
Lemma ztake_add {A} n m (l : list A) :
  0 ≤ n → 0 ≤ m → ztake (n + m) l = ztake n l ++ ztake m (zdrop n l).
Proof.
  intros. rewrite !ztake_take, zdrop_drop, Z2Nat.inj_add by lia.
  symmetry. apply take_take_drop.
Qed.

Lemma ztake_zdrop_id {A} n (l : list A) : ztake n l ++ zdrop n l = l.
Proof. rewrite ztake_take, zdrop_drop. apply take_drop. Qed.

(** Only the content of the prefix matters for [ztake] of a short [n]. *)
Lemma ztake_app_le {A} n (l k : list A) : n ≤ zlen l → ztake n (l ++ k) = ztake n l.
Proof. unfold zlen. intros. rewrite !ztake_take. apply take_app_le. lia. Qed.

Lemma zdrop_app_ge {A} n (l k : list A) :
  zlen l ≤ n → zdrop n (l ++ k) = zdrop (n - zlen l) k.
Proof.
  unfold zlen. intros. rewrite !zdrop_drop, drop_app_ge by lia. f_equal. lia.
Qed.

Lemma zdrop_app_le {A} n (l k : list A) :
  n ≤ zlen l → zdrop n (l ++ k) = zdrop n l ++ k.
Proof. unfold zlen. intros. rewrite !zdrop_drop. apply drop_app_le. lia. Qed.

(** ** Lemmas on [splice] *)

Lemma splice_cons off b bs data :
  splice off (b :: bs) data =
    ztake off data ++ replicate (Z.to_nat (off - zlen data)) Byte.x00
    ++ (b :: bs) ++ zdrop (off + zlen (b :: bs)) data.
Proof. done. Qed.

Lemma splice_ne off bs data :
  bs ≠ [] →
  splice off bs data =
    ztake off data ++ replicate (Z.to_nat (off - zlen data)) Byte.x00
    ++ bs ++ zdrop (off + zlen bs) data.
Proof. by destruct bs. Qed.

Lemma splice_0 bs data : splice 0 bs data = bs ++ zdrop (zlen bs) data.
Proof.
  destruct bs as [|b bs].
  - simpl. by rewrite zdrop_0.
  - rewrite splice_ne by done. rewrite ztake_0 by done.
    replace (Z.to_nat (0 - zlen data)) with 0%nat by (unfold zlen; lia). done.
Qed.

Lemma splice_end bs data : splice (zlen data) bs data = data ++ bs.
Proof.
  destruct bs as [|b bs]; [by rewrite app_nil_r|].
  rewrite splice_ne by done. rewrite ztake_all by done.
  replace (Z.to_nat _) with 0%nat by lia.
  rewrite zdrop_all by (pose proof (zlen_nonneg (b :: bs)); lia).
  by rewrite app_nil_r.
Qed.

(** The part of [splice] before the bytes written. *)
Definition splice_head (off : Z) (data : list byte) : list byte :=
  ztake off data ++ replicate (Z.to_nat (off - zlen data)) Byte.x00.

Lemma splice_head_len off data : 0 ≤ off → zlen (splice_head off data) = off.
Proof.
  intros. unfold splice_head. rewrite zlen_app, zlen_ztake by done.
  unfold zlen at 2. rewrite length_replicate. pose proof (zlen_nonneg data). lia.
Qed.

Lemma splice_unfold off bs data :
  bs ≠ [] → splice off bs data = splice_head off data ++ bs ++ zdrop (off + zlen bs) data.
Proof. intros. rewrite splice_ne by done. unfold splice_head. by rewrite app_assoc. Qed.

(** Two adjacent writes are one write of both parts. *)
Lemma splice_splice off a b data :
  0 ≤ off → splice (off + zlen a) b (splice off a data) = splice off (a ++ b) data.
Proof.
  intros Hoff. destruct (decide (b = [])) as [->|Hb]; [by rewrite app_nil_r|].
  destruct (decide (a = [])) as [->|Ha].
  { unfold zlen. simpl. by rewrite Z.add_0_r. }
  rewrite (splice_unfold (off + zlen a)), (splice_unfold off a), (splice_unfold off (a ++ b))
    by (done || by destruct a).
  pose proof (zlen_nonneg a). pose proof (zlen_nonneg b).
  set (h := splice_head off data). assert (zlen h = off) as Hh by by apply splice_head_len.
  unfold splice_head at 1.
  rewrite (app_assoc h a), ztake_app_le by (rewrite zlen_app; lia).
  rewrite (ztake_all _ (h ++ a)) by (rewrite zlen_app; lia).
  replace (Z.to_nat _) with 0%nat; [|rewrite !zlen_app, zlen_zdrop by lia; lia].
  rewrite zdrop_app_ge by (rewrite zlen_app; lia).
  rewrite !zlen_app, zdrop_zdrop by lia.
  simpl. rewrite app_nil_r, <-!app_assoc. do 4 f_equal. lia.
Qed.

Lemma zlen_splice off bs data :
  0 ≤ off → bs ≠ [] → zlen (splice off bs data) = Z.max (zlen data) (off + zlen bs).
Proof.
  intros. rewrite splice_unfold by done. rewrite !zlen_app, splice_head_len by done.
  pose proof (zlen_nonneg bs). rewrite zlen_zdrop by lia. lia.
Qed.

(** What was written is read back. *)
Lemma splice_read off bs data :
  0 ≤ off → ztake (zlen bs) (zdrop off (splice off bs data)) = bs.
Proof.
  intros Hoff. destruct (decide (bs = [])) as [->|Hbs]; [by rewrite ztake_0|].
  rewrite splice_unfold by done.
  rewrite zdrop_app_ge by (rewrite splice_head_len by done; lia).
  rewrite splice_head_len by done. rewrite zdrop_0 by lia.
  rewrite ztake_app_le by done. by apply ztake_all.
Qed.

Lemma splice_lookup off bs data i :
  0 ≤ off → bs ≠ [] →
  splice off bs data !! i =
    if Z.of_nat i <? off then (if Z.of_nat i <? zlen data then data !! i else Some Byte.x00)
    else if Z.of_nat i <? off + zlen bs then bs !! (i - Z.to_nat off)%nat else data !! i.
Proof.
  intros Hoff Hbs. rewrite splice_unfold by done.
  pose proof (splice_head_len off data Hoff) as Hl. unfold zlen in *.
  destruct (Z.ltb_spec (Z.of_nat i) off).
  - rewrite lookup_app_l by lia. unfold splice_head. rewrite ztake_take.
    destruct (Z.ltb_spec (Z.of_nat i) (Z.of_nat (length data))).
    + rewrite lookup_app_l by (rewrite length_take; lia). by rewrite lookup_take_lt by lia.
    + rewrite lookup_app_r by (rewrite length_take; lia).
      apply lookup_replicate_2. unfold zlen. rewrite length_take. lia.
  - rewrite lookup_app_r by lia.
    replace (i - length (splice_head off data))%nat with (i - Z.to_nat off)%nat by lia.
    destruct (Z.ltb_spec (Z.of_nat i) (off + Z.of_nat (length bs))).
    + by rewrite lookup_app_l by lia.
    + rewrite lookup_app_r by lia. rewrite zdrop_drop, lookup_drop. f_equal. lia.
Qed.

(** A write leaves what was elsewhere in the file. *)
Lemma splice_other off bs data off' n :
  0 ≤ off → 0 ≤ off' → 0 ≤ n → off' + n ≤ zlen data →
  off' + n ≤ off ∨ off + zlen bs ≤ off' →
  ztake n (zdrop off' (splice off bs data)) = ztake n (zdrop off' data).
Proof.
  intros Hoff Hoff' Hn Hle Hdis. destruct (decide (bs = [])) as [->|Hbs]; [done|].
  rewrite !ztake_take, !zdrop_drop. apply list_eq. intros i.
  destruct (decide (i < Z.to_nat n)%nat); [|by rewrite !lookup_take_ge by lia].
  rewrite !lookup_take_lt, !lookup_drop by lia. rewrite splice_lookup by done.
  unfold zlen in *.
  repeat match goal with |- context [?a <? ?b] => destruct (Z.ltb_spec a b) end;
    first [done | lia].
Qed.

(** ** Lemmas on paths *)

Lemma dirname_none s : scount (is_char "/") s = 0%nat → dirname s = None.
Proof.
  induction s as [|c s IH]; simpl; [done|]. intros H.
  destruct (is_char "/" c) eqn:E; [lia|]. rewrite IH by lia.
  rewrite decide_False; [done|]. intros ->. by vm_compute in E.
Qed.

Lemma dirname_app p n :
  scount (is_char "/") n = 0%nat → dirname (p +:+ "/" +:+ n) = Some p.
Proof.
  intros Hn. induction p as [|c p IH].
  - rewrite sapp_nil_l, sapp_cons. simpl. by rewrite dirname_none.
  - rewrite sapp_cons. simpl. by rewrite IH.
Qed.

Lemma basename_app p n :
  scount (is_char "/") n = 0%nat → basename (p +:+ "/" +:+ n) = n.
Proof.
  intros Hn. induction p as [|c p IH].
  - rewrite sapp_nil_l, sapp_cons. simpl. by rewrite dirname_none.
  - rewrite sapp_cons. simpl. by rewrite dirname_app.
Qed.

Lemma dir_base p d : dirname p = Some d → p = d +:+ "/" +:+ basename p.
Proof.
  revert d. induction p as [|c p IH]; simpl; intros d H; [done|].
  destruct (dirname p) as [d'|] eqn:E; simplify_eq.
  - rewrite sapp_cons. f_equal. by apply IH.
  - case_decide; simplify_eq. done.
Qed.

Lemma resolve_file f p : (∀ t, f !! p ≠ Some (Sym t)) → resolve f p = Some p.
Proof. unfold resolve, SYMLOOP_MAX. simpl. intros H. destruct (f !! p) as [[]|] eqn:E; naive_solver. Qed.

Lemma resolve_reg f p d : f !! p = Some (Reg d) → resolve f p = Some p.
Proof. intros H. apply resolve_file. congruence. Qed.

Lemma resolve_none f p : f !! p = None → resolve f p = Some p.
Proof. intros H. apply resolve_file. congruence. Qed.

Lemma lookup_path_reg f p d :
  f !! p = Some (Reg d) → lookup_path f p = Some (p, Reg d).
Proof. intros H. unfold lookup_path. by rewrite (resolve_reg f p d), H. Qed.

Lemma entries_elem f p n nd :
  (n, nd) ∈ entries f p ↔ f !! (p +:+ "/" +:+ n) = Some nd ∧ dirname (p +:+ "/" +:+ n) = Some p.
Proof.
  unfold entries. rewrite list_elem_of_omap. split.
  - intros ([k nd'] & Hk & Heq). apply elem_of_map_to_list in Hk.
    case_decide as Hd; simplify_eq. by rewrite <-(dir_base k p).
  - intros [Hl Hd]. exists (p +:+ "/" +:+ n, nd).
    split; [by apply elem_of_map_to_list|]. rewrite decide_True by done.
    do 2 f_equal. pose proof (dir_base _ _ Hd) as Hb. simplify_eq. by rewrite <-Hb.
Qed.

(** ** Lemmas on calls *)

Lemma next_files s o s' : next s = (o, s') → files s' = files s ∧ ∃ d, o = Val d.
Proof. unfold next. destruct (sched s); intros; simplify_eq; eauto. Qed.

Lemma next_ok_files s o s' : next_ok s = (o, s') → files s' = files s ∧ ∃ b, o = Val b.
Proof.
  unfold next_ok, mbind, comp_bind, mret, comp_ret. destruct (next s) as [d s1] eqn:E.
  apply next_files in E as [Hf [d' ->]]. intros. simplify_eq. split; [done|].
  by eexists.
Qed.

Lemma next_ok_free f : next_ok (mk_sys f []) = (Val true, mk_sys f []).
Proof. done. Qed.

Ltac posix_step :=
  unfold mbind, comp_bind; cbn beta iota;
  match goal with
  | |- context [next_ok ?s] =>
      let o := fresh "o" in let s' := fresh "s" in let E := fresh "E" in
      let Hf := fresh "Hf" in let b := fresh "b" in
      destruct (next_ok s) as [o s'] eqn:E;
      apply next_ok_files in E as [Hf [b ->]]; cbn beta iota
  | |- context [next ?s] =>
      let o := fresh "o" in let s' := fresh "s" in let E := fresh "E" in
      let Hf := fresh "Hf" in let d := fresh "d" in
      destruct (next s) as [o s'] eqn:E;
      apply next_files in E as [Hf [d ->]]; cbn beta iota
  end.

Lemma open_rd_spec p s o s' :
  open_rd p s = (o, s') →
  files s' = files s ∧ (o = Val None ∨ ∃ q nd, lookup_path (files s) p = Some (q, nd) ∧ o = Val (Some q)).
Proof.
  unfold open_rd. posix_step. unfold get, mret, comp_ret. intros. simplify_eq.
  split; [done|]. rewrite Hf. destruct b; [|by left].
  destruct (lookup_path (files s) p) as [[q nd]|]; [right|left]; naive_solver.
Qed.

Lemma open_wr_some t p s q s' :
  open_wr t p s = (Val (Some q), s') →
  resolve (files s) p = Some q ∧
  ∃ d, (files s !! q = Some (Reg d) ∨ files s !! q = None ∧ d = []) ∧
       files s' = <[q := Reg (if t then [] else d)]> (files s).
Proof.
  unfold open_wr. posix_step. unfold get, mret, comp_ret, put. rewrite Hf.
  destruct b; [|by intros; simplify_eq].
  destruct (resolve (files s) p) as [r|] eqn:Hr; [|by intros; simplify_eq].
  destruct (files s !! r) as [[d|t'|]|] eqn:Hl; try (by intros; simplify_eq).
  - intros. simplify_eq. split; [done|]. exists d. split; [by left|]. simpl. by rewrite ?Hf.
  - destruct (parent_ok _ _); intros; simplify_eq. split; [done|].
    exists []. split; [by right|]. simpl. rewrite ?Hf. by destruct t.
Qed.

Lemma pread_some fd n off s bs s' :
  0 ≤ n → pread fd n off s = (Val (Some bs), s') →
  files s' = files s ∧ off ≤ LONG_MAX ∧
  ∃ data, files s !! fd = Some (Reg data) ∧ zlen bs ≤ n ∧
    bs = ztake (zlen bs) (zdrop off data).
Proof.
  intros Hn. unfold pread. posix_step. unfold get, mret, comp_ret. intros. simplify_eq.
  split; [done|]. destruct (Z.ltb_spec LONG_MAX off); [done|]. split; [done|].
  rewrite Hf in *.
  assert (∀ k, 0 ≤ k → ∀ l : list byte, ztake k l = ztake (zlen (ztake k l)) l) as Haux.
  { intros k Hk l. rewrite zlen_ztake by done.
    destruct (Z.min_spec k (zlen l)) as [[? ->]|[? ->]]; [done|].
    by rewrite !ztake_all by done. }
  destruct (files s !! fd) as [[data|t|]|] eqn:Hl; destruct d; simplify_eq;
    exists data; split; try done.
  - split; [|by apply Haux]. rewrite zlen_ztake by done. lia.
  - rewrite ztake_ztake by lia. split; [|apply Haux; lia].
    rewrite zlen_ztake by lia. lia.
Qed.

Lemma pread_exact fd n off s bs s' data :
  0 ≤ n → files s !! fd = Some (Reg data) → (zlen bs <? n) = false →
  pread fd n off s = (Val (Some bs), s') →
  files s' = files s ∧ bs = ztake n (zdrop off data).
Proof.
  intros Hn Hd Hlen H. apply pread_some in H as (Hf & _ & data' & Hd' & Hle & Hbs); [|done].
  zbool. simplify_eq. split; [done|]. by replace n with (zlen bs) by lia.
Qed.

Lemma pwrite_full fd bs off s s' :
  pwrite fd bs off s = (Val (Some (zlen bs)), s') →
  off ≤ LONG_MAX ∧
  ∃ data, files s !! fd = Some (Reg data) ∧
    files s' = <[fd := Reg (splice off bs data)]> (files s).
Proof.
  unfold pwrite. posix_step. unfold get, mret, comp_ret, put.
  destruct (Z.ltb_spec LONG_MAX off); [by intros; simplify_eq|]. rewrite Hf.
  destruct (files s !! fd) as [[data|t|]|] eqn:Hl; destruct d;
    intros; simplify_eq; (split; [done|]); exists data; (split; [done|]); simpl;
    rewrite ?Hf; [done|].
  do 3 f_equal. match goal with H : zlen _ = zlen bs |- _ => revert H end.
  rewrite zlen_ztake by lia. intros. apply ztake_all. lia.
Qed.

Lemma stat_size_spec p s o s' :
  stat_size p s = (o, s') →
  files s' = files s ∧
  (o = Val None ∨ ∀ q d, lookup_path (files s) p = Some (q, Reg d) → o = Val (Some (zlen d))).
Proof.
  unfold stat_size. posix_step. unfold get, mret, comp_ret. intros. simplify_eq.
  split; [done|]. destruct b; [right|by left]. intros q d Hl. rewrite Hf, Hl. done.
Qed.

(** Writing a regular file never changes where paths lead. *)
Lemma resolve_insert_reg f q d p :
  (∀ t, f !! q ≠ Some (Sym t)) → resolve (<[q := Reg d]> f) p = resolve f p.
Proof.
  intros Hq. unfold resolve. generalize SYMLOOP_MAX as n. intros n. revert p.
  induction n as [|n IH]; intros p; simpl;
    destruct (decide (q = p)) as [->|Hne]; simplify_map_eq;
    destruct (f !! p) as [[| |]|] eqn:E; naive_solver.
Qed.

Lemma lookup_path_insert_reg f q d p p' nd :
  (∀ t, f !! q ≠ Some (Sym t)) → lookup_path f p = Some (p', nd) → p' ≠ q →
  lookup_path (<[q := Reg d]> f) p = Some (p', nd).
Proof.
  intros Hq. unfold lookup_path. rewrite resolve_insert_reg by done.
  destruct (resolve f p) as [r|]; [|done]. intros H Hne.
  destruct (f !! r) as [nd'|] eqn:E; simplify_eq/=. by simplify_map_eq.
Qed.

Lemma lookup_path_at f p q nd : lookup_path f p = Some (q, nd) → f !! q = Some nd.
Proof.
  unfold lookup_path. destruct (resolve f p) as [r|]; [|done].
  destruct (f !! r) eqn:E; naive_solver.
Qed.

(** ** Calls without faults *)

Ltac free_run :=
  unfold mbind, comp_bind; rewrite ?next_ok_free;
  unfold next, get, put, mret, comp_ret; cbn [files sched andb].

Lemma open_rd_free f p q nd :
  lookup_path f p = Some (q, nd) → open_rd p (mk_sys f []) = (Val (Some q), mk_sys f []).
Proof. intros H. unfold open_rd. free_run. by rewrite H. Qed.

Lemma open_wr_free t f p q d :
  resolve f p = Some q →
  (f !! q = Some (Reg d) ∨ f !! q = None ∧ parent_ok f q = true ∧ d = []) →
  open_wr t p (mk_sys f [])
  = (Val (Some q), mk_sys (<[q := Reg (if t then [] else d)]> f) []).
Proof.
  intros Hr Hq. unfold open_wr. free_run. rewrite Hr.
  destruct Hq as [->|(-> & -> & ->)]; [done|]. by destruct t.
Qed.

Lemma pread_free f fd n off data :
  off ≤ LONG_MAX → f !! fd = Some (Reg data) →
  pread fd n off (mk_sys f []) = (Val (Some (ztake n (zdrop off data))), mk_sys f []).
Proof.
  intros Ho H. unfold pread. free_run. destruct (Z.ltb_spec LONG_MAX off); [lia|].
  by rewrite H.
Qed.

Lemma pwrite_free f fd bs off data :
  off ≤ LONG_MAX → f !! fd = Some (Reg data) →
  pwrite fd bs off (mk_sys f [])
  = (Val (Some (zlen bs)), mk_sys (<[fd := Reg (splice off bs data)]> f) []).
Proof.
  intros Ho H. unfold pwrite. free_run. destruct (Z.ltb_spec LONG_MAX off); [lia|].
  by rewrite H.
Qed.

Lemma stat_size_free f p q d :
  lookup_path f p = Some (q, Reg d) →
  stat_size p (mk_sys f []) = (Val (Some (zlen d)), mk_sys f []).
Proof. intros H. unfold stat_size. free_run. by rewrite H. Qed.

#[export] Hint Resolve lookup_path_at : veloc.

(** Calls in a larger state *)

Lemma on_fst_run {S R A} (m : comp S A) s (r : R) o s' :
  m s = (o, s') → on_fst m (s, r) = (o, (s', r)).
Proof. unfold on_fst. by intros ->. Qed.

Lemma on_sys_inv {S A} `{HasSys S} (m : posix A) (st st' : S) (o : outcome A) :
  on_sys m st = (o, st') → ∃ s', m (the_sys st) = (o, s') ∧ st' = with_sys st s'.
Proof. unfold on_sys. destruct (m (the_sys st)) as [o' s']. intros. simplify_eq. by eauto. Qed.

Lemma on_sys_run {S A} `{HasSys S} (m : posix A) (st : S) (o : outcome A) s' :
  m (the_sys st) = (o, s') → on_sys m st = (o, with_sys st s').
Proof. unfold on_sys. by intros ->. Qed.

Lemma on_sys_same {S A} `{HasSys S} (m : posix A) (st : S) (o : outcome A) s :
  the_sys st = s → m s = (o, s) → on_sys m st = (o, st).
Proof. intros Hs Hm. unfold on_sys. rewrite Hs, Hm, <-Hs. by rewrite with_the_sys. Qed.

(** ** Calls that change the directory tree *)

Lemma unlink_spec p s o s' :
  unlink p s = (o, s') →
  (o = Val false ∧ files s' = files s) ∨
  (o = Val true ∧ (∃ nd, files s !! p = Some nd ∧ nd ≠ Dir) ∧ files s' = delete p (files s)).
Proof.
  unfold unlink. posix_step. unfold get, put, mret, comp_ret. rewrite Hf.
  destruct (files s !! p) as [[]|] eqn:E; try (intros; simplify_eq; by left);
    (destruct b; intros; simplify_eq; [right|by left]); simpl; rewrite ?Hf;
    (split; [done|]); (split; [by eauto|done]).
Qed.

Lemma symlink_true t p s s' :
  symlink t p s = (Val true, s') →
  files s !! p = None ∧ files s' = <[p := Sym t]> (files s).
Proof.
  unfold symlink. posix_step. unfold get, put, mret, comp_ret. rewrite Hf.
  destruct (files s !! p) eqn:E; [by intros; simplify_eq|].
  destruct (_ && _); intros; simplify_eq. simpl. by rewrite ?Hf.
Qed.

Lemma access_true p s s' :
  access p s = (Val true, s') → files s' = files s ∧ is_Some (lookup_path (files s) p).
Proof.
  unfold access. posix_step. unfold get, mret, comp_ret. intros. simplify_eq.
  rewrite Hf in *. zbool. naive_solver.
Qed.

Lemma access_files p s o s' : access p s = (o, s') → files s' = files s ∧ ∃ b, o = Val b.
Proof. unfold access. posix_step. unfold get, mret, comp_ret. intros. simplify_eq. eauto. Qed.

Lemma opendir_files p s o s' :
  opendir p s = (o, s') → files s' = files s ∧ ∃ b, o = Val b ∧ (b = true → is_dir (files s) p = true).
Proof.
  unfold opendir. posix_step. unfold get, mret, comp_ret. intros. simplify_eq.
  split; [done|]. eexists. split; [done|]. rewrite Hf. intros. by zbool.
Qed.

Lemma preserves_on_sys {S A} `{HasSys S} (P : S → Prop) (m : posix A) :
  (∀ st s, P st → P (with_sys st s)) → preserves P (on_sys m).
Proof. intros HP st o st' (s' & _ & ->)%on_sys_inv. apply HP. Qed.
#[export] Hint Resolve preserves_on_sys : preserve.
