(* ===== verification/Containers.v ===== *)
(** * Containers: [std::set<int>] and [std::map<int, V>]

    Both are ordered containers and VELOC relies on their order (the layout of a
    checkpoint file, the oldest version of a history), so a set is the list of
    its elements and a map the list of its entries, in increasing order. *)

From S2P Require Import Prelude.

Local Open Scope Z_scope.

(** ** Sets *)

Abbreviation zset := (list Z).

Definition sorted (l : zset) : Prop := StronglySorted Z.lt l.

Fixpoint set_insert (v : Z) (l : zset) : zset :=
  match l with
  | [] => [v]
  | x :: l' =>
      if v <? x then v :: l
      else if v =? x then l
      else x :: set_insert v l'
  end.

Definition set_mem (v : Z) (l : zset) : bool := bool_decide (v ∈ l).

(** [std::set_union] of two sets *)
Definition set_union (a b : zset) : zset := foldr set_insert b a.

(** [lower_bound v] in a [std::set<int, std::greater<int> >] holding the
    elements of [l]: the first element, from the largest down, that is not
    greater than [v]. *)
Fixpoint first_le (v : Z) (l : zset) : option Z :=
  match l with
  | [] => None
  | x :: l => if x <=? v then Some x else first_le v l
  end.

(** ** Maps *)

Section maps.
Context {V : Type}.

Fixpoint map_find (k : Z) (m : list (Z * V)) : option V :=
  match m with
  | [] => None
  | (k', v) :: m => if k =? k' then Some v else map_find k m
  end.

(** [insert_or_assign]: whether the key was new, and the map. *)
Fixpoint map_assign (k : Z) (v : V) (m : list (Z * V)) : bool * list (Z * V) :=
  match m with
  | [] => (true, [(k, v)])
  | (k', v') :: m' =>
      if k <? k' then (true, (k, v) :: m)
      else if k =? k' then (false, (k, v) :: m')
      else let '(b, r) := map_assign k v m' in (b, (k', v') :: r)
  end.

(** [insert]: an entry that is there stays. *)
Fixpoint map_insert (k : Z) (v : V) (m : list (Z * V)) : list (Z * V) :=
  match m with
  | [] => [(k, v)]
  | (k', v') :: m' =>
      if k <? k' then (k, v) :: m
      else if k =? k' then m
      else (k', v') :: map_insert k v m'
  end.

(** [erase(key)]: whether there was an entry, and the map. *)
Fixpoint map_erase (k : Z) (m : list (Z * V)) : bool * list (Z * V) :=
  match m with
  | [] => (false, [])
  | (k', v') :: m' =>
      if k =? k' then (true, m')
      else let '(b, r) := map_erase k m' in (b, (k', v') :: r)
  end.

End maps.

(** ** Lemmas on sets *)

Lemma sorted_nil : sorted [].
Proof. constructor. Qed.

Lemma sorted_cons_inv x l : sorted (x :: l) → sorted l ∧ Forall (Z.lt x) l.
Proof. intros H. by apply StronglySorted_inv in H. Qed.

Lemma set_insert_elem v l x : x ∈ set_insert v l ↔ x = v ∨ x ∈ l.
Proof.
  induction l as [|y l IH]; simpl; [set_solver|].
  destruct (Z.ltb_spec v y); [set_solver|].
  destruct (Z.eqb_spec v y); [set_solver|]. set_solver.
Qed.

Lemma set_insert_sorted v l : sorted l → sorted (set_insert v l).
Proof.
  induction l as [|y l IH]; simpl; intros Hs; [by repeat constructor|].
  pose proof Hs as Hs'. apply sorted_cons_inv in Hs' as [Hl Hy].
  destruct (Z.ltb_spec v y).
  - constructor; [done|]. constructor; [done|]. eapply Forall_impl; [done|]. simpl. lia.
  - destruct (Z.eqb_spec v y); [done|]. constructor; [by apply IH|].
    apply Forall_forall. intros z [->|Hz]%set_insert_elem; [lia|].
    by eapply Forall_forall in Hy.
Qed.

Lemma sorted_NoDup l : sorted l → NoDup l.
Proof.
  induction 1 as [|x l Hl IH Hx]; constructor; [|done].
  intros Hin. eapply Forall_forall in Hx; [|done]. lia.
Qed.

(** A set is determined by its elements. *)
Lemma sorted_ext l k : sorted l → sorted k → (∀ x, x ∈ l ↔ x ∈ k) → l = k.
Proof.
  revert k. induction l as [|x l IH]; intros [|y k] Hl Hk Heq.
  - done.
  - destruct (Heq y) as [_ H]. set_solver.
  - destruct (Heq x) as [H _]. set_solver.
  - apply sorted_cons_inv in Hl as [Hl Hx], Hk as [Hk Hy].
    rewrite Forall_forall in Hx, Hy.
    assert (x = y) as <-.
    { destruct (Heq x) as [H1 _], (Heq y) as [_ H2].
      specialize (H1 ltac:(set_solver)). specialize (H2 ltac:(set_solver)).
      apply elem_of_cons in H1 as [->|H1]; [done|].
      apply elem_of_cons in H2 as [->|H2]; [done|].
      pose proof (Hx _ H2). pose proof (Hy _ H1). lia. }
    f_equal. apply IH; [done..|]. intros z. split; intros Hz.
    + pose proof (Hx _ Hz). destruct (Heq z) as [H1 _].
      specialize (H1 ltac:(set_solver)). apply elem_of_cons in H1 as [->|]; [lia|done].
    + pose proof (Hy _ Hz). destruct (Heq z) as [_ H1].
      specialize (H1 ltac:(set_solver)). apply elem_of_cons in H1 as [->|]; [lia|done].
Qed.

Lemma set_insert_mem v l : sorted l → v ∈ l → set_insert v l = l.
Proof.
  intros Hs Hin. apply sorted_ext; [by apply set_insert_sorted|done|].
  intros x. rewrite set_insert_elem. naive_solver.
Qed.

Lemma set_union_elem a b x : x ∈ set_union a b ↔ x ∈ a ∨ x ∈ b.
Proof.
  unfold set_union. induction a as [|y a IH]; simpl; [set_solver|].
  rewrite set_insert_elem, IH. set_solver.
Qed.

Lemma set_union_sorted a b : sorted b → sorted (set_union a b).
Proof. intros. induction a; simpl; [done|]. by apply set_insert_sorted. Qed.

Lemma sorted_app_inv l k :
  sorted (l ++ k) → sorted l ∧ sorted k ∧ ∀ x y, x ∈ l → y ∈ k → x < y.
Proof.
  induction l as [|z l IH]; simpl; intros H.
  - split; [constructor|]. split; [done|]. set_solver.
  - apply sorted_cons_inv in H as [H Hz]. destruct (IH H) as (Hl & Hk & Hlt).
    apply Forall_app in Hz as [Hzl Hzk]. split; [by constructor|]. split; [done|].
    intros x y Hx Hy. apply elem_of_cons in Hx as [->|Hx]; [|by apply Hlt].
    by eapply Forall_forall in Hzk.
Qed.

Lemma sorted_last l x : sorted (l ++ [x]) → ∀ y, y ∈ l ++ [x] → y ≤ x.
Proof.
  intros (_ & _ & H)%sorted_app_inv y. intros [Hy|Hy]%elem_of_app.
  - specialize (H y x Hy ltac:(set_solver)). lia.
  - apply list_elem_of_singleton in Hy. lia.
Qed.

(** In a list in decreasing order [first_le] finds the largest element that is
    not greater than the bound. *)
Lemma first_le_some v l x :
  sorted l → first_le v (rev l) = Some x → x ∈ l ∧ x ≤ v ∧ ∀ y, y ∈ l → y ≤ v → y ≤ x.
Proof.
  induction l as [|z l IH] using rev_ind; simpl; intros Hs H; [done|].
  rewrite rev_app_distr in H. simpl in H.
  pose proof (sorted_last _ _ Hs) as Hlast.
  apply sorted_app_inv in Hs as (Hs & _ & _).
  destruct (Z.leb_spec z v); simplify_eq.
  - split; [set_solver|]. split; [done|]. intros y Hy _. by apply Hlast.
  - destruct (IH Hs H) as (Hx & Hv & Hmax). split; [set_solver|]. split; [done|].
    intros y [Hy|Hy]%elem_of_app Hyv; [by apply Hmax|].
    apply list_elem_of_singleton in Hy as ->. lia.
Qed.

Lemma first_le_none v l : first_le v l = None ↔ ∀ y, y ∈ l → v < y.
Proof.
  induction l as [|z l IH]; simpl; [set_solver|].
  destruct (Z.leb_spec z v).
  - split; [done|]. intros H'. specialize (H' z ltac:(set_solver)). lia.
  - rewrite IH. split; [|set_solver].
    intros H' y [->|Hy]%elem_of_cons; [lia|by apply H'].
Qed.

#[export] Hint Resolve sorted_nil set_insert_sorted set_union_sorted sorted_NoDup : veloc.

(** ** Lemmas on maps *)

Section map_lemmas.
Context {V : Type}.
Implicit Types m : list (Z * V).

Lemma map_assign_find k v m k' :
  map_find k' (map_assign k v m).2 = if k' =? k then Some v else map_find k' m.
Proof.
  induction m as [|[j w] m IH]; simpl; [done|].
  destruct (Z.ltb_spec k j); [done|]. destruct (Z.eqb_spec k j) as [->|].
  - simpl. by destruct (k' =? j).
  - destruct (map_assign k v m) as [b r]. simpl in *. rewrite IH.
    destruct (Z.eqb_spec k' j), (Z.eqb_spec k' k); congruence.
Qed.

Lemma sorted_find_head k m : Forall (Z.lt k) m.*1 → map_find k m = None.
Proof.
  induction m as [|[j w] m IH]; simpl; [done|]. intros [Hj Hm]%Forall_cons.
  destruct (Z.eqb_spec k j); [lia|]. by apply IH.
Qed.

Lemma map_assign_new k v m :
  sorted m.*1 → (map_assign k v m).1 = bool_decide (map_find k m = None).
Proof.
  induction m as [|[j w] m IH]; simpl; intros Hs; [done|].
  apply sorted_cons_inv in Hs as [Hs Hj].
  destruct (Z.ltb_spec k j) as [Hlt|].
  - destruct (Z.eqb_spec k j); [lia|]. rewrite bool_decide_true; [done|].
    apply sorted_find_head. eapply Forall_impl; [done|]. simpl. lia.
  - destruct (Z.eqb_spec k j); [done|].
    destruct (map_assign k v m). simpl in *. by apply IH.
Qed.

Lemma map_assign_keys k v m : (map_assign k v m).2.*1 = set_insert k m.*1.
Proof.
  induction m as [|[j w] m IH]; simpl; [done|].
  destruct (k <? j); [done|]. destruct (Z.eqb_spec k j) as [->|]; [done|].
  destruct (map_assign k v m). csimpl in *. by rewrite IH.
Qed.

Lemma map_insert_keys k v m : (map_insert k v m).*1 = set_insert k m.*1.
Proof.
  induction m as [|[j w] m IH]; simpl; [done|].
  destruct (k <? j); [done|]. destruct (Z.eqb_spec k j) as [->|]; [done|].
  csimpl. by rewrite IH.
Qed.

(** Inserting a key above all the others appends it. *)
Lemma map_insert_last k v m :
  Forall (λ j, j < k) m.*1 → map_insert k v m = m ++ [(k, v)].
Proof.
  induction m as [|[j w] m IH]; simpl; [done|]. intros [Hj Hm]%Forall_cons.
  destruct (Z.ltb_spec k j); [lia|]. destruct (Z.eqb_spec k j); [lia|].
  by rewrite IH.
Qed.

Lemma map_erase_find k m k' :
  sorted m.*1 → map_find k' (map_erase k m).2 = if k' =? k then None else map_find k' m.
Proof.
  induction m as [|[j w] m IH]; simpl; intros Hs; [by destruct (k' =? k)|].
  apply sorted_cons_inv in Hs as [Hs Hj]. destruct (Z.eqb_spec k j) as [->|]; simpl.
  - destruct (Z.eqb_spec k' j); subst; [|done]. by apply sorted_find_head.
  - specialize (IH Hs). destruct (map_erase k m) as [b r]. simpl in *. rewrite IH.
    destruct (Z.eqb_spec k' j), (Z.eqb_spec k' k); congruence.
Qed.

Lemma map_find_elem k v m : map_find k m = Some v → (k, v) ∈ m.
Proof.
  induction m as [|[j w] m IH]; simpl; [done|].
  destruct (Z.eqb_spec k j) as [->|]; [|set_solver]. intros. simplify_eq. set_solver.
Qed.

Lemma map_elem_find k v m : sorted m.*1 → (k, v) ∈ m → map_find k m = Some v.
Proof.
  induction m as [|[j w] m IH]; simpl; intros Hs Hin; [set_solver|].
  apply sorted_cons_inv in Hs as [Hs Hj].
  apply elem_of_cons in Hin as [?|Hin]; simplify_eq; [by rewrite Z.eqb_refl|].
  destruct (Z.eqb_spec k j) as [->|]; [|by apply IH].
  exfalso. assert (j ∈ m.*1) as Hj' by by apply (list_elem_of_fmap_2 fst _ (j, v)).
  eapply Forall_forall in Hj; [|done]. lia.
Qed.

Lemma map_erase_sublist k m : (map_erase k m).2 `sublist_of` m.
Proof.
  induction m as [|[j w] m IH]; simpl; [constructor|].
  destruct (k =? j); [by apply sublist_cons|].
  destruct (map_erase k m). simpl in *. by apply sublist_skip.
Qed.

Lemma forall_sublist {A} (P : A → Prop) (l l' : list A) :
  l `sublist_of` l' → Forall P l' → Forall P l.
Proof. induction 1; intros HP; [done|apply Forall_cons in HP as [? ?]; eauto..]. Qed.

Lemma sublist_sorted (l l' : list Z) : l `sublist_of` l' → sorted l' → sorted l.
Proof.
  induction 1 as [|x l l' H IH|x l l' H IH]; intros Hs; [done|..];
    apply sorted_cons_inv in Hs as [Hs Hx]; [|by apply IH].
  constructor; [by apply IH|]. by eapply forall_sublist.
Qed.

Lemma map_assign_forall (P : Z * V → Prop) k v m :
  P (k, v) → Forall P m → Forall P (map_assign k v m).2.
Proof.
  intros Hkv. induction m as [|[j w] m IH]; simpl; intros Hm; [by repeat constructor|].
  apply Forall_cons in Hm as [Hj Hm]. destruct (k <? j); [by repeat constructor|].
  destruct (Z.eqb_spec k j) as [->|]; [by constructor|].
  destruct (map_assign k v m). simpl in *. constructor; auto.
Qed.

End map_lemmas.
