(* ===== verification/FileUtil.v ===== *)
(** * FileUtil: [src/common/file_util.cpp]

    Directory scans, whole-file reads and writes, and the transfer of a range of
    one file into another, in its two build variants. *)

From S2P Require Import Prelude Text Regex Command FileSystem Containers.

Local Open Scope Z_scope.

(** ** [parse_dir]

    The callback works on the file system and on the variables [R] it
    captured. *)

Section parse_dir.
Context {S R : Type} `{HasSys S}.

Abbreviation dir_callback_t := (string → Z → Z → comp (S * R) unit).

(** The body of the [readdir] loop: directories are skipped, names that do not
    match are ignored. *)
Definition parse_entry (p : string) (e : Regex.regex) (f : dir_callback_t)
    (dentry : string * node) : comp (S * R) unit :=
  let '(dname, kind) := dentry in
  match kind with
  | Dir => mret tt
  | _ =>
      m ← stop (command_t.match_ dname e);
      match m with
      | Some (rank, version) => f (p +:+ "/" +:+ dname) rank version
      | None => mret tt
      end
  end.

(** The regular expression is built once the directory is open.  A name whose
    pattern is not modelled is treated as an ill-formed one. *)
Definition parse_dir (p cname : string) (f : dir_callback_t) : comp (S * R) bool :=
  dir ← on_sys (opendir p);
  if negb dir then mret false else
  match command_t.regex cname with
  | None => stop (Raise regex_error)
  | Some e =>
      s ← gets the_sys;
      mforeach (parse_entry p e f) (entries s.(files) p);;
      mret true
  end.

End parse_dir.

(** ** Whole files *)

Definition file_size (source : string) : posix Z :=
  r ← stat_size source;
  mret (match r with Some n => n | None => -1 end).

(** One [write] call: a short count is a failure. *)
Definition write_file (source : string) (buffer : list byte) : posix bool :=
  fd ← open_wr true source;
  match fd with
  | None => mret false
  | Some fd =>
      w ← pwrite fd buffer 0;
      mret (bool_decide (w = Some (zlen buffer)))
  end.

(** One [read] call: the buffer, when [size] bytes were read. *)
Definition read_file (source : string) (size : Z) : posix (option (list byte)) :=
  fd ← open_rd source;
  match fd with
  | None => mret None
  | Some fd =>
      r ← pread fd size 0;
      mret (match r with
            | Some bs => if zlen bs =? size then Some bs else None
            | None => None
            end)
  end.

(** ** File transfer *)

(** The loop variables [soff], [doff] and [remaining] of [file_transfer_loop]. *)
Record xfer := mk_xfer { soff : Z; doff : Z; remaining : Z }.

(** What one iteration does: leave the loop with a result or go on. *)
Inductive iteration := Done (success : bool) | More (x : xfer).

Definition advance (x : xfer) (transferred : Z) : xfer :=
  {| soff := u64 (x.(soff) + transferred);
     doff := u64 (x.(doff) + transferred);
     remaining := u64 (x.(remaining) - transferred) |}.

Definition MAX_BUFF_SIZE : Z := Z.shiftl 1 24.

(** [WITH_POSIX_RW]: [pread] and [pwrite] through a buffer. *)
Definition rw_iteration (fs fd : string) (x : xfer) : posix iteration :=
  if x.(remaining) <=? 0 then mret (Done true) else
  r ← pread fs (Z.min MAX_BUFF_SIZE x.(remaining)) x.(soff);
  match r with
  | None => mret (Done false)
  | Some buff =>
      w ← pwrite fd buff x.(doff);
      mret (if bool_decide (w = Some (zlen buff)) then More (advance x (zlen buff))
            else Done false)
  end.

(** [WITH_POSIX_DIRECT]: [copy_file_range]. *)
Definition direct_iteration (fs fd : string) (x : xfer) : posix iteration :=
  if x.(remaining) <=? 0 then mret (Done true) else
  r ← copy_file_range fs x.(soff) fd x.(doff) x.(remaining);
  mret (match r with
        | None => Done false
        | Some transferred => More (advance x transferred)
        end).

(** The [while] loop, for at most [fuel] iterations. *)
Fixpoint transfer_run (it : xfer → posix iteration) (fuel : nat) (x : xfer) : posix bool :=
  match fuel with
  | O => stop Hang
  | S fuel =>
      r ← it x;
      match r with
      | Done b => mret b
      | More x' => transfer_run it fuel x'
      end
  end.

(** An iteration that goes on has consumed a byte of the source or a decision of
    the schedule, unless it changed nothing at all: after this many iterations
    the loop is at such a fixed point and never ends. *)
Definition transfer_fuel (s : sys) (fs : string) : nat :=
  match s.(files) !! fs with
  | Some (Reg d) => 2 + length d + length s.(sched)
  | _ => 2 + length s.(sched)
  end.

Definition transfer_loop (it : string → string → xfer → posix iteration)
    (fs : string) (soff : Z) (fd : string) (doff remaining : Z) : posix bool := λ s,
  transfer_run (it fs fd) (transfer_fuel s fs)
    {| soff := soff; doff := doff; remaining := remaining |} s.

Definition file_transfer_loop : string → Z → string → Z → Z → posix bool :=
  transfer_loop rw_iteration.
Definition file_transfer_loop_direct : string → Z → string → Z → Z → posix bool :=
  transfer_loop direct_iteration.

(** [size_t] arithmetic: [file_size(source) - soffset] wraps around. *)
Definition posix_transfer_file (source dest : string) (soffset doffset size : Z) : posix bool :=
  fs ← open_rd source;
  match fs with
  | None => mret false
  | Some fs =>
      fd ← open_wr false dest;
      match fd with
      | None => mret false
      | Some fd =>
          fsize ← file_size source;
          file_transfer_loop fs soffset fd doffset (Z.min size (u64 (fsize - soffset)))
      end
  end.

Definition check_dir (d : string) : posix bool :=
  mkdir d;;
  opendir d.

(** [gethostname] and [getuid] are the environment's. *)
Definition unique_suffix (host_name : string) (uid : Z) : string :=
  host_name +:+ "-" +:+ to_string uid.

(** ** The transfer loop *)

Definition in_range (x : xfer) : Prop :=
  0 ≤ x.(soff) ≤ LONG_MAX ∧ 0 ≤ x.(doff) ≤ LONG_MAX ∧ 0 ≤ x.(remaining) ≤ SIZE_MAX.

Lemma advance_small x n :
  0 ≤ x.(soff) → 0 ≤ x.(doff) → 0 ≤ n → n ≤ x.(remaining) → x.(remaining) ≤ SIZE_MAX →
  x.(soff) + n ≤ SIZE_MAX → x.(doff) + n ≤ SIZE_MAX →
  advance x n =
    {| soff := x.(soff) + n; doff := x.(doff) + n; remaining := x.(remaining) - n |}.
Proof.
  intros. unfold advance. by rewrite !u64_small by (unfold is_size; lia).
Qed.

Lemma MAX_BUFF_SIZE_eq : MAX_BUFF_SIZE = 16777216.
Proof. done. Qed.

Lemma rw_iteration_done fs fd x s b s' :
  rw_iteration fs fd x s = (Val (Done b), s') → b = true → x.(remaining) ≤ 0 ∧ s' = s.
Proof.
  unfold rw_iteration. destruct (Z.leb_spec (remaining x) 0).
  { unfold mret, comp_ret. intros. by simplify_eq. }
  intros (r & s1 & _ & Hr)%comp_bind_inv ->. destruct r as [buff|].
  - apply comp_bind_inv in Hr as (w & s2 & _ & Hr).
    unfold mret, comp_ret in Hr. case_bool_decide; simplify_eq.
  - unfold mret, comp_ret in Hr. simplify_eq.
Qed.

(** An iteration that goes on moved the next [n] bytes of the source. *)
Lemma rw_iteration_more fs fd x s x' s' src dst :
  fs ≠ fd → files s !! fs = Some (Reg src) → files s !! fd = Some (Reg dst) →
  rw_iteration fs fd x s = (Val (More x'), s') →
  0 < x.(remaining) ∧ x.(soff) ≤ LONG_MAX ∧ x.(doff) ≤ LONG_MAX ∧
  ∃ n, 0 ≤ n ≤ x.(remaining) ∧ x' = advance x n ∧
    n = zlen (ztake n (zdrop x.(soff) src)) ∧
    files s' = <[fd := Reg (splice x.(doff) (ztake n (zdrop x.(soff) src)) dst)]> (files s).
Proof.
  intros Hne Hs Hd. unfold rw_iteration.
  destruct (Z.leb_spec (remaining x) 0) as [|Hrem].
  { unfold mret, comp_ret. intros. by simplify_eq. }
  intros (r & s1 & Hpr & Hr)%comp_bind_inv.
  destruct r as [buff|]; [|unfold mret, comp_ret in Hr; by simplify_eq].
  apply comp_bind_inv in Hr as (w & s2 & Hpw & Hr).
  unfold mret, comp_ret in Hr. case_bool_decide as Hw; simplify_eq.
  apply pread_some in Hpr as (Hf1 & Hso & data & Hdata & Hlen & Hbuff);
    [|rewrite MAX_BUFF_SIZE_eq; lia].
  apply pwrite_full in Hpw as (Hdo & data' & Hdata' & Hf2).
  rewrite Hf1 in *. simplify_eq. split; [done|]. split; [done|]. split; [done|].
  exists (zlen buff). rewrite <-Hbuff. split_and!; try done; [apply zlen_nonneg|lia].
Qed.

(** Whatever the kernel does, a loop that reports success has copied exactly the
    range that was asked for. *)
Lemma transfer_run_true fs fd fuel x s s' src dst :
  fs ≠ fd → files s !! fs = Some (Reg src) → files s !! fd = Some (Reg dst) →
  0 ≤ x.(soff) → 0 ≤ x.(doff) → 0 ≤ x.(remaining) ≤ SIZE_MAX →
  zlen src ≤ LONG_MAX →
  transfer_run (rw_iteration fs fd) fuel x s = (Val true, s') →
  let bs := ztake x.(remaining) (zdrop x.(soff) src) in
  zlen bs = x.(remaining) ∧ files s' = <[fd := Reg (splice x.(doff) bs dst)]> (files s).
Proof.
  intros Hne. revert x s dst. induction fuel as [|fuel IH]; intros x s dst Hs Hd Hso Hdo Hr Hlen;
    [done|]. simpl. intros (r & s1 & Hit & Hrun)%comp_bind_inv.
  destruct r as [b|x'].
  - unfold mret, comp_ret in Hrun. simplify_eq.
    apply rw_iteration_done in Hit as [Hrem ->]; [|done].
    rewrite ztake_0 by done. split; [unfold zlen; simpl; lia|]. simpl.
    symmetry. by apply insert_id.
  - apply (rw_iteration_more _ _ _ _ _ _ src dst) in Hit
      as (Hrem & Hso' & Hdo' & n & Hn & -> & Hnlen & Hf); [|done..].
    assert (n ≤ LONG_MAX) as HnL.
    { rewrite Hnlen. pose proof (zlen_nonneg src).
      rewrite zlen_ztake, zlen_zdrop by lia. lia. }
    rewrite advance_small in Hrun by (unfold SIZE_MAX, LONG_MAX in *; lia).
    set (bs1 := ztake n (zdrop (soff x) src)) in *.
    apply IH with (dst := splice (doff x) bs1 dst) in Hrun as [Hl Hf']; simpl in *;
      try lia; try (rewrite Hf; by simplify_map_eq).
    rewrite Hf in Hf'. rewrite insert_insert_eq in Hf'.
    assert (ztake (remaining x) (zdrop (soff x) src)
            = bs1 ++ ztake (remaining x - n) (zdrop (soff x + n) src)) as Hsplit.
    { replace (remaining x) with (n + (remaining x - n)) at 1 by lia.
      rewrite ztake_add by lia. by rewrite zdrop_zdrop by lia. }
    rewrite Hsplit. split; [rewrite zlen_app; lia|].
    rewrite Hf'. do 2 f_equal. rewrite <-splice_splice by done.
    by replace (doff x + n) with (doff x + zlen bs1) by lia.
Qed.

(** Without faults the loop ends: every iteration moves at least one byte. *)
Lemma transfer_run_free fs fd fuel x f src dst :
  fs ≠ fd → f !! fs = Some (Reg src) → f !! fd = Some (Reg dst) →
  0 ≤ x.(soff) → 0 ≤ x.(doff) → 0 ≤ x.(remaining) →
  x.(soff) + x.(remaining) ≤ zlen src → zlen src ≤ LONG_MAX →
  x.(doff) + x.(remaining) ≤ LONG_MAX → (Z.to_nat x.(remaining) < fuel)%nat →
  ∃ f', transfer_run (rw_iteration fs fd) fuel x (mk_sys f []) = (Val true, mk_sys f' []).
Proof.
  intros Hne. revert x f dst. induction fuel as [|fuel IH];
    intros x f dst Hs Hd Hso Hdo Hr Hle HL HdL Hfuel; [lia|].
  simpl. unfold rw_iteration. destruct (Z.leb_spec (remaining x) 0).
  { by exists f. }
  set (n := Z.min MAX_BUFF_SIZE (remaining x)).
  assert (1 ≤ n ≤ remaining x) as Hn by (subst n; rewrite MAX_BUFF_SIZE_eq; lia).
  set (bs := ztake n (zdrop (soff x) src)).
  assert (zlen bs = n) as Hbs.
  { subst bs. rewrite zlen_ztake, zlen_zdrop by lia. lia. }
  unfold mbind, comp_bind.
  rewrite (pread_free _ _ _ _ src) by (done || lia).
  rewrite (pwrite_free _ _ _ _ dst) by (done || lia).
  rewrite bool_decide_true by done. fold n bs. unfold mret, comp_ret.
  rewrite Hbs, advance_small by (unfold SIZE_MAX, LONG_MAX in *; lia).
  apply (IH _ _ (splice (doff x) bs dst)); simpl; try lia; by simplify_map_eq.
Qed.

(** The effect of a transfer that succeeds, for every schedule. *)
Lemma posix_transfer_true source dest soffset doffset size s s' p src q :
  lookup_path (files s) source = Some (p, Reg src) → resolve (files s) dest = Some q →
  p ≠ q → 0 ≤ soffset ≤ LONG_MAX → 0 ≤ doffset → is_size size → zlen src ≤ LONG_MAX →
  posix_transfer_file source dest soffset doffset size s = (Val true, s') →
  ∃ old, (files s !! q = Some (Reg old) ∨ files s !! q = None ∧ old = []) ∧
    files s' = <[q := Reg (splice doffset (ztake size (zdrop soffset src)) old)]> (files s).
Proof.
  intros Hp Hq Hpq Hso Hdo Hsize HL H. unfold posix_transfer_file in H.
  apply comp_bind_inv in H as (fs & s1 & Ho & H).
  apply open_rd_spec in Ho as [Hf1 Ho].
  destruct Ho as [?|(q1 & nd & Hq1 & ?)]; simplify_eq.
  apply comp_bind_inv in H as (fd & s2 & Hw & H). destruct fd as [fd|]; [|done].
  apply open_wr_some in Hw as (Hfd & old & Hold & Hf2). rewrite Hf1 in *. simplify_eq.
  apply comp_bind_inv in H as (fsize & s3 & Hst & H).
  unfold file_size in Hst. apply comp_bind_inv in Hst as (r & s4 & Hst & Hret).
  unfold mret, comp_ret in Hret. simplify_eq.
  assert (∀ t, files s !! q ≠ Some (Sym t)) as Hns by (intros t ?; naive_solver).
  apply stat_size_spec in Hst as [Hf3 Hr].
  rewrite Hf2 in Hf3, Hr.
  assert (lookup_path (<[q := Reg old]> (files s)) source = Some (p, Reg src)) as Hp'
    by by apply lookup_path_insert_reg.
  assert (files s3 !! p = Some (Reg src) ∧ files s3 !! q = Some (Reg old)) as [Hsp Hsq].
  { rewrite Hf3. apply lookup_path_at in Hp. by simplify_map_eq. }
  assert (r = None ∨ r = Some (zlen src)) as Hr' by naive_solver.
  unfold file_transfer_loop, transfer_loop in H.
  set (fsz := match r with Some n => n | None => -1 end) in *.
  set (rem := Z.min size (u64 (fsz - soffset))) in *.
  pose proof (u64_range (fsz - soffset)) as Hu. unfold is_size in *.
  apply (transfer_run_true _ _ _ _ _ _ src old) in H as [Hlen Hf4];
    simpl in *; try done; try lia.
  exists old. split; [done|]. rewrite Hf4, Hf3, insert_insert_eq. do 3 f_equal.
  rewrite zlen_ztake, zlen_zdrop in Hlen by lia.
  destruct (Z.min_spec size (u64 (fsz - soffset))) as [[? Heq]|[? Heq]];
    fold rem in Heq; [by rewrite Heq|].
  destruct Hr' as [Hr'|Hr'].
  - exfalso. subst r. simpl in fsz. subst fsz.
    rewrite Heq in Hlen. unfold u64 in Hlen.
    replace (-1 - soffset) with ((2 ^ 64 - 1 - soffset) + (-1) * 2 ^ 64) in Hlen by lia.
    rewrite Z.mod_add, Z.mod_small in Hlen by (unfold LONG_MAX in *; lia).
    unfold LONG_MAX in *. pose proof (zlen_nonneg src). lia.
  - subst r. simpl in fsz. subst fsz. pose proof (zlen_nonneg src).
    destruct (Z.le_gt_cases soffset (zlen src)).
    + rewrite u64_small in Heq by (unfold is_size, SIZE_MAX, LONG_MAX in *; lia).
      rewrite !ztake_all; [done|rewrite zlen_zdrop; lia..].
    + by rewrite zdrop_all, !ztake_0 by lia.
Qed.

(** Without faults a transfer from an existing range to a path that can be
    opened succeeds. *)
Lemma posix_transfer_free source dest soffset doffset size f p src q old :
  lookup_path f source = Some (p, Reg src) → resolve f dest = Some q → p ≠ q →
  (f !! q = Some (Reg old) ∨ f !! q = None ∧ parent_ok f q = true ∧ old = []) →
  0 ≤ soffset ≤ zlen src → 0 ≤ doffset → is_size size → zlen src ≤ LONG_MAX →
  doffset + zlen src ≤ LONG_MAX →
  posix_transfer_file source dest soffset doffset size (mk_sys f [])
  = (Val true,
     mk_sys (<[q := Reg (splice doffset (ztake size (zdrop soffset src)) old)]> f) []).
Proof.
  intros Hp Hq Hpq Hold Hso Hdo Hsize HL HdL.
  assert (∃ f', posix_transfer_file source dest soffset doffset size (mk_sys f [])
                = (Val true, mk_sys f' [])) as [f' Hrun].
  { unfold posix_transfer_file, mbind, comp_bind.
    rewrite (open_rd_free _ _ p (Reg src)) by done.
    rewrite (open_wr_free _ _ _ q old) by done.
    assert (∀ t, f !! q ≠ Some (Sym t)) as Hns by (intros t ?; naive_solver).
    unfold file_size, mbind, comp_bind.
    rewrite (stat_size_free _ _ p src) by by apply lookup_path_insert_reg.
    unfold mret, comp_ret, file_transfer_loop, transfer_loop.
    apply lookup_path_at in Hp. unfold is_size in *.
    rewrite u64_small by (unfold is_size, SIZE_MAX, LONG_MAX in *; lia).
    apply (transfer_run_free _ _ _ _ _ src old); simpl; try lia; simplify_map_eq; try done.
    unfold transfer_fuel. simplify_map_eq. unfold zlen in *. lia. }
  rewrite Hrun. eapply posix_transfer_true in Hrun as (old' & Hold' & Hf);
    [|done..|unfold LONG_MAX in *; lia|done|done|done].
  simpl in *. do 2 f_equal. assert (old' = old) as -> by naive_solver. done.
Qed.

(** ** Loops that never end *)

Lemma pread_sched fd n off s o s' : pread fd n off s = (o, s') → sched s' = tail (sched s).
Proof.
  destruct s as [f [|d ds]]; unfold pread; free_run; intros; by simplify_eq.
Qed.

Lemma pwrite_sched fd bs off s o s' : pwrite fd bs off s = (o, s') → sched s' = tail (sched s).
Proof.
  destruct s as [f [|d ds]]; unfold pwrite; free_run; intros H;
    repeat (case_match; simplify_eq/=; try done).
Qed.

(** The calls return, so an iteration always ends with a decision. *)
Lemma pread_val fd n off s : ∃ r s', pread fd n off s = (Val r, s').
Proof. unfold pread. posix_step. by do 2 eexists. Qed.

Lemma pwrite_val fd bs off s : ∃ r s', pwrite fd bs off s = (Val r, s').
Proof.
  unfold pwrite. posix_step. unfold get, put, mret, comp_ret.
  destruct (_ <? _); [by do 2 eexists|].
  destruct (_ !! fd) as [[]|], d; by do 2 eexists.
Qed.

Lemma rw_iteration_val fs fd x s : ∃ r s', rw_iteration fs fd x s = (Val r, s').
Proof.
  unfold rw_iteration. destruct (remaining x <=? 0); [by do 2 eexists|].
  destruct (pread_val fs (Z.min MAX_BUFF_SIZE (remaining x)) (soff x) s) as (r & s1 & Hr).
  erewrite comp_bind_val by done. destruct r as [bs|]; [|by do 2 eexists].
  destruct (pwrite_val fd bs (doff x) s1) as (w & s2 & Hw).
  erewrite comp_bind_val by done. by do 2 eexists.
Qed.

Definition transfer_measure (src : list byte) (s : sys) (x : xfer) : nat :=
  length (zdrop x.(soff) src) + length s.(sched).

(** An iteration that goes on comes closer to the end of the source or of the
    schedule, or it changed nothing and the loop is stuck. *)
Lemma rw_iteration_progress fs fd x s x' s' src dst :
  fs ≠ fd → files s !! fs = Some (Reg src) → files s !! fd = Some (Reg dst) →
  0 ≤ x.(soff) → 0 ≤ x.(doff) → 0 ≤ x.(remaining) ≤ SIZE_MAX → zlen src ≤ LONG_MAX →
  rw_iteration fs fd x s = (Val (More x'), s') →
  (transfer_measure src s' x' < transfer_measure src s x)%nat ∨ (x' = x ∧ s' = s).
Proof.
  intros Hne Hs Hd Hso Hdo Hr HL Hit. pose proof Hit as Hit'.
  apply (rw_iteration_more _ _ _ _ _ _ src dst) in Hit
    as (Hrem & Hso' & Hdo' & n & Hn & -> & Hnlen & Hf); [|done..].
  assert (sched s' = tail (tail (sched s))) as Hsch.
  { unfold rw_iteration in Hit'. destruct (Z.leb_spec (remaining x) 0); [lia|].
    apply comp_bind_inv in Hit' as (r & s1 & Hpr%pread_sched & Hit').
    destruct r as [buff|]; [|done].
    apply comp_bind_inv in Hit' as (w & s2 & Hpw%pwrite_sched & Hit').
    unfold mret, comp_ret in Hit'. simplify_eq. by rewrite <-Hpr, <-Hpw. }
  assert (n ≤ zlen (zdrop (soff x) src)) as HnL.
  { rewrite Hnlen, zlen_ztake by lia. lia. }
  pose proof (zlen_nonneg src). pose proof HnL as HnL'. rewrite zlen_zdrop in HnL' by lia.
  rewrite advance_small in * by (unfold SIZE_MAX, LONG_MAX in *; lia).
  unfold transfer_measure. simpl. rewrite Hsch.
  rewrite <-(zdrop_zdrop n) by lia. rewrite (zdrop_drop n), length_drop.
  destruct (decide (n = 0)) as [->|Hn0].
  - destruct (sched s) as [|d [|d' ds]] eqn:Esch; simpl; [right|left; lia|left; lia].
    rewrite !Z.add_0_r, Z.sub_0_r. split; [by destruct x|].
    destruct s as [f ss], s' as [f' ss']. simpl in *. subst. f_equal.
    rewrite ztake_0 by done. simpl. by apply insert_id.
  - left. unfold zlen in HnL. destruct (sched s) as [|d [|d' ds]]; simpl; lia.
Qed.

Lemma transfer_run_hang fs fd n x s s1 src dst :
  fs ≠ fd → files s !! fs = Some (Reg src) → files s !! fd = Some (Reg dst) →
  0 ≤ x.(soff) → 0 ≤ x.(doff) → 0 ≤ x.(remaining) ≤ SIZE_MAX → zlen src ≤ LONG_MAX →
  (transfer_measure src s x < n)%nat →
  transfer_run (rw_iteration fs fd) n x s = (Hang, s1) →
  ∀ m, ∃ s2, transfer_run (rw_iteration fs fd) m x s = (Hang, s2).
Proof.
  intros Hne. revert x s dst. induction n as [|n IH]; intros x s dst Hs Hd Hso Hdo Hr HL Hm;
    [lia|]. simpl. unfold mbind, comp_bind.
  destruct (rw_iteration_val fs fd x s) as (r & s' & Hit). rewrite Hit.
  destruct r as [b|x']; intros Hrun.
  - unfold mret, comp_ret in Hrun. by simplify_eq.
  - intros m. destruct (rw_iteration_progress _ _ _ _ _ _ src dst Hne Hs Hd Hso Hdo Hr HL Hit)
      as [Hlt|[-> ->]].
    + pose proof Hit as Hit'.
      apply (rw_iteration_more _ _ _ _ _ _ src dst) in Hit'
        as (Hrem & Hso' & Hdo' & k & Hk & -> & Hklen & Hf); [|done..].
      assert (k ≤ LONG_MAX).
      { pose proof (zlen_nonneg src). rewrite Hklen, zlen_ztake, zlen_zdrop by lia. lia. }
      destruct m as [|m]; [by eexists|]. simpl. unfold mbind, comp_bind. rewrite Hit.
      rewrite advance_small in * by (unfold SIZE_MAX, LONG_MAX in *; lia).
      eapply IH; simpl; try done; try lia; rewrite Hf; by simplify_map_eq.
    + induction m as [|m IHm]; [by eexists|]. simpl. unfold mbind, comp_bind.
      by rewrite Hit.
Qed.

(** A transfer loop that has not ended after [transfer_fuel] iterations
    never ends, so the bound on the iterations of the model loses nothing. *)
Theorem file_transfer_loop_hang (fs : string) (soff : Z) (fd : string) (doff remaining : Z)
    (s s1 : sys) (src dst : list byte) :
  fs ≠ fd → files s !! fs = Some (Reg src) → files s !! fd = Some (Reg dst) →
  0 ≤ soff → 0 ≤ doff → is_size remaining → zlen src ≤ LONG_MAX →
  file_transfer_loop fs soff fd doff remaining s = (Hang, s1) →
  ∀ n, ∃ s2, transfer_run (rw_iteration fs fd) n (mk_xfer soff doff remaining) s = (Hang, s2).
Proof.
  intros Hne Hs Hd Hso Hdo Hr HL H. unfold file_transfer_loop, transfer_loop in H.
  eapply transfer_run_hang; try done. unfold transfer_measure, transfer_fuel. rewrite Hs.
  simpl. rewrite zdrop_drop, length_drop. lia.
Qed.

Definition demo_fs : gmap string node :=
  <["/s" := Dir]> (<["/s/a" := Reg [Byte.x01; Byte.x02; Byte.x03]]>
  (<["/s/b" := Reg [Byte.x09; Byte.x09; Byte.x09; Byte.x09]]> ∅)).

Lemma file_transfer_loop_hang_witness :
  (file_transfer_loop "/s/a" 3 "/s/b" 0 5 (mk_sys demo_fs [])).1 = Hang ∧
  ∀ n, ∃ s2, transfer_run (rw_iteration "/s/a" "/s/b") n (mk_xfer 3 0 5)
               (mk_sys demo_fs []) = (Hang, s2).
Proof.
  split; [vm_compute; reflexivity|].
  eapply (file_transfer_loop_hang "/s/a" 3 "/s/b" 0 5 (mk_sys demo_fs []) _
    [Byte.x01; Byte.x02; Byte.x03] [Byte.x09; Byte.x09; Byte.x09; Byte.x09]);
    try (vm_compute; reflexivity); vm_compute; (discriminate || (split; discriminate)).
Defined.

Lemma transfer_run_eof fs fd n x f src dst :
  f !! fs = Some (Reg src) → f !! fd = Some (Reg dst) →
  zlen src ≤ x.(soff) ≤ LONG_MAX → 0 ≤ x.(doff) ≤ LONG_MAX → 0 < x.(remaining) ≤ SIZE_MAX →
  transfer_run (rw_iteration fs fd) n x (mk_sys f []) = (Hang, mk_sys f []).
Proof.
  intros Hs Hd Hso Hdo Hr. pose proof (zlen_nonneg src).
  induction n as [|n IH]; [done|]. simpl. unfold rw_iteration.
  destruct (Z.leb_spec (remaining x) 0); [lia|]. unfold mbind, comp_bind.
  rewrite (pread_free _ _ _ _ src) by (done || lia).
  rewrite zdrop_all by lia. rewrite (pwrite_free _ _ _ _ dst) by (done || lia).
  simpl. rewrite insert_id by done. unfold mret, comp_ret. 
  replace (advance x (zlen [])) with x; [done|].
  rewrite advance_small by (unfold zlen, SIZE_MAX, LONG_MAX in *; simpl; lia).
  unfold zlen. simpl. rewrite !Z.add_0_r, Z.sub_0_r. by destruct x.
Qed.

(** A transfer that starts behind the end of its source never returns: the
    unsigned difference [file_size(source) - soffset] wraps around and the loop
    does not stop when [pread] reports the end of the file. *)
Theorem posix_transfer_past_end (source dest : string) (soffset doffset size : Z)
    (f : gmap string node) (src dst : list byte) :
  source ≠ dest → f !! source = Some (Reg src) → f !! dest = Some (Reg dst) →
  zlen src < soffset ≤ LONG_MAX → 0 ≤ doffset ≤ LONG_MAX → 0 < size ≤ SIZE_MAX →
  posix_transfer_file source dest soffset doffset size (mk_sys f [])
  = (Hang, mk_sys f []).
Proof.
  intros Hne Hs Hd Hso Hdo Hsize. pose proof (zlen_nonneg src).
  unfold posix_transfer_file, mbind, comp_bind.
  rewrite (open_rd_free _ _ source (Reg src)) by by apply lookup_path_reg.
  rewrite (open_wr_free _ _ _ dest dst) by first [by left|by eapply resolve_reg].
  unfold file_size, mbind, comp_bind. rewrite insert_id by done.
  rewrite (stat_size_free _ _ source src) by by apply lookup_path_reg.
  unfold mret, comp_ret, file_transfer_loop, transfer_loop.
  apply (transfer_run_eof _ _ _ _ _ src dst); simpl; try done; try lia.
  unfold u64. replace (zlen src - soffset)
    with ((2 ^ 64 + zlen src - soffset) + (-1) * 2 ^ 64) by lia.
  rewrite Z.mod_add, Z.mod_small by (unfold LONG_MAX in *; lia).
  unfold LONG_MAX, SIZE_MAX in *. lia.
Qed.

Lemma posix_transfer_past_end_witness :
  posix_transfer_file "/s/a" "/s/b" 7 0 5 (mk_sys demo_fs []) = (Hang, mk_sys demo_fs []).
Proof.
  apply (posix_transfer_past_end "/s/a" "/s/b" 7 0 5 demo_fs
    [Byte.x01; Byte.x02; Byte.x03] [Byte.x09; Byte.x09; Byte.x09; Byte.x09]);
    try (vm_compute; reflexivity); vm_compute; (discriminate || (split; [reflexivity|discriminate])
     || (split; discriminate)).
Defined.

Lemma direct_iteration_end fs fd x s :
  x.(remaining) ≤ 0 → direct_iteration fs fd x s = (Val (Done true), s).
Proof. intros H. unfold direct_iteration. by destruct (Z.leb_spec (remaining x) 0); [|lia]. Qed.

Lemma direct_run_free fs fd fuel x f src dst :
  fs ≠ fd → f !! fs = Some (Reg src) → f !! fd = Some (Reg dst) →
  0 ≤ x.(soff) → 0 ≤ x.(doff) → 0 ≤ x.(remaining) →
  x.(soff) + x.(remaining) ≤ zlen src → zlen src ≤ LONG_MAX →
  x.(doff) + x.(remaining) ≤ LONG_MAX → (1 < fuel)%nat →
  transfer_run (direct_iteration fs fd) fuel x (mk_sys f [])
  = (Val true,
     mk_sys (<[fd := Reg (splice x.(doff) (ztake x.(remaining) (zdrop x.(soff) src)) dst)]> f) []).
Proof.
  intros Hne Hs Hd Hso Hdo Hr Hle HL HdL Hfuel.
  destruct fuel as [|[|fuel]]; [lia|lia|]. cbn [transfer_run].
  destruct (Z.le_gt_cases (remaining x) 0).
  { erewrite comp_bind_val by by apply direct_iteration_end.
    rewrite ztake_0 by done. simpl. by rewrite insert_id. }
  set (f' := <[fd := _]> f).
  assert (direct_iteration fs fd x (mk_sys f [])
    = (Val (More (advance x (remaining x))), mk_sys f' [])) as Hit.
  { unfold direct_iteration, copy_file_range. destruct (Z.leb_spec (remaining x) 0); [lia|].
    free_run. rewrite (proj2 (orb_false_iff _ _)) by (split; apply Z.ltb_ge; lia).
    rewrite Hs, Hd. cbn [files set_files sched].
    rewrite zlen_ztake, zlen_zdrop by lia.
    by replace (Z.min (remaining x) (Z.max 0 (zlen src - soff x))) with (remaining x) by lia. }
  erewrite comp_bind_val by done. cbn beta iota.
  rewrite advance_small by (unfold SIZE_MAX, LONG_MAX in *; lia).
  by erewrite comp_bind_val by (apply direct_iteration_end; simpl; lia).
Qed.

(** C36: the two build variants of the transfer loop are equivalent: without
    faults both end, successfully and with the same file contents. *)
Theorem transfer_variants_agree (fs : string) (soff : Z) (fd : string) (doff remaining : Z)
    (f : gmap string node) (src dst : list byte) :
  fs ≠ fd → f !! fs = Some (Reg src) → f !! fd = Some (Reg dst) →
  0 ≤ soff → 0 ≤ doff → 0 ≤ remaining → soff + remaining ≤ zlen src →
  zlen src ≤ LONG_MAX → doff + remaining ≤ LONG_MAX →
  file_transfer_loop fs soff fd doff remaining (mk_sys f [])
  = file_transfer_loop_direct fs soff fd doff remaining (mk_sys f []) ∧
  (file_transfer_loop fs soff fd doff remaining (mk_sys f [])).1 = Val true.
Proof.
  intros Hne Hs Hd Hso Hdo Hr Hle HL HdL.
  unfold file_transfer_loop, file_transfer_loop_direct, transfer_loop.
  assert (transfer_fuel (mk_sys f []) fs = 2 + length src + 0)%nat as ->.
  { unfold transfer_fuel. simpl. by rewrite Hs. }
  rewrite (direct_run_free fs fd _ _ f src dst) by (done || (simpl; lia)).
  edestruct (transfer_run_free fs fd (2 + length src + 0)%nat
    (mk_xfer soff doff remaining) f src dst) as [f' Hrun]; simpl; try done; try lia.
  { unfold zlen in *. lia. }
  simpl in Hrun. rewrite Hrun. split; [|done].
  apply (transfer_run_true fs fd (2 + length src + 0)%nat _ _ _ src dst) in Hrun as [_ Hf];
    simpl in *; try done; [|unfold SIZE_MAX, LONG_MAX in *; lia].
  by rewrite <-Hf.
Qed.

Lemma transfer_variants_agree_witness :
  file_transfer_loop "/s/a" 1 "/s/b" 3 2 (mk_sys demo_fs [])
  = file_transfer_loop_direct "/s/a" 1 "/s/b" 3 2 (mk_sys demo_fs []) ∧
  (file_transfer_loop "/s/a" 1 "/s/b" 3 2 (mk_sys demo_fs [])).1 = Val true.
Proof.
  apply (transfer_variants_agree "/s/a" 1 "/s/b" 3 2 demo_fs
    [Byte.x01; Byte.x02; Byte.x03] [Byte.x09; Byte.x09; Byte.x09; Byte.x09]);
    try (vm_compute; reflexivity); vm_compute; discriminate.
Defined.

(** ** Whole files *)

Lemma pread_total fd n off s o s' :
  pread fd n off s = (o, s') → files s' = files s ∧ ∃ r, o = Val r.
Proof. unfold pread. posix_step. unfold get, mret, comp_ret. intros. simplify_eq. eauto. Qed.

Lemma read_file_spec p n s o s' :
  0 ≤ n → read_file p n s = (o, s') →
  files s' = files s ∧
  (o = Val None ∨ ∃ q d, lookup_path (files s) p = Some (q, Reg d) ∧ o = Val (Some (ztake n d))).
Proof.
  unfold read_file. intros Hn H. bind_spec H open_rd_spec E.
  destruct E as (Hf & [->|(q & nd & Hl & ->)]); cbn beta iota in H.
  { unfold mret, comp_ret in H. simplify_eq. auto. }
  apply lookup_path_at in Hl as Hq.
  rewrite comp_bind_unfold in H. destruct (pread q n 0 st) as [o1 s1] eqn:E.
  pose proof (pread_total _ _ _ _ _ _ E) as (Hf1 & r & ->). rewrite Hf in Hf1.
  unfold mret, comp_ret in H. simplify_eq. split; [done|].
  destruct r as [bs|]; [|by left]. destruct (Z.eqb_spec (zlen bs) n) as [Hlen|]; [|by left].
  right. apply pread_some in E as (_ & _ & data & Hd & _ & Hbs); [|done].
  rewrite Hf, Hq in Hd. simplify_eq. exists q, data. split; [done|].
  rewrite zdrop_0 in Hbs by done. by rewrite <-Hbs.
Qed.

Lemma read_file_free p n f q d :
  0 ≤ n ≤ zlen d → lookup_path f p = Some (q, Reg d) →
  read_file p n (mk_sys f []) = (Val (Some (ztake n d)), mk_sys f []).
Proof.
  intros Hn Hl. unfold read_file. erewrite comp_bind_val by by eapply open_rd_free. cbn beta iota.
  erewrite comp_bind_val by (eapply pread_free; [done|by eapply lookup_path_at]). cbn beta.
  rewrite zdrop_0 by done. rewrite zlen_ztake by lia.
  replace (Z.min n (zlen d)) with n by lia. by rewrite Z.eqb_refl.
Qed.

Lemma read_file_missing p n f :
  f !! p = None → read_file p n (mk_sys f []) = (Val None, mk_sys f []).
Proof.
  intros Hp. unfold read_file, open_rd. free_run. unfold lookup_path. by rewrite resolve_none, Hp.
Qed.

Lemma write_file_true p bs s s' :
  write_file p bs s = (Val true, s') →
  ∃ q, resolve (files s) p = Some q ∧ files s' = <[q := Reg bs]> (files s).
Proof.
  unfold write_file. intros (fd & s1 & Ho & H)%comp_bind_inv. destruct fd as [q|]; [|done].
  apply open_wr_some in Ho as (Hq & d & _ & Hf). cbn iota in Hf.
  apply comp_bind_inv in H as (w & s2 & Hw & H). unfold mret, comp_ret in H. simplify_eq.
  case_bool_decide as Ew; simplify_eq.
  apply pwrite_full in Hw as (_ & data & Hd & ->). exists q. split; [done|].
  rewrite Hf in *. simplify_map_eq. rewrite insert_insert_eq, splice_0. f_equal.
  by rewrite zdrop_all, app_nil_r by apply zlen_nonneg.
Qed.

Lemma write_file_free p bs f :
  (∀ t, f !! p ≠ Some (Sym t)) → f !! p ≠ Some Dir → (f !! p = None → parent_ok f p = true) →
  write_file p bs (mk_sys f []) = (Val true, mk_sys (<[p := Reg bs]> f) []).
Proof.
  intros Hl Hdir Hpar. unfold write_file.
  assert (∃ d, f !! p = Some (Reg d) ∨ f !! p = None ∧ parent_ok f p = true ∧ d = []) as [d Hd].
  { destruct (f !! p) as [[d|t|]|]; [by eauto|by destruct (Hl t)|done|by eauto 10]. }
  erewrite comp_bind_val by (eapply (open_wr_free _ _ _ p); [by apply resolve_file|exact Hd]).
  cbn beta iota. erewrite comp_bind_val by (apply pwrite_free; [done|by apply lookup_insert_eq]).
  cbn beta. rewrite bool_decide_true by done. rewrite insert_insert_eq, splice_0.
  by rewrite zdrop_all, app_nil_r by apply zlen_nonneg.
Qed.

Lemma access_free p f :
  access p (mk_sys f []) = (Val (bool_decide (is_Some (lookup_path f p))), mk_sys f []).
Proof. done. Qed.

Lemma check_dir_free d f : is_dir f d = true → check_dir d (mk_sys f []) = (Val true, mk_sys f []).
Proof.
  intros Hd. unfold check_dir. erewrite comp_bind_val by (unfold mkdir; free_run;
    unfold is_dir in Hd; by destruct (f !! d)). unfold opendir. free_run. by rewrite Hd.
Qed.

(** Without faults the loop copies a range that exists. *)
Lemma file_transfer_loop_free fs fd soff doff n f src dst :
  fs ≠ fd → f !! fs = Some (Reg src) → f !! fd = Some (Reg dst) →
  0 ≤ soff → 0 ≤ doff → 0 ≤ n → soff + n ≤ zlen src → zlen src ≤ LONG_MAX → doff + n ≤ LONG_MAX →
  file_transfer_loop fs soff fd doff n (mk_sys f []) =
    (Val true, mk_sys (<[fd := Reg (splice doff (ztake n (zdrop soff src)) dst)]> f) []).
Proof.
  intros Hne Hs Hd Hso Hdo Hn Hle HL HdL. unfold file_transfer_loop, transfer_loop.
  destruct (transfer_run_free fs fd (transfer_fuel (mk_sys f []) fs)
    {| soff := soff; doff := doff; remaining := n |} f src dst) as [f' Hrun]; simpl; try done.
  { unfold transfer_fuel. simpl. rewrite Hs. unfold zlen in *. simpl. lia. }
  rewrite Hrun. apply (transfer_run_true _ _ _ _ _ _ src dst) in Hrun as [_ Hf]; simpl in *; try done.
  - by rewrite Hf.
  - unfold SIZE_MAX, LONG_MAX in *. lia.
Qed.
