(* ===== verification/Bytes.v ===== *)
(** * Bytes: the memory representation of integers

    VELOC writes [int], [long] and [size_t] values to files as they are in
    memory: 4 or 8 bytes, least significant byte first. *)

From coqutil Require Word.LittleEndianList.
From S2P Require Import Prelude FileSystem.

Local Open Scope Z_scope.

Definition sizeof_int : Z := 4.
Definition sizeof_long : Z := 8.
Definition sizeof_size_t : Z := 8.

Definition le_bytes (n : nat) (z : Z) : list byte := LittleEndianList.le_split n z.
Definition le_value (bs : list byte) : Z := LittleEndianList.le_combine bs.

Definition int_bytes (z : Z) : list byte := le_bytes 4 z.
Definition long_bytes (z : Z) : list byte := le_bytes 8 z.
Definition size_bytes (z : Z) : list byte := le_bytes 8 z.

Definition int_of (bs : list byte) : Z := i32 (le_value bs).
Definition long_of (bs : list byte) : Z := i64 (le_value bs).
Definition size_of (bs : list byte) : Z := le_value bs.

Lemma length_le_bytes n z : length (le_bytes n z) = n.
Proof. apply LittleEndianList.length_le_split. Qed.

Lemma zlen_int_bytes z : zlen (int_bytes z) = 4.
Proof. unfold zlen, int_bytes. by rewrite length_le_bytes. Qed.

Lemma zlen_long_bytes z : zlen (long_bytes z) = 8.
Proof. unfold zlen, long_bytes. by rewrite length_le_bytes. Qed.

Lemma zlen_size_bytes z : zlen (size_bytes z) = 8.
Proof. unfold zlen, size_bytes. by rewrite length_le_bytes. Qed.

Lemma le_value_bytes n z : le_value (le_bytes n z) = z mod 2 ^ (8 * Z.of_nat n).
Proof.
  unfold le_value, le_bytes. rewrite LittleEndianList.le_combine_split.
  f_equal. f_equal. lia.
Qed.

Lemma size_of_bytes z : is_size z → size_of (size_bytes z) = z.
Proof.
  intros H. unfold size_of, size_bytes. rewrite le_value_bytes.
  by apply (u64_small z).
Qed.

Lemma size_of_range bs : zlen bs = 8 → is_size (size_of bs).
Proof.
  unfold zlen, size_of, le_value, is_size, SIZE_MAX. intros H.
  pose proof (LittleEndianList.le_combine_bound bs).
  replace (8 * Z.of_nat (length bs)) with 64 in * by lia. lia.
Qed.

Lemma int_of_bytes z : is_int z → int_of (int_bytes z) = z.
Proof.
  intros H. unfold int_of, int_bytes. rewrite le_value_bytes.
  unfold i32, is_int, INT_MIN, INT_MAX in *.
  change (8 * Z.of_nat 4) with 32. rewrite Zplus_mod_idemp_l.
  rewrite Z.mod_small; lia.
Qed.

Lemma long_of_bytes z : - 2 ^ 63 ≤ z ≤ LONG_MAX → long_of (long_bytes z) = z.
Proof.
  intros H. unfold long_of, long_bytes. rewrite le_value_bytes.
  unfold i64, LONG_MAX in *.
  change (8 * Z.of_nat 8) with 64. rewrite Zplus_mod_idemp_l.
  rewrite Z.mod_small; lia.
Qed.

#[export] Hint Rewrite zlen_int_bytes zlen_long_bytes zlen_size_bytes : veloc.

(** Every sequence of four or eight bytes is the representation of a value. *)
Lemma le_bytes_mod n z : le_bytes n (z mod 2 ^ (8 * Z.of_nat n)) = le_bytes n z.
Proof.
  unfold le_bytes. rewrite (LittleEndianList.le_split_mod z). do 2 f_equal.
  f_equal. lia.
Qed.

Lemma int_bytes_of bs : zlen bs = 4 → int_bytes (int_of bs) = bs.
Proof.
  intros H. unfold int_bytes. rewrite <-le_bytes_mod. unfold int_of, i32.
  change (8 * Z.of_nat 4) with 32.
  replace (((le_value bs + 2 ^ 31) mod 2 ^ 32 - 2 ^ 31) mod 2 ^ 32) with (le_value bs mod 2 ^ 32).
  - change 32 with (8 * Z.of_nat 4) at 1. rewrite le_bytes_mod.
    apply LittleEndianList.split_le_combine'. unfold zlen in H. lia.
  - rewrite Zminus_mod_idemp_l. f_equal. lia.
Qed.

Lemma size_bytes_of bs : zlen bs = 8 → size_bytes (size_of bs) = bs.
Proof.
  intros H. apply LittleEndianList.split_le_combine'. unfold zlen in H. lia.
Qed.

Lemma int_of_range bs : is_int (int_of bs).
Proof.
  unfold int_of, i32, is_int, INT_MIN, INT_MAX.
  pose proof (Z.mod_pos_bound (le_value bs + 2 ^ 31) (2 ^ 32) eq_refl). lia.
Qed.
