(* ===== verification/Ini.v ===== *)
(** * Ini: [src/common/INIReader.h]

    The parser of configuration files: name/value lines in the style of INI
    files, with sections, continuation lines and comments, and the reader that
    collects the values under keys in lower case.

    The parser edits the line buffer in place, but only ever shortens what it
    still looks at, so the pointers [start], [end], [name] and [value] become the
    strings they point to.  [fgets] is modelled with its limit, which splits long
    lines.  The numeric accessors [GetInteger] and [GetReal] are in [IniNumbers]. *)

From S2P Require Import Prelude Text FileSystem.
From stdpp Require Export gmap strings.
From Stdlib Require Import Strings.String.

Local Open Scope Z_scope.

Definition INI_MAX_LINE : nat := 200.
Definition MAX_SECTION : nat := 50.
Definition MAX_NAME : nat := 50.

(** ** Strings of C *)

Definition newline : ascii := "010".
Definition NUL : ascii := "000".

(** The string a buffer holds ends at the first null byte. *)
Definition cstr (s : string) : string := (sspan (λ c, negb (is_char NUL c)) s).1.

(** [fgets(line, n + 1, stream)]: the line read, up to [n] characters, and the
    rest of the stream. *)
Fixpoint fgets (n : nat) (s : string) : string * string :=
  match n, s with
  | O, _ => ("", s)
  | _, EmptyString => ("", s)
  | S n, String c s =>
      if is_char newline c then (String c "", s)
      else let '(l, rest) := fgets n s in (String c l, rest)
  end.

Fixpoint rstrip (s : string) : string :=
  match s with
  | EmptyString => ""
  | String c s =>
      match rstrip s with
      | EmptyString => if isspace c then "" else String c ""
      | r => String c r
      end
  end.

Definition lskip (s : string) : string := (sspan isspace s).2.

(** What precedes the character or comment found, and what follows from it on. *)
Fixpoint find_from (was_space : bool) (chars : ascii → bool) (s : string) : string * string :=
  match s with
  | EmptyString => ("", "")
  | String c s' =>
      if negb (chars c) && negb (was_space && is_char ";" c) then
        let '(a, b) := find_from (isspace c) chars s' in (String c a, b)
      else ("", s)
  end.

Definition find_chars_or_comment : (ascii → bool) → string → string * string := find_from false.

(** [chars = NULL] *)
Definition no_chars (c : ascii) : bool := false.

Fixpoint strncpy0 (size : nat) (src : string) : string :=
  match size, src with
  | S (S n), String c src => String c (strncpy0 (S n) src)
  | _, _ => ""
  end.

(** ** The reader *)

Module INIReader.

Record t := mk {
  _values : gmap string string;
  _sections : gset string
}.

Definition empty : t := mk ∅ ∅.

Definition MakeKey (section name : string) : string := tolower (section +:+ "=" +:+ name).

(** [_values[key]] *)
Definition value_at (key : string) (r : t) : string := default "" (r.(_values) !! key).

Definition ValueHandler (section name value : string) (r : t) : Z * t :=
  let key := MakeKey section name in
  let old := value_at key r in
  let old := if (0 <? String.length old)%nat then old +:+ String newline "" else old in
  (1, mk (<[key := old +:+ value]> r.(_values)) ({[section]} ∪ r.(_sections))).

Definition Get (r : t) (section name default_value : string) : string :=
  default default_value (r.(_values) !! MakeKey section name).

Definition Sections (r : t) : gset string := r.(_sections).

Definition GetBoolean (r : t) (section name : string) (default_value : bool) : bool :=
  let valstr := tolower (Get r section name "") in
  if bool_decide (valstr ∈ ["true"; "yes"; "on"; "1"]) then true
  else if bool_decide (valstr ∈ ["false"; "no"; "off"; "0"]) then false
  else default_value.

End INIReader.
Import INIReader.

(** ** The parser *)

(** The local variables that live across lines. *)
Record ini_t := mk_ini {
  section : string;
  prev_name : string;
  user : INIReader.t
}.

Definition BOM : string := String "239" (String "187" (String "191" "")).

(** The handler, and whether it reports an error. *)
Definition handle (name value : string) (p : ini_t) : bool * ini_t :=
  let '(ok, r) := ValueHandler p.(section) name value p.(user) in
  (ok =? 0, mk_ini p.(section) p.(prev_name) r).

(** A [[section]] line; [start] is what follows the bracket. *)
Definition section_line (start : string) (p : ini_t) : bool * ini_t :=
  let '(a, b) := find_chars_or_comment (is_char "]") start in
  if shead_is (is_char "]") b then (false, mk_ini (strncpy0 MAX_SECTION a) "" p.(user))
  else (true, p).

(** A [name = value] line. *)
Definition pair_line (start : string) (p : ini_t) : bool * ini_t :=
  let separator c := is_char "=" c || is_char ":" c in
  let '(a, b) := find_chars_or_comment separator start in
  match b with
  | String c b =>
      if separator c then
        let name := rstrip a in
        let value := rstrip (find_chars_or_comment no_chars (lskip b)).1 in
        handle name value (mk_ini p.(section) (strncpy0 MAX_NAME name) p.(user))
      else (true, p)
  | EmptyString => (true, p)
  end.

(** The body of the loop: whether the line is in error, and the new state. *)
Definition parse_line (lineno : Z) (line : string) (p : ini_t) : bool * ini_t :=
  let bom := (lineno =? 1) && String.prefix BOM line in
  let stripped := rstrip (if bom then substring 3 (String.length line - 3) line else line) in
  let start := lskip stripped in
  let moved := bom || (String.length start <? String.length stripped)%nat in
  match start with
  | EmptyString => (false, p)
  | String c rest =>
      if is_char ";" c || is_char "#" c then (false, p)
      else if negb (String.eqb p.(prev_name) "") && moved then
        handle p.(prev_name) (rstrip (find_chars_or_comment no_chars start).1) p
      else if is_char "[" c then section_line rest p
      else pair_line start p
  end.

(** The loop over the lines of the stream [s], where [lineno] lines have been
    read. *)
Fixpoint parse_lines (fuel : nat) (lineno : Z) (s : string) (p : ini_t) : outcome (Z * INIReader.t) :=
  match fuel, s with
  | O, _ => Hang
  | _, EmptyString => Val (0, p.(user))
  | S fuel, _ =>
      let '(line, rest) := fgets (INI_MAX_LINE - 1) s in
      let lineno := lineno + 1 in
      let '(error, p) := parse_line lineno (cstr line) p in
      if (error : bool) then Val (lineno, p.(user)) else parse_lines fuel lineno rest p
  end.

Definition ini_parse_stream (s : string) (r : INIReader.t) : outcome (Z * INIReader.t) :=
  parse_lines (S (String.length s)) 0 s (mk_ini "" "" r).

(** The file.  [fgets] does not tell a read error from the end: the parser sees
    what has been read before. *)
Definition ini_parse (filename : string) (r : INIReader.t) : posix (Z * INIReader.t) :=
  file ← open_rd filename;
  match file with
  | None => mret (-1, r)
  | Some fd =>
      bytes ← pread fd LONG_MAX 0;
      stop (ini_parse_stream (string_of_list_byte (default [] bytes)) r)
  end.

(** The constructor of [INIReader]: [_error] and the values. *)
Definition INIReader_make (filename : string) : posix (Z * INIReader.t) :=
  ini_parse filename INIReader.empty.

(** ** Lemmas on the string functions *)

Lemma rstrip_app s t : rstrip t ≠ "" → rstrip (s +:+ t) = s +:+ rstrip t.
Proof.
  intros Ht. induction s as [|c s IH]; [done|]. rewrite !sapp_cons. simpl. rewrite IH.
  by destruct s, (rstrip t).
Qed.

Lemma rstrip_blank s t : sforall isspace t = true → rstrip (s +:+ t) = rstrip s.
Proof.
  intros Ht. induction s as [|c s IH].
  - rewrite sapp_nil_l. induction t as [|c t IH]; [done|]. simpl in *.
    apply andb_true_iff in Ht as [-> Ht]. by rewrite IH.
  - rewrite sapp_cons. simpl. by rewrite IH.
Qed.

Lemma rstrip_solid s : sforall (λ c, negb (isspace c)) s = true → rstrip s = s.
Proof.
  induction s as [|c s IH]; [done|]. simpl. intros [Hc Hs]%andb_true_iff.
  rewrite (IH Hs). destruct s; [|done]. by apply negb_true_iff in Hc as ->.
Qed.

Lemma lskip_solid s : shead_is isspace s = false → lskip s = s.
Proof. by destruct s as [|c s]; [|unfold lskip; simpl; intros ->]. Qed.

Lemma fgets_line n l rest :
  sforall (λ c, negb (is_char newline c)) l = true → (String.length l < n)%nat →
  fgets n (l +:+ String newline rest) = (l +:+ String newline "", rest).
Proof.
  revert n. induction l as [|c l IH]; intros [|n] Hl Hn; simpl in *; try lia.
  - done.
  - apply andb_true_iff in Hl as [Hc Hl]. apply negb_true_iff in Hc as ->.
    rewrite (IH n Hl) by lia. done.
Qed.

Lemma fgets_shorter n s l rest :
  fgets (S n) s = (l, rest) → s ≠ "" → (String.length rest < String.length s)%nat.
Proof.
  assert (∀ m t, String.length (fgets m t).2 ≤ String.length t)%nat as Hle.
  { intros m. induction m as [|m IH]; intros [|c t]; simpl; try lia.
    case_match; simpl; [lia|]. specialize (IH t). destruct (fgets m t); simpl in *; lia. }
  destruct s as [|c s]; [done|]. simpl. intros Hf _. case_match; simplify_eq; [lia|].
  pose proof (Hle n s) as Hs. destruct (fgets n s). simplify_eq/=. lia.
Qed.

Lemma cstr_solid s : sforall (λ c, negb (is_char NUL c)) s = true → cstr s = s.
Proof.
  unfold cstr. induction s as [|c s IH]; [done|]. simpl. intros [-> Hs]%andb_true_iff.
  specialize (IH Hs). destruct (sspan _ s). simpl in *. by rewrite IH.
Qed.

(** Characters that the search passes over. *)
Definition plain (p : ascii → bool) (c : ascii) : bool :=
  negb (p c) && negb (isspace c) && negb (is_char ";" c).

Lemma find_from_plain ws p s t :
  sforall (plain p) s = true → s ≠ "" →
  find_from ws p (s +:+ t) = (s +:+ (find_from false p t).1, (find_from false p t).2).
Proof.
  revert ws. induction s as [|c s IH]; intros ws Hs Hne; [done|]. simpl in Hs.
  apply andb_true_iff in Hs as [[[Hp Hsp]%andb_true_iff Hc]%andb_true_iff Hs].
  rewrite sapp_cons. simpl. rewrite Hp. apply negb_true_iff in Hc as ->.
  apply negb_true_iff in Hsp as ->. rewrite andb_false_r. simpl.
  destruct s as [|c' s].
  - rewrite sapp_nil_l. by destruct (find_from false p t).
  - rewrite (IH false Hs) by done. done.
Qed.

(** ** The parser returns *)

(** The parser reads every stream to its end or to its first error. *)
Lemma parse_lines_total fuel lineno s p :
  (String.length s < fuel)%nat → ∃ r, parse_lines fuel lineno s p = Val r.
Proof.
  revert lineno s p. induction fuel as [|fuel IH]; intros lineno s p Hs; [lia|].
  destruct s as [|c s]; [by eexists|]. unfold parse_lines; fold parse_lines.
  destruct (fgets _ _) as [line rest] eqn:Hf.
  destruct (parse_line _ _ _) as [[] p']; [by eexists|].
  apply IH. apply fgets_shorter in Hf; [simpl in *; lia|done].
Qed.

(** ** Round trip *)

Definition ini_char (c : ascii) : bool :=
  is_lower c || is_upper c || is_digit c || is_char "_" c.

Definition name_ok (n : string) : bool := sforall ini_char n && negb (String.eqb n "").

(** A value on one line: no blanks at its ends, no comment in it. *)
Definition value_ok (v : string) : bool :=
  negb (String.eqb v "") && sforall (λ c, negb (is_char NUL c) && negb (is_char newline c)) v
  && negb (shead_is isspace v) && String.eqb (rstrip v) v
  && bool_decide (find_chars_or_comment no_chars v = (v, "")).

Definition entry_text (e : string * string) : string := e.1 +:+ " = " +:+ e.2.

Definition entry_ok (e : string * string) : bool :=
  name_ok e.1 && value_ok e.2 && (String.length (entry_text e) <? INI_MAX_LINE - 1)%nat.

(** The text of a configuration file. *)
Fixpoint print_ini (l : list (string * string)) : string :=
  match l with
  | [] => ""
  | e :: l => entry_text e +:+ String newline (print_ini l)
  end.

Lemma ini_char_plain c :
  ini_char c = true →
  plain (λ c, is_char "=" c || is_char ":" c) c = true ∧ negb (isspace c) = true ∧
  negb (is_char NUL c) = true ∧ negb (is_char newline c) = true ∧
  is_char ";" c || is_char "#" c = false ∧ is_char "[" c = false ∧ is_char "239" c = false.
Proof.
  destruct c as [[] [] [] [] [] [] [] []]; vm_compute; intros H; try discriminate H;
  repeat split; reflexivity.
Qed.

Lemma value_ok_spec v :
  value_ok v = true →
  v ≠ "" ∧ sforall (λ c, negb (is_char NUL c)) v = true ∧
  sforall (λ c, negb (is_char newline c)) v = true ∧ shead_is isspace v = false ∧
  rstrip v = v ∧ find_chars_or_comment no_chars v = (v, "").
Proof.
  unfold value_ok. rewrite !andb_true_iff, !negb_true_iff, bool_decide_eq_true.
  intros [[[[Hne Hs] Hh] Hr] Hf]. apply String.eqb_neq in Hne. apply String.eqb_eq in Hr.
  repeat split; try done; eapply sforall_impl; try exact Hs; simpl;
    intros c [? ?]%andb_true_iff; done.
Qed.

Lemma name_ok_spec n :
  name_ok n = true →
  ∃ c n', n = String c n' ∧ ini_char c = true ∧
    sforall (plain (λ c, is_char "=" c || is_char ":" c)) n = true ∧
    sforall (λ c, negb (isspace c)) n = true ∧ sforall (λ c, negb (is_char NUL c)) n = true ∧
    sforall (λ c, negb (is_char newline c)) n = true.
Proof.
  unfold name_ok. intros [Hs Hne]%andb_true_iff.
  apply negb_true_iff, String.eqb_neq in Hne.
  destruct n as [|c n']; [done|]. exists c, n'.
  split; [done|]. split; [by simpl in Hs; apply andb_true_iff in Hs as [? _]|].
  repeat split; (eapply sforall_impl; [|exact Hs]); intros c' Hc; simpl;
    by destruct (ini_char_plain c' Hc) as (? & ? & ? & ? & _).
Qed.

Lemma parse_line_entry lineno e p :
  entry_ok e = true →
  parse_line lineno (cstr (entry_text e +:+ String newline "")) p =
    handle e.1 e.2 (mk_ini p.(section) (strncpy0 MAX_NAME e.1) p.(user)).
Proof.
  destruct e as [n v]. unfold entry_ok, entry_text. simpl fst; simpl snd.
  intros [[Hn Hv]%andb_true_iff _]%andb_true_iff.
  apply name_ok_spec in Hn as (c & n' & Heq & Hc & Hplain & Hsolid & Hnul & _).
  apply value_ok_spec in Hv as (Hne & Hvnul & _ & Hvh & Hvr & Hvf).
  rewrite cstr_solid by (rewrite !sforall_app, Hnul, Hvnul; done).
  assert (rstrip ((n +:+ " = " +:+ v) +:+ String newline "") = n +:+ " = " +:+ v) as Hstrip.
  { rewrite rstrip_blank by done. rewrite rstrip_app; rewrite rstrip_app; by rewrite Hvr. }
  destruct (ini_char_plain c Hc) as (_ & Hsp & _ & _ & Hcom & Hbr & Hbom).
  apply negb_true_iff in Hsp.
  assert (lskip (n +:+ " = " +:+ v) = n +:+ " = " +:+ v) as Hskip
    by (apply lskip_solid; by rewrite Heq).
  assert (String.prefix BOM ((n +:+ " = " +:+ v) +:+ String newline "") = false) as Hpre.
  { rewrite Heq, !sapp_cons. unfold BOM. simpl. case_match; [|done]. subst c. by vm_compute in Hbom. }
  unfold parse_line. rewrite Hpre, andb_false_r, Hstrip, Hskip, Nat.ltb_irrefl. simpl orb.
  rewrite andb_false_r. rewrite Heq at 1. rewrite sapp_cons, Hcom, Hbr.
  unfold pair_line. unfold find_chars_or_comment at 1.
  rewrite find_from_plain by (done || by rewrite Heq). simpl.
  unfold find_chars_or_comment in *.
  rewrite rstrip_blank, rstrip_solid by done.
  assert (lskip (" " +:+ v) = v) as Hv.
  { unfold lskip. simpl. destruct v as [|d v]; [done|]. simpl in Hvh |- *. by rewrite Hvh. }
  change (String " " v) with (" " +:+ v). rewrite Hv, Hvf. simpl. by rewrite Hvr.
Qed.

Lemma MakeKey_inj n n' : MakeKey "" n = MakeKey "" n' ↔ tolower n = tolower n'.
Proof.
  change (MakeKey "" n) with ("=" +:+ tolower n). change (MakeKey "" n') with ("=" +:+ tolower n').
  rewrite !sapp_cons, !sapp_nil_l. split; [by intros [=]|by intros ->].
Qed.

(** The values the text of [l] defines. *)
Definition ini_values (l : list (string * string)) : gmap string string :=
  list_to_map ((λ e, (MakeKey "" e.1, e.2)) <$> l).

(** The lines of the parameters, whatever follows. *)
Lemma parse_lines_entries l t fuel lineno p :
  Forall (λ e, entry_ok e = true) l → NoDup ((λ e, MakeKey "" e.1) <$> l) →
  (∀ e, e ∈ l → p.(user).(_values) !! MakeKey "" e.1 = None) →
  p.(section) = "" → (String.length (print_ini l +:+ t) < fuel)%nat →
  ∃ fuel' p', parse_lines fuel lineno (print_ini l +:+ t) p
      = parse_lines fuel' (lineno + Z.of_nat (List.length l)) t p' ∧
    (String.length t < fuel')%nat ∧ p'.(section) = "" ∧
    p'.(user).(_values) = ini_values l ∪ p.(user).(_values).
Proof.
  revert fuel lineno p. induction l as [|e l IH]; intros fuel lineno p Hok Hnd Hnew Hsec Hfuel.
  - exists fuel, p. simpl. rewrite Z.add_0_r, sapp_nil_l in *. split_and!; [done..|].
    unfold ini_values. simpl. by rewrite left_id_L by apply _.
  - apply Forall_cons in Hok as [He Hok]. apply NoDup_cons in Hnd as [Hni Hnd].
    pose proof He as Htext. unfold entry_ok in Htext.
    apply andb_true_iff in Htext as [[Hname Hval]%andb_true_iff Hlen]. apply Nat.ltb_lt in Hlen.
    apply name_ok_spec in Hname as (c & n' & Heq & _ & _ & _ & _ & Hnl).
    apply value_ok_spec in Hval as (_ & _ & Hvnl & _ & _ & _).
    destruct fuel as [|fuel]; [lia|].
    assert (print_ini (e :: l) +:+ t = entry_text e +:+ String newline (print_ini l +:+ t)) as Hpr
      by (simpl; by rewrite sapp_assoc, sapp_cons).
    assert (∃ s, print_ini (e :: l) +:+ t = String c s) as [s Hs].
    { rewrite Hpr. unfold entry_text. rewrite Heq, !sapp_cons. by eexists. }
    rewrite Hs. unfold parse_lines; fold parse_lines. rewrite <-Hs, Hpr.
    rewrite fgets_line by (done || (unfold entry_text; by rewrite !sforall_app, Hnl, Hvnl)).
    rewrite parse_line_entry by done. unfold handle, ValueHandler. simpl.
    unfold value_at. rewrite Hsec, (Hnew e) by set_solver. simpl.
    edestruct (IH fuel (lineno + 1)) as (fuel' & p' & Hr & Hf & Hs' & Hv); cycle 5.
    + exists fuel', p'. split; [rewrite Hr; f_equal; lia|]. split; [done|]. split; [done|].
      rewrite Hv. simpl. unfold ini_values. simpl.
      rewrite <-insert_union_l, <-insert_union_r; [done|].
      apply not_elem_of_list_to_map_1. rewrite <-list_fmap_compose. exact Hni.
    + done.
    + done.
    + intros e' He'. simpl. rewrite lookup_insert_ne; [apply Hnew; set_solver|].
      intros Hk. apply Hni. rewrite Hk. by apply (list_elem_of_fmap_2 (λ e, MakeKey "" e.1)).
    + done.
    + rewrite Hpr, length_sapp in Hfuel. simpl in Hfuel. lia.
Qed.

(** The reader has exactly the parameters of [l]. *)
Definition reads (r : INIReader.t) (l : list (string * string)) : Prop :=
  (∀ n v n' d, (n, v) ∈ l → tolower n' = tolower n → Get r "" n' d = v) ∧
  (∀ n' d, (∀ n v, (n, v) ∈ l → tolower n ≠ tolower n') → Get r "" n' d = d).

Lemma ini_values_reads r l :
  NoDup ((λ e, MakeKey "" e.1) <$> l) → r.(_values) = ini_values l → reads r l.
Proof.
  intros Hnd Hv. unfold reads, Get. rewrite Hv. unfold ini_values. split.
  - intros n v n' d Hin Hn. rewrite (proj2 (MakeKey_inj n' n) Hn).
    rewrite (elem_of_list_to_map_1 _ (MakeKey "" n) v); [done| |].
    + by rewrite <-list_fmap_compose.
    + by apply (list_elem_of_fmap_2' _ _ (n, v)).
  - intros n' d Hno. rewrite (proj1 (not_elem_of_list_to_map _ _)); [done|].
    rewrite <-list_fmap_compose. intros ((n & v) & Hn & Hin)%list_elem_of_fmap.
    by apply (Hno n v Hin), MakeKey_inj.
Qed.

Lemma parse_stream_entries l t :
  Forall (λ e, entry_ok e = true) l → NoDup ((λ e, MakeKey "" e.1) <$> l) →
  ∃ fuel p, ini_parse_stream (print_ini l +:+ t) INIReader.empty
      = parse_lines fuel (Z.of_nat (List.length l)) t p ∧
    (String.length t < fuel)%nat ∧ p.(section) = "" ∧ reads p.(user) l.
Proof.
  intros Hok Hnd.
  destruct (parse_lines_entries l t (S (String.length (print_ini l +:+ t))) 0 (mk_ini "" "" INIReader.empty))
    as (fuel & p & Hr & Hf & Hs & Hv); try done; [lia|].
  exists fuel, p. split; [exact Hr|]. split; [done|]. split; [done|].
  apply ini_values_reads; [done|]. rewrite Hv. simpl. by rewrite map_union_empty.
Qed.

(** A line with a name and nothing else is an error. *)
Lemma parse_line_bare lineno n p :
  name_ok n = true → parse_line lineno (cstr (n +:+ String newline "")) p = (true, p).
Proof.
  intros Hn. apply name_ok_spec in Hn as (c & n' & Heq & Hc & Hplain & Hsolid & Hnul & _).
  rewrite cstr_solid by (rewrite !sforall_app, Hnul; done).
  assert (rstrip (n +:+ String newline "") = n) as Hstrip
    by (rewrite rstrip_blank by done; by apply rstrip_solid).
  destruct (ini_char_plain c Hc) as (_ & Hsp & _ & _ & Hcom & Hbr & Hbom).
  apply negb_true_iff in Hsp.
  assert (lskip n = n) as Hskip by (apply lskip_solid; by rewrite Heq).
  assert (String.prefix BOM (n +:+ String newline "") = false) as Hpre.
  { rewrite Heq, !sapp_cons. unfold BOM. simpl. case_match; [|done]. subst c. by vm_compute in Hbom. }
  unfold parse_line. rewrite Hpre, andb_false_r, Hstrip, Hskip, Nat.ltb_irrefl. simpl orb.
  rewrite andb_false_r. rewrite Heq at 1. rewrite Hcom, Hbr.
  unfold pair_line, find_chars_or_comment.
  pose proof (find_from_plain false _ n "" Hplain ltac:(by rewrite Heq)) as Hfind.
  rewrite sapp_nil_r in Hfind. by rewrite Hfind.
Qed.

(** A configuration file with one [name = value] line per parameter, whose names
    differ in more than case, parses without error, and the reader returns exactly
    the parameters of the file, in whatever case their names are asked for. *)
Lemma ini_roundtrip l :
  Forall (λ e, entry_ok e = true) l → NoDup ((λ e, MakeKey "" e.1) <$> l) →
  ∃ r, ini_parse_stream (print_ini l) INIReader.empty = Val (0, r) ∧ reads r l.
Proof.
  intros Hok Hnd. destruct (parse_stream_entries l "" Hok Hnd) as (fuel & p & Hr & Hf & _ & Hv).
  rewrite sapp_nil_r in Hr. exists (user p). split; [|done]. rewrite Hr. by destruct fuel; [simpl in Hf; lia|].
Qed.

(** C37: reading a configuration file.  From the lines of parameters whose names
    differ in more than case the parser makes a reader that returns exactly these
    parameters, in whatever case their names are asked for; it reports no error
    when there is nothing else, and when a line with a name alone follows, the
    number of that line, whatever comes after it. *)
Theorem ini_parse_spec (l : list (string * string)) (bare rest : string) :
  Forall (λ e, entry_ok e = true) l → NoDup ((λ e, MakeKey "" e.1) <$> l) →
  name_ok bare = true → (String.length bare < INI_MAX_LINE - 1)%nat →
  (∃ r, ini_parse_stream (print_ini l) INIReader.empty = Val (0, r) ∧ reads r l) ∧
  (∃ r, ini_parse_stream (print_ini l +:+ bare +:+ String newline rest) INIReader.empty
      = Val (Z.of_nat (List.length l) + 1, r) ∧ reads r l).
Proof.
  intros Hok Hnd Hbare Hlen. split; [by apply ini_roundtrip|].
  destruct (parse_stream_entries l (bare +:+ String newline rest) Hok Hnd) as (fuel & p & Hr & Hf & _ & Hv).
  exists (user p). split; [|done]. rewrite Hr. destruct fuel as [|fuel]; [lia|].
  pose proof (name_ok_spec bare Hbare) as (c & n' & Heq & _ & _ & _ & _ & Hnl).
  assert (∃ s, bare +:+ String newline rest = String c s) as [s Hs] by (rewrite Heq, sapp_cons; by eexists).
  rewrite Hs. unfold parse_lines; fold parse_lines. rewrite <-Hs, fgets_line by done.
  by rewrite parse_line_bare.
Qed.

Lemma ini_parse_spec_witness :
  ∃ r, ini_parse_stream ("mode = sync" +:+ String newline ("scratch" +:+ String newline "= /tmp")) INIReader.empty
    = Val (2, r) ∧ reads r [("mode", "sync")].
Proof.
  destruct (ini_parse_spec [("mode", "sync")] "scratch" "= /tmp") as [_ H];
    [repeat constructor|apply NoDup_singleton|reflexivity|vm_compute; lia|exact H].
Defined.

(** A line that does not fit the buffer is taken for two: the rest of a long path
    is reported as an error in a line that the file does not have. *)
Lemma ini_long_line :
  let path := String.concat "/" (repeat "directory" 25) in
  let s := "mode = sync" +:+ String newline ("scratch = " +:+ path +:+ String newline "") in
  ∃ r, ini_parse_stream s INIReader.empty = Val (3, r).
Proof. eexists. vm_compute. reflexivity. Qed.
