(* ===== verification/IniNumbers.v ===== *)
(** * IniNumbers: the numeric accessors of [src/common/INIReader.h]

    [GetInteger] and [GetReal], with [strtol] in base 0 as the language defines it
    and [strtod] as a parameter; and the end of the parser on every file. *)

From S2P Require Import Prelude Text FileSystem Ini.
From Stdlib Require Import Strings.String.
Import INIReader.

Local Open Scope Z_scope.

Definition LONG_MIN : Z := - 2 ^ 63.
Definition is_long (z : Z) : Prop := LONG_MIN ≤ z ≤ LONG_MAX.

(** ** [strtol] *)

(** The digits of the bases up to 36. *)
Definition digit_value (c : ascii) : option Z :=
  match Ascii.is_nat c with
  | Some d => Some (Z.of_nat d)
  | None => if is_lower (tolower_char c) then Some (Z.of_nat (nat_of_ascii (tolower_char c)) - 87) else None
  end.

Definition digit_in (base : Z) (c : ascii) : bool :=
  match digit_value c with Some d => d <? base | None => false end.

Fixpoint strtol_digits (base acc : Z) (s : string) : Z * string :=
  match s with
  | EmptyString => (acc, s)
  | String c s' =>
      match digit_value c with
      | Some d => if d <? base then strtol_digits base (acc * base + d) s' else (acc, s)
      | None => (acc, s)
      end
  end.

Definition sign_of (s : string) : bool * string :=
  match s with
  | String c r => if is_char "-" c then (true, r) else if is_char "+" c then (false, r) else (false, s)
  | EmptyString => (false, s)
  end.

(** The base that the prefix announces, and the digits. *)
Definition base_of (s : string) : Z * string :=
  match s with
  | String c r =>
      if is_char "0" c then
        match r with
        | String x digits =>
            if (is_char "x" x || is_char "X" x) && shead_is (digit_in 16) digits then (16, digits) else (8, s)
        | EmptyString => (8, s)
        end
      else (10, s)
  | EmptyString => (10, s)
  end.

Definition clip (z : Z) : Z := Z.max LONG_MIN (Z.min LONG_MAX z).

(** [strtol(s, &end, 0)]: the number and what [end] points to. *)
Definition strtol (s : string) : Z * string :=
  let '(_, s1) := sspan isspace s in
  let '(neg, s2) := sign_of s1 in
  let '(base, digits) := base_of s2 in
  if shead_is (digit_in base) digits then
    let '(v, rest) := strtol_digits base 0 digits in (clip (if neg then - v else v), rest)
  else (0, s).

(** ** The accessors *)

Definition GetInteger (r : INIReader.t) (section name : string) (default_value : Z) : Z :=
  let value := cstr (Get r section name "") in
  let '(n, rest) := strtol value in
  if (String.length rest <? String.length value)%nat then n else default_value.

Section real.
Context {double : Type} (strtod : string → double * string).

Definition GetReal (r : INIReader.t) (section name : string) (default_value : double) : double :=
  let value := cstr (Get r section name "") in
  let '(n, rest) := strtod value in
  if (String.length rest <? String.length value)%nat then n else default_value.
End real.

(** ** Lemmas *)

Lemma digit_value_10 c :
  match digit_value c with
  | Some d => if d <? 10 then Ascii.is_nat c = Some (Z.to_nat d) ∧ 0 ≤ d else Ascii.is_nat c = None
  | None => Ascii.is_nat c = None
  end.
Proof. destruct c as [[] [] [] [] [] [] [] []]; vm_compute; (done || (split; [done|discriminate])). Qed.

Lemma strtol_digits_10 acc s : strtol_digits 10 acc s = parse_digits acc s.
Proof.
  revert acc. induction s as [|c s IH]; intros acc; [done|]. simpl.
  pose proof (digit_value_10 c) as Hc. destruct (digit_value c) as [d|]; [|by rewrite Hc].
  destruct (d <? 10); [|by rewrite Hc]. destruct Hc as [-> Hd]. rewrite IH. by rewrite Z2Nat.id.
Qed.

Lemma digit_in_10 c : digit_in 10 c = is_digit c.
Proof.
  unfold digit_in, is_digit. pose proof (digit_value_10 c) as Hc.
  destruct (digit_value c) as [d|]; [|by rewrite Hc]. destruct (d <? 10); [|by rewrite Hc]. by destruct Hc as [-> _].
Qed.

(** A printed number starts with a digit other than 0. *)
Lemma pretty_N_go_head x s :
  (0 < x)%N → ∃ c t, pretty_N_go x s = String c t ∧ is_digit c = true ∧ is_char "0" c = false.
Proof.
  revert s. induction (N.lt_wf_0 x) as [x _ IH]; intros s Hx. rewrite pretty_N_go_step by done.
  destruct (decide (x < 10)%N) as [Hs|Hs].
  - rewrite N.div_small, pretty_N_go_0 by done. rewrite N.mod_small by done. eexists _, _. split; [done|].
    assert (x = 1 ∨ x = 2 ∨ x = 3 ∨ x = 4 ∨ x = 5 ∨ x = 6 ∨ x = 7 ∨ x = 8 ∨ x = 9)%N
      as [->|[->|[->|[->|[->|[->|[->|[->| ->]]]]]]]] by lia; by vm_compute.
  - apply IH; [by apply N.div_lt|]. apply N.div_str_pos. lia.
Qed.

Lemma to_string_pos p :
  ∃ c t, to_string (Zpos p) = String c t ∧ is_digit c = true ∧ is_char "0" c = false.
Proof. by apply (pretty_N_go_head (Npos p) ""). Qed.

Lemma strtol_digits_string p :
  let '(base, digits) := base_of (to_string (Zpos p)) in
  shead_is (digit_in base) digits = true ∧
  strtol_digits base 0 digits = (Zpos p, "").
Proof.
  destruct (to_string_pos p) as (c & t & Heq & Hd & H0). unfold base_of. rewrite Heq, H0. split.
  - simpl. by rewrite digit_in_10.
  - rewrite <-Heq, strtol_digits_10, <-(sapp_nil_r (to_string _)). by apply parse_to_string.
Qed.

Lemma clip_long z : is_long z → clip z = z.
Proof. unfold is_long, clip. lia. Qed.

Lemma strtol_to_string z : is_long z → strtol (to_string z) = (z, "").
Proof.
  intros Hz. destruct z as [|p|p]; [by vm_compute| |].
  - destruct (to_string_pos p) as (c & t & Heq & Hd & _).
    unfold strtol. rewrite Heq. simpl (sspan _ _). rewrite is_digit_not_space by done. unfold sign_of.
    assert (is_char "-" c = false ∧ is_char "+" c = false) as [-> ->].
    { clear -Hd. destruct c as [[] [] [] [] [] [] [] []]; by vm_compute. }
    rewrite <-Heq. pose proof (strtol_digits_string p) as Hp. destruct (base_of _) as [base digits].
    destruct Hp as (-> & ->). by rewrite clip_long.
  - change (to_string (Zneg p)) with (String "-" (to_string (Zpos p))).
    unfold strtol.
    change (sspan isspace (String "-" (to_string (Zpos p)))) with ("", String "-" (to_string (Zpos p))).
    cbn iota. change (sign_of (String "-" (to_string (Zpos p)))) with (true, to_string (Zpos p)). cbn iota.
    pose proof (strtol_digits_string p) as Hp. destruct (base_of _) as [base digits].
    destruct Hp as (-> & ->). by rewrite clip_long.
Qed.

Lemma strtol_long s : is_long (strtol s).1.
Proof.
  unfold strtol. destruct (sspan _ _) as [a s1], (sign_of _) as [neg s2], (base_of _) as [base digits].
  destruct (shead_is _ _); [|by vm_compute]. destruct (strtol_digits _ _ _) as [v rest]. simpl.
  unfold is_long, clip, LONG_MIN, LONG_MAX. lia.
Qed.

Lemma to_string_no_nul z : cstr (to_string z) = to_string z.
Proof.
  assert (∀ z, 0 ≤ z → sforall (λ c, negb (is_char NUL c)) (to_string z) = true) as Hpos.
  { intros n Hn. eapply sforall_impl; [|by apply to_string_digits].
    intros c. destruct c as [[] [] [] [] [] [] [] []]; by vm_compute. }
  apply cstr_solid. destruct z as [|p|p]; [by apply Hpos..|].
  change (to_string (Zneg p)) with (String "-" (to_string (Zpos p))).
  change (sforall (λ c, negb (is_char NUL c)) (to_string (Zpos p)) = true). by apply Hpos.
Qed.

Lemma GetInteger_number r section name d z :
  is_long z → Get r section name "" = to_string z → GetInteger r section name d = z.
Proof.
  intros Hz Hg. unfold GetInteger. rewrite Hg, to_string_no_nul, strtol_to_string by done.
  destruct (to_string z) eqn:E; [by destruct (to_string_nonempty z)|done].
Qed.

Lemma GetInteger_long r section name d : is_long d → is_long (GetInteger r section name d).
Proof.
  intros Hd. unfold GetInteger. pose proof (strtol_long (cstr (Get r section name ""))).
  destruct (strtol _) as [n rest]. by destruct (_ <? _)%nat.
Qed.

(** ** Theorems *)

(** An integer of a configuration file reads back: from a file with one line
    per parameter, [GetInteger] returns the number of every parameter whose value
    is the decimal text of a [long], negative or not, and the default value for
    the parameters that the file does not have; what it returns is always a
    [long]. *)
Theorem GetInteger_reads (l : list (string * string)) (d : Z) :
  Forall (λ e, entry_ok e = true) l → NoDup ((λ e, MakeKey "" e.1) <$> l) → is_long d →
  ∃ r, ini_parse_stream (print_ini l) INIReader.empty = Val (0, r) ∧
    (∀ n z, is_long z → (n, to_string z) ∈ l → GetInteger r "" n d = z) ∧
    (∀ n, (∀ n' v, (n', v) ∈ l → tolower n' ≠ tolower n) → GetInteger r "" n d = d) ∧
    ∀ section n, is_long (GetInteger r section n d).
Proof.
  intros Hok Hnd Hd. destruct (ini_roundtrip l Hok Hnd) as (r & Hr & Hin & Hno).
  exists r. split_and!; [done|..].
  - intros n z Hz Hl. by eapply GetInteger_number, Hin.
  - intros n Hn. unfold GetInteger. by rewrite Hno.
  - intros. by apply GetInteger_long.
Qed.

Lemma GetInteger_reads_witness :
  let l := [("max_versions", to_string (-3)); ("mode", "sync")] in
  ∃ r, ini_parse_stream (print_ini l) INIReader.empty = Val (0, r) ∧
    (∀ n z, is_long z → (n, to_string z) ∈ l → GetInteger r "" n 7 = z) ∧
    (∀ n, (∀ n' v, (n', v) ∈ l → tolower n' ≠ tolower n) → GetInteger r "" n 7 = 7) ∧
    ∀ section n, is_long (GetInteger r section n 7).
Proof.
  intros l. apply (GetInteger_reads l 7).
  - repeat constructor.
  - apply (bool_decide_unpack _). vm_compute. exact I.
  - by vm_compute.
Defined.

(** A leading 0 makes a number octal, which the comments of the reader do not say,
    and what follows a number is ignored. *)
Lemma GetInteger_octal :
  let r := (ValueHandler "" "a" "010" INIReader.empty).2 in
  let r := (ValueHandler "" "b" "12 versions" r).2 in
  GetInteger r "" "a" 0 = 8 ∧ GetInteger r "" "b" 0 = 12.
Proof. by vm_compute. Qed.

(** *** The end of the parser *)

(** The pieces that [fgets] makes of a stream. *)
Fixpoint pieces (fuel : nat) (s : string) : list string :=
  match fuel, s with
  | O, _ | _, EmptyString => []
  | S fuel, _ => let '(line, rest) := fgets (INI_MAX_LINE - 1) s in line :: pieces fuel rest
  end.

Lemma parse_lines_end fuel lineno s p :
  (String.length s < fuel)%nat →
  ∃ error r, parse_lines fuel lineno s p = Val (error, r) ∧
    (error = 0 ∨ lineno < error ≤ lineno + Z.of_nat (Datatypes.length (pieces fuel s))).
Proof.
  revert lineno s p. induction fuel as [|fuel IH]; intros lineno s p Hs; [lia|].
  destruct s as [|c s]; [eexists _, _; split; [done|by left]|].
  unfold parse_lines; fold parse_lines. unfold pieces; fold pieces.
  destruct (fgets _ _) as [line rest] eqn:Hf.
  destruct (parse_line _ _ _) as [[] p']; [eexists _, _; split; [done|right; simpl; lia]|].
  apply fgets_shorter in Hf; [|done].
  destruct (IH (lineno + 1) rest p') as (e & r & Hr & He); [simpl in *; lia|].
  exists e, r. split; [done|]. simpl. lia.
Qed.

Lemma fgets_join n s l rest : fgets n s = (l, rest) → s = l +:+ rest ∧ (String.length l ≤ n)%nat.
Proof.
  revert s l rest. induction n as [|n IH]; intros s l rest H; [simpl in H; simplify_eq; by split|].
  destruct s as [|c s]; simpl in H; [simplify_eq; simpl; split; [done|lia]|].
  destruct (is_char newline c); simplify_eq; [simpl; split; [done|lia]|].
  destruct (fgets n s) as [l' rest'] eqn:E. simplify_eq. apply IH in E as [-> ?]. simpl. split; [done|lia].
Qed.

Lemma pieces_join fuel s :
  (String.length s < fuel)%nat →
  foldr String.append "" (pieces fuel s) = s ∧
  Forall (λ l, (0 < String.length l < INI_MAX_LINE)%nat) (pieces fuel s).
Proof.
  revert s. induction fuel as [|fuel IH]; intros s Hs; [lia|].
  destruct s as [|c s]; [by repeat constructor|]. unfold pieces; fold pieces.
  destruct (fgets _ _) as [line rest] eqn:Hf. pose proof Hf as Hsh.
  apply fgets_shorter in Hsh; [|done]. apply fgets_join in Hf as [Heq Hl].
  destruct (IH rest) as [Hj Ha]; [simpl in *; lia|]. split; [simpl; by rewrite Hj|].
  constructor; [|done]. rewrite Heq, length_sapp in Hsh. unfold INI_MAX_LINE in *. lia.
Qed.

(** The parser ends on every file, whatever bytes it holds.  It reports 0 or
    the number of a piece of the file, where the pieces are what it reads with one
    [fgets]: together they are the whole file, and each of them has a character
    and fits the buffer of [INI_MAX_LINE] bytes with its null byte. *)
Theorem ini_parse_ends (s : string) (r0 : INIReader.t) :
  ∃ error r, ini_parse_stream s r0 = Val (error, r) ∧
    let lines := pieces (S (String.length s)) s in
    0 ≤ error ≤ Z.of_nat (Datatypes.length lines) ∧
    foldr String.append "" lines = s ∧
    Forall (λ l, (0 < String.length l < INI_MAX_LINE)%nat) lines.
Proof.
  destruct (parse_lines_end (S (String.length s)) 0 s (mk_ini "" "" r0) ltac:(lia)) as (e & r & Hr & He).
  exists e, r. split; [exact Hr|]. cbv zeta. destruct (pieces_join (S (String.length s)) s ltac:(lia)) as [Hj Ha].
  split_and!; [lia..|exact Hj|exact Ha].
Qed.
