(* ===== verification/Storage.v ===== *)
(** * Storage: [src/storage]

    The interface [storage_module_t] through which the backend reaches the
    persistent level, its default implementation, and the POSIX implementation
    with one file per process. *)

From S2P Require Import Prelude Text Command FileSystem Containers FileUtil.

Local Open Scope Z_scope.

Import command_t.

(** ** The interface ([storage_module.hpp]) *)

Record storage_module_t (S : Type) := {
  get_versions : command_t.t → comp (S * zset) unit;
  remove : command_t.t → comp S bool;
  flush : command_t.t → comp S bool;
  restore : command_t.t → comp S bool;
  exists_ : command_t.t → comp S bool
}.
Arguments get_versions {S} _ _.
Arguments remove {S} _ _.
Arguments flush {S} _ _.
Arguments restore {S} _ _.
Arguments exists_ {S} _ _.

(** The base class does nothing and reports failure ([storage_module.cpp]). *)
Definition base_storage (S : Type) : storage_module_t S := {|
  get_versions _ := mret tt;
  remove _ := mret false;
  flush _ := mret false;
  restore _ := mret false;
  exists_ _ := mret false
|}.

(** The callback of the [get_versions] implementations: collect the versions of
    the identifiers that [p] selects. *)
Definition collect {S} (p : Z → bool) (fname : string) (id v : Z) : comp (S * zset) unit :=
  if p id then modify (λ '(s, result), (s, set_insert v result)) else mret tt.

(** ** One file per process ([posix_module.cpp]) *)

Module posix_module_t.
Section posix_module.
Context {S : Type} `{HasSys S}.
Variables scratch persistent : string.

(** The constructor: the persistent directory has to be accessible. *)
Definition make : comp S unit :=
  ok ← on_sys (check_dir persistent);
  if (ok : bool) then mret tt else stop FATAL.

Definition get_versions (cmd : command_t.t) : comp (S * zset) unit :=
  parse_dir persistent cmd.(name) (collect (λ id, id =? cmd.(unique_id)));;
  mret tt.

Definition remove (cmd : command_t.t) : comp S bool :=
  on_sys (unlink (filename cmd persistent)).

Definition flush (cmd : command_t.t) : comp S bool :=
  on_sys (
    (* memory-based API *)
    if decide (cmd.(original) = "") then
      posix_transfer_file (filename cmd scratch) (filename cmd persistent) 0 0 SIZE_MAX
    else
      (* file-based API *)
      ok ← posix_transfer_file (filename cmd scratch) cmd.(original) 0 0 SIZE_MAX;
      if negb ok then mret false else
      unlink (filename cmd persistent);;
      symlink cmd.(original) (filename cmd persistent)).

Definition restore (cmd : command_t.t) : comp S bool :=
  on_sys (posix_transfer_file (filename cmd persistent) (filename cmd scratch) 0 0 SIZE_MAX).

Definition exists_ (cmd : command_t.t) : comp S bool :=
  on_sys (access (filename cmd persistent)).

Definition storage : storage_module_t S := {|
  Storage.get_versions := get_versions;
  Storage.remove := remove;
  Storage.flush := flush;
  Storage.restore := restore;
  Storage.exists_ := exists_
|}.

End posix_module.
End posix_module_t.

(** ** Lemmas *)

Lemma filename_prefix c p1 p2 : filename c p1 = filename c p2 → p1 = p2.
Proof. unfold filename. rewrite <-!sapp_assoc. intros H. by repeat apply sapp_inj_r in H. Qed.

(** The last character of a text. *)
Fixpoint last_char (s : string) : option Ascii.ascii :=
  match s with
  | EmptyString => None
  | String a EmptyString => Some a
  | String _ s => last_char s
  end.

Lemma last_char_app s a t : last_char (s +:+ String a t) = last_char (String a t).
Proof.
  induction s as [|b s IH]; [done|]. cbn [String.append]. rewrite <-IH.
  by destruct s.
Qed.

(** The record of a checksum is never the file of a checkpoint. *)
Lemma record_not_file c c' p q : meta_filename c p ≠ filename c' q.
Proof.
  intros Heq%(f_equal last_char). unfold meta_filename, filename, stem in Heq.
  rewrite !sapp_assoc in Heq. rewrite <-!sapp_assoc in Heq.
  by rewrite !last_char_app in Heq.
Qed.

Lemma dirname_filename c p : wf c = true → dirname (filename c p) = Some p.
Proof. intros H. by apply dirname_app, stem_no_slash. Qed.

(** A path that is not a symbolic link. *)
Definition no_link (f : gmap string node) (p : string) : Prop := ∀ t, f !! p ≠ Some (Sym t).

(** The bytes of a regular file that is there, none otherwise. *)
Definition contents (f : gmap string node) (p : string) : list byte :=
  match f !! p with Some (Reg d) => d | _ => [] end.

(** The versions a directory holds for the identifiers selected by [sel], as
    the file names tell them. *)
Definition listed (f : gmap string node) (dir cname : string) (sel : Z → bool) (v : Z) : Prop :=
  ∃ e n nd id, command_t.regex cname = Some e ∧ (n, nd) ∈ entries f dir ∧ nd ≠ Dir ∧
    match_ n e = Val (Some (id, v)) ∧ sel id = true.

Lemma collect_entries {S} sel p e es (s : S) r st' :
  sorted r → mforeach (parse_entry p e (collect sel)) es (s, r) = (Val tt, st') →
  st'.1 = s ∧ sorted st'.2 ∧
  ∀ x, x ∈ st'.2 ↔ x ∈ r ∨ ∃ n nd id, (n, nd) ∈ es ∧ nd ≠ Dir ∧
    match_ n e = Val (Some (id, x)) ∧ sel id = true.
Proof.
  revert r. induction es as [|[n nd] es IH]; simpl; intros r Hr H.
  - unfold mret, comp_ret in H. simplify_eq. simpl. split_and!; [done..|]. set_solver.
  - apply comp_bind_inv in H as ([] & [s1 r1] & He & H).
    assert (s1 = s ∧ sorted r1 ∧ ∀ x, x ∈ r1 ↔ x ∈ r ∨
      (∃ id, nd ≠ Dir ∧ match_ n e = Val (Some (id, x)) ∧ sel id = true)) as (-> & Hs1 & Hr1).
    { assert (nd = Dir ∨ nd ≠ Dir) as [->|Hnd] by (destruct nd; auto).
      { unfold parse_entry, mret, comp_ret in He. simplify_eq. naive_solver. }
      assert ((m ← stop (match_ n e); match m with
          | Some (rank, version) => collect sel (p +:+ "/" +:+ n) rank version
          | None => mret tt end) (s, r) = (Val tt, (s1, r1))) as He' by by destruct nd.
      apply comp_bind_inv in He' as (m & st & Hm & He').
      unfold stop in Hm. destruct (match_ n e) as [m'| | | |]; simplify_eq.
      destruct m as [[id v]|]; [|unfold mret, comp_ret in He'; simplify_eq; naive_solver].
      unfold collect in He'. destruct (sel id) eqn:Hid;
        unfold modify, mret, comp_ret in He'; simpl in He'; simplify_eq; (split; [done|]);
        [|split; [done|]; intros x; split; [by left|]; intros [?|(? & _ & ? & ?)]; [done|congruence]].
      split; [by apply set_insert_sorted|].
      intros x. rewrite set_insert_elem. split.
      - intros [->|?]; [right; eauto|by left].
      - intros [?|(? & _ & ? & ?)]; [by right|left; congruence]. }
    apply IH in H as (? & ? & Hx); [|done]. split_and!; [done..|].
    intros x. rewrite Hx, Hr1. set_solver.
Qed.

Lemma parse_collect {S} `{HasSys S} sel p cname (s : S) r b st' :
  sorted r → parse_dir p cname (collect sel) (s, r) = (Val b, st') →
  files (the_sys st'.1) = files (the_sys s) ∧ sorted st'.2 ∧
  if b then ∀ x, x ∈ st'.2 ↔ x ∈ r ∨ listed (files (the_sys s)) p cname sel x
  else st'.2 = r.
Proof.
  intros Hr Hp. unfold parse_dir in Hp.
  apply comp_bind_inv in Hp as (dir & [s1 r1] & Ho & Hp).
  unfold on_sys in Ho. simpl in Ho.
  destruct (opendir p (the_sys s)) as [o s'] eqn:Hod.
  apply opendir_files in Hod as [Hf [d [-> _]]]. simplify_eq.
  destruct dir; simpl in Hp.
  - destruct (command_t.regex cname) as [e|] eqn:He; [|done].
    unfold gets in Hp. apply comp_bind_inv in Hp as (s2 & st2 & Hg & Hp). simplify_eq.
    apply comp_bind_inv in Hp as ([] & st3 & Hfe & Hret).
    unfold mret, comp_ret in Hret. simplify_eq.
    apply collect_entries in Hfe as (-> & Hs & Hx); [|done].
    simpl. rewrite !the_with_sys in *. split_and!; [done..|].
    intros x. rewrite Hx. rewrite Hf. unfold listed. naive_solver.
  - unfold mret, comp_ret in Hp. simplify_eq. simpl. by rewrite the_with_sys.
Qed.

(** Every numeral of the file names that the pattern of [cname] matches fits an
    [int]. *)
Definition numerals_fit (f : gmap string node) (dir cname : string) : bool :=
  match command_t.regex cname with
  | Some e =>
      forallb (λ '(n, nd), match nd, match_ n e with
                           | Dir, _ | _, Val _ => true
                           | _, _ => false
                           end) (entries f dir)
  | None => true
  end.

Lemma numerals_fit_spec f dir cname e n nd :
  numerals_fit f dir cname = true → command_t.regex cname = Some e →
  (n, nd) ∈ entries f dir → nd ≠ Dir → ∃ m, match_ n e = Val m.
Proof.
  unfold numerals_fit. intros Hfit He Hin Hnd. rewrite He in Hfit.
  rewrite forallb_forall in Hfit. specialize (Hfit (n, nd) (proj1 (list_elem_of_In _ _) Hin)).
  destruct nd, (match_ n e); try done; by eexists.
Qed.

Lemma numerals_fit_intro f dir cname :
  (∀ e n nd, command_t.regex cname = Some e → (n, nd) ∈ entries f dir → nd ≠ Dir → ∃ m, match_ n e = Val m) →
  numerals_fit f dir cname = true.
Proof.
  intros H. unfold numerals_fit. destruct (command_t.regex cname) as [e|] eqn:He; [|done].
  apply forallb_forall. intros [n nd] Hin%list_elem_of_In.
  destruct nd as [d|t|]; [| |done]; destruct (H e n _ eq_refl Hin ltac:(done)) as [m ->]; done.
Qed.

Lemma collect_entries_total {S} sel p e es (st : S * zset) :
  (∀ n nd, (n, nd) ∈ es → nd ≠ Dir → ∃ m, match_ n e = Val m) →
  ∃ st', mforeach (parse_entry p e (collect sel)) es st = (Val tt, st').
Proof.
  revert st. induction es as [|[n nd] es IH]; intros st Hes; [by eexists|].
  assert (∃ st1, parse_entry p e (collect sel) (n, nd) st = (Val tt, st1)) as [st1 H1].
  { unfold parse_entry. destruct nd; [| |by eexists];
      (edestruct (Hes n) as [m Hm]; [by left|done|]);
      rewrite Hm, stop_bind; (destruct m as [[id v]|]; [|by eexists]);
      unfold collect; destruct (sel id); by eexists. }
  cbn [mforeach]. erewrite comp_bind_val by done. apply IH.
  intros n' nd' H'. apply (Hes n' nd'). by right.
Qed.

Lemma parse_collect_free {S} `{HasSys S} sel p cname (s : S) r :
  sched (the_sys s) = [] → is_dir (files (the_sys s)) p = true →
  is_Some (command_t.regex cname) → numerals_fit (files (the_sys s)) p cname = true →
  ∃ st', parse_dir p cname (collect sel) (s, r) = (Val true, st').
Proof.
  intros Hsch Hdir [e He] Hfit. unfold parse_dir.
  assert (opendir p (the_sys s) = (Val true, the_sys s)) as Ho.
  { destruct (the_sys s) as [f sc]. simpl in *. subst sc. unfold opendir. free_run.
    by rewrite Hdir. }
  erewrite comp_bind_val by (unfold on_sys; simpl; by rewrite Ho). cbn beta iota. cbn [negb].
  cbn iota. rewrite He. cbn iota. erewrite comp_bind_val by done. cbn beta.
  destruct (collect_entries_total sel p e (entries (files (the_sys s)) p)
    (with_sys s (the_sys s), r)) as [st' Hst].
  { intros n nd. by apply (numerals_fit_spec _ _ _ _ n nd Hfit). }
  erewrite comp_bind_val by (simpl; rewrite the_with_sys; exact Hst). by eexists.
Qed.

(** Without faults a scan changes nothing, and finds what the directory lists. *)
Lemma parse_collect_same {S} `{HasSys S} sel p cname (s : S) r b st' :
  sched (the_sys s) = [] → sorted r →
  parse_dir p cname (collect sel) (s, r) = (Val b, st') →
  st'.1 = s ∧ sorted st'.2 ∧
  ∀ x, x ∈ st'.2 ↔ x ∈ r ∨ is_dir (files (the_sys s)) p = true ∧ listed (files (the_sys s)) p cname sel x.
Proof.
  intros Hsch Hr Hp. unfold parse_dir in Hp.
  assert (on_sys (opendir p) (s, r) = (Val (is_dir (files (the_sys s)) p), (s, r))) as Ho.
  { eapply on_sys_same; [reflexivity|]. simpl. destruct (the_sys s) as [f sc]. simpl in *. subst sc.
    unfold opendir. by free_run. }
  rewrite (comp_bind_val _ _ _ _ _ Ho) in Hp. cbn beta in Hp.
  destruct (is_dir (files (the_sys s)) p); cbn [negb] in Hp.
  - destruct (command_t.regex cname) as [e|] eqn:He; [|done]. rewrite gets_bind in Hp.
    apply comp_bind_inv in Hp as ([] & st1 & Hfe & Hret). unfold mret, comp_ret in Hret. simplify_eq.
    apply collect_entries in Hfe as (-> & Hs & Hx); [|done]. split_and!; [done..|].
    intros x. rewrite Hx. unfold listed. simpl. naive_solver.
  - unfold mret, comp_ret in Hp. simplify_eq. simpl. split_and!; [done..|]. naive_solver.
Qed.

(** ** What the versioning module expects of a storage module

    Without faults, [get_versions] adds the versions that are stored for the
    name and identifier of the command, and changes nothing else.  It returns
    when the files are [scannable]: their names do not make it throw. *)
Class StorageVersions {S} `{HasSys S} (st : storage_module_t S) := {
  stored : gmap string node → command_t.t → Z → Prop;
  get_versions_free c s r st' :
    sched (the_sys s) = [] → sorted r → st.(get_versions) c (s, r) = (Val tt, st') →
    st'.1 = s ∧ sorted st'.2 ∧
    ∀ x, x ∈ st'.2 ↔ x ∈ r ∨ stored (files (the_sys s)) c x;
  scannable : gmap string node → command_t.t → bool;
  get_versions_total c s r :
    sched (the_sys s) = [] → scannable (files (the_sys s)) c = true →
    ∃ st', st.(get_versions) c (s, r) = (Val tt, st')
}.

(** A storage module that scans a directory for some identifiers. *)
Lemma scan_versions {S} `{HasSys S} sel p cname (s : S) r st' :
  sched (the_sys s) = [] → sorted r →
  (parse_dir p cname (collect sel);; mret tt) (s, r) = (Val tt, st') →
  st'.1 = s ∧ sorted st'.2 ∧
  ∀ x, x ∈ st'.2 ↔ x ∈ r ∨
    (is_dir (files (the_sys s)) p = true ∧ listed (files (the_sys s)) p cname sel x).
Proof.
  intros Hsch Hr Hg. apply comp_bind_inv in Hg as (b & st1 & Hp & Hret).
  unfold mret, comp_ret in Hret. simplify_eq. by eapply parse_collect_same.
Qed.

(** The names in a directory that the pattern of [cname] matches can be scanned. *)
Definition dir_scannable (f : gmap string node) (dir cname : string) : bool :=
  bool_decide (is_Some (command_t.regex cname)) && numerals_fit f dir cname.

Lemma scan_total {S} `{HasSys S} sel p cname (s : S) r :
  sched (the_sys s) = [] → dir_scannable (files (the_sys s)) p cname = true →
  ∃ st', (parse_dir p cname (collect sel);; mret tt) (s, r) = (Val tt, st').
Proof.
  intros Hsch Hfit. unfold dir_scannable in Hfit. zbool.
  destruct (is_dir (files (the_sys s)) p) eqn:Hdir.
  - destruct (parse_collect_free sel p cname s r) as [st' Hp]; [done..|].
    exists st'. by erewrite comp_bind_val by done.
  - exists (s, r).
    assert (on_sys (opendir p) (s, r) = (Val false, (s, r))) as Ho.
    { eapply on_sys_same; [reflexivity|]. simpl. destruct (the_sys s) as [f sc]. simpl in *. subst sc.
      unfold opendir. free_run. by rewrite Hdir. }
    assert (parse_dir p cname (collect sel) (s, r) = (Val false, (s, r))) as Hp
      by (unfold parse_dir; by rewrite (comp_bind_val _ _ _ _ _ Ho)).
    by rewrite (comp_bind_val _ _ _ _ _ Hp).
Qed.

Global Program Instance posix_versions {S} `{HasSys S} (scratch persistent : string) :
    StorageVersions (posix_module_t.storage (S:=S) scratch persistent) := {|
  stored f c x := is_dir f persistent = true ∧
    listed f persistent c.(name) (λ id, id =? c.(unique_id)) x;
  scannable f c := dir_scannable f persistent c.(name)
|}.
Next Obligation. intros. by apply scan_versions. Qed.
Next Obligation. intros. by apply scan_total. Qed.

(** A checkpoint file of the name in the directory is listed. *)
Lemma listed_own f dir c sel nd :
  wf c = true → f !! filename c dir = Some nd → nd ≠ Dir → sel c.(unique_id) = true →
  listed f dir c.(name) sel c.(version).
Proof.
  intros Hwf Hf Hnd Hsel. pose proof Hwf as Hwf'. apply wf_spec in Hwf' as [Hn _].
  destruct (regex_valid _ Hn) as [e He].
  exists e, (stem c), nd, (unique_id c). split_and!; [done| |done| |done].
  - apply entries_elem. split; [done|]. by apply dirname_filename.
  - rewrite (match_stem_aux (name c)) by done.
    by rewrite name_accepts_refl by by apply wf_name.
Qed.

Import posix_module_t.

(** What a successful copy of a whole file leaves behind, for every schedule. *)
Lemma copy_true source dest s s' p src :
  lookup_path (files s) source = Some (p, Reg src) → no_link (files s) dest →
  p ≠ dest → zlen src ≤ LONG_MAX →
  posix_transfer_file source dest 0 0 SIZE_MAX s = (Val true, s') →
  files s' = <[dest := Reg (src ++ zdrop (zlen src) (contents (files s) dest))]> (files s).
Proof.
  intros Hs Hd Hne HL H.
  eapply (posix_transfer_true _ _ _ _ _ _ _ p src dest) in H as (old & Hold & ->);
    try done; [|by apply resolve_file].
  rewrite zdrop_0 by done. rewrite ztake_all by (unfold SIZE_MAX, LONG_MAX in *; lia).
  rewrite splice_0. unfold contents. by destruct Hold as [->|[-> ->]].
Qed.

(** Without faults the copy of a whole file succeeds. *)
Lemma copy_free source dest f p src :
  lookup_path f source = Some (p, Reg src) → no_link f dest → p ≠ dest →
  f !! dest ≠ Some Dir → (f !! dest = None → parent_ok f dest = true) →
  zlen src ≤ LONG_MAX →
  posix_transfer_file source dest 0 0 SIZE_MAX (mk_sys f [])
  = (Val true, mk_sys (<[dest := Reg (src ++ zdrop (zlen src) (contents f dest))]> f) []).
Proof.
  intros Hs Hd Hne Hdir Hpar HL. pose proof (zlen_nonneg src).
  rewrite (posix_transfer_free _ _ _ _ _ f p src dest (contents f dest));
    try done; try lia; [|by apply resolve_file|].
  - rewrite zdrop_0 by done. rewrite ztake_all by (unfold SIZE_MAX, LONG_MAX in *; lia).
    by rewrite splice_0.
  - unfold contents. destruct (f !! dest) as [[d|t|]|] eqn:E; [by left|by destruct (Hd t)|done|].
    right. by rewrite Hpar.
Qed.

(** C6: flushing a checkpoint and restoring it later, after the local copy was
    lost, gives the checkpoint back, whatever I/O errors and short transfers the
    two calls meet, provided no longer file was at the persistent path. *)
Theorem posix_flush_restore (scratch persistent : string) (c : command_t.t)
    (s0 s1 s2 s3 : sys) (data : list byte) :
  scratch ≠ persistent → c.(original) = "" →
  files s0 !! filename c scratch = Some (Reg data) → zlen data ≤ LONG_MAX →
  no_link (files s0) (filename c persistent) →
  zlen (contents (files s0) (filename c persistent)) ≤ zlen data →
  flush scratch persistent c s0 = (Val true, s1) →
  files s2 = delete (filename c scratch) (files s1) →
  restore scratch persistent c s2 = (Val true, s3) →
  files s3 !! filename c scratch = Some (Reg data) ∧
  files s3 !! filename c persistent = Some (Reg data).
Proof.
  intros Hsp Ho Hd HL Hnl Hold Hfl Hdel Hre.
  assert (filename c scratch ≠ filename c persistent) as Hne
    by (intros H; by apply filename_prefix in H).
  unfold flush, on_sys in Hfl. rewrite decide_True in Hfl by done. simpl in Hfl.
  destruct (posix_transfer_file _ _ _ _ _ s0) as [o s1'] eqn:Hc1. simplify_eq.
  eapply copy_true in Hc1; [|by apply lookup_path_reg|done|done|done].
  rewrite zdrop_all, app_nil_r in Hc1 by lia.
  unfold restore, on_sys in Hre. simpl in Hre.
  destruct (posix_transfer_file _ _ _ _ _ s2) as [o s3'] eqn:Hc2. simplify_eq.
  assert (files s2 !! filename c persistent = Some (Reg data)
          ∧ files s2 !! filename c scratch = None) as [Hp2 Hs2]
    by (rewrite Hdel, Hc1; by simplify_map_eq).
  eapply copy_true in Hc2; [|by apply lookup_path_reg|intros t; congruence|done|done].
  rewrite Hc2. unfold contents. rewrite Hs2. simplify_map_eq.
  by rewrite app_nil_r.
Qed.

(** The witness state: a local checkpoint of three bytes. *)
Definition demo_cmd : command_t.t :=
  {| unique_id := 0; command := CHECKPOINT; version := 3; offset := 0;
     name := "ck"; original := "" |}.
Definition demo_data : list byte := [Byte.x01; Byte.x02; Byte.x03].
Definition demo_files : gmap string node :=
  <["/s" := Dir]> (<["/p" := Dir]> (<["/s/ck-0-3.dat" := Reg demo_data]> ∅)).

Lemma posix_flush_restore_witness :
  ∃ s3, files s3 !! filename demo_cmd "/s" = Some (Reg demo_data) ∧
        files s3 !! filename demo_cmd "/p" = Some (Reg demo_data).
Proof.
  set (s0 := mk_sys demo_files [Go; Go; Go; Short 1; Go; Go]).
  set (s1 := (flush "/s" "/p" demo_cmd s0).2).
  set (s2 := mk_sys (delete "/s/ck-0-3.dat" (files s1)) []).
  exists (restore "/s" "/p" demo_cmd s2).2.
  apply (posix_flush_restore "/s" "/p" demo_cmd s0 s1 s2 _ demo_data);
    try (vm_compute; (reflexivity || discriminate)).
Defined.

(** The destination of a flush is not truncated: the persistent copy equals
    the checkpoint exactly when the file that was there is not longer, otherwise
    the end of the older file stays behind it. *)
Theorem posix_flush_exact (scratch persistent : string) (c : command_t.t)
    (s0 s1 : sys) (data : list byte) :
  scratch ≠ persistent → c.(original) = "" →
  files s0 !! filename c scratch = Some (Reg data) → zlen data ≤ LONG_MAX →
  no_link (files s0) (filename c persistent) →
  flush scratch persistent c s0 = (Val true, s1) →
  files s1 !! filename c persistent = Some (Reg data) ↔
  zlen (contents (files s0) (filename c persistent)) ≤ zlen data.
Proof.
  intros Hsp Ho Hd HL Hnl Hfl.
  assert (filename c scratch ≠ filename c persistent) as Hne
    by (intros H; by apply filename_prefix in H).
  unfold flush, on_sys in Hfl. rewrite decide_True in Hfl by done. simpl in Hfl.
  destruct (posix_transfer_file _ _ _ _ _ s0) as [o s1'] eqn:Hc1. simplify_eq.
  eapply copy_true in Hc1; [|by apply lookup_path_reg|done|done|done].
  rewrite Hc1. simplify_map_eq. set (old := contents _ _). split; intros Heq.
  - simplify_eq. apply (f_equal zlen) in Heq. rewrite zlen_app in Heq.
    pose proof (zlen_nonneg data). rewrite zlen_zdrop in Heq by done. lia.
  - by rewrite zdrop_all, app_nil_r by done.
Qed.

Lemma posix_flush_exact_witness :
  ∃ s1, files s1 !! filename demo_cmd "/p" = Some (Reg demo_data) ↔
    zlen (contents (<["/p/ck-0-3.dat" := Reg (replicate 5 Byte.x09)]> demo_files)
            (filename demo_cmd "/p")) ≤ zlen demo_data.
Proof.
  set (s0 := mk_sys (<["/p/ck-0-3.dat" := Reg (replicate 5 Byte.x09)]> demo_files) []).
  exists (flush "/s" "/p" demo_cmd s0).2.
  apply (posix_flush_exact "/s" "/p" demo_cmd s0 _ demo_data);
    vm_compute; (reflexivity || discriminate).
Defined.

(** In file mode a flush stores the checkpoint under its original name and
    leaves a link at the persistent path, through which a restore finds it. *)
Theorem posix_flush_restore_routed (scratch persistent : string) (c : command_t.t)
    (s0 s1 s2 s3 : sys) (data : list byte) :
  c.(original) ≠ "" → filename c scratch ≠ c.(original) →
  filename c persistent ≠ c.(original) → scratch ≠ persistent →
  files s0 !! filename c scratch = Some (Reg data) → zlen data ≤ LONG_MAX →
  no_link (files s0) c.(original) →
  zlen (contents (files s0) c.(original)) ≤ zlen data →
  flush scratch persistent c s0 = (Val true, s1) →
  files s2 = delete (filename c scratch) (files s1) →
  restore scratch persistent c s2 = (Val true, s3) →
  files s1 !! filename c persistent = Some (Sym c.(original)) ∧
  files s3 !! c.(original) = Some (Reg data) ∧
  files s3 !! filename c scratch = Some (Reg data).
Proof.
  intros Ho Hso Hpo Hsp Hd HL Hnl Hold Hfl Hdel Hre.
  assert (filename c scratch ≠ filename c persistent) as Hne
    by (intros H; by apply filename_prefix in H).
  unfold flush, on_sys in Hfl. rewrite decide_False in Hfl by done. simpl in Hfl.
  match type of Hfl with (let (_, _) := ?m s0 in _) = _ =>
    destruct (m s0) as [o s1'] eqn:Hc1 end. simplify_eq.
  apply comp_bind_inv in Hc1 as ([|] & s' & Hc1 & Hc2); [|done].
  apply comp_bind_inv in Hc2 as (b & s'' & Hul & Hsym).
  eapply copy_true in Hc1; [|by apply lookup_path_reg|done|done|done].
  rewrite zdrop_all, app_nil_r in Hc1 by lia.
  apply symlink_true in Hsym as [Hnone Hs1].
  assert (files s'' !! original c = Some (Reg data)) as Horig.
  { apply unlink_spec in Hul as [[_ ->]|(_ & _ & ->)]; rewrite Hc1; by simplify_map_eq. }
  unfold restore, on_sys in Hre. simpl in Hre.
  destruct (posix_transfer_file _ _ _ _ _ s2) as [o s3'] eqn:Hc3. simplify_eq.
  assert (files s2 !! filename c persistent = Some (Sym (original c))
    ∧ files s2 !! original c = Some (Reg data)
    ∧ files s2 !! filename c scratch = None) as (Hp2 & Ho2 & Hs2)
    by (rewrite Hdel, Hs1; by simplify_map_eq).
  assert (lookup_path (files s2) (filename c persistent) = Some (original c, Reg data)) as Hlp.
  { unfold lookup_path, resolve, SYMLOOP_MAX. simpl. by rewrite Hp2, Ho2, Ho2. }
  eapply copy_true in Hc3; [|done|intros t; congruence|done|done].
  split; [rewrite Hs1; by simplify_map_eq|].
  rewrite Hc3. unfold contents. rewrite Hs2. simplify_map_eq. by rewrite app_nil_r.
Qed.

Definition demo_routed : command_t.t :=
  {| unique_id := 0; command := CHECKPOINT; version := 3; offset := 0;
     name := "ck"; original := "/p/app.out" |}.

Lemma posix_flush_restore_routed_witness :
  ∃ s1 s3, files s1 !! filename demo_routed "/p" = Some (Sym "/p/app.out") ∧
    files s3 !! demo_routed.(original) = Some (Reg demo_data) ∧
    files s3 !! filename demo_routed "/s" = Some (Reg demo_data).
Proof.
  set (s0 := mk_sys demo_files []).
  set (s1 := (flush "/s" "/p" demo_routed s0).2).
  set (s2 := mk_sys (delete "/s/ck-0-3.dat" (files s1)) []).
  exists s1, (restore "/s" "/p" demo_routed s2).2.
  apply (posix_flush_restore_routed "/s" "/p" demo_routed s0 s1 s2 _ demo_data);
    vm_compute; (reflexivity || discriminate).
Defined.

(** On a directory without over-long numerals [get_versions] yields, in
    increasing order, exactly the versions that the file names of the name and
    identifier of the command tell, and it finds every checkpoint of them. *)
Theorem posix_get_versions (persistent : string) (cmd : command_t.t) (f : gmap string node) :
  wf cmd = true → is_dir f persistent = true → numerals_fit f persistent cmd.(name) = true →
  ∃ s' result,
    get_versions persistent cmd (mk_sys f [], []) = (Val tt, (s', result)) ∧
    files s' = f ∧ sorted result ∧
    (∀ v, v ∈ result ↔ listed f persistent cmd.(name) (λ id, id =? cmd.(unique_id)) v) ∧
    ∀ v d, 0 ≤ v ≤ INT_MAX → f !! filename (set_version cmd v) persistent = Some (Reg d) →
      v ∈ result.
Proof.
  intros Hwf Hdir Hfit.
  destruct (parse_collect_free (λ id, id =? unique_id cmd) persistent (name cmd)
    (mk_sys f []) []) as [[s' result] Hp]; try done.
  { apply regex_valid. by apply wf_spec in Hwf as [? _]. }
  exists s', result. split.
  { unfold get_versions. by erewrite comp_bind_val by done. }
  apply parse_collect in Hp as (Hf & Hs & Hin); [|constructor]. simpl in *.
  assert (∀ v, v ∈ result ↔ listed f persistent (name cmd) (λ id, id =? unique_id cmd) v)
    as Hres by (intros v; rewrite Hin, elem_of_nil; tauto).
  split_and!; [done..|]. intros v d Hv Hd. apply Hres.
  eapply (listed_own f persistent (set_version cmd v)); [|done|done|apply Z.eqb_refl].
  apply wf_spec. apply wf_spec in Hwf. simpl. tauto.
Qed.

Lemma posix_get_versions_witness :
  let f := <["/p" := Dir]> (<["/p/ck-0-3.dat" := Reg demo_data]>
           (<["/p/ck-1-5.dat" := Reg demo_data]> ∅)) in
  ∃ s' result, get_versions "/p" demo_cmd (mk_sys f [], []) = (Val tt, (s', result)) ∧
    files s' = f ∧ sorted result ∧
    (∀ v, v ∈ result ↔ listed f "/p" "ck" (λ id, id =? 0) v) ∧
    ∀ v d, 0 ≤ v ≤ INT_MAX → f !! filename (set_version demo_cmd v) "/p" = Some (Reg d) →
      v ∈ result.
Proof.
  intros f. apply (posix_get_versions "/p" demo_cmd f); vm_compute; reflexivity.
Defined.

Lemma match_outcome n e : (∃ m, match_ n e = Val m) ∨ ∃ x, match_ n e = Raise x.
Proof.
  unfold match_. assert (∀ g, (∃ z, stoi g = Val z) ∨ ∃ x, stoi g = Raise x) as Hstoi.
  { intros g. unfold stoi. destruct (scan_decimal g) as [[z ?]|]; [|by eauto].
    case_bool_decide; eauto. }
  destruct (Regex.regex_match e n) as [[|g1 [|g2 [|]]]|]; eauto.
  destruct (Hstoi g1) as [[z1 H1]|[x1 H1]], (Hstoi g2) as [[z2 H2]|[x2 H2]];
    rewrite ?H1, ?H2; repeat case_decide; simpl; eauto.
Qed.

Lemma collect_entries_raise {S} sel p e es (st : S * zset) n nd x :
  (n, nd) ∈ es → nd ≠ Dir → match_ n e = Raise x →
  ∃ x' st', mforeach (parse_entry p e (collect sel)) es st = (Raise x', st').
Proof.
  intros Hin Hnd Hm. revert st. induction es as [|[n1 nd1] es IH]; intros st; [by apply elem_of_nil in Hin|].
  assert ((∃ st1, parse_entry p e (collect sel) (n1, nd1) st = (Val tt, st1)) ∨
    ∃ x1, parse_entry p e (collect sel) (n1, nd1) st = (Raise x1, st)) as [[st1 H1]|[x1 H1]].
  { unfold parse_entry. destruct nd1; [| |left; by eexists];
      (destruct (match_outcome n1 e) as [[[[id v]|] H1]|[x1 H1]]; rewrite H1;
       [rewrite stop_bind; unfold collect; destruct (sel id); left; by eexists
       |rewrite stop_bind; left; by eexists|right; by eexists]). }
  - cbn [mforeach]. erewrite comp_bind_val by done.
    apply elem_of_cons in Hin as [Heq|Hin]; [|by apply IH]. simplify_eq.
    unfold parse_entry, stop, mbind, comp_bind in H1. rewrite Hm in H1. by destruct nd1.
  - exists x1, st. cbn [mforeach]. unfold mbind, comp_bind. by rewrite H1.
Qed.

(** One file whose number does not fit an [int] makes every scan of its directory
    for its name throw. *)
Lemma scan_throws {S} `{HasSys S} sel p cname (s : S) f r n nd e :
  the_sys s = mk_sys f [] → command_t.regex cname = Some e → is_dir f p = true →
  (n, nd) ∈ entries f p → nd ≠ Dir → match_ n e = Raise out_of_range →
  ∃ x st', (parse_dir p cname (collect sel);; mret tt) (s, r) = (Raise x, st').
Proof.
  intros Hs He Hdir Hes Hnd Hm.
  destruct (collect_entries_raise sel p e (entries f p) (s, r) n nd out_of_range)
    as (x & st' & Hr); try done.
  exists x, st'. unfold mbind at 1, comp_bind at 1. unfold parse_dir.
  assert (on_sys (opendir p) (s, r) = (Val true, (s, r))) as Ho.
  { eapply on_sys_same; [exact Hs|]. unfold opendir. free_run. by rewrite Hdir. }
  rewrite (comp_bind_val _ _ _ _ _ Ho). cbn [negb]. rewrite He. rewrite gets_bind.
  cbn [the_sys pair_has_sys fst]. rewrite Hs. simpl (files _). unfold mbind, comp_bind. by rewrite Hr.
Qed.
