(* ===== verification/AggStorage.v ===== *)
(** * AggStorage: [src/storage/posix_agg_module.cpp]

    The POSIX module that gathers the checkpoints of all ranks in one file.  A
    flush writes the local checkpoint at the offset of its rank; a restore reads
    the number of ranks and the offsets from a header file, which the clients
    write in [Client], and copies the rank's part back. *)

From S2P Require Import Prelude Text Command FileSystem Containers FileUtil Bytes Storage.

Local Open Scope Z_scope.

Import command_t.

Module posix_agg_module_t.
Section posix_agg_module.
Context {S : Type} `{HasSys S}.
Variables scratch persistent meta : string.

Definition make : comp S unit :=
  posix_module_t.make persistent;;
  ok ← on_sys (check_dir meta);
  if (ok : bool) then mret tt else stop FATAL.

Definition get_versions (cmd : command_t.t) : comp (S * zset) unit :=
  parse_dir persistent cmd.(name) (collect (λ id, id =? ID_AGG));;
  mret tt.

Definition flush (cmd : command_t.t) : comp S bool :=
  on_sys (posix_transfer_file (filename cmd scratch) (agg_filename cmd persistent)
            0 cmd.(offset) SIZE_MAX).

(** [return unlink(...)]: the result of [unlink] is 0 on success, -1 on error,
    and becomes [false] and [true]. *)
Definition remove (cmd : command_t.t) : comp S bool :=
  on_sys (ok ← unlink (agg_filename cmd persistent); mret (negb ok)).

(** [offset] and [num_ranks] are not initialised.  A short [pread] leaves (a part
    of) them indeterminate, and every use of such a value is undefined; the
    subtraction uses them even when [pread] failed. *)
Definition read_offsets (cmd : command_t.t) (fi : string) (num_ranks : Z) :
    posix (option (Z * Z)) :=
  i ← stop (int_ok (cmd.(unique_id) + 1));
  if cmd.(unique_id) =? num_ranks - 1 then
    res ← pread fi sizeof_long (u64 (i * sizeof_long));
    match res with
    | None => mret None
    | Some bs => if zlen bs <? sizeof_long then stop Undef
                 else mret (Some (long_of bs, LONG_MAX))
    end
  else
    res ← pread fi (2 * sizeof_long) (u64 (i * sizeof_long));
    match res with
    | None => stop Undef
    | Some bs =>
        if zlen bs <? 2 * sizeof_long then stop Undef else
        let offset0 := long_of (ztake sizeof_long bs) in
        offset1 ← stop (long_ok (long_of (zdrop sizeof_long bs) - offset0));
        mret (Some (offset0, offset1))
    end.

Definition restore (cmd : command_t.t) : comp S bool :=
  on_sys (
    fi ← open_rd (agg_filename cmd meta);
    match fi with
    | None => mret false
    | Some fi =>
        res ← pread fi sizeof_long 0;
        match res with
        | None => mret false
        | Some bs =>
            if zlen bs <? sizeof_long then stop Undef else
            offset ← read_offsets cmd fi (long_of bs);
            match offset with
            | None => mret false
            | Some (offset0, offset1) =>
                posix_transfer_file (agg_filename cmd persistent) (filename cmd scratch)
                  (u64 offset0) 0 (u64 offset1)
            end
        end
    end).

Definition exists_ (cmd : command_t.t) : comp S bool :=
  on_sys (access (agg_filename cmd persistent)).

Definition storage : storage_module_t S := {|
  Storage.get_versions := get_versions;
  Storage.remove := remove;
  Storage.flush := flush;
  Storage.restore := restore;
  Storage.exists_ := exists_
|}.

End posix_agg_module.
End posix_agg_module_t.

Global Program Instance agg_versions {S} `{HasSys S} (scratch persistent meta : string) :
    StorageVersions (posix_agg_module_t.storage (S:=S) scratch persistent meta) := {|
  stored f c x := is_dir f persistent = true ∧ listed f persistent c.(name) (λ id, id =? ID_AGG) x;
  scannable f c := dir_scannable f persistent c.(name)
|}.
Next Obligation. intros. by apply scan_versions. Qed.
Next Obligation. intros. by apply scan_total. Qed.

(** ** The layout of the aggregated file *)

(** The offset of rank [r]: what the ranks below it hold together. *)
Definition start (datas : list (list byte)) (r : nat) : Z := zlen (concat (take r datas)).

(** The part of the file that belongs to rank [r]. *)
Definition part (datas : list (list byte)) (r : nat) (d file : list byte) : list byte :=
  ztake (zlen d) (zdrop (start datas r) file).

Lemma start_nonneg datas r : 0 ≤ start datas r.
Proof. apply zlen_nonneg. Qed.

Lemma start_step datas r d :
  datas !! r = Some d → start datas (Datatypes.S r) = start datas r + zlen d.
Proof.
  intros H. unfold start. rewrite (take_S_r _ _ _ H), concat_app, zlen_app.
  simpl. by rewrite app_nil_r.
Qed.

Lemma start_mono datas r r' : (r ≤ r')%nat → start datas r ≤ start datas r'.
Proof.
  intros H. unfold start. replace r' with (r + (r' - r))%nat by lia.
  rewrite <-take_take_drop, concat_app, zlen_app. pose proof (zlen_nonneg (concat (take (r' - r) (drop r datas)))).
  lia.
Qed.

Lemma start_total datas r : start datas r ≤ zlen (concat datas).
Proof.
  unfold start. rewrite <-(take_drop r datas) at 2. rewrite concat_app, zlen_app.
  pose proof (zlen_nonneg (concat (drop r datas))). lia.
Qed.

Lemma start_end datas r d : datas !! r = Some d → start datas r + zlen d ≤ zlen (concat datas).
Proof. intros H. rewrite <-(start_step _ _ _ H). apply start_total. Qed.

(** Different ranks write to different parts. *)
Lemma start_disjoint datas r d r' d' :
  datas !! r = Some d → datas !! r' = Some d' → r ≠ r' →
  start datas r + zlen d ≤ start datas r' ∨ start datas r' + zlen d' ≤ start datas r.
Proof.
  intros H H' Hne. rewrite <-(start_step _ _ _ H), <-(start_step _ _ _ H').
  destruct (decide (r < r')%nat); [left|right]; apply start_mono; lia.
Qed.

Lemma part_concat datas r d : datas !! r = Some d → part datas r d (concat datas) = d.
Proof.
  intros H. unfold part, start. rewrite <-(take_drop_middle _ _ _ H) at 2.
  rewrite concat_app, zdrop_app_ge, Z.sub_diag, zdrop_0 by done. simpl.
  by rewrite ztake_app_le, ztake_all by done.
Qed.

(** The parts determine the file, up to what lies behind them. *)
Lemma parts_concat datas file :
  (∀ r d, datas !! r = Some d → part datas r d file = d) →
  file = concat datas ++ zdrop (zlen (concat datas)) file.
Proof.
  revert file. induction datas as [|d datas IH]; intros file Hp; [by rewrite zdrop_0|].
  simpl in *. pose proof (Hp 0%nat d eq_refl) as H0. unfold part, start in H0. simpl in H0.
  rewrite zdrop_0 in H0 by done. rewrite zlen_app, <-app_assoc.
  rewrite <-(ztake_zdrop_id (zlen d) file) at 1. rewrite H0. f_equal.
  pose proof (zlen_nonneg d). pose proof (zlen_nonneg (concat datas)).
  rewrite <-zdrop_zdrop by done. apply IH.
  intros r d' Hr. unfold part. rewrite zdrop_zdrop by (done || apply start_nonneg).
  specialize (Hp (Datatypes.S r) d' Hr). unfold part, start in *. simpl in Hp.
  by rewrite zlen_app in Hp.
Qed.

(** ** Flushing all ranks *)

(** The command of rank [r] for the checkpoint described by [c]. *)
Definition rank_cmd (c : command_t.t) (datas : list (list byte)) (r : nat) : command_t.t :=
  {| unique_id := Z.of_nat r; command := c.(command); version := c.(version);
     offset := start datas r; name := c.(name); original := c.(original) |}.

Lemma rank_agg_filename c datas r p : agg_filename (rank_cmd c datas r) p = agg_filename c p.
Proof. done. Qed.

Lemma dirname_agg c p :
  wf c = true → dirname (agg_filename c p) = Some p.
Proof.
  intros Hwf. pose proof (wf_name c Hwf) as Hn. apply wf_spec in Hwf as (_ & _ & _ & [Hv _]).
  apply dirname_app. by rewrite !scount_app, name_no_slash, !to_string_no_slash.
Qed.

(** The backends of the ranks flush in some order, all of them with success. *)
Inductive flushed (scratch persistent : string) (c : command_t.t) (datas : list (list byte)) :
    list nat → sys → sys → Prop :=
  | flushed_nil s : flushed scratch persistent c datas [] s s
  | flushed_cons r rs s s1 s2 :
      posix_agg_module_t.flush scratch persistent (rank_cmd c datas r) s = (Val true, s1) →
      flushed scratch persistent c datas rs s1 s2 →
      flushed scratch persistent c datas (r :: rs) s s2.

(** What the aggregated file, which was [old], holds once [ranks] have flushed. *)
Definition holds_parts (datas : list (list byte)) (old : list byte) (ranks : list nat) (file : list byte) : Prop :=
  zdrop (zlen (concat datas)) file = zdrop (zlen (concat datas)) old ∧
  ∀ r d, r ∈ ranks → datas !! r = Some d → d ≠ [] →
    start datas r + zlen d ≤ zlen file ∧ part datas r d file = d.

(** A write leaves what lies behind it. *)
Lemma splice_behind off bs data n :
  0 ≤ off → off + zlen bs ≤ n → zdrop n (splice off bs data) = zdrop n data.
Proof.
  intros Hoff Hn. destruct (decide (bs = [])) as [->|Hbs]; [done|]. pose proof (zlen_nonneg bs).
  destruct (Z.le_gt_cases (zlen data) n) as [Hle|Hgt].
  - by rewrite !zdrop_all by (rewrite ?zlen_splice by done; lia).
  - rewrite <-(ztake_all (zlen data - n) (zdrop n data)) by (rewrite zlen_zdrop by lia; lia).
    rewrite <-(splice_other off bs data n (zlen data - n)) by lia.
    rewrite ztake_all; [done|]. rewrite zlen_zdrop, zlen_splice by (done || lia). lia.
Qed.

Lemma holds_parts_write datas old ranks r d file :
  datas !! r = Some d → r ∉ ranks → holds_parts datas old ranks file →
  holds_parts datas old (r :: ranks) (splice (start datas r) d file).
Proof.
  intros Hd Hr [Hlen Hp]. pose proof (start_nonneg datas r). pose proof (start_end _ _ _ Hd).
  destruct (decide (d = [])) as [->|Hne].
  { split; [done|]. intros r' d' [->|Hr']%elem_of_cons Hd' Hne'; [congruence|by apply Hp]. }
  split; [by rewrite splice_behind|].
  intros r' d' Hr' Hd' Hne'. rewrite zlen_splice by done. unfold part.
  apply elem_of_cons in Hr' as [->|Hr'].
  - simplify_eq. split; [lia|]. by apply splice_read.
  - destruct (Hp r' d' Hr' Hd' Hne') as [Hle Hpart]. split; [lia|].
    rewrite splice_other; [done|done|apply start_nonneg|apply zlen_nonneg|done|].
    destruct (start_disjoint datas r d r' d'); try done; [by intros ->|by right|by left].
Qed.

Lemma holds_parts_all datas old ranks file :
  (∀ r, (r < length datas)%nat → r ∈ ranks) → holds_parts datas old ranks file →
  file = concat datas ++ zdrop (zlen (concat datas)) old.
Proof.
  intros Hall [<- Hp]. apply parts_concat. intros r d Hd.
  destruct (decide (d = [])) as [->|Hne]; [by apply ztake_0|].
  apply Hp; try done. apply Hall. by apply lookup_lt_Some in Hd.
Qed.

(** ** The header file *)

(** The number of ranks and the offset of each of them. *)
Definition header (datas : list (list byte)) : list byte :=
  concat (long_bytes (Z.of_nat (length datas))
          :: map (λ r, long_bytes (start datas r)) (seq 0 (length datas))).

Lemma start_uniform k (l : list (list byte)) r :
  Forall (λ d, zlen d = k) l → (r ≤ length l)%nat → start l r = k * Z.of_nat r.
Proof.
  intros Hl. induction r as [|r IH]; intros Hr; [unfold start, zlen; simpl; lia|].
  destruct (lookup_lt_is_Some_2 l r) as [d Hd]; [lia|].
  rewrite (start_step _ _ _ Hd), IH by lia.
  rewrite Forall_lookup in Hl. rewrite (Hl _ _ Hd). lia.
Qed.

(** Reading a record of a file of records of equal size. *)
Lemma read_record k (l : list (list byte)) r d :
  Forall (λ d, zlen d = k) l → l !! r = Some d →
  ztake k (zdrop (k * Z.of_nat r) (concat l)) = d.
Proof.
  intros Hl Hd. pose proof (part_concat _ _ _ Hd) as Hp. unfold part in Hp.
  rewrite (start_uniform k) in Hp by (done || (apply lookup_lt_Some in Hd; lia)).
  rewrite Forall_lookup in Hl. by rewrite (Hl _ _ Hd) in Hp.
Qed.

Lemma header_records datas :
  Forall (λ d, zlen d = 8) (long_bytes (Z.of_nat (length datas))
          :: map (λ r, long_bytes (start datas r)) (seq 0 (length datas))).
Proof.
  constructor; [apply zlen_long_bytes|]. apply Forall_map, Forall_forall.
  intros. apply zlen_long_bytes.
Qed.

Lemma header_ranks datas : ztake 8 (zdrop 0 (header datas)) = long_bytes (Z.of_nat (length datas)).
Proof. apply (read_record 8 _ 0); [apply header_records|done]. Qed.

Lemma header_offset datas r :
  (r < length datas)%nat →
  ztake 8 (zdrop (8 * (Z.of_nat r + 1)) (header datas)) = long_bytes (start datas r).
Proof.
  intros Hr. replace (Z.of_nat r + 1) with (Z.of_nat (Datatypes.S r)) by lia.
  apply read_record; [apply header_records|]. simpl.
  by rewrite list_lookup_fmap, lookup_seq_lt by done.
Qed.

Lemma header_offsets datas r :
  (Datatypes.S r < length datas)%nat →
  ztake 16 (zdrop (8 * (Z.of_nat r + 1)) (header datas))
  = long_bytes (start datas r) ++ long_bytes (start datas (Datatypes.S r)).
Proof.
  intros Hr. change 16 with (8 + 8). rewrite ztake_add, header_offset by lia. f_equal.
  rewrite zdrop_zdrop by lia. rewrite <-header_offset by done. do 2 f_equal. lia.
Qed.

(** What the theorems on all ranks share: [c] describes the checkpoint, [datas]
    are the local checkpoints, one per rank. *)
Section aggregated.
Variables (scratch persistent meta : string) (c : command_t.t) (datas : list (list byte)).
Hypothesis c_wf : wf c = true.
Hypothesis ranks_int : Z.of_nat (length datas) ≤ INT_MAX.
Hypothesis total_size : zlen (concat datas) ≤ LONG_MAX.

Let agg := agg_filename c persistent.

(** Every rank has its local checkpoint. *)
Definition local_files (f : gmap string node) : Prop :=
  ∀ r d, datas !! r = Some d →
    f !! filename (rank_cmd c datas r) scratch = Some (Reg d).

Lemma rank_wf r : (r < length datas)%nat → wf (rank_cmd c datas r) = true.
Proof using c_wf ranks_int.
  intros Hr. apply wf_spec. apply wf_spec in c_wf. simpl. unfold INT_MAX in *.
  destruct c_wf as (? & ? & ? & ?). split_and!; try done; lia.
Qed.

Lemma rank_file_ne p p' r :
  (r < length datas)%nat → p ≠ p' → filename (rank_cmd c datas r) p ≠ agg_filename c p'.
Proof using c_wf ranks_int.
  intros Hr Hne Heq. apply (f_equal dirname) in Heq.
  rewrite dirname_filename, dirname_agg in Heq by (done || by apply rank_wf). congruence.
Qed.

Lemma data_size r d : datas !! r = Some d → zlen d ≤ LONG_MAX ∧ 0 ≤ start datas r ≤ LONG_MAX.
Proof using total_size.
  intros Hd. pose proof (start_end _ _ _ Hd). pose proof (start_nonneg datas r).
  pose proof (zlen_nonneg d). lia.
Qed.

Lemma flush_true r d s s' :
  scratch ≠ persistent → datas !! r = Some d → local_files (files s) →
  no_link (files s) agg →
  posix_agg_module_t.flush scratch persistent (rank_cmd c datas r) s = (Val true, s') →
  files s' = <[agg := Reg (splice (start datas r) d (contents (files s) agg))]> (files s).
Proof using c_wf ranks_int total_size.
  intros Hne Hd Hloc Hnl H. unfold posix_agg_module_t.flush, on_sys in H. simpl in H.
  destruct (posix_transfer_file _ _ _ _ _ s) as [o s''] eqn:Hc. simplify_eq.
  pose proof (data_size _ _ Hd) as [? ?].
  pose proof (lookup_lt_Some _ _ _ Hd) as Hr.
  eapply (posix_transfer_true _ _ _ _ _ _ _ _ d agg) in Hc as (old & Hold & ->);
    [|by apply lookup_path_reg, Hloc|by apply resolve_file|by apply rank_file_ne|done|
     simpl; lia|done|done].
  rewrite zdrop_0 by done. rewrite ztake_all by (unfold SIZE_MAX, LONG_MAX in *; lia).
  unfold contents. by destruct Hold as [->|[-> ->]].
Qed.

Lemma local_files_insert f w : scratch ≠ persistent → local_files f → local_files (<[agg := Reg w]> f).
Proof using c_wf ranks_int.
  intros Hne Hloc r d Hd. rewrite lookup_insert_ne; [by apply Hloc|].
  apply not_eq_sym, rank_file_ne; [by eapply lookup_lt_Some|done].
Qed.

Lemma flushed_parts old rs ranks s s' :
  scratch ≠ persistent → NoDup rs → (∀ r, r ∈ rs → (r < length datas)%nat ∧ r ∉ ranks) →
  local_files (files s) → no_link (files s) agg →
  holds_parts datas old ranks (contents (files s) agg) →
  flushed scratch persistent c datas rs s s' →
  holds_parts datas old (reverse rs ++ ranks) (contents (files s') agg) ∧
  (rs ≠ [] → files s' = <[agg := Reg (contents (files s') agg)]> (files s)).
Proof using c_wf ranks_int total_size.
  intros Hne Hnd Hrs Hloc Hnl Hparts Hfl. revert ranks Hnd Hrs Hloc Hnl Hparts.
  induction Hfl as [s|r rs s s1 s2 Hf Hfl IH]; intros ranks Hnd Hrs Hloc Hnl Hparts; [done|].
  apply NoDup_cons in Hnd as [Hr Hnd].
  destruct (Hrs r) as [Hlt Hnin]; [by left|].
  destruct (lookup_lt_is_Some_2 datas r Hlt) as [d Hd].
  eapply flush_true in Hf; try done.
  assert (contents (files s1) agg = splice (start datas r) d (contents (files s) agg)) as Hc1
    by (rewrite Hf; unfold contents at 1; by simplify_map_eq).
  destruct (IH (r :: ranks)) as [Hp2 Hf2]; try done.
  - intros r' Hr'. split; [apply Hrs; by right|]. intros [->|?]%elem_of_cons; [done|].
    by destruct (Hrs r') as [_ ?]; [by right|].
  - rewrite Hf. by apply local_files_insert.
  - rewrite Hf. intros t. by simplify_map_eq.
  - rewrite Hc1. by apply holds_parts_write.
  - split; [by rewrite reverse_cons, <-app_assoc|]. intros _.
    inversion Hfl; subst; [by rewrite Hc1|].
    etransitivity; [by apply Hf2|]. rewrite Hf. by rewrite insert_insert_eq.
Qed.

(** ** Restoring a rank *)

(** The two values that [restore] takes from the header of a complete
    aggregation. *)
Definition rank_offsets (r : nat) : Z * Z :=
  (start datas r,
   if Z.of_nat r =? Z.of_nat (length datas) - 1 then LONG_MAX
   else start datas (Datatypes.S r) - start datas r).

Lemma long_of_start r : long_of (long_bytes (start datas r)) = start datas r.
Proof using total_size.
  apply long_of_bytes. pose proof (start_nonneg datas r). pose proof (start_total datas r). lia.
Qed.

Lemma long_ok_diff r :
  long_ok (start datas (Datatypes.S r) - start datas r)
  = Val (start datas (Datatypes.S r) - start datas r).
Proof using total_size.
  pose proof (start_nonneg datas r). pose proof (start_mono datas r (Datatypes.S r)).
  pose proof (start_total datas (Datatypes.S r)). unfold long_ok, LONG_MAX in *.
  by rewrite (proj2 (andb_true_iff _ _)) by (split; apply Z.leb_le; lia).
Qed.

Lemma split_offsets r :
  let bs := long_bytes (start datas r) ++ long_bytes (start datas (Datatypes.S r)) in
  long_of (ztake 8 bs) = start datas r ∧ long_of (zdrop 8 bs) = start datas (Datatypes.S r).
Proof using total_size.
  cbv zeta. rewrite ztake_app_le, ztake_all, zdrop_app_ge by (rewrite zlen_long_bytes; done).
  by rewrite zlen_long_bytes, zdrop_0, !long_of_start.
Qed.

Lemma int_ok_rank r : (r < length datas)%nat → int_ok (Z.of_nat r + 1) = Val (Z.of_nat r + 1).
Proof using ranks_int.
  intros Hr. unfold int_ok, INT_MIN, INT_MAX in *.
  by rewrite (proj2 (andb_true_iff _ _)) by (split; apply Z.leb_le; lia).
Qed.

Lemma rank_position r :
  (r < length datas)%nat → u64 ((Z.of_nat r + 1) * sizeof_long) = 8 * (Z.of_nat r + 1).
Proof using ranks_int.
  intros Hr. unfold INT_MAX, sizeof_long in *.
  rewrite u64_small; [lia|]. unfold is_size, SIZE_MAX. lia.
Qed.

Lemma read_offsets_val r fi s o s' :
  (r < length datas)%nat → files s !! fi = Some (Reg (header datas)) →
  posix_agg_module_t.read_offsets (rank_cmd c datas r) fi (Z.of_nat (length datas)) s
  = (Val (Some o), s') →
  files s' = files s ∧ o = rank_offsets r.
Proof using ranks_int total_size.
  intros Hr Hfi. unfold posix_agg_module_t.read_offsets, rank_offsets. simpl unique_id.
  rewrite int_ok_rank, stop_bind by done.
  rewrite rank_position by done.
  destruct (Z.eqb_spec (Z.of_nat r) (Z.of_nat (length datas) - 1)) as [Hl|Hl]; intros H;
    apply comp_bind_inv in H as ([bs|] & s1 & Hrd & H); try done;
    (case_match eqn:Hlen; [done|]);
    (eapply pread_exact in Hrd as [Hf Hbs]; [|done..]); subst bs.
  - rewrite header_offset, long_of_start in H by done. unfold mret, comp_ret in H.
    by simplify_eq.
  - change (2 * sizeof_long) with 16 in H.
    rewrite header_offsets in H by lia. destruct (split_offsets r) as [E1 E2].
    unfold sizeof_long in H. rewrite E1, E2, long_ok_diff in H.
    unfold stop, mret, comp_ret, mbind, comp_bind in H. by simplify_eq.
Qed.

Lemma read_offsets_free r fi f :
  (r < length datas)%nat → f !! fi = Some (Reg (header datas)) →
  posix_agg_module_t.read_offsets (rank_cmd c datas r) fi (Z.of_nat (length datas)) (mk_sys f [])
  = (Val (Some (rank_offsets r)), mk_sys f []).
Proof using ranks_int total_size.
  intros Hr Hfi. unfold posix_agg_module_t.read_offsets, rank_offsets. simpl unique_id.
  rewrite int_ok_rank, stop_bind by done.
  rewrite rank_position by done.
  assert (8 * (Z.of_nat r + 1) ≤ LONG_MAX) by (unfold INT_MAX, LONG_MAX in *; lia).
  destruct (Z.eqb_spec (Z.of_nat r) (Z.of_nat (length datas) - 1)) as [Hl|Hl];
    (erewrite comp_bind_val by by apply pread_free); cbn beta iota.
  - rewrite header_offset, zlen_long_bytes, long_of_start by done. done.
  - change (2 * sizeof_long) with 16. rewrite header_offsets by lia.
    destruct (split_offsets r) as [E1 E2].
    rewrite zlen_app, !zlen_long_bytes. unfold sizeof_long. simpl (8 + 8 <? 16).
    rewrite E1, E2, long_ok_diff. done.
Qed.

(** The part of the aggregated file that [rank_offsets] selects. *)
Lemma rank_offsets_read r d :
  datas !! r = Some d →
  ztake (u64 (rank_offsets r).2) (zdrop (u64 (rank_offsets r).1) (concat datas)) = d.
Proof using total_size.
  intros Hd. pose proof (data_size _ _ Hd) as [Hdl Hs].
  pose proof (start_step _ _ _ Hd) as Hst. pose proof (part_concat _ _ _ Hd) as Hp.
  pose proof (zlen_nonneg d). unfold rank_offsets. simpl. unfold part in Hp.
  rewrite (u64_small (start datas r)) by (unfold is_size, SIZE_MAX, LONG_MAX in *; lia).
  destruct (Z.eqb_spec (Z.of_nat r) (Z.of_nat (length datas) - 1)) as [Hl|Hl].
  - rewrite u64_small by done. etransitivity; [|exact Hp].
    rewrite (ztake_all (zlen d)), ztake_all; [done|..];
      rewrite zlen_zdrop by lia; pose proof (zlen_nonneg (concat datas)); [lia|].
    enough (zlen (concat datas) = start datas r + zlen d) by lia.
    rewrite <-Hst. unfold start. rewrite firstn_all2; [done|lia].
  - rewrite Hst. rewrite u64_small by (unfold is_size, SIZE_MAX, LONG_MAX in *; lia).
    by replace (start datas r + zlen d - start datas r) with (zlen d) by lia.
Qed.

(** C7: the ranks can flush in any order: when all have flushed, whatever short
    transfers they met, the aggregated file is the concatenation of the local
    checkpoints by rank, followed by what an older and longer file of this name
    held from there on (it is opened without [O_TRUNC]); no other file has
    changed.  In particular it is the concatenation when there was no longer file. *)
Theorem agg_flush_concat (ranks : list nat) (s s' : sys) :
  scratch ≠ persistent → datas ≠ [] → ranks ≡ₚ seq 0 (length datas) →
  local_files (files s) → no_link (files s) (agg_filename c persistent) →
  flushed scratch persistent c datas ranks s s' →
  let old := contents (files s) (agg_filename c persistent) in
  files s' = <[agg_filename c persistent := Reg (concat datas ++ zdrop (zlen (concat datas)) old)]> (files s) ∧
  (zlen old ≤ zlen (concat datas) →
    files s' = <[agg_filename c persistent := Reg (concat datas)]> (files s)).
Proof using c_wf ranks_int total_size.
  intros Hne Hds Hperm Hloc Hnl Hfl old.
  assert (files s' = <[agg_filename c persistent := Reg (concat datas ++ zdrop (zlen (concat datas)) old)]> (files s))
    as Hex; [|split; [done|intros Hold; by rewrite zdrop_all, app_nil_r in Hex]].
  destruct (flushed_parts old ranks [] s s') as [Hparts Hfiles]; try done.
  - rewrite Hperm. apply NoDup_seq.
  - intros r Hr. rewrite Hperm, elem_of_seq in Hr. split; [lia|]. by apply not_elem_of_nil.
  - split; [done|]. intros ? ? []%elem_of_nil.
  - apply holds_parts_all in Hparts.
    + unfold agg in *. rewrite <-Hparts. apply Hfiles. intros ->.
      apply Permutation_nil_l in Hperm. by destruct datas.
    + intros r Hr. rewrite app_nil_r, elem_of_reverse, Hperm.
      apply elem_of_seq. lia.
Qed.

Lemma restore_offsets r s s' q :
  (r < length datas)%nat →
  lookup_path (files s) (agg_filename c meta) = Some (q, Reg (header datas)) →
  posix_agg_module_t.restore scratch persistent meta (rank_cmd c datas r) s = (Val true, s') →
  ∃ s1, files s1 = files s ∧
    posix_transfer_file (agg_filename c persistent) (filename (rank_cmd c datas r) scratch)
      (u64 (rank_offsets r).1) 0 (u64 (rank_offsets r).2) s1 = (Val true, s').
Proof using ranks_int total_size.
  intros Hr Hq. unfold posix_agg_module_t.restore, on_sys. simpl.
  match goal with |- (let (_, _) := ?m s in _) = _ → _ => destruct (m s) as [o s''] eqn:H end.
  intros ?. simplify_eq. rewrite !rank_agg_filename in H.
  apply comp_bind_inv in H as ([fi|] & s1 & Ho & H); [|done].
  apply open_rd_spec in Ho as [Hf1 [?|(q' & nd & Hq' & ?)]]; simplify_eq.
  apply comp_bind_inv in H as ([bs|] & s2 & Hrd & H); [|done].
  case_match eqn:Hlen; [done|].
  assert (files s1 !! q = Some (Reg (header datas))) as Hh
    by (rewrite Hf1; by eapply lookup_path_at).
  eapply pread_exact in Hrd as [Hf2 Hbs]; [|done..]. subst bs.
  unfold sizeof_long in H. rewrite header_ranks, long_of_bytes in H
    by (unfold INT_MAX, LONG_MAX in *; lia).
  apply comp_bind_inv in H as ([[o0 o1]|] & s3 & Hro & H); [|done].
  apply read_offsets_val in Hro as [Hf3 Ho]; [|done|by rewrite Hf2].
  exists s3. split; [congruence|]. unfold rank_offsets in Ho. by simplify_eq.
Qed.

(** C8: restoring a rank from a complete aggregation puts exactly the checkpoint
    of that rank back, whatever short transfers the restore meets, and without
    faults the restore succeeds. *)
Theorem agg_restore_rank (r : nat) (d : list byte) (f : gmap string node) (q : string) :
  datas !! r = Some d → scratch ≠ persistent →
  lookup_path f (agg_filename c meta) = Some (q, Reg (header datas)) →
  f !! agg_filename c persistent = Some (Reg (concat datas)) →
  f !! filename (rank_cmd c datas r) scratch = None →
  is_dir f scratch = true →
  (∀ s s', files s = f →
    posix_agg_module_t.restore scratch persistent meta (rank_cmd c datas r) s = (Val true, s') →
    files s' = <[filename (rank_cmd c datas r) scratch := Reg d]> f) ∧
  (posix_agg_module_t.restore scratch persistent meta (rank_cmd c datas r) (mk_sys f [])).1
  = Val true.
Proof using c_wf ranks_int total_size.
  intros Hd Hne Hq Hagg Hnone Hdir. pose proof (lookup_lt_Some _ _ _ Hd) as Hr.
  pose proof (data_size _ _ Hd) as [Hdl Hst]. pose proof (start_total datas r).
  set (dest := filename _ _) in *.
  assert (agg_filename c persistent ≠ dest) as Hnd by (by apply not_eq_sym, rank_file_ne).
  assert (u64 (rank_offsets r).1 = start datas r) as Ho0.
  { apply u64_small. unfold is_size, SIZE_MAX, LONG_MAX in *. simpl. lia. }
  split.
  - intros s s' <- Hres. apply (restore_offsets _ _ _ q) in Hres as (s1 & Hf1 & Hres); [|done..].
    rewrite <-Hf1 in *.
    eapply (posix_transfer_true _ _ _ _ _ _ _ _ (concat datas) dest) in Hres as (old & Hold & ->);
      [|by apply lookup_path_reg|by apply resolve_none|done|lia|done|apply u64_range|done].
    assert (old = []) as -> by naive_solver.
    rewrite (rank_offsets_read r d), splice_0 by done. by rewrite zdrop_all, app_nil_r by apply zlen_nonneg.
  - unfold posix_agg_module_t.restore, on_sys. simpl. rewrite !rank_agg_filename.
    erewrite comp_bind_val by by eapply open_rd_free. cbn beta iota.
    erewrite comp_bind_val by (apply pread_free; [done|by eapply lookup_path_at]). cbn beta iota.
    unfold sizeof_long. rewrite header_ranks, zlen_long_bytes. change (8 <? 8) with false. cbn iota.
    rewrite long_of_bytes by (unfold INT_MAX, LONG_MAX in *; lia).
    erewrite comp_bind_val by (apply read_offsets_free; [done|by eapply lookup_path_at]).
    cbn beta iota. fold dest. rewrite (surjective_pairing (rank_offsets r)). cbn iota.
    erewrite posix_transfer_free; [done|by apply lookup_path_reg|by apply resolve_none|done| |..];
      try done; [|rewrite Ho0; lia|apply u64_range].
    right. split_and!; [done| |done]. unfold parent_ok, dest.
    rewrite dirname_filename by by apply rank_wf. by rewrite Hdir, orb_true_r.
Qed.
End aggregated.

(** Two ranks with three and two bytes. *)
Definition demo_datas : list (list byte) := [demo_data; [Byte.x07; Byte.x08]].
Definition demo_agg_files : gmap string node :=
  <["/s" := Dir]> (<["/p" := Dir]> (<["/m" := Dir]>
  (<["/s/ck-0-3.dat" := Reg demo_data]> (<["/s/ck-1-3.dat" := Reg [Byte.x07; Byte.x08]]> ∅)))).

Lemma agg_flush_concat_witness :
  ∃ s', files s' = <["/p/ck-agg-3.dat" := Reg (concat demo_datas)]> demo_agg_files.
Proof.
  set (s := mk_sys demo_agg_files [Go; Go; Go; Short 1]).
  set (s1 := (posix_agg_module_t.flush "/s" "/p" (rank_cmd demo_cmd demo_datas 1) s).2).
  exists (posix_agg_module_t.flush "/s" "/p" (rank_cmd demo_cmd demo_datas 0) s1).2.
  refine (proj2 (agg_flush_concat "/s" "/p" demo_cmd demo_datas _ _ _ [1%nat; 0%nat] s _ _ _ _ _ _ _) _);
    try (vm_compute; (reflexivity || discriminate)).
  - apply Permutation_swap.
  - intros [|[|r]] d ?; simplify_eq/=; vm_compute; reflexivity.
  - econstructor; [vm_compute; reflexivity|].
    econstructor; [vm_compute; reflexivity|constructor].
Defined.

Lemma agg_restore_rank_witness :
  let f := <["/p/ck-agg-3.dat" := Reg (concat demo_datas)]>
    (<["/m/ck-agg-3.dat" := Reg (header demo_datas)]>
    (<["/s" := Dir]> (<["/p" := Dir]> (<["/m" := Dir]> ∅)))) in
  (posix_agg_module_t.restore "/s" "/p" "/m" (rank_cmd demo_cmd demo_datas 1) (mk_sys f [])).1
  = Val true.
Proof.
  intros f.
  apply (agg_restore_rank "/s" "/p" "/m" demo_cmd demo_datas) with
    (d := [Byte.x07; Byte.x08]) (q := "/m/ck-agg-3.dat");
    vm_compute; (reflexivity || discriminate).
Defined.

(** [remove] of an aggregated checkpoint reports the opposite of what
    happened: [true] exactly when the file is still what it was, [false] when it
    was removed. *)
Theorem agg_remove_inverted (persistent : string) (cmd : command_t.t) (s s' : sys) (b : bool) :
  posix_agg_module_t.remove persistent cmd s = (Val b, s') →
  b = true ∧ files s' = files s ∨
  b = false ∧ is_Some (files s !! agg_filename cmd persistent) ∧
    files s' = delete (agg_filename cmd persistent) (files s).
Proof.
  unfold posix_agg_module_t.remove, on_sys. simpl.
  match goal with |- (let (_, _) := ?m s in _) = _ → _ => destruct (m s) as [o s''] eqn:H end.
  intros ?. simplify_eq. apply comp_bind_inv in H as (ok & s1 & Hul & Hret).
  unfold mret, comp_ret in Hret.
  apply unlink_spec in Hul as [[? ?]|(? & (? & ? & ?) & ?)]; simplify_eq; [left|right]; eauto.
Qed.

Lemma agg_remove_inverted_witness :
  let s := mk_sys (<["/p/ck-agg-3.dat" := Reg demo_data]> ∅) [] in
  ∃ s', false = true ∧ files s' = files s ∨
    false = false ∧ is_Some (files s !! agg_filename demo_cmd "/p") ∧
    files s' = delete (agg_filename demo_cmd "/p") (files s).
Proof.
  intros s. exists (posix_agg_module_t.remove "/p" demo_cmd s).2.
  apply (agg_remove_inverted "/p" demo_cmd s). vm_compute. reflexivity.
Defined.

(** A header that is shorter than its number of ranks makes [restore] use
    variables it never wrote. *)
Theorem agg_restore_short_header (scratch persistent meta : string) (cmd : command_t.t)
    (f : gmap string node) (q : string) (hd : list byte) :
  lookup_path f (agg_filename cmd meta) = Some (q, Reg hd) → zlen hd < sizeof_long →
  posix_agg_module_t.restore scratch persistent meta cmd (mk_sys f []) = (Undef, mk_sys f []).
Proof.
  intros Hq Hlen. unfold posix_agg_module_t.restore, on_sys. simpl.
  erewrite comp_bind_val by by eapply open_rd_free. cbn beta iota.
  erewrite comp_bind_val by (apply pread_free; [done|by eapply lookup_path_at]). cbn beta iota.
  rewrite zdrop_0, ztake_all by (done || lia). by destruct (Z.ltb_spec (zlen hd) sizeof_long); [|lia].
Qed.

Lemma agg_restore_short_header_witness :
  let f := <["/m/ck-agg-3.dat" := Reg []]> ∅ in
  posix_agg_module_t.restore "/s" "/p" "/m" demo_cmd (mk_sys f []) = (Undef, mk_sys f []).
Proof.
  intros f. apply (agg_restore_short_header "/s" "/p" "/m" demo_cmd f "/m/ck-agg-3.dat" []);
    vm_compute; reflexivity.
Defined.
