(* ===== verification/Config.v ===== *)
(** * Config: [src/common/config.hpp], [src/common/config.cpp]

    The configuration: parameters from the environment and the configuration
    file, and the constructor, which opens the log, checks the mode of operation
    and the scratch directory and creates the storage module.

    [getenv] is the environment of the process, [host_name] and [uid] what
    [unique_suffix] asks the system for.  The constructors of the storage modules
    that need a library the build may not find are optional arguments. *)

From S2P Require Import Prelude Text Command FileSystem Containers FileUtil Ini Storage AggStorage.
From Stdlib Require Import Strings.String.

Local Open Scope Z_scope.

Import INIReader.

(** ** [std::stringstream ss(ret); ss >> value] *)

(** A word; [None] when the stream fails, which leaves the variable alone. *)
Definition extract_string (s : string) : option string :=
  let w := (sspan (λ c, negb (isspace c)) (lskip s)).1 in
  if String.eqb w "" then None else Some w.

(** Whether the extraction succeeds, and the value stored: 0 when there is no
    numeral, the nearest limit when it is out of range. *)
Definition extract_number (lo hi : Z) (wrap : Z → Z) (s : string) (value : Z) : bool * Z :=
  if String.eqb (lskip s) "" then (false, value) else
  match scan_decimal s with
  | None => (false, 0)
  | Some (v, _) => if hi <? v then (false, hi) else if v <? lo then (false, lo) else (true, wrap v)
  end.

Definition extract_int : string → Z → bool * Z := extract_number INT_MIN INT_MAX (λ v, v).

(** A negative numeral is accepted and wraps around. *)
Definition UINT_MAX : Z := 2 ^ 32 - 1.
Definition extract_unsigned : string → Z → bool * Z := λ s value,
  let '(ok, v) := extract_number (- UINT_MAX) UINT_MAX u32 s value in
  (ok, if negb ok && (v <? 0) then UINT_MAX else v).

(** ** Parameters *)

Section params.
Variable getenv : string → option string.

Definition env_param (param : string) : string := default "" (getenv ("VELOC_" +:+ toupper param)).

(** The text that [get_optional] finds for a parameter. *)
Definition param_text (reader : option INIReader.t) (param : string) : string :=
  let ret := env_param param in
  match reader with
  | Some r => if String.eqb ret "" then Get r "" param "" else ret
  | None => ret
  end.

Definition get_optional {T} (extract : string → T → bool * T) (reader : option INIReader.t)
    (param : string) (value : T) : bool * T :=
  let ret := param_text reader param in
  if String.eqb ret "" then (false, value) else extract ret value.

Definition extract_word (s : string) (value : string) : bool * string :=
  match extract_string s with Some w => (true, w) | None => (false, value) end.

Definition get_string : option INIReader.t → string → string → bool * string :=
  get_optional extract_word.

Definition get (reader : option INIReader.t) (param : string) : outcome string :=
  let '(ok, ret) := get_string reader param "" in
  if (ok : bool) then Val ret else FATAL.

Definition get_bool (reader : option INIReader.t) (param : string) (def : bool) : bool :=
  let '(ok, ret) := get_string reader param "" in
  if (ok : bool) then String.eqb (tolower ret) "true" else def.

End params.

(** ** The constructor *)

Record config_t (S : Type) := mk_config {
  cfg_file : string;
  reader : option INIReader.t;
  sm : option (storage_module_t S);
  sync_mode : bool
}.
Arguments mk_config {S} _ _ _ _.
Arguments cfg_file {S} _.
Arguments reader {S} _.
Arguments sm {S} _.
Arguments sync_mode {S} _.

(** A storage module that may not be available: its constructor. *)
Definition storage_make (S : Type) : Type :=
  string → string → string → comp S (storage_module_t S).

Module config.
Section config.
Context {S : Type} {HS : HasSys S}.
Variables (getenv : string → option string) (host_name : string) (uid : Z).
Variables (daos_module axl_module : option (storage_make S)).

Abbreviation get_string := (get_string getenv).

Definition open_reader (cfg_file : string) : comp S (option INIReader.t) :=
  if String.eqb cfg_file "" then mret None else
  r ← on_sys (INIReader_make cfg_file);
  if r.1 =? 0 then mret (Some r.2) else stop FATAL.

(** The log.  The stream does not throw, so a file that cannot be opened goes
    unnoticed. *)
Definition open_log (reader : option INIReader.t) (is_backend : bool) : comp S unit :=
  let '(given, log_prefix) := get_string reader "log_prefix" "/dev/shm" in
  if given || is_backend then
    on_sys (open_wr true (log_prefix +:+ "/" +:+
      (if is_backend then "veloc-backend-" else "veloc-client-") +:+
      unique_suffix host_name uid +:+ ".log"));;
    mret tt
  else mret tt.

Definition linked (make : option (storage_make S)) (scratch persistent val : string) :
    comp S (option (storage_module_t S)) :=
  match make with
  | Some make => m ← make scratch persistent val; mret (Some m)
  | None => stop FATAL
  end.

Definition open_storage (reader : option INIReader.t) (scratch : string) :
    comp S (option (storage_module_t S)) :=
  let '(pool, persistent) := get_string reader "daos_pool" "" in
  let '(cont, val) := get_string reader "daos_cont" "" in
  if pool && cont then linked daos_module scratch persistent val else
  let '(given, persistent) := get_string reader "persistent" persistent in
  if negb given then mret None else
  let '(axl, val) := get_string reader "axl_type" "" in
  if axl then linked axl_module scratch persistent val else
  if get_bool getenv reader "aggregated" false then
    let meta := (get_string reader "meta" "").2 in
    posix_agg_module_t.make persistent meta;;
    mret (Some (posix_agg_module_t.storage scratch persistent meta))
  else
    posix_module_t.make persistent;;
    mret (Some (posix_module_t.storage scratch persistent)).

Definition make (f : string) (is_backend : bool) : comp S (config_t S) :=
  reader ← open_reader f;
  open_log reader is_backend;;
  let '(ok, val) := get_string reader "mode" "" in
  if negb ok || (negb (String.eqb val "sync") && negb (String.eqb val "async")) then stop FATAL else
  scratch ← stop (get getenv reader "scratch");
  accessible ← on_sys (check_dir scratch);
  if negb accessible then stop FATAL else
  sm ← open_storage reader scratch;
  mret (mk_config f reader sm (String.eqb val "sync")).

End config.
End config.

(** ** The constructor returns or exits *)

(** Code that returns or stops the process with an error message. *)
Definition orderly {S A} (m : comp S A) : Prop := ∀ s,
  (∃ a, (m s).1 = Val a) ∨ (m s).1 = FATAL.

Lemma orderly_ret {S A} (a : A) : orderly (S:=S) (mret a).
Proof. left. by eexists. Qed.

Lemma orderly_fatal {S A} : orderly (S:=S) (A:=A) (stop FATAL).
Proof. by right. Qed.

Lemma orderly_val {S A} (o : outcome A) : (∃ a, o = Val a) → orderly (S:=S) (stop o).
Proof. intros [a ->]. left. by exists a. Qed.

Lemma orderly_get {S} : orderly (S:=S) Prelude.get.
Proof. left. by eexists. Qed.

Lemma orderly_put {S} (s : S) : orderly (put s).
Proof. left. by eexists. Qed.

Lemma orderly_bind {S A B} (m : comp S A) (k : A → comp S B) :
  orderly m → (∀ a, orderly (k a)) → orderly (m ≫= k).
Proof.
  intros Hm Hk s. rewrite comp_bind_unfold. specialize (Hm s). destruct (m s) as [o s'].
  simpl in Hm. destruct Hm as [[a ->]| ->]; [apply Hk|by right].
Qed.

Lemma orderly_on_sys {S A} {HS : HasSys S} (m : posix A) : orderly m → orderly (S:=S) (on_sys m).
Proof. intros Hm st. unfold on_sys. specialize (Hm (the_sys st)). by destruct (m (the_sys st)). Qed.

Lemma orderly_bind_inv {S A B} (m : comp S A) (k : A → comp S B) s o s' :
  orderly m → (m ≫= k) s = (o, s') →
  o = FATAL ∨ ∃ a s1, m s = (Val a, s1) ∧ k a s1 = (o, s').
Proof.
  intros Hm. rewrite comp_bind_unfold. specialize (Hm s). destruct (m s) as [om s1].
  simpl in Hm. destruct Hm as [[a ->]| ->]; [|intros [= <- <-]; by left].
  intros Hk. right. by exists a, s1.
Qed.

Create HintDb orderly.
#[export] Hint Resolve orderly_ret orderly_fatal orderly_get orderly_put orderly_on_sys : orderly.

(** Follows the structure of the code. *)
Ltac orderly :=
  repeat first
    [ progress (eauto 3 with orderly; [])
    | solve [eauto 3 with orderly]
    | apply orderly_bind; [|intros ?]
    | case_match ].

Lemma orderly_next : orderly next.
Proof. intros s. left. unfold next. by destruct (sched s); eexists. Qed.
#[export] Hint Resolve orderly_next : orderly.

Lemma orderly_next_ok : orderly next_ok.
Proof. unfold next_ok. orderly. Qed.
#[export] Hint Resolve orderly_next_ok : orderly.

Lemma orderly_open_rd p : orderly (open_rd p).
Proof. unfold open_rd. orderly. Qed.

Lemma orderly_open_wr t p : orderly (open_wr t p).
Proof. unfold open_wr. orderly. Qed.

Lemma orderly_pread fd n off : orderly (pread fd n off).
Proof. unfold pread. orderly. Qed.

Lemma orderly_check_dir d : orderly (check_dir d).
Proof. unfold check_dir, mkdir, opendir. orderly. Qed.
#[export] Hint Resolve orderly_open_rd orderly_open_wr orderly_pread orderly_check_dir : orderly.

Lemma orderly_reader f : orderly (INIReader_make f).
Proof.
  unfold INIReader_make, ini_parse. orderly. apply orderly_val, parse_lines_total. lia.
Qed.
#[export] Hint Resolve orderly_reader : orderly.

(** A directory that was found accessible. *)
Lemma check_dir_true {S} {HS : HasSys S} d (s s' : S) :
  on_sys (check_dir d) s = (Val true, s') → is_dir (files (the_sys s')) d = true.
Proof.
  intros (s1 & H & ->)%on_sys_inv. rewrite the_with_sys. unfold check_dir in H.
  apply comp_bind_inv in H as (? & s2 & _ & H). unfold opendir in H.
  apply comp_bind_inv in H as (ok & s3 & _ & H). rewrite get_bind in H. unfold mret, comp_ret in H.
  injection H as Hd <-. by apply andb_true_iff in Hd as [_ ?].
Qed.

Section make.
Context {S : Type} {HS : HasSys S}.
Variables (getenv : string → option string) (host_name : string) (uid : Z).
Variables (daos_module axl_module : option (storage_make S)).

(** The constructors of the modules that a build may have return, or end the
    process with a message. *)
Hypothesis daos_orderly : ∀ make, daos_module = Some make → ∀ scratch pool cont, orderly (make scratch pool cont).
Hypothesis axl_orderly : ∀ make, axl_module = Some make → ∀ scratch dir type, orderly (make scratch dir type).

Lemma orderly_open_reader f : orderly (config.open_reader (S:=S) f).
Proof using. unfold config.open_reader. orderly. Qed.

Lemma orderly_open_log r b : orderly (config.open_log (S:=S) getenv host_name uid r b).
Proof using. unfold config.open_log. orderly. Qed.

Lemma orderly_linked (make : option (storage_make S)) scratch persistent val :
  (∀ m, make = Some m → ∀ a b c, orderly (m a b c)) → orderly (config.linked make scratch persistent val).
Proof using.
  intros Hm. unfold config.linked. destruct make as [m|]; [|apply orderly_fatal].
  apply orderly_bind; [by apply Hm|]. intros a. apply orderly_ret.
Qed.

Lemma orderly_open_storage r s : orderly (config.open_storage (S:=S) getenv daos_module axl_module r s).
Proof using daos_orderly axl_orderly.
  unfold config.open_storage, posix_agg_module_t.make, posix_module_t.make.
  destruct (get_string getenv r "daos_pool" "") as [pool p], (get_string getenv r "daos_cont" "") as [cont v].
  destruct (pool && cont); [by apply orderly_linked|].
  destruct (get_string getenv r "persistent" p) as [[] q]; simpl; [|apply orderly_ret].
  destruct (get_string getenv r "axl_type" "") as [[] t]; [by apply orderly_linked|]. orderly.
Qed.

Lemma get_cases r p : (∃ v, get getenv r p = Val v) ∨ get getenv r p = FATAL.
Proof using. unfold get. destruct (get_string _ _ _ _) as [[] v]; [left; by exists v|by right]. Qed.

Lemma get_string_default r p d d' :
  (get_string getenv r p d).1 = (get_string getenv r p d').1 ∧
  ((get_string getenv r p d).1 = true → get_string getenv r p d = get_string getenv r p d').
Proof using.
  unfold get_string, get_optional, extract_word. case_match; [done|]. by destruct (extract_string _).
Qed.

Lemma linked_some (make : option (storage_make S)) scratch persistent val st o st' :
  config.linked make scratch persistent val st = (Val o, st') → is_Some o.
Proof using.
  unfold config.linked. destruct make; [|done]. intros (m & s1 & _ & H)%comp_bind_inv.
  unfold mret, comp_ret in H. injection H as <- _. by eexists.
Qed.

(** The storage module: which parameters ask for one, and which of the two for
    POSIX is made. *)
Definition daos_set (r : option INIReader.t) : bool :=
  (get_string getenv r "daos_pool" "").1 && (get_string getenv r "daos_cont" "").1.
Definition persistent_set (r : option INIReader.t) : bool := (get_string getenv r "persistent" "").1.
Definition posix_storage (r : option INIReader.t) (scratch : string) : storage_module_t S :=
  let persistent := (get_string getenv r "persistent" "").2 in
  if get_bool getenv r "aggregated" false
  then posix_agg_module_t.storage scratch persistent (get_string getenv r "meta" "").2
  else posix_module_t.storage scratch persistent.

Lemma open_storage_spec r scratch st o st' :
  config.open_storage (S:=S) getenv daos_module axl_module r scratch st = (Val o, st') →
  (is_Some o ↔ daos_set r = true ∨ persistent_set r = true) ∧
  (daos_set r = false → persistent_set r = true → (get_string getenv r "axl_type" "").1 = false →
    o = Some (posix_storage r scratch) ∧
    (get_bool getenv r "aggregated" false = false →
      is_dir (files (the_sys st')) (get_string getenv r "persistent" "").2 = true)).
Proof using.
  unfold config.open_storage, daos_set, persistent_set, posix_storage.
  destruct (get_string getenv r "daos_pool" "") as [pool p].
  destruct (get_string getenv r "daos_cont" "") as [cont v]. simpl.
  destruct (pool && cont).
  { intros H%linked_some. split; [|done]. split; [by left|done]. }
  destruct (get_string_default r "persistent" p "") as [Hsame Hval].
  destruct (get_string getenv r "persistent" p) as [given q]. simpl in *. rewrite <-Hsame.
  destruct given; simpl; [rewrite <-Hval by done; simpl|].
  2:{ intros [= <- <-]. split; [|done]. split; [by intros []|by intros []]. }
  destruct (get_string getenv r "axl_type" "") as [axl v']. simpl. destruct axl.
  { intros H%linked_some. split; [|done]. split; [by right|done]. }
  destruct (get_bool getenv r "aggregated" false);
    intros ([] & s1 & Hmake & Hret)%comp_bind_inv; unfold mret, comp_ret in Hret; injection Hret as <- <-;
    (split; [split; [by right|by eexists]|]); [done|]. intros _ _ _. split; [done|]. intros _.
  unfold posix_module_t.make in Hmake. apply comp_bind_inv in Hmake as (ok & s2 & Hc & Hret).
  destruct ok; [|done]. unfold mret, comp_ret in Hret. injection Hret as ->. by apply check_dir_true in Hc.
Qed.

End make.

(** ** A configuration file *)

(** A value that [>>] reads as a whole. *)
Definition word (v : string) : bool :=
  negb (String.eqb v "") && sforall (λ c, negb (isspace c)) v.

Lemma extract_string_word v : word v = true → extract_string v = Some v.
Proof.
  unfold word, extract_string. intros [Hne Hv]%andb_true_iff. apply negb_true_iff in Hne.
  assert (lskip v = v) as ->.
  { apply lskip_solid. destruct v as [|c v]; [done|]. simpl in *.
    by apply andb_true_iff in Hv as [?%negb_true_iff _]. }
  pose proof (sspan_app _ v "" Hv eq_refl) as Hs. rewrite sapp_nil_r in Hs. rewrite Hs. simpl.
  by rewrite Hne.
Qed.

(** The bytes of a configuration file. *)
Definition ini_file (l : list (string * string)) : list byte := list_byte_of_string (print_ini l).

Section file.
Context {S : Type} {HS : HasSys S}.
Variables (getenv : string → option string) (host_name : string) (uid : Z).
Variables (daos_module axl_module : option (storage_make S)).
Variables (fs : gmap string node) (f p : string) (l : list (string * string)).
Hypothesis env_empty : ∀ v, getenv ("VELOC_" +:+ v) = None.
Hypothesis l_ok : Forall (λ e, entry_ok e = true) l.
Hypothesis l_names : NoDup ((λ e, MakeKey "" e.1) <$> l).
Hypothesis f_name : f ≠ "".
Hypothesis f_file : lookup_path fs f = Some (p, Reg (ini_file l)).
Hypothesis f_size : zlen (ini_file l) ≤ LONG_MAX.

Lemma open_reader_file (st : S) :
  the_sys st = mk_sys fs [] →
  ∃ r, config.open_reader f st = (Val (Some r), st) ∧
    (∀ n v d, (n, v) ∈ l → get_string getenv (Some r) n d = extract_word v d) ∧
    (∀ n d, (∀ m v, (m, v) ∈ l → tolower m ≠ tolower n) → get_string getenv (Some r) n d = (false, d)).
Proof.
  intros Hst. destruct (ini_roundtrip l l_ok l_names) as (r & Hr & Hin & Hout).
  exists r. split; [|split].
  - unfold config.open_reader. destruct (String.eqb_spec f ""); [done|].
    erewrite comp_bind_val by (eapply on_sys_same; [exact Hst|];
      unfold INIReader_make, ini_parse; erewrite comp_bind_val by (by eapply open_rd_free);
      cbn beta iota; erewrite comp_bind_val by
        (eapply pread_free; [done|by eapply lookup_path_at]);
      rewrite zdrop_0, ztake_all by done; unfold ini_file; simpl default;
      rewrite string_of_list_byte_of_string; unfold stop; by rewrite Hr).
    done.
  - intros n v d Hn. unfold get_string, get_optional, param_text, env_param.
    rewrite env_empty. simpl. rewrite (Hin n v n) by done.
    rewrite Forall_forall in l_ok. specialize (l_ok _ Hn). unfold entry_ok in l_ok.
    apply andb_true_iff in l_ok as [[_ Hv]%andb_true_iff _].
    apply value_ok_spec in Hv as (Hv & _). by destruct (String.eqb_spec v "").
  - intros n d Hn. unfold get_string, get_optional, param_text, env_param.
    rewrite env_empty. simpl. by rewrite Hout.
Qed.

(** The parameters that choose another storage module or a log. *)
Definition special : list string := ["daos_pool"; "axl_type"; "aggregated"; "log_prefix"].

(** What a configuration file of the common kind sets up: the POSIX storage module
    on its two directories. *)
Lemma make_file (st : S) mode scratch persistent :
  the_sys st = mk_sys fs [] →
  ("mode", mode) ∈ l → (mode = "sync" ∨ mode = "async") →
  ("scratch", scratch) ∈ l → word scratch = true → is_dir fs scratch = true →
  ("persistent", persistent) ∈ l → word persistent = true → is_dir fs persistent = true →
  (∀ m v, (m, v) ∈ l → tolower m ∉ special) →
  ∃ r, config.make getenv host_name uid daos_module axl_module f false st =
      (Val (mk_config f (Some r) (Some (posix_module_t.storage scratch persistent))
              (String.eqb mode "sync")), st) ∧
    (∀ n v d, (n, v) ∈ l → get_string getenv (Some r) n d = extract_word v d) ∧
    (∀ n d, (∀ m v, (m, v) ∈ l → tolower m ≠ tolower n) → get_string getenv (Some r) n d = (false, d)).
Proof.
  intros Hst Hmode Hm Hscratch Hsw Hsd Hpers Hpw Hpd Hspecial.
  destruct (open_reader_file st Hst) as (r & Hr & Hin & Hout).
  exists r. split; [|by split].
  assert (∀ n d, tolower n ∈ special → get_string getenv (Some r) n d = (false, d)) as Hno.
  { intros n d Hn. apply Hout. intros m v Hmv Heq. apply (Hspecial m v Hmv). by rewrite Heq. }
  assert (∀ n v d, (n, v) ∈ l → word v = true → get_string getenv (Some r) n d = (true, v)) as Hword.
  { intros n v d Hn Hv. rewrite (Hin n v d Hn). unfold extract_word.
    by rewrite extract_string_word. }
  unfold config.make. rewrite (comp_bind_val _ _ _ _ _ Hr).
  assert (config.open_log getenv host_name uid (Some r) false st = (Val tt, st)) as Hlog.
  { unfold config.open_log. rewrite Hno by (apply (bool_decide_unpack _); vm_compute; exact I). done. }
  rewrite (comp_bind_val _ _ _ _ _ Hlog).
  rewrite (Hword _ _ _ Hmode) by (by destruct Hm as [->| ->]).
  replace (negb true || _) with false by (by destruct Hm as [->| ->]).
  unfold get. rewrite (Hword _ _ _ Hscratch Hsw), stop_bind.
  erewrite comp_bind_val by (eapply on_sys_same; [exact Hst|by apply check_dir_free]). cbn beta iota delta [negb].
  assert (config.open_storage getenv daos_module axl_module (Some r) scratch st =
    (Val (Some (posix_module_t.storage scratch persistent)), st)) as Hsm.
  { unfold config.open_storage. rewrite Hno by (apply (bool_decide_unpack _); vm_compute; exact I).
    destruct (get_string _ _ "daos_cont" _) as [cont v]. simpl.
    rewrite (Hword _ _ _ Hpers Hpw). simpl. rewrite Hno by (apply (bool_decide_unpack _); vm_compute; exact I).
    unfold get_bool. rewrite Hno by (apply (bool_decide_unpack _); vm_compute; exact I).
    unfold posix_module_t.make.
    erewrite comp_bind_val by (erewrite comp_bind_val by
      (eapply on_sys_same; [exact Hst|by apply check_dir_free]); done). done. }
  by rewrite (comp_bind_val _ _ _ _ _ Hsm).
Qed.
End file.

(** A small installation. *)
Definition demo_entries : list (string * string) :=
  [("mode", "async"); ("scratch", "/s"); ("persistent", "/p"); ("max_versions", "2")].

Definition demo_install : gmap string node :=
  <["/cfg" := Reg (ini_file demo_entries)]> (<["/s" := Dir]> (<["/p" := Dir]> ∅)).

(** A module of another library that is always available. *)
Definition demo_make : option (storage_make sys) :=
  Some (λ scratch dir _, mret (posix_module_t.storage scratch dir)).

Lemma demo_orderly make : demo_make = Some make → ∀ a b c, orderly (make a b c).
Proof. intros [= <-] a b c. apply orderly_ret. Qed.


(** ** The constructor of the versioning module *)

Module versioning_make.
Section make.
Context {S : Type} (getenv : string → option string) (cfg : config_t S).

(** [INFO(... << cfg.get(param) << ...)]: the macro holds [log_mutex] while it
    evaluates the message, and the fatal message of a missing parameter locks it
    again. *)
Definition info_get (param : string) : outcome unit :=
  match get getenv cfg.(reader) param with Val _ => Val tt | _ => Undef end.

(** [max_versions], which is not set without storage, [scratch_versions] and
    [meta]. *)
Definition make : outcome (option Z * Z * string) :=
  max ← match cfg.(sm) with
        | None => Val None
        | Some _ =>
            match get_optional getenv extract_int cfg.(reader) "max_versions" 0 with
            | (true, v) => Val (Some v)
            | (false, _) => info_get "persistent";; Val (Some 0)
            end
        end;
  scratch ← match get_optional getenv extract_int cfg.(reader) "scratch_versions" 0 with
            | (true, v) => Val v
            | (false, _) => info_get "scratch";; Val 0
            end;
  Val (max, scratch, (get_string getenv cfg.(reader) "meta" "").2).

End make.
End versioning_make.

(** A DAOS container needs no persistent directory, but without [max_versions] the
    versioning module asks for it while it holds the lock of the log. *)
Theorem versioning_make_daos {S} {HS : HasSys S} getenv host_name uid (make : storage_make S)
    axl f is_backend (st : S) c st' :
  config.make getenv host_name uid (Some make) axl f is_backend st = (Val c, st') →
  is_Some c.(sm) →
  (get_optional getenv extract_int c.(reader) "max_versions" 0).1 = false →
  versioning_make.make getenv c = Undef ↔ (get_string getenv c.(reader) "persistent" "").1 = false.
Proof.
  intros Hmake [m Hm] Hmax.
  assert (∃ scratch, get getenv c.(reader) "scratch" = Val scratch) as [scratch Hs].
  { unfold config.make in Hmake.
    apply comp_bind_inv in Hmake as (r & s1 & _ & Hmake).
    apply comp_bind_inv in Hmake as ([] & s2 & _ & Hmake).
    destruct (get_string getenv r "mode" "") as [ok mode]. destruct (_ || _); [done|].
    apply comp_bind_inv in Hmake as (scratch & s3 & Hg & Hmake).
    apply comp_bind_inv in Hmake as (acc & s4 & _ & Hmake). destruct acc; [|done].
    apply comp_bind_inv in Hmake as (sm & s5 & _ & Hmake). injection Hmake as <- _.
    exists scratch. unfold stop in Hg. by injection Hg. }
  unfold versioning_make.make, versioning_make.info_get. rewrite Hm, Hs.
  destruct (get_optional getenv extract_int _ "max_versions" 0) as [ok v]. simpl in Hmax. subst ok.
  unfold get. destruct (get_string getenv (reader c) "persistent" "") as [[] p]; simpl.
  - split; [|done]. by destruct (get_optional getenv extract_int _ "scratch_versions" 0) as [[] ?].
  - done.
Qed.
