(* ===== verification/Logger.v ===== *)
(** * Logger: [src/common/logger_state.hpp], [src/common/debug.hpp]

    The log: a global pointer to a stream, which the constructor of a configuration
    may set to a file of its own and its destructor resets, and the macros that
    write a line while they hold [log_mutex].  What a message inserts is a
    computation, since the macros evaluate it with the lock held; the clock, and
    whether a log file can be opened, are arguments. *)

From S2P Require Import Prelude Text.
From stdpp Require Import gmap.

Local Open Scope Z_scope.

(** Streams are numbered; 0 is [std::cout].  [streams] has those that have not been
    deleted, and whether they take output: a file stream that could not open its
    file drops it.  [lines] is what has been written, and where. *)
Record logger_state_t := mk_logger {
  logger : option nat;
  beginning : Z;
  log_mutex : bool;
  streams : gmap nat bool;
  lines : list (nat * string)
}.

Abbreviation log := (comp logger_state_t).

(** The static object, constructed at the time [t]. *)
Definition logger_state (t : Z) : logger_state_t := mk_logger (Some 0%nat) t false {[0%nat := true]} [].

(** [std::unique_lock<std::mutex>]: a thread that has the lock must not ask for it
    again. *)
Definition lock : log unit := λ s,
  if s.(log_mutex) then (Undef, s)
  else (Val tt, mk_logger s.(logger) s.(beginning) true s.(streams) s.(lines)).
Definition unlock : log unit := modify (λ s,
  mk_logger s.(logger) s.(beginning) false s.(streams) s.(lines)).

(** The insertion of a line into the stream numbered [p]. *)
Definition insert_line (p : nat) (line : string) : log unit := λ s,
  match s.(streams) !! p with
  | Some true => (Val tt, mk_logger s.(logger) s.(beginning) s.(log_mutex) s.(streams) (s.(lines) ++ [(p, line)]))
  | Some false => (Val tt, s)
  | None => (Undef, s)
  end.

(** Times are in nanoseconds; [duration_cast] truncates. *)
Definition seconds (t : Z) : Z := Z.quot t 1000000000.
Definition milliseconds (t : Z) : Z := Z.quot t 1000000.

(** The macros; [pos] is the text of [__FILE__], [__LINE__] and [__FUNCTION__]. *)
Module debug.

Definition MESSAGE (now : Z) (pos level : string) (message : log string) : log unit :=
  lock;;
  s ← get;
  match s.(logger) with
  | Some p =>
      text ← message;
      insert_line p ("[" +:+ level +:+ " " +:+ to_string (seconds (now - s.(beginning))) +:+ "] [" +:+
                     pos +:+ "] " +:+ text)
  | None => mret tt
  end;;
  unlock.

Definition FATAL (now : Z) (pos : string) (message : log string) : log unit :=
  MESSAGE now pos "FATAL" message;;
  stop (Exit (-1)).

(** With [__BENCHMARK]; [timer] is the time at [TIMER_START]. *)
Definition TIMER_STOP (timer now : Z) (pos : string) (message : log string) : log unit :=
  lock;;
  s ← get;
  match s.(logger) with
  | Some p =>
      text ← message;
      insert_line p ("[BENCHMARK " +:+ to_string (seconds (now - s.(beginning))) +:+ "] [" +:+ pos +:+
                     "] [time elapsed: " +:+ to_string (milliseconds (now - timer)) +:+ " us] " +:+ text)
  | None => mret tt
  end;;
  unlock.

(** With [__ASSERT]; [expression] is its text and [holds] its value. *)
Definition ASSERT (now : Z) (pos expression : string) (holds : bool) : log unit :=
  if holds then mret tt
  else MESSAGE now pos "ASSERT" (mret ("failed on expression: " +:+ expression));; stop (Exit (-2)).

End debug.

(** What [config_t] does with the log. *)
Module config_log.

(** The constructor, when it has a log file: the pointer is overwritten by that of
    a new stream, whose file is opened or not. *)
Definition open (opened : bool) : log unit :=
  lock;;
  modify (λ s, let p := fresh (dom s.(streams)) in
    mk_logger (Some p) s.(beginning) s.(log_mutex) (<[p := opened]> s.(streams)) s.(lines));;
  unlock.

(** The destructor. *)
Definition close : log unit :=
  lock;;
  s ← get;
  match s.(logger) with
  | Some 0%nat => mret tt
  | Some p =>
      match s.(streams) !! p with
      | Some _ =>
          modify (λ s, mk_logger (Some 0%nat) s.(beginning) s.(log_mutex) (delete p s.(streams)) s.(lines))
      | None => stop Undef
      end
  | None => modify (λ s, mk_logger (Some 0%nat) s.(beginning) s.(log_mutex) s.(streams) s.(lines))
  end;;
  unlock.

End config_log.

(** ** Theorems *)

(** What the program does with the log: messages that do not log themselves, and
    configurations that are constructed and destroyed. *)
Inductive log_call :=
| LogMessage (now : Z) (pos level text : string)
| LogTimer (timer now : Z) (pos text : string)
| LogOpen (opened : bool)
| LogClose.

Definition run_call (k : log_call) : log unit :=
  match k with
  | LogMessage now pos level text => debug.MESSAGE now pos level (mret text)
  | LogTimer timer now pos text => debug.TIMER_STOP timer now pos (mret text)
  | LogOpen opened => config_log.open opened
  | LogClose => config_log.close
  end.

Fixpoint run_calls (ks : list log_call) : log unit :=
  match ks with
  | [] => mret tt
  | k :: ks => run_call k;; run_calls ks
  end.

(** How many messages reach a stream, when the current one takes output or not. *)
Fixpoint delivered (good : bool) (ks : list log_call) : nat :=
  match ks with
  | [] => 0
  | LogMessage _ _ _ _ :: ks | LogTimer _ _ _ _ :: ks => Nat.b2n good + delivered good ks
  | LogOpen opened :: ks => delivered opened ks
  | LogClose :: ks => delivered true ks
  end.

(** The log between two calls, its current stream taking output or not. *)
Record log_ok (good : bool) (s : logger_state_t) : Prop := {
  ok_unlocked : log_mutex s = false;
  ok_cout : streams s !! 0%nat = Some true;
  ok_logger : ∃ p, logger s = Some p ∧ streams s !! p = Some good
}.

Lemma insert_line_run (good : bool) (p : nat) (line : string) s :
  streams s !! p = Some good →
  insert_line p line s = (Val tt, mk_logger s.(logger) s.(beginning) s.(log_mutex) s.(streams)
    (s.(lines) ++ if good then [(p, line)] else [])).
Proof.
  intros Hp. unfold insert_line. rewrite Hp. destruct good; [done|]. rewrite app_nil_r. by destruct s.
Qed.

Lemma message_ok (good : bool) k s :
  log_ok good s → match k with LogMessage _ _ _ _ | LogTimer _ _ _ _ => True | _ => False end →
  ∃ s', run_call k s = (Val tt, s') ∧ log_ok good s' ∧ length (lines s') = (length (lines s) + Nat.b2n good)%nat.
Proof.
  intros [Hu Hc (p & Hp & Hg)] Hk. destruct s as [p0 b m str ls]. simpl in *. subst m p0.
  destruct k as [now pos level text|timer now pos text|opened|]; try done; simpl;
    unfold debug.MESSAGE, debug.TIMER_STOP; (erewrite comp_bind_val by reflexivity); rewrite get_bind; simpl;
    (erewrite comp_bind_val by (rewrite ret_bind; by apply (insert_line_run good)));
    (eexists; split; [reflexivity|]); (split; [split; simpl; eauto|]);
    simpl; rewrite length_app; by destruct good.
Qed.

Lemma open_ok good opened s :
  log_ok good s → ∃ s', run_call (LogOpen opened) s = (Val tt, s') ∧ log_ok opened s' ∧ lines s' = lines s.
Proof.
  intros [Hu Hc _]. destruct s as [p0 b m str ls]. simpl in *. subst m.
  unfold config_log.open. (erewrite comp_bind_val by reflexivity). rewrite modify_bind.
  eexists. split; [reflexivity|]. split; [|done].
  assert (fresh (dom str) ≠ 0%nat) as Hf.
  { intros Hf. apply (is_fresh (dom str)). rewrite Hf. by apply elem_of_dom_2 in Hc. }
  split; simpl; [done|by rewrite lookup_insert_ne|]. eexists. split; [done|]. by rewrite lookup_insert_eq.
Qed.

Lemma close_ok good s :
  log_ok good s → ∃ s', run_call LogClose s = (Val tt, s') ∧ log_ok true s' ∧ lines s' = lines s.
Proof.
  intros [Hu Hc (p & Hp & Hg)]. destruct s as [p0 b m str ls]. simpl in *. subst m p0.
  unfold config_log.close. (erewrite comp_bind_val by reflexivity). rewrite get_bind. simpl.
  destruct p as [|p].
  - rewrite ret_bind. eexists. split; [reflexivity|]. split; [|done]. split; simpl; eauto.
  - rewrite Hg, modify_bind. eexists. split; [reflexivity|]. split; [|done].
    split; simpl; [done|by rewrite lookup_delete_ne|]. exists 0%nat. by rewrite lookup_delete_ne.
Qed.

Lemma run_calls_ok ks good s : log_ok good s → ∃ s', run_calls ks s = (Val tt, s') ∧
  (∃ good', log_ok good' s') ∧ length (lines s') = (length (lines s) + delivered good ks)%nat.
Proof.
  revert good s. induction ks as [|k ks IH]; intros good s Hok; [exists s; simpl; eauto with lia|].
  assert (∃ good1 s1, run_call k s = (Val tt, s1) ∧ log_ok good1 s1 ∧
    (length (lines s1) + delivered good1 ks = length (lines s) + delivered good (k :: ks))%nat)
    as (good1 & s1 & H1 & Hok1 & Hl1).
  { destruct k as [now pos level text|timer now pos text|opened|].
    - destruct (message_ok good (LogMessage now pos level text) s Hok I) as (s1 & ? & ? & ?).
      exists good, s1. split_and!; [done|done|]. simpl. lia.
    - destruct (message_ok good (LogTimer timer now pos text) s Hok I) as (s1 & ? & ? & ?).
      exists good, s1. split_and!; [done|done|]. simpl. lia.
    - destruct (open_ok good opened s Hok) as (s1 & ? & ? & Hl). exists opened, s1. by rewrite Hl.
    - destruct (close_ok good s Hok) as (s1 & ? & ? & Hl). exists true, s1. by rewrite Hl. }
  destruct (IH _ _ Hok1) as (s2 & H2 & Hok2 & Hl2). exists s2. cbn [run_calls].
  rewrite (comp_bind_val _ _ _ _ _ H1). split_and!; [done|done|lia].
Qed.

(** The log is always usable.  Whatever configurations are constructed and
    destroyed, in whatever order, no message is written to a stream that has been
    deleted and no stream is deleted twice; the lock is free after every call; and
    every message is one line of a stream, but for those after a configuration
    whose log file could not be opened. *)
Theorem log_usable (t : Z) (ks : list log_call) :
  ∃ s, run_calls ks (logger_state t) = (Val tt, s) ∧ (∃ good, log_ok good s) ∧
    length (lines s) = delivered true ks.
Proof. apply (run_calls_ok ks true). split; simpl; [done|done|]. by exists 0%nat. Qed.

(** A message that logs itself asks for the lock again: this is undefined whenever
    there is a stream. *)
Lemma message_nested now now' pos pos' level m s :
  log_mutex s = false → is_Some (logger s) →
  (debug.MESSAGE now pos level (debug.FATAL now' pos' m;; mret "")%string s).1 = Undef.
Proof.
  intros Hu [p Hp]. destruct s as [p0 b lk str ls]. simpl in *. subst lk p0. reflexivity.
Qed.

(** The time a timer reports is a thousand times less than what its unit says: one
    second is written as 1000 us. *)
Lemma timer_unit :
  lines (debug.TIMER_STOP 0 1000000000 "f.cpp:1:f" (mret "copy")%string (logger_state 0)).2 =
  [(0%nat, "[BENCHMARK 1] [f.cpp:1:f] [time elapsed: 1000 us] copy")%string].
Proof. by vm_compute. Qed.
