(* ===== verification/Streams.v ===== *)
(** * Streams: [std::ifstream] and [std::ofstream]

    The binary file streams that the client uses, with the exception mask
    [failbit | badbit].  A stream is the file it is open on and an explicit
    position.

    Input: [read] repeats short reads, so it either delivers all bytes asked for
    or fails with those up to the end of the file.

    Output is buffered: [write] may keep bytes back.  A [seekp], a full buffer and
    the destructor write them.  [seekp] and [write] throw when that fails, the
    destructor cannot.  The size of the buffer belongs to the library and is a
    parameter.  A short write whose continuation fails leaves a part of the
    bytes in the file. *)

From S2P Require Import Prelude Text FileSystem.

Local Open Scope Z_scope.

(** ** Input *)

Definition f_open_in (p : string) : posix string :=
  fd ← open_rd p;
  match fd with Some fd => mret fd | None => stop (Raise ios_failure) end.

(** [f.read(buf, n)] at [pos]: the bytes stored, and whether they are all. *)
Definition f_read_some (fd : string) (pos n : Z) : posix (list byte * bool) :=
  d ← next;
  s ← get;
  match s.(files) !! fd, d with
  | Some (Reg data), (Go | Short _) =>
      let bs := ztake n (zdrop pos data) in mret (bs, zlen bs =? n)
  | _, _ => mret ([], false)
  end.

Definition f_read (fd : string) (pos n : Z) : posix (list byte) :=
  r ← f_read_some fd pos n;
  if (r.2 : bool) then mret r.1 else stop (Raise ios_failure).

(** [f.seekg(0, f.end); f.tellg()] *)
Definition f_end (fd : string) : posix Z :=
  d ← next;
  s ← get;
  match s.(files) !! fd, d with
  | Some (Reg data), (Go | Short _) => mret (zlen data)
  | _, _ => stop (Raise ios_failure)
  end.

(** ** Output *)

(** The position of the next byte, and the bytes held back: those before it. *)
Record ofstream := mk_ofstream { o_pos : Z; o_buf : list byte }.

(** [f.open(p, out | binary | trunc)] *)
Definition f_open_out (p : string) : posix string :=
  fd ← open_wr true p;
  match fd with Some fd => mret fd | None => stop (Raise ios_failure) end.

(** Writes the bytes held back; [false] when the file system refuses. *)
Definition f_sync (fd : string) (f : ofstream) : posix bool :=
  d ← next;
  s ← get;
  let off := f.(o_pos) - zlen f.(o_buf) in
  match s.(files) !! fd, d with
  | Some (Reg data), Go =>
      put (set_files s (<[fd := Reg (splice off f.(o_buf) data)]> s.(files)));; mret true
  | Some (Reg data), Short k =>
      put (set_files s (<[fd := Reg (splice off (ztake (Z.of_nat k) f.(o_buf)) data)]> s.(files)));;
      mret false
  | _, _ => mret false
  end.

Section output.
Variable bufsize : Z.

Definition f_write (fd : string) (f : ofstream) (bs : list byte) : posix ofstream :=
  let f' := mk_ofstream (f.(o_pos) + zlen bs) (f.(o_buf) ++ bs) in
  if zlen f'.(o_buf) <=? bufsize then mret f' else
  ok ← f_sync fd f';
  if (ok : bool) then mret (mk_ofstream f'.(o_pos) []) else stop (Raise ios_failure).

Definition f_seekp (fd : string) (f : ofstream) (pos : Z) : posix ofstream :=
  if bool_decide (f.(o_buf) = []) then mret (mk_ofstream pos []) else
  ok ← f_sync fd f;
  if (ok : bool) then mret (mk_ofstream pos []) else stop (Raise ios_failure).

(** The destructor: a failure is lost. *)
Definition f_destroy (fd : string) (f : ofstream) : posix unit :=
  if bool_decide (f.(o_buf) = []) then mret tt else
  f_sync fd f;; mret tt.

End output.

(** ** Lemmas *)

Lemma f_open_in_spec p s o s' :
  f_open_in p s = (o, s') →
  files s' = files s ∧
  (o = Raise ios_failure ∨ ∃ q nd, lookup_path (files s) p = Some (q, nd) ∧ o = Val q).
Proof.
  unfold f_open_in, mbind, comp_bind. destruct (open_rd p s) as [r s1] eqn:E.
  apply open_rd_spec in E as [Hf [->|(q & nd & Hq & ->)]];
    unfold stop, mret, comp_ret; intros; simplify_eq; eauto 10.
Qed.

Lemma f_read_spec fd pos n s o s' :
  f_read fd pos n s = (o, s') →
  files s' = files s ∧
  (o = Raise ios_failure ∨
   ∃ data bs, files s !! fd = Some (Reg data) ∧ o = Val bs ∧
     bs = ztake n (zdrop pos data) ∧ zlen bs = n).
Proof.
  unfold f_read, f_read_some. posix_step. unfold get. rewrite Hf.
  destruct (files s !! fd) as [[data| |]|]; destruct d;
    unfold mret, comp_ret, stop; cbn [snd fst]; try (intros; simplify_eq; by auto);
    (destruct (Z.eqb_spec (zlen (ztake n (zdrop pos data))) n); intros; simplify_eq;
     [split; [done|right; by eauto 10]|by auto]).
Qed.

Lemma f_end_spec fd s o s' :
  f_end fd s = (o, s') →
  files s' = files s ∧
  (o = Raise ios_failure ∨ ∃ data, files s !! fd = Some (Reg data) ∧ o = Val (zlen data)).
Proof.
  unfold f_end. posix_step. unfold get. rewrite Hf.
  destruct (files s !! fd) as [[data| |]|]; destruct d;
    unfold mret, comp_ret, stop; intros; simplify_eq; eauto 10.
Qed.

(** Without faults *)

Lemma f_open_in_free f p q nd :
  lookup_path f p = Some (q, nd) → f_open_in p (mk_sys f []) = (Val q, mk_sys f []).
Proof. intros H. unfold f_open_in. by erewrite comp_bind_val by by eapply open_rd_free. Qed.

Lemma f_read_some_free f fd pos n data :
  f !! fd = Some (Reg data) →
  f_read_some fd pos n (mk_sys f [])
  = (Val (ztake n (zdrop pos data), zlen (ztake n (zdrop pos data)) =? n), mk_sys f []).
Proof. intros Hd. unfold f_read_some. free_run. by rewrite Hd. Qed.

Lemma f_read_free f fd pos n data bs :
  f !! fd = Some (Reg data) → ztake n (zdrop pos data) = bs → zlen bs = n →
  f_read fd pos n (mk_sys f []) = (Val bs, mk_sys f []).
Proof.
  intros Hd Hbs Hn. unfold f_read. erewrite comp_bind_val by by eapply f_read_some_free.
  cbn [snd fst]. by rewrite Hbs, Hn, Z.eqb_refl.
Qed.

Lemma f_end_free f fd data :
  f !! fd = Some (Reg data) → f_end fd (mk_sys f []) = (Val (zlen data), mk_sys f []).
Proof. intros Hd. unfold f_end. free_run. by rewrite Hd. Qed.

(** What the file will hold once the bytes held back are written. *)
Definition view (data : list byte) (f : ofstream) : list byte :=
  splice (f.(o_pos) - zlen f.(o_buf)) f.(o_buf) data.

Definition stream_ok (f : ofstream) : Prop := zlen f.(o_buf) ≤ f.(o_pos).

Lemma f_sync_free f fd fs data :
  f !! fd = Some (Reg data) →
  f_sync fd fs (mk_sys f []) = (Val true, mk_sys (<[fd := Reg (view data fs)]> f) []).
Proof. intros Hd. unfold f_sync. free_run. by rewrite Hd. Qed.

(** Writes appear in the view in order, whatever the size of the buffer. *)
Lemma f_write_free bufsize f fd fs data bs :
  f !! fd = Some (Reg data) → stream_ok fs →
  ∃ data' fs', f_write bufsize fd fs bs (mk_sys f [])
    = (Val fs', mk_sys (<[fd := Reg data']> f) []) ∧ stream_ok fs' ∧
    o_pos fs' = o_pos fs + zlen bs ∧ view data' fs' = splice (o_pos fs) bs (view data fs).
Proof.
  intros Hd Hok. unfold stream_ok in *. pose proof (zlen_nonneg bs).
  assert (∀ fs', fs' = mk_ofstream (o_pos fs + zlen bs) (o_buf fs ++ bs) →
    view data fs' = splice (o_pos fs) bs (view data fs)) as Hview.
  { intros fs' ->. unfold view. cbn [o_pos o_buf]. rewrite zlen_app.
    replace (o_pos fs + zlen bs - (zlen (o_buf fs) + zlen bs)) with (o_pos fs - zlen (o_buf fs)) by lia.
    rewrite <-splice_splice by lia. f_equal. lia. }
  unfold f_write. destruct (_ <=? bufsize).
  - exists data. eexists. split; [by rewrite insert_id|]. cbn [o_pos o_buf]. rewrite zlen_app.
    split; [lia|]. split; [done|]. by apply Hview.
  - eexists _, (mk_ofstream _ []). split.
    { erewrite comp_bind_val by by apply f_sync_free. done. }
    split; [by apply Z.add_nonneg_nonneg; [pose proof (zlen_nonneg (o_buf fs)); lia|]|].
    split; [done|]. by apply Hview.
Qed.

Lemma f_seekp_free f fd fs data pos :
  f !! fd = Some (Reg data) →
  f_seekp fd fs pos (mk_sys f [])
  = (Val (mk_ofstream pos []), mk_sys (<[fd := Reg (view data fs)]> f) []).
Proof.
  intros Hd. unfold f_seekp. case_bool_decide as Hb.
  - unfold view. rewrite Hb. simpl. by rewrite insert_id.
  - by erewrite comp_bind_val by by apply f_sync_free.
Qed.

Lemma f_destroy_free f fd fs data :
  f !! fd = Some (Reg data) →
  f_destroy fd fs (mk_sys f []) = (Val tt, mk_sys (<[fd := Reg (view data fs)]> f) []).
Proof.
  intros Hd. unfold f_destroy. case_bool_decide as Hb.
  - unfold view. rewrite Hb. simpl. by rewrite insert_id.
  - by erewrite comp_bind_val by by apply f_sync_free.
Qed.
