(* ===== verification/Header.v ===== *)
(** * Header: [src/common/ckpt_util.cpp]

    The header of a checkpoint file: the number of regions and, for each of them,
    its identifier and size.  [read_header] reads it and compares the sizes with
    the size of the file. *)

From S2P Require Import Prelude Text FileSystem Containers Bytes Streams.

Local Open Scope Z_scope.

(** [std::map<int, size_t>] *)
Definition region_info_t : Type := list (Z * Z).

Section read_header.
Context {S : Type} `{HasSys S}.

(** The loop of [read_header]: [i] is an [unsigned int], [no_regions] a [size_t].
    Every iteration reads 12 bytes or throws, so the length of the file bounds
    the number of iterations. *)
Fixpoint read_regions (fuel : nat) (fd : string) (no_regions i pos expected_size : Z) :
    comp (S * region_info_t) (Z * Z) :=
  if i <? no_regions then
    match fuel with
    | O => stop Hang
    | Datatypes.S fuel =>
        id ← on_sys (f_read fd pos sizeof_int);
        region_size ← on_sys (f_read fd (pos + sizeof_int) sizeof_size_t);
        modify (λ '(s, info), (s, map_insert (int_of id) (size_of region_size) info));;
        read_regions fuel fd no_regions (u32 (i + 1)) (pos + sizeof_int + sizeof_size_t)
          (u64 (expected_size + size_of region_size))
    end
  else mret (pos, expected_size).

Definition header_fuel (s : sys) (fd : string) : nat :=
  match s.(files) !! fd with Some (Reg data) => length data | _ => 0 end.

(** The body of the [try] block, from the loop on and as a whole. *)
Definition validate_regions (fd : string) (no_regions : Z) : comp (S * region_info_t) Z :=
  st ← get;
  r ← read_regions (header_fuel (the_sys st) fd) fd no_regions 0 sizeof_size_t 0;
  let '(header_size, expected_size) := r in
  end_ ← on_sys (f_end fd);
  let file_size := u64 (end_ - header_size) in
  if negb (file_size =? expected_size) then stop (Raise ios_failure)
  else mret header_size.

Definition validate_header (ckpt_name : string) : comp (S * region_info_t) Z :=
  fd ← on_sys (f_open_in ckpt_name);
  no_regions ← on_sys (f_read fd 0 sizeof_size_t);
  validate_regions fd (size_of no_regions).

Definition read_header (ckpt_name : string) : comp (S * region_info_t) Z :=
  modify (λ '(s, _), (s, []));;
  try_ios (validate_header ckpt_name) (mret 0).

End read_header.

(** ** Lemmas *)

Definition table_entry (id size : Z) : list byte := int_bytes id ++ size_bytes size.

(** The header of regions with the given identifiers and sizes. *)
Definition table (info : list (Z * Z)) : list byte :=
  concat (map (λ '(id, size), table_entry id size) info).
Definition header_bytes (info : list (Z * Z)) : list byte :=
  size_bytes (zlen info) ++ table info.

Definition sum_sizes (info : list (Z * Z)) : Z := foldr (λ e n, e.2 + n) 0 info.

Lemma zlen_table_entry id size : zlen (table_entry id size) = 12.
Proof. unfold table_entry. by rewrite zlen_app, zlen_int_bytes, zlen_size_bytes. Qed.

Lemma zlen_table info : zlen (table info) = 12 * zlen info.
Proof.
  induction info as [|[id size] info IH]; [done|]. unfold table in *. cbn [map concat].
  rewrite zlen_app, zlen_table_entry, IH. unfold zlen. simpl length. lia.
Qed.

Lemma zlen_header_bytes info : zlen (header_bytes info) = 8 + 12 * zlen info.
Proof. unfold header_bytes. by rewrite zlen_app, zlen_size_bytes, zlen_table. Qed.

(** The regions in the order of the file; [insert] keeps the first entry of an
    identifier. *)
Definition insert_all (l info : list (Z * Z)) : list (Z * Z) :=
  foldl (λ m e, map_insert e.1 e.2 m) info l.

Definition entry_ok (e : Z * Z) : Prop := is_int e.1 ∧ is_size e.2.

Lemma read_entry data pos a b :
  0 ≤ pos → a = ztake 4 (zdrop pos data) → zlen a = 4 →
  b = ztake 8 (zdrop (pos + 4) data) → zlen b = 8 →
  ztake 12 (zdrop pos data) = table_entry (int_of a) (size_of b) ∧
  entry_ok (int_of a, size_of b) ∧ pos + 12 ≤ zlen data.
Proof.
  intros Hpos Ha Hla Hb Hlb. unfold table_entry. rewrite int_bytes_of, size_bytes_of by done.
  split_and!.
  - change 12 with (4 + 8). rewrite ztake_add, zdrop_zdrop by lia. by rewrite <-Ha, <-Hb.
  - split; [apply int_of_range|by apply size_of_range].
  - rewrite Hb, zlen_ztake, zlen_zdrop in Hlb by lia. lia.
Qed.

Section read_regions.
Context {S : Type} `{HasSys S}.

(** A read in a state that pairs the file system with something else. *)
Lemma pair_read {R} fd pos n (s : S) (r : R) o st' :
  on_sys (f_read fd pos n) (s, r) = (o, st') →
  ∃ s', st' = (s', r) ∧ files (the_sys s') = files (the_sys s) ∧
    (o = Raise ios_failure ∨
     ∃ data bs, files (the_sys s) !! fd = Some (Reg data) ∧ o = Val bs ∧
       bs = ztake n (zdrop pos data) ∧ zlen bs = n).
Proof.
  intros (s1 & H1 & ->)%on_sys_inv. apply f_read_spec in H1 as [Hf Ho].
  eexists. split; [done|]. simpl. by rewrite the_with_sys.
Qed.

(** One iteration. *)
Lemma read_regions_step fuel fd n i pos e (s : S) info o st' data :
  files (the_sys s) !! fd = Some (Reg data) → 0 ≤ pos → i < n →
  read_regions (Datatypes.S fuel) fd n i pos e (s, info) = (o, st') →
  (o = Raise ios_failure ∧ files (the_sys st'.1) = files (the_sys s)) ∨
  ∃ id size s1, entry_ok (id, size) ∧ files (the_sys s1) = files (the_sys s) ∧
    pos + 12 ≤ zlen data ∧ ztake 12 (zdrop pos data) = table_entry id size ∧
    read_regions fuel fd n (u32 (i + 1)) (pos + 12) (u64 (e + size))
      (s1, map_insert id size info) = (o, st').
Proof.
  intros Hd Hpos Hi Hrun. cbn [read_regions] in Hrun. destruct (Z.ltb_spec i n); [|lia].
  destruct (on_sys (f_read fd pos sizeof_int) (s, info)) as [o1 st1] eqn:H1.
  pose proof H1 as (s1 & -> & Hf1 & Ho1)%pair_read.
  destruct Ho1 as [->|(data1 & a & Hd1 & -> & Ha & Hla)].
  { rewrite (comp_bind_raise _ _ _ _ _ H1) in Hrun. simplify_eq. by left. }
  rewrite (comp_bind_val _ _ _ _ _ H1) in Hrun.
  destruct (on_sys (f_read fd (pos + sizeof_int) sizeof_size_t) (s1, info)) as [o2 st2] eqn:H2.
  pose proof H2 as (s2 & -> & Hf2 & Ho2)%pair_read.
  destruct Ho2 as [->|(data2 & b & Hd2 & -> & Hb & Hlb)].
  { rewrite (comp_bind_raise _ _ _ _ _ H2) in Hrun. simplify_eq. left. split; [done|simpl; congruence]. }
  rewrite (comp_bind_val _ _ _ _ _ H2) in Hrun. rewrite Hf1 in Hd2.
  assert (data1 = data ∧ data2 = data) as [-> ->] by (split; congruence).
  destruct (read_entry data pos a b) as (Ht & Hok & Hle); try done.
  right. exists (int_of a), (size_of b), s2. split_and!; try done; [congruence|].
  rewrite <-Hrun. unfold sizeof_int, sizeof_size_t. rewrite <-Z.add_assoc. done.
Qed.

Lemma read_regions_spec fuel fd n i pos e (s : S) info o st' data :
  files (the_sys s) !! fd = Some (Reg data) → 0 ≤ pos ≤ zlen data →
  zlen data - pos < 12 * Z.of_nat fuel → 0 ≤ i ≤ n → i < 2 ^ 32 → is_size e →
  read_regions fuel fd n i pos e (s, info) = (o, st') →
  files (the_sys st'.1) = files (the_sys s) ∧
  (o = Raise ios_failure ∨
   ∃ l, o = Val (pos + 12 * zlen l, u64 (e + sum_sizes l)) ∧
     st'.2 = insert_all l info ∧ Forall entry_ok l ∧ i + zlen l = n ∧ n < 2 ^ 32 ∧
     pos + 12 * zlen l ≤ zlen data ∧ ztake (12 * zlen l) (zdrop pos data) = table l).
Proof.
  revert i pos e s info. induction fuel as [|fuel IH];
    intros i pos e s info Hd Hpos Hfuel Hi Hi32 He Hrun; [lia|].
  destruct (Z.lt_ge_cases i n) as [Hin|Hin].
  - destruct (read_regions_step fuel fd n i pos e s info o st' data Hd (proj1 Hpos) Hin Hrun)
      as [[-> ?]|(id & size & s1 & Hok & Hf1 & Hle & Ht & Hrun')]; [by auto|].
    rewrite <-Hf1 in Hd |- *.
    edestruct IH as [Hf Ho]; [done| | | | | |exact Hrun'|];
      [lia|lia|unfold u32; pose proof (Z.mod_le (i + 1) (2 ^ 32)); 
       pose proof (Z.mod_pos_bound (i + 1) (2 ^ 32)); lia|apply Z.mod_pos_bound; done|apply u64_range|].
    split; [done|]. destruct Ho as [->|(l & -> & Hl & Hoks & Hn & Hn32 & Hle' & Ht')]; [by left|right].
    unfold u32 in Hn. rewrite (Z.mod_small (i + 1) (2 ^ 32)) in Hn by lia.
    assert (zlen ((id, size) :: l) = zlen l + 1) as Hlen by (unfold zlen; simpl; lia).
    exists ((id, size) :: l). rewrite !Hlen. split_and!; try done; [|by constructor|lia|lia|].
    + unfold u64. rewrite Zplus_mod_idemp_l. simpl. do 2 f_equal; [lia|f_equal; lia].
    + replace (12 * (zlen l + 1)) with (12 + 12 * zlen l) by lia. pose proof (zlen_nonneg l).
      rewrite ztake_add, zdrop_zdrop, Ht' by lia. by rewrite Ht.
  - cbn [read_regions] in Hrun. destruct (Z.ltb_spec i n); [lia|].
    unfold mret, comp_ret in Hrun. simplify_eq. split; [done|]. right. exists [].
    change (zlen []) with 0. simpl. rewrite !Z.add_0_r, u64_small by done.
    split_and!; try done; [lia..|]. by rewrite ztake_0.
Qed.

(** What the file says when its header is accepted: it starts with the header of
    the regions [l], and their sizes add up to the rest of the file in the
    arithmetic of [size_t]. *)
Definition header_of (f : gmap string node) (name : string) (l : list (Z * Z)) : Prop :=
  ∃ q rest, lookup_path f name = Some (q, Reg (header_bytes l ++ rest)) ∧
    Forall entry_ok l ∧ zlen l < 2 ^ 32 ∧ u64 (zlen rest) = u64 (sum_sizes l).

Lemma header_split data l :
  ztake 8 (zdrop 0 data) = size_bytes (zlen l) → ztake (12 * zlen l) (zdrop 8 data) = table l →
  8 + 12 * zlen l ≤ zlen data →
  data = header_bytes l ++ zdrop (8 + 12 * zlen l) data.
Proof.
  intros H1 H2 Hle. pose proof (zlen_nonneg l). unfold header_bytes. rewrite <-H1, <-H2.
  rewrite (zdrop_0 0), <-ztake_add by lia. by rewrite ztake_zdrop_id.
Qed.

Lemma validate_regions_spec fd n (s : S) o st' data :
  files (the_sys s) !! fd = Some (Reg data) → 8 ≤ zlen data → is_size n →
  validate_regions fd n (s, []) = (o, st') →
  files (the_sys st'.1) = files (the_sys s) ∧
  (o = Raise ios_failure ∨
   ∃ l, o = Val (8 + 12 * zlen l) ∧ st'.2 = insert_all l [] ∧ Forall entry_ok l ∧
     zlen l = n ∧ n < 2 ^ 32 ∧ 8 + 12 * zlen l ≤ zlen data ∧
     ztake (12 * zlen l) (zdrop 8 data) = table l ∧
     u64 (zlen data - (8 + 12 * zlen l)) = u64 (sum_sizes l)).
Proof.
  intros Hd Hl8 Hsize Hrun. unfold validate_regions in Hrun. rewrite get_bind in Hrun.
  bind_case Hrun o1 st1 H1. destruct st1 as [s1 info1].
  pose proof H1 as H1'. apply (read_regions_spec _ _ _ _ _ _ _ _ _ _ data) in H1' as [Hf1 Ho1];
    try done; [|simpl; unfold header_fuel; rewrite Hd; unfold zlen, sizeof_size_t in *; lia|by split; [|apply Hsize]].
  simpl in Hf1, Ho1. destruct Ho1 as [->|(l & -> & -> & Hok & Hn & Hn32 & Hle & Ht)].
  { rewrite (comp_bind_raise _ _ _ _ _ H1) in Hrun. simplify_eq. by auto. }
  rewrite (comp_bind_val _ _ _ _ _ H1) in Hrun. cbn beta iota in Hrun. clear H1.
  bind_case Hrun o2 st2 H2.
  pose proof H2 as (s2 & Hs2 & ->)%on_sys_inv. apply f_end_spec in Hs2 as [Hf2 Ho2].
  simpl in Hf2, Ho2. destruct Ho2 as [->|(data' & Hd' & ->)].
  { rewrite (comp_bind_raise _ _ _ _ _ H2) in Hrun. simplify_eq. simpl. rewrite the_with_sys.
    split; [congruence|by left]. }
  rewrite (comp_bind_val _ _ _ _ _ H2) in Hrun. cbn beta in Hrun.
  assert (data' = data) as -> by congruence.
  assert (files (the_sys st'.1) = files (the_sys s)) as Hf.
  { destruct (negb _); unfold stop, mret, comp_ret in Hrun; simplify_eq; simpl;
      rewrite the_with_sys; congruence. }
  split; [done|]. destruct (Z.eqb_spec (u64 (zlen data - (sizeof_size_t + 12 * zlen l)))
    (u64 (0 + sum_sizes l))); cbn [negb] in Hrun; unfold stop, mret, comp_ret in Hrun;
    simplify_eq; [right|by left].
  exists l. split_and!; try done.
Qed.

Lemma validate_header_spec name (s : S) o st' :
  validate_header name (s, []) = (o, st') →
  files (the_sys st'.1) = files (the_sys s) ∧
  (o = Raise ios_failure ∨
   ∃ l, o = Val (zlen (header_bytes l)) ∧ st'.2 = insert_all l [] ∧
     header_of (files (the_sys s)) name l).
Proof.
  intros Hrun. unfold validate_header in Hrun. bind_case Hrun o1 st1 H1.
  pose proof H1 as (s1 & Hs1 & ->)%on_sys_inv. apply f_open_in_spec in Hs1 as [Hf1 Ho1].
  simpl in Hf1, Ho1. destruct Ho1 as [->|(q & nd & Hq & ->)].
  { rewrite (comp_bind_raise _ _ _ _ _ H1) in Hrun. simplify_eq. simpl.
    rewrite the_with_sys. by auto. }
  rewrite (comp_bind_val _ _ _ _ _ H1) in Hrun. cbn beta in Hrun. clear H1.
  bind_case Hrun o2 st2 H2. simpl with_sys in H2.
  pose proof H2 as (s2 & -> & Hf2 & Ho2)%pair_read. rewrite the_with_sys in *.
  destruct Ho2 as [->|(data & a & Hd & -> & Ha & Hla)].
  { rewrite (comp_bind_raise _ _ _ _ _ H2) in Hrun. simplify_eq. simpl. split; [congruence|by left]. }
  rewrite (comp_bind_val _ _ _ _ _ H2) in Hrun. cbn beta in Hrun. clear H2.
  assert (8 ≤ zlen data) as Hl8.
  { rewrite Ha, zdrop_0, zlen_ztake in Hla by done. unfold sizeof_size_t in Hla. lia. }
  apply (validate_regions_spec _ _ _ _ _ data) in Hrun as [Hf3 Ho3];
    [|congruence|done|apply size_of_range; by rewrite Hla].
  split; [congruence|].
  destruct Ho3 as [->|(l & -> & -> & Hok & Hn & Hn32 & Hle & Ht & Hsum)]; [by left|right].
  exists l. rewrite zlen_header_bytes. split_and!; [done..|].
  exists q, (zdrop (8 + 12 * zlen l) data). pose proof (zlen_nonneg l).
  rewrite <-header_split; try done.
  - split_and!; [|done|lia|]; [|by rewrite zlen_zdrop, Z.max_r by lia].
    rewrite Hq. do 2 f_equal. apply lookup_path_at in Hq. congruence.
  - rewrite Hn, size_bytes_of by done. done.
Qed.

(** Reading the first entry of a table and the rest. *)
Lemma table_cons pos data id size l :
  0 ≤ pos → ztake (12 * zlen ((id, size) :: l)) (zdrop pos data) = table ((id, size) :: l) →
  ztake 4 (zdrop pos data) = int_bytes id ∧ ztake 8 (zdrop (pos + 4) data) = size_bytes size ∧
  ztake (12 * zlen l) (zdrop (pos + 4 + 8) data) = table l.
Proof.
  intros Hpos Ht. pose proof (zlen_nonneg l).
  assert (12 * zlen ((id, size) :: l) = 4 + (8 + 12 * zlen l)) as Hlen
    by (unfold zlen; simpl length; lia).
  pose proof (f_equal zlen Ht) as Hz. rewrite zlen_table, zlen_ztake, zlen_zdrop in Hz by lia.
  rewrite Hlen in Ht. unfold table in Ht. cbn [map concat] in Ht. unfold table_entry in Ht.
  rewrite ztake_add, zdrop_zdrop, ztake_add, zdrop_zdrop, <-app_assoc in Ht by lia.
  apply app_inj_1 in Ht as [Ht1 Ht].
  - apply app_inj_1 in Ht as [Ht2 Ht]; [done|]. apply Nat2Z.inj.
    change (zlen (ztake 8 (zdrop (pos + 4) data)) = zlen (size_bytes size)).
    rewrite zlen_size_bytes, zlen_ztake, zlen_zdrop by lia. lia.
  - apply Nat2Z.inj. change (zlen (ztake 4 (zdrop pos data)) = zlen (int_bytes id)).
    rewrite zlen_int_bytes, zlen_ztake, zlen_zdrop by lia. lia.
Qed.

Lemma read_regions_free fuel fd i pos e (s : S) info f data l :
  the_sys s = mk_sys f [] → f !! fd = Some (Reg data) → Forall entry_ok l →
  ztake (12 * zlen l) (zdrop pos data) = table l → 0 ≤ pos → (length l ≤ fuel)%nat →
  0 ≤ i → i + zlen l < 2 ^ 32 → is_size e →
  read_regions fuel fd (i + zlen l) i pos e (s, info)
  = (Val (pos + 12 * zlen l, u64 (e + sum_sizes l)), (s, insert_all l info)).
Proof.
  intros Hs Hd. revert fuel i pos e info.
  induction l as [|[id size] l IH]; intros fuel i pos e info Hok Ht Hpos Hfuel Hi Hi32 He.
  - change (zlen []) with 0. simpl sum_sizes. rewrite !Z.add_0_r, u64_small by done.
    destruct fuel; cbn [read_regions]; by rewrite Z.ltb_irrefl.
  - destruct fuel as [|fuel]; [simpl in Hfuel; lia|].
    assert (zlen ((id, size) :: l) = 1 + zlen l) as Hlen by (unfold zlen; simpl; lia).
    pose proof (zlen_nonneg l). apply Forall_cons in Hok as [[Hid Hsz] Hok].
    apply table_cons in Ht as (Ht1 & Ht2 & Ht); [|done]. rewrite Hlen in *.
    cbn [read_regions]. destruct (Z.ltb_spec i (i + (1 + zlen l))); [|lia].
    erewrite comp_bind_val by (eapply on_sys_same; [exact Hs|]; by eapply f_read_free, zlen_int_bytes).
    cbn beta.
    erewrite comp_bind_val by (eapply on_sys_same; [exact Hs|]; by eapply f_read_free, zlen_size_bytes).
    cbn beta. rewrite modify_bind. rewrite int_of_bytes, size_of_bytes by done.
    unfold u32. rewrite Z.mod_small by lia.
    replace (i + (1 + zlen l)) with ((i + 1) + zlen l) by lia. unfold sizeof_int, sizeof_size_t.
    rewrite IH; [|done|done|lia|simpl in Hfuel; lia|lia|lia|apply u64_range].
    unfold u64. rewrite Zplus_mod_idemp_l. simpl. do 3 f_equal; [lia|f_equal; lia].
Qed.

Lemma validate_header_free name (s : S) f l :
  the_sys s = mk_sys f [] → header_of f name l →
  validate_header name (s, []) = (Val (zlen (header_bytes l)), (s, insert_all l [])).
Proof.
  intros Hs (q & rest & Hq & Hok & Hl32 & Hsum). pose proof (zlen_nonneg l).
  pose proof (lookup_path_at _ _ _ _ Hq) as Hd. set (data := header_bytes l ++ rest) in *.
  assert (ztake 8 (zdrop 0 data) = size_bytes (zlen l)) as H8.
  { rewrite zdrop_0 by done. unfold data, header_bytes. rewrite <-app_assoc.
    rewrite ztake_app_le, ztake_all by (rewrite zlen_size_bytes; done). done. }
  assert (ztake (12 * zlen l) (zdrop 8 data) = table l) as Ht.
  { unfold data, header_bytes. rewrite <-app_assoc, zdrop_app_ge by (rewrite zlen_size_bytes; done).
    rewrite zlen_size_bytes, zdrop_0, ztake_app_le, ztake_all by (rewrite ?zlen_table; done). done. }
  unfold validate_header.
  erewrite comp_bind_val by (eapply on_sys_same; [exact Hs|by eapply f_open_in_free]). cbn beta.
  erewrite comp_bind_val by (eapply on_sys_same; [exact Hs|by eapply f_read_free, zlen_size_bytes]).
  cbn beta. rewrite size_of_bytes by (unfold is_size, SIZE_MAX; lia).
  unfold validate_regions. rewrite get_bind. simpl (the_sys _).
  assert (zlen data = 8 + 12 * zlen l + zlen rest) as Hlen
    by (unfold data; by rewrite zlen_app, zlen_header_bytes).
  rewrite (comp_bind_val _ _ _ _ _ (read_regions_free (header_fuel (the_sys s) q) q 0 8 0 s []
    f data l Hs Hd Hok Ht ltac:(done) ltac:(unfold header_fuel; rewrite Hs; simpl; rewrite Hd;
      unfold zlen in *; lia) ltac:(done) ltac:(lia) ltac:(done))).
  cbn beta iota.
  erewrite comp_bind_val by (eapply on_sys_same; [exact Hs|by eapply f_end_free]). cbn beta.
  rewrite Hlen. replace (8 + 12 * zlen l + zlen rest - (8 + 12 * zlen l)) with (zlen rest) by lia.
  rewrite Hsum, Z.eqb_refl. cbn [negb]. by rewrite zlen_header_bytes.
Qed.
End read_regions.

Lemma insert_all_sorted l info :
  sorted (info.*1 ++ l.*1) → insert_all l info = info ++ l.
Proof.
  revert info. induction l as [|[id size] l IH]; intros info Hs; simpl; [by rewrite app_nil_r|].
  assert (map_insert id size info = info ++ [(id, size)]) as Hm.
  { apply map_insert_last. apply Forall_forall. intros x Hx.
    apply sorted_app_inv in Hs as (_ & _ & Hlt). apply (Hlt x id Hx). by left. }
  rewrite Hm, IH; [by rewrite <-app_assoc|]. by rewrite fmap_app, <-app_assoc.
Qed.

(** C14: [read_header] is total and sound: for every file and whatever read
    errors it meets it returns without an exception and changes no file; it
    returns 0, or the size of a header that the file starts with, with the regions
    of that header; their sizes add up to the rest of the file modulo 2^64, hence
    exactly when their sum is a [size_t]. *)
Theorem read_header_sound (name : string) (s s' : sys) (info info' : region_info_t) (o : outcome Z) :
  read_header name (s, info) = (o, (s', info')) →
  files s' = files s ∧
  (o = Val 0 ∨
   ∃ l q rest, o = Val (zlen (header_bytes l)) ∧ info' = insert_all l [] ∧
     lookup_path (files s) name = Some (q, Reg (header_bytes l ++ rest)) ∧
     Forall entry_ok l ∧ zlen l < 2 ^ 32 ∧ u64 (zlen rest) = u64 (sum_sizes l) ∧
     (is_size (zlen rest) → is_size (sum_sizes l) → zlen rest = sum_sizes l)).
Proof.
  unfold read_header. rewrite modify_bind. unfold try_ios.
  destruct (validate_header name (s, [])) as [o0 st0] eqn:Hv.
  apply validate_header_spec in Hv as [Hf [->|(l & -> & Hi & q & rest & Hq & Hok & Hl & Hu)]];
    unfold mret, comp_ret; intros; simplify_eq/=; [by auto|].
  split; [done|]. right. exists l, q, rest. split_and!; [done..|].
  intros Hr Hs. by rewrite !u64_small in Hu.
Qed.

Definition demo_bytes : list byte := [Byte.x0a; Byte.x0b; Byte.x0c].
Definition demo_regions : list (Z * Z) := [(1, 2); (4, 1)].
Definition demo_ckpt : list byte := header_bytes demo_regions ++ demo_bytes.

Lemma read_header_sound_witness :
  let s := mk_sys (<["/s/ck-0-3.dat" := Reg demo_ckpt]> ∅) [Go; Short 2; Go] in
  files s = files s ∧
  (Val 32 = Val 0 ∨ ∃ l q rest, Val 32 = Val (zlen (header_bytes l)) ∧ demo_regions = insert_all l [] ∧
     lookup_path (files s) "/s/ck-0-3.dat" = Some (q, Reg (header_bytes l ++ rest)) ∧
     Forall entry_ok l ∧ zlen l < 2 ^ 32 ∧ u64 (zlen rest) = u64 (sum_sizes l) ∧
     (is_size (zlen rest) → is_size (sum_sizes l) → zlen rest = sum_sizes l)).
Proof.
  intros s. apply (read_header_sound "/s/ck-0-3.dat" s (mk_sys (files s) []) [] demo_regions).
  vm_compute. reflexivity.
Defined.

(** Without read errors [read_header] accepts every well-formed file and
    returns the regions of its header. *)
Theorem read_header_valid (name : string) (f : gmap string node) (info : region_info_t)
    (l : list (Z * Z)) :
  header_of f name l → sorted l.*1 →
  read_header name (mk_sys f [], info) = (Val (8 + 12 * zlen l), (mk_sys f [], l)).
Proof.
  intros Hl Hs. unfold read_header. rewrite modify_bind. unfold try_ios.
  rewrite (validate_header_free name (mk_sys f []) f l) by done.
  by rewrite zlen_header_bytes, insert_all_sorted by done.
Qed.

Lemma read_header_valid_witness :
  let f := <["/s/ck-0-3.dat" := Reg demo_ckpt]> ∅ in
  read_header "/s/ck-0-3.dat" (mk_sys f [], []) = (Val 32, (mk_sys f [], demo_regions)).
Proof.
  intros f. apply (read_header_valid "/s/ck-0-3.dat" f [] demo_regions).
  - exists "/s/ck-0-3.dat", demo_bytes. split; [vm_compute; reflexivity|].
    split; [repeat constructor; vm_compute; discriminate|].
    split; vm_compute; reflexivity.
  - repeat constructor.
Defined.

(** The sum wraps around: a file that consists of a header alone, with two regions
    of 2^63 bytes each, is accepted. *)
Definition wrapping_regions : list (Z * Z) := [(0, 2 ^ 63); (1, 2 ^ 63)].

Theorem read_header_wraps :
  let f := <["/s/ck-0-3.dat" := Reg (header_bytes wrapping_regions)]> ∅ in
  read_header "/s/ck-0-3.dat" (mk_sys f [], []) = (Val 32, (mk_sys f [], wrapping_regions)) ∧
  sum_sizes wrapping_regions = 2 ^ 64.
Proof.
  intros f. split; [|reflexivity]. apply (read_header_valid "/s/ck-0-3.dat" f [] wrapping_regions).
  - exists "/s/ck-0-3.dat", []. split; [vm_compute; reflexivity|].
    split; [repeat constructor; vm_compute; discriminate|]. split; vm_compute; reflexivity.
  - repeat constructor.
Qed.
