(* ===== verification/Client.v ===== *)
(** * Client: [src/lib/client.hpp], [src/lib/client.cpp]

    The client library: protected memory regions, checkpoints and restarts.  The
    state pairs the members of [client_impl_t] with what they act on: the file
    system, the memory of the application and the queue to the backend.

    The queue is reached through [comm_client_t], the interface of
    [src/common/*_queue.hpp].  MPI collectives are parameters: what they return
    to this process, given its contribution.  Serializers, deserializers and
    observers are functions of the application that act on its memory. *)

From S2P Require Import Prelude Text Command FileSystem Containers FileUtil Bytes Streams Header.

Local Open Scope Z_scope.

Import command_t.

(** ** Memory *)

Abbreviation mem := (gmap Z byte).

(** The addresses of [n] bytes from [p] on. *)
Definition addresses (p n : Z) : list Z := seqZ p n.

(** [n] bytes at [p]; [None] when some of them are not mapped. *)
Definition load (p n : Z) (m : mem) : option (list byte) :=
  mapM (λ a, m !! a) (addresses p n).

Fixpoint store_bytes (p : Z) (bs : list byte) (m : mem) : mem :=
  match bs with
  | [] => m
  | b :: bs => <[p := b]> (store_bytes (p + 1) bs m)
  end.

Definition store (p : Z) (bs : list byte) (m : mem) : option mem :=
  if decide (Forall (λ a, is_Some (m !! a)) (addresses p (zlen bs)))
  then Some (store_bytes p bs m) else None.

(** ** Interfaces *)

Definition serializer_t : Type := mem → list byte.

(** The rest of the stream to: the result, the number of bytes taken, and the
    memory afterwards. *)
Definition deserializer_t : Type := mem → list byte → bool * Z * mem.
Definition observer_t : Type := string → Z → mem → mem.

(** The client's side of the queues.  While a call of the queue runs, the backend
    may change the files. *)
Record comm_client_t (Q : Type) := {
  enqueue : command_t.t → comp (sys * Q) unit;
  wait_completion : comp (sys * Q) Z;
  check_completion : comp (sys * Q) bool
}.
Arguments enqueue {Q} _ _.
Arguments wait_completion {Q} _.
Arguments check_completion {Q} _.

(** What the collectives of MPI return to this process, for what it sends.  (The
    result of [MPI_Gather] is for rank 0.) *)
Record mpi_t := {
  MPI_Exscan_sum : Z → Z;
  MPI_Gather : Z → list Z;
  MPI_Allreduce_max : Z → Z;
  MPI_Allreduce_lor : Z → Z
}.

(** ** State *)

(** [ptr = NULL] (0) marks a region with a serializer; an empty
    [std::function] is [None]. *)
Record region_t := mk_region {
  ptr : Z;
  size : Z;
  ser : option serializer_t;
  des : option deserializer_t
}.

Definition regions_t : Type := list (Z * region_t).

(** The configuration and identity of the process, fixed by the constructor;
    [meta] is [None] when the parameter is not set, and [comm_set] is whether the
    communicator is not [MPI_COMM_NULL]. *)
Record client_cfg := {
  scratch : string;
  meta : option string;
  is_sync : bool;
  aggregated : bool;
  comm_set : bool;
  rank : Z;
  no_ranks : Z
}.

(** [current_ckpt] is [None] until it is assigned: the default constructor of
    [command_t] leaves its integers indeterminate. *)
Record client_t (Q : Type) := mk_client {
  the_fs : sys;
  memory : mem;
  queue : Q;
  mem_regions : gmap string regions_t;
  observers : list (Z * option observer_t);
  current_ckpt : option command_t.t;
  checkpoint_in_progress : bool;
  region_info : region_info_t;
  header_size : Z
}.
Arguments mk_client {Q} _ _ _ _ _ _ _ _ _.
Arguments the_fs {Q} _.
Arguments memory {Q} _.
Arguments queue {Q} _.
Arguments mem_regions {Q} _.
Arguments observers {Q} _.
Arguments current_ckpt {Q} _.
Arguments checkpoint_in_progress {Q} _.
Arguments region_info {Q} _.
Arguments header_size {Q} _.

Global Program Instance client_has_sys {Q} : HasSys (client_t Q) := {|
  the_sys := the_fs;
  with_sys st s := mk_client s st.(memory) st.(queue) st.(mem_regions) st.(observers)
    st.(current_ckpt) st.(checkpoint_in_progress) st.(region_info) st.(header_size)
|}.
Next Obligation. done. Qed.
Next Obligation. by intros ? []. Qed.

Section setters.
Context {Q : Type}.
Implicit Types st : client_t Q.

Definition set_memory (m : mem) st : client_t Q :=
  mk_client st.(the_fs) m st.(queue) st.(mem_regions) st.(observers) st.(current_ckpt)
    st.(checkpoint_in_progress) st.(region_info) st.(header_size).
Definition set_regions (r : gmap string regions_t) st : client_t Q :=
  mk_client st.(the_fs) st.(memory) st.(queue) r st.(observers) st.(current_ckpt)
    st.(checkpoint_in_progress) st.(region_info) st.(header_size).
Definition set_observers (o : list (Z * option observer_t)) st : client_t Q :=
  mk_client st.(the_fs) st.(memory) st.(queue) st.(mem_regions) o st.(current_ckpt)
    st.(checkpoint_in_progress) st.(region_info) st.(header_size).
Definition set_current (c : option command_t.t) st : client_t Q :=
  mk_client st.(the_fs) st.(memory) st.(queue) st.(mem_regions) st.(observers) c
    st.(checkpoint_in_progress) st.(region_info) st.(header_size).
Definition set_in_progress (b : bool) st : client_t Q :=
  mk_client st.(the_fs) st.(memory) st.(queue) st.(mem_regions) st.(observers)
    st.(current_ckpt) b st.(region_info) st.(header_size).
Definition set_header (info : region_info_t) (h : Z) st : client_t Q :=
  mk_client st.(the_fs) st.(memory) st.(queue) st.(mem_regions) st.(observers)
    st.(current_ckpt) st.(checkpoint_in_progress) info h.

(** A call of the queue. *)
Definition on_queue {A} (m : comp (sys * Q) A) : comp (client_t Q) A := λ st,
  let '(o, (s, q)) := m (st.(the_fs), st.(queue)) in
  (o, mk_client s st.(memory) q st.(mem_regions) st.(observers) st.(current_ckpt)
        st.(checkpoint_in_progress) st.(region_info) st.(header_size)).
End setters.

(** ** Memory regions *)

Definition default_mem_group : string := "default".

Section client.
Context {Q : Type}.
Variables (qc : comm_client_t Q) (cfg : client_cfg) (mpi : mpi_t) (bufsize : Z).

Abbreviation client := (comp (client_t Q)).

(** [mem_regions[name]] *)
Definition regions_of (name : string) (st : client_t Q) : regions_t :=
  default [] (st.(mem_regions) !! name).

(** [mem_regions[name].insert_or_assign(id, region).second] *)
Definition protect (id : Z) (r : region_t) (name : string) : client bool := λ st,
  let '(inserted, m) := map_assign id r (regions_of name st) in
  (Val inserted, set_regions (<[name := m]> st.(mem_regions)) st).

Definition mem_protect (id p count base_size : Z) (name : string) : client bool :=
  protect id (mk_region p (u64 (count * base_size)) None None) name.

(** [size] is not initialised by this constructor, it is written before it is
    read. *)
Definition mem_protect_serializer (id : Z) (s : option serializer_t) (d : option deserializer_t)
    (name : string) : client bool :=
  protect id (mk_region 0 0 s d) name.

Definition mem_unprotect (id : Z) (name : string) : client bool := λ st,
  let '(erased, m) := map_erase id (regions_of name st) in
  (Val erased, set_regions (<[name := m]> st.(mem_regions)) st).

Definition mem_clear (name : string) : client unit :=
  modify (λ st, set_regions (<[name := []]> st.(mem_regions)) st).

Definition register_observer (type : Z) (obs : option observer_t) : client bool := λ st,
  let '(inserted, m) := map_assign type obs st.(observers) in
  (Val inserted, set_observers m st).

(** The reference returned is the entry of [current_ckpt.name] in
    [mem_regions]; when it is empty the default group is copied into it. *)
Definition current_name (st : client_t Q) : string :=
  match st.(current_ckpt) with Some c => c.(name) | None => "" end.

Definition current_regions (st : client_t Q) : regions_t :=
  let r := regions_of (current_name st) st in
  if bool_decide (length r = 0%nat) then regions_of default_mem_group st else r.

Definition get_current_ckpt_regions : client regions_t := λ st,
  let ckpt_regions := current_regions st in
  (Val ckpt_regions, set_regions (<[current_name st := ckpt_regions]> st.(mem_regions)) st).

Definition check_rank (target_rank : Z) : Z :=
  if target_rank <? 0 then cfg.(rank) else target_rank.

(** ** Checkpoints *)

Definition cleanup (name : string) : client bool :=
  λ st, let '(o, (st', _)) := (parse_dir cfg.(scratch) name
          (λ fname _ _, on_sys (unlink fname);; mret tt)) (st, tt) in
        match o with Val _ => (Val true, st') | Raise e => (Raise e, st')
        | Exit c => (Exit c, st') | Hang => (Hang, st') | Undef => (Undef, st') end.

Definition checkpoint_wait : client bool :=
  st ← get;
  if st.(checkpoint_in_progress) then mret false else
  status ← on_queue qc.(wait_completion);
  mret (status =? VELOC_SUCCESS).

Definition checkpoint_finished : client bool :=
  st ← get;
  if cfg.(is_sync) then mret true else
  if st.(checkpoint_in_progress) then mret false else
  on_queue qc.(check_completion).

Definition checkpoint_begin (name : string) (version : Z) : client bool :=
  st ← get;
  if st.(checkpoint_in_progress) then mret false else
  if negb (validate_name name) || (version <? 0) then mret false else
  cmd ← stop (command_t.make cfg.(rank) CHECKPOINT version name);
  modify (λ st, set_in_progress true (set_current (Some cmd) st));;
  mret true.

(** The regions a checkpoint selects.  With [VELOC_CKPT_SOME] the loop
    increments the iterator it has just erased, which is undefined. *)
Definition select (mode : Z) (ids : zset) (r : regions_t) : outcome regions_t :=
  if mode =? VELOC_CKPT_SOME then
    if forallb (λ e, set_mem e.1 ids) r then Val r else Undef
  else if mode =? VELOC_CKPT_REST then
    Val (foldl (λ r id, (map_erase id r).2) r ids)
  else Val r.

(** The bytes a region contributes. *)
Definition region_bytes (info : region_t) (m : mem) : outcome (list byte) :=
  if negb (info.(ptr) =? 0) then
    match load info.(ptr) info.(size) m with Some bs => Val bs | None => Undef end
  else match info.(ser) with
       | Some s => Val (s m)
       | None => Raise bad_function_call
       end.

(** The first loop: the data, with the sizes of the regions. *)
Fixpoint write_regions (fd : string) (f : ofstream) (regions : regions_t) :
    client (ofstream * list (Z * Z)) :=
  match regions with
  | [] => mret (f, [])
  | (id, info) :: regions =>
      m ← gets memory;
      bs ← stop (region_bytes info m);
      f' ← on_sys (f_write bufsize fd f bs);
      r ← write_regions fd f' regions;
      mret (r.1, (id, if negb (info.(ptr) =? 0) then info.(size)
                      else u64 (f'.(o_pos) - f.(o_pos))) :: r.2)
  end.

(** The second loop: the table of the header. *)
Fixpoint write_table (fd : string) (f : ofstream) (sizes : list (Z * Z)) : posix ofstream :=
  match sizes with
  | [] => mret f
  | (id, size) :: sizes =>
      f ← f_write bufsize fd f (int_bytes id);
      f ← f_write bufsize fd f (size_bytes size);
      write_table fd f sizes
  end.

(** The header, and the destructor of the stream. *)
Definition write_header (fd : string) (f : ofstream) (regions_size : Z) (sizes : list (Z * Z)) :
    posix unit :=
  f ← f_seekp fd f 0;
  f ← f_write bufsize fd f (size_bytes regions_size);
  f ← write_table fd f sizes;
  f_destroy fd f.

(** The [try] block. *)
Definition write_checkpoint (fname : string) (regions : regions_t) : client bool :=
  fd ← on_sys (f_open_out fname);
  let regions_size := zlen regions in
  f ← on_sys (f_seekp fd (mk_ofstream 0 [])
                (sizeof_size_t + regions_size * (sizeof_int + sizeof_size_t)));
  r ← write_regions fd f regions;
  on_sys (write_header fd r.1 regions_size r.2);;
  mret true.

Definition checkpoint_mem (mode : Z) (ids : zset) : client bool :=
  st ← get;
  if negb st.(checkpoint_in_progress) then mret false else
  regions ← get_current_ckpt_regions;
  ckpt_regions ← stop (select mode ids regions);
  if bool_decide (length ckpt_regions = 0%nat) then mret false else
  match st.(current_ckpt) with
  | None => stop Undef
  | Some c => try_ios (write_checkpoint (filename c cfg.(scratch)) ckpt_regions) (mret false)
  end.

(** What this rank sends in the two collectives: the size of its file, and the
    offset, by the call of rank 0 and by that of the others. *)
Definition exscan_send (c : command_t.t) : client Z := on_sys (file_size (filename c cfg.(scratch))).
Definition gather_send (ckpt_size offset : Z) : Z := if cfg.(rank) =? 0 then offset else offset.

(** The metadata of an aggregated checkpoint: the offset of this rank and, on
    rank 0, the header with the offsets of all ranks. *)
Definition aggregate (c : command_t.t) : client (option Z) :=
  ckpt_size ← exscan_send c;
  let offset := mpi.(MPI_Exscan_sum) ckpt_size in
  let gathered := mpi.(MPI_Gather) (gather_send ckpt_size offset) in
  if cfg.(rank) =? 0 then
    let offset_map := cfg.(no_ranks) :: gathered in
    dir ← stop (from_option Val FATAL cfg.(meta));
    ok ← on_sys (write_file (agg_filename c dir) (concat (map long_bytes offset_map)));
    mret (if (ok : bool) then Some offset else None)
  else mret (Some offset).

Definition notify_observers (c : command_t.t) : client unit :=
  st ← get;
  match map_find VELOC_OBSERVE_CKPT_END st.(observers) with
  | None => mret tt
  | Some None => stop (Raise bad_function_call)
  | Some (Some obs) => modify (λ st, set_memory (obs c.(name) c.(version) st.(memory)) st)
  end.

Definition submit (c : command_t.t) : client bool :=
  modify (set_in_progress false);;
  on_queue (qc.(enqueue) c);;
  notify_observers c;;
  if cfg.(is_sync) then
    status ← on_queue qc.(wait_completion);
    mret (status =? VELOC_SUCCESS)
  else mret true.

Definition checkpoint_end (success : bool) : client bool :=
  st ← get;
  match st.(current_ckpt) with
  | None => stop Undef
  | Some c =>
      if cfg.(aggregated) then
        offset ← aggregate c;
        match offset with
        | None => mret false
        | Some offset =>
            let c := set_offset c (u64 offset) in
            modify (set_current (Some c));;
            submit c
        end
      else submit c
  end.

Definition run_blocking (cmd : command_t.t) : client Z :=
  on_queue (qc.(enqueue) cmd);;
  on_queue qc.(wait_completion).

(** [a && b], evaluated from the left. *)
Definition and_then (m k : client bool) : client bool :=
  b ← m; if (b : bool) then k else mret false.

Definition checkpoint (name : string) (version : Z) : client bool :=
  and_then checkpoint_wait (and_then (checkpoint_begin name version)
    (and_then (checkpoint_mem VELOC_CKPT_ALL []) (checkpoint_end true))).

(** ** Restarts *)

Definition restart_test (name : string) (needed_version target_rank : Z) : client Z :=
  if negb (validate_name name) || (needed_version <? 0) then mret VELOC_FAILURE else
  cmd ← stop (command_t.make (check_rank target_rank) TEST needed_version name);
  version ← run_blocking cmd;
  mret (if cfg.(comm_set) && (target_rank <? 0) then mpi.(MPI_Allreduce_max) version
        else version).

(** [cwd] is what [getcwd] returns. *)
Definition route_file (cwd : option string) (original : string) : client string :=
  st ← get;
  match st.(current_ckpt) with
  | None => stop Undef
  | Some c =>
      let path := match original, cwd with
                  | String "/" _, _ => original
                  | _, Some dir => dir +:+ "/" +:+ original
                  | _, None => original
                  end in
      c' ← stop (assign_path c path);
      modify (set_current (Some c'));;
      mret (filename c' cfg.(scratch))
  end.

Definition restart_begin (name : string) (version target_rank : Z) : client bool :=
  st ← get;
  if st.(checkpoint_in_progress) then mret false else
  if negb (validate_name name) || (version <? 0) then mret false else
  cmd ← stop (command_t.make (check_rank target_rank) RESTART version name);
  modify (set_current (Some cmd));;
  result ← run_blocking cmd;
  let end_result := if cfg.(comm_set) then mpi.(MPI_Allreduce_lor) result else result in
  if end_result =? VELOC_SUCCESS then
    modify (λ st, set_header st.(region_info) 0 st);; mret true
  else mret false.

Definition read_current_header : client bool := λ st,
  match st.(current_ckpt) with
  | None => (Undef, st)
  | Some c =>
      match read_header (filename c cfg.(scratch)) (st, st.(region_info)) with
      | (Val h, (st', info)) => (Val (negb (h =? 0)), set_header info h st')
      | (Raise e, (st', info)) => (Raise e, set_header info st.(header_size) st')
      | (Exit n, (st', _)) => (Exit n, st')
      | (Hang, (st', _)) => (Hang, st')
      | (Undef, (st', _)) => (Undef, st')
      end
  end.

Definition recover_size (id : Z) : client Z :=
  st ← get;
  (if st.(header_size) =? 0 then read_current_header;; mret tt else mret tt);;
  st ← get;
  mret (default 0 (map_find id st.(region_info))).

(** One region: raw data go to their address, also the part that a failing read
    delivers; a deserializer takes what it needs from the stream. *)
Definition recover_region (fd : string) (pos size_ : Z) (info : region_t) : client (option Z) :=
  if negb (info.(ptr) =? 0) then
    if info.(size) <? size_ then mret None else
    r ← on_sys (f_read_some fd pos size_);
    m ← gets memory;
    match store info.(ptr) r.1 m with
    | None => stop Undef
    | Some m' =>
        modify (set_memory m');;
        if (r.2 : bool) then mret (Some (pos + size_)) else stop (Raise ios_failure)
    end
  else
    match info.(des) with
    | None => stop (Raise bad_function_call)
    | Some d =>
        r ← on_sys (f_read_some fd pos LONG_MAX);
        m ← gets memory;
        let '(ok, n, m') := d m r.1 in
        modify (set_memory m');;
        mret (if (ok : bool) then Some (pos + n) else None)
    end.

Definition skipped (mode : Z) (ids : zset) (id : Z) : bool :=
  let found := set_mem id ids in
  ((mode =? VELOC_RECOVER_SOME) && negb found) || ((mode =? VELOC_RECOVER_REST) && found).

Fixpoint recover_regions (fd : string) (pos mode : Z) (ids : zset) (regions : regions_t)
    (info : region_info_t) : client bool :=
  match info with
  | [] => mret true
  | (id, size_) :: info =>
      if skipped mode ids id then
        let pos' := pos + i64 size_ in
        if pos' <? 0 then stop (Raise ios_failure)
        else recover_regions fd pos' mode ids regions info
      else
        match map_find id regions with
        | None => mret false
        | Some r =>
            next ← recover_region fd pos size_ r;
            match next with
            | None => mret false
            | Some pos' => recover_regions fd pos' mode ids regions info
            end
        end
  end.

Definition recover_mem (mode : Z) (ids : zset) : client bool :=
  st ← get;
  ok ← (if st.(header_size) =? 0 then read_current_header else mret true);
  if negb ok then mret false else
  regions ← get_current_ckpt_regions;
  st ← get;
  match st.(current_ckpt) with
  | None => stop Undef
  | Some c =>
      try_ios
        (fd ← on_sys (f_open_in (filename c cfg.(scratch)));
         recover_regions fd st.(header_size) mode ids regions st.(region_info))
        (mret false)
  end.

Definition restart_end (success : bool) : client bool := mret true.

Definition restart (name : string) (version target_rank : Z) : client bool :=
  and_then (restart_begin name version target_rank)
    (and_then (recover_mem VELOC_CKPT_ALL []) (restart_end true)).
End client.

(** ** Lemmas on memory *)

Definition mapped (p n : Z) (m : mem) : Prop := ∀ a, p ≤ a < p + n → is_Some (m !! a).

Lemma addresses_elem p n a : a ∈ addresses p n ↔ p ≤ a < p + n.
Proof. apply elem_of_seqZ. Qed.

Lemma store_bytes_lookup p bs m a :
  store_bytes p bs m !! a
  = if (p <=? a) && (a <? p + zlen bs) then bs !! Z.to_nat (a - p) else m !! a.
Proof.
  revert p. induction bs as [|b bs IH]; intros p; simpl.
  - change (zlen []) with 0. destruct (Z.leb_spec p a), (Z.ltb_spec a (p + 0)); done || lia.
  - assert (zlen (b :: bs) = 1 + zlen bs) as Hlen by (unfold zlen; simpl length; lia).
    pose proof (zlen_nonneg bs). rewrite Hlen.
    destruct (decide (a = p)) as [->|Hne].
    + rewrite lookup_insert, decide_True by done.
      destruct (Z.leb_spec p p), (Z.ltb_spec p (p + (1 + zlen bs))); try lia.
      by rewrite Z.sub_diag.
    + rewrite lookup_insert_ne, IH by done.
      destruct (Z.leb_spec (p + 1) a), (Z.leb_spec p a), (Z.ltb_spec a (p + 1 + zlen bs)),
        (Z.ltb_spec a (p + (1 + zlen bs))); try lia; try done. simpl.
      by replace (Z.to_nat (a - p)) with (S (Z.to_nat (a - (p + 1)))) by lia.
Qed.

Lemma store_mapped p bs m : mapped p (zlen bs) m → store p bs m = Some (store_bytes p bs m).
Proof.
  intros H. unfold store. rewrite decide_True; [done|]. apply Forall_forall.
  intros a Ha. apply H. by apply addresses_elem.
Qed.

Lemma store_bytes_mapped p bs q n m : mapped q n m → mapped q n (store_bytes p bs m).
Proof.
  intros H a Ha. rewrite store_bytes_lookup. destruct (_ && _) eqn:E; [|by apply H].
  zbool. apply lookup_lt_is_Some. unfold zlen in *. lia.
Qed.

Lemma load_length p n m bs : 0 ≤ n → load p n m = Some bs → zlen bs = n.
Proof.
  intros Hn H. apply length_mapM in H. unfold addresses in H. rewrite length_seqZ in H.
  unfold zlen. lia.
Qed.

Lemma load_ext p n m m' :
  (∀ a, p ≤ a < p + n → m !! a = m' !! a) → load p n m = load p n m'.
Proof.
  intros H. apply Forall_mapM_ext, Forall_forall. intros a Ha.
  apply H. by apply addresses_elem.
Qed.

Lemma load_store_other p n q bs m :
  p + n ≤ q ∨ q + zlen bs ≤ p → load p n (store_bytes q bs m) = load p n m.
Proof.
  intros H. apply load_ext. intros a Ha. rewrite store_bytes_lookup.
  destruct (Z.leb_spec q a), (Z.ltb_spec a (q + zlen bs)); try done. lia.
Qed.

Lemma load_store_same p bs m : load p (zlen bs) (store_bytes p bs m) = Some bs.
Proof.
  apply mapM_Some, Forall2_same_length_lookup. unfold addresses.
  split; [rewrite length_seqZ; unfold zlen; lia|]. intros i a b Ha Hb.
  apply lookup_seqZ in Ha as [-> Hi]. rewrite store_bytes_lookup.
  destruct (Z.leb_spec p (p + Z.of_nat i)), (Z.ltb_spec (p + Z.of_nat i) (p + zlen bs)); try lia.
  simpl. by replace (Z.to_nat (p + Z.of_nat i - p)) with i by lia.
Qed.

(** ** What a checkpoint writes *)

(** The identifiers and the bytes of the regions. *)
Fixpoint snapshot (regions : regions_t) (m : mem) : option (list (Z * list byte)) :=
  match regions with
  | [] => Some []
  | (id, r) :: regions =>
      match region_bytes r m, snapshot regions m with
      | Val bs, Some l => Some ((id, bs) :: l)
      | _, _ => None
      end
  end.

Definition sizes_of (l : list (Z * list byte)) : list (Z * Z) :=
  map (λ e, (e.1, zlen e.2)) l.
Definition data_of (l : list (Z * list byte)) : list byte := concat (map snd l).

(** The checkpoint file of the snapshot [l]. *)
Definition ckpt_file (l : list (Z * list byte)) : list byte :=
  header_bytes (sizes_of l) ++ data_of l.

Lemma zlen_cons {A} (x : A) l : zlen (x :: l) = 1 + zlen l.
Proof. unfold zlen. simpl length. lia. Qed.

Lemma sum_sizes_of l : sum_sizes (sizes_of l) = zlen (data_of l).
Proof.
  induction l as [|[id bs] l IH]; [done|]. unfold data_of in *. cbn. rewrite zlen_app.
  unfold sum_sizes, sizes_of in IH. rewrite IH. done.
Qed.

Lemma region_bytes_size (r : region_t) m bs :
  0 ≤ r.(size) → region_bytes r m = Val bs → negb (r.(ptr) =? 0) = true → r.(size) = zlen bs.
Proof.
  unfold region_bytes. intros Hr Hb Hp. rewrite Hp in Hb. destruct (load _ _ _) as [bs'|] eqn:E; [|done].
  simplify_eq. symmetry. by eapply load_length.
Qed.

Section write.
Context {Q : Type} (bufsize : Z).
Implicit Types st : client_t Q.

(** The state [st] with the files [f] and no faults ahead. *)
Definition on_files st (f : gmap string node) : client_t Q := with_sys st (mk_sys f []).

Lemma on_sys_files {A} (m : posix A) st f f' a :
  m (mk_sys f []) = (Val a, mk_sys f' []) → on_sys m (on_files st f) = (Val a, on_files st f').
Proof. intros H. unfold on_sys, on_files. simpl. by rewrite H. Qed.

Lemma write_regions_free fd fs regions l st f data :
  f !! fd = Some (Reg data) → stream_ok fs → 0 ≤ o_pos fs →
  Forall (λ e, 0 ≤ e.2.(size)) regions → snapshot regions (memory st) = Some l →
  o_pos fs + zlen (data_of l) ≤ LONG_MAX →
  ∃ data' fs',
    write_regions bufsize fd fs regions (on_files st f)
    = (Val (fs', sizes_of l), on_files st (<[fd := Reg data']> f)) ∧ stream_ok fs' ∧
    view data' fs' = splice (o_pos fs) (data_of l) (view data fs).
Proof.
  revert fs l f data. induction regions as [|[id r] regions IH];
    intros fs l f data Hd Hok Hpos Hsz Hl Hmax; simpl in Hl.
  - simplify_eq. exists data, fs. simpl. by rewrite insert_id.
  - destruct (region_bytes r (memory st)) as [bs| | | |] eqn:Hbs; try done.
    destruct (snapshot regions (memory st)) as [l'|] eqn:Hl'; simplify_eq.
    apply Forall_cons in Hsz as [Hr Hsz]. unfold data_of in *. cbn [map concat snd] in *.
    rewrite zlen_app in Hmax. pose proof (zlen_nonneg bs). pose proof (zlen_nonneg (concat (map snd l'))).
    destruct (f_write_free bufsize f fd fs data bs Hd Hok) as (data1 & fs1 & Hw & Hok1 & Hp1 & Hv1).
    destruct (IH fs1 l' (<[fd := Reg data1]> f) data1) as (data2 & fs2 & Hrun & Hok2 & Hv2);
      [by simplify_map_eq|done|lia|done|done|lia|].
    exists data2, fs2. split_and!; [|done|].
    + cbn [write_regions]. rewrite gets_bind. simpl memory. rewrite Hbs, stop_bind.
      rewrite (comp_bind_val _ _ _ _ _ (on_sys_files _ _ _ _ _ Hw)). cbn beta.
      rewrite (comp_bind_val _ _ _ _ _ Hrun), insert_insert_eq. cbn [fst snd].
      unfold mret, comp_ret, sizes_of. cbn [map fst snd]. do 5 f_equal.
      destruct (negb (ptr r =? 0)) eqn:Hptr; [by eapply region_bytes_size|].
      rewrite Hp1. replace (o_pos fs + zlen bs - o_pos fs) with (zlen bs) by lia.
      apply u64_small. unfold is_size, SIZE_MAX, LONG_MAX in *. lia.
    + rewrite Hv2, Hv1, Hp1. by rewrite splice_splice.
Qed.

Lemma write_table_free fd fs sizes f data :
  f !! fd = Some (Reg data) → stream_ok fs → 0 ≤ o_pos fs →
  ∃ data' fs',
    write_table bufsize fd fs sizes (mk_sys f []) = (Val fs', mk_sys (<[fd := Reg data']> f) []) ∧
    view data' fs' = splice (o_pos fs) (table sizes) (view data fs).
Proof.
  revert fs f data. induction sizes as [|[id sz] sizes IH]; intros fs f data Hd Hok Hpos.
  - exists data, fs. simpl. by rewrite insert_id.
  - destruct (f_write_free bufsize f fd fs data (int_bytes id) Hd Hok) as (d1 & f1 & H1 & Hok1 & Hp1 & Hv1).
    destruct (f_write_free bufsize (<[fd := Reg d1]> f) fd f1 d1 (size_bytes sz))
      as (d2 & f2 & H2 & Hok2 & Hp2 & Hv2); [by simplify_map_eq|done|].
    rewrite insert_insert_eq in H2. rewrite zlen_int_bytes, zlen_size_bytes in *.
    destruct (IH f2 (<[fd := Reg d2]> f) d2) as (d3 & f3 & H3 & Hv3);
      [by simplify_map_eq|done|lia|]. rewrite insert_insert_eq in H3.
    exists d3, f3. split.
    + cbn [write_table]. rewrite (comp_bind_val _ _ _ _ _ H1). cbn beta.
      rewrite (comp_bind_val _ _ _ _ _ H2). by cbn beta.
    + rewrite Hv3, Hv2, Hv1, Hp2, Hp1. unfold table. cbn [map concat].
      unfold table_entry. rewrite <-!splice_splice by (rewrite ?zlen_app; lia).
      by rewrite zlen_app, zlen_int_bytes, zlen_size_bytes, Z.add_assoc.
Qed.

Lemma f_open_out_free f p d :
  (f !! p = Some (Reg d) ∨ f !! p = None ∧ parent_ok f p = true ∧ d = []) →
  f_open_out p (mk_sys f []) = (Val p, mk_sys (<[p := Reg []]> f) []).
Proof.
  intros Hp. assert (resolve f p = Some p) as Hr.
  { destruct Hp as [Hp|(Hp & _)]; [by eapply resolve_reg|by apply resolve_none]. }
  unfold f_open_out. by rewrite (comp_bind_val _ _ _ _ _ (open_wr_free true f p p d Hr Hp)).
Qed.

Lemma zlen_sizes_of l : zlen (sizes_of l) = zlen l.
Proof. unfold sizes_of, zlen. by rewrite length_map. Qed.

Lemma snapshot_length regions m l : snapshot regions m = Some l → zlen regions = zlen l.
Proof.
  revert l. induction regions as [|[id r] regions IH]; simpl; intros l H; [by simplify_eq|].
  destruct (region_bytes r m), (snapshot regions m); simplify_eq.
  rewrite !zlen_cons. by rewrite (IH _ eq_refl).
Qed.

(** The data behind the header, then the header before the data. *)
Lemma header_then_data h d : zlen h = zlen (splice_head (zlen h) []) →
  splice 0 h (splice (zlen h) d []) = h ++ d.
Proof.
  intros Hh. rewrite splice_0. f_equal. destruct (decide (d = [])) as [->|Hd].
  - by rewrite zdrop_all by apply zlen_nonneg.
  - rewrite splice_unfold, zdrop_app_ge by (done || lia). rewrite <-Hh, Z.sub_diag, zdrop_0 by done.
    rewrite zdrop_all; [by rewrite app_nil_r|]. change (zlen []) with 0.
    pose proof (zlen_nonneg h). pose proof (zlen_nonneg d). lia.
Qed.

Lemma view_nil data pos : view data (mk_ofstream pos []) = data.
Proof. done. Qed.

Lemma write_header_free fd fs sizes f data :
  f !! fd = Some (Reg data) →
  write_header bufsize fd fs (zlen sizes) sizes (mk_sys f [])
  = (Val tt, mk_sys (<[fd := Reg (splice 0 (header_bytes sizes) (view data fs))]> f) []).
Proof.
  intros Hd. unfold write_header.
  rewrite (comp_bind_val _ _ _ _ _ (f_seekp_free _ _ _ _ 0 Hd)). cbn beta.
  set (d1 := view data fs).
  destruct (f_write_free bufsize (<[fd := Reg d1]> f) fd (mk_ofstream 0 []) d1
    (size_bytes (zlen sizes))) as (d2 & f2 & H2 & Hok2 & Hp2 & Hv2); [by simplify_map_eq|done|].
  rewrite (comp_bind_val _ _ _ _ _ H2), insert_insert_eq. cbn beta. cbn [o_pos] in *.
  rewrite view_nil in Hv2. pose proof (zlen_size_bytes (zlen sizes)).
  destruct (write_table_free fd f2 sizes (<[fd := Reg d2]> f) d2)
    as (d3 & f3 & H3 & Hv3); [by simplify_map_eq|done|lia|].
  rewrite (comp_bind_val _ _ _ _ _ H3), insert_insert_eq. cbn beta.
  rewrite (f_destroy_free _ _ _ d3) by by simplify_map_eq. rewrite insert_insert_eq.
  rewrite Hv3, Hv2, Hp2. by rewrite splice_splice.
Qed.

Lemma write_checkpoint_free fname regions l st f d :
  (f !! fname = Some (Reg d) ∨ f !! fname = None ∧ parent_ok f fname = true ∧ d = []) →
  Forall (λ e, 0 ≤ e.2.(size)) regions → snapshot regions (memory st) = Some l →
  zlen (ckpt_file l) ≤ LONG_MAX →
  write_checkpoint bufsize fname regions (on_files st f)
  = (Val true, on_files st (<[fname := Reg (ckpt_file l)]> f)).
Proof.
  intros Hf Hsz Hl Hmax. pose proof (snapshot_length _ _ _ Hl) as Hlen.
  unfold ckpt_file in Hmax. rewrite zlen_app, zlen_header_bytes, zlen_sizes_of in Hmax.
  pose proof (zlen_nonneg l). unfold write_checkpoint.
  rewrite (comp_bind_val _ _ _ _ _ (on_sys_files _ _ _ _ _ (f_open_out_free f fname d Hf))).
  cbn beta zeta. set (h := sizeof_size_t + zlen regions * (sizeof_int + sizeof_size_t)).
  assert (h = 8 + 12 * zlen l) as Hh by (unfold h, sizeof_size_t, sizeof_int; lia).
  assert (∀ d f, <[fname := Reg d]> f !! fname = Some (Reg d)) as Hat
    by (intros; by simplify_map_eq).
  rewrite (comp_bind_val _ _ _ _ _ (on_sys_files _ _ _ _ _ (f_seekp_free _ _ _ _ h (Hat [] f)))).
  cbn beta. rewrite insert_insert_eq, view_nil.
  destruct (write_regions_free fname (mk_ofstream h []) regions l st (<[fname := Reg []]> f) [])
    as (d1 & f1 & H1 & Hok1 & Hv1);
    [by simplify_map_eq|change (0 ≤ h); lia|simpl; lia|done|done|simpl; lia|].
  rewrite (comp_bind_val _ _ _ _ _ H1), insert_insert_eq. cbn beta. cbn [fst snd].
  rewrite Hlen, <-(zlen_sizes_of l).
  rewrite (comp_bind_val _ _ _ _ _ (on_sys_files _ _ _ _ _
    (write_header_free fname f1 (sizes_of l) _ _ (Hat d1 f)))).
  unfold mret, comp_ret. rewrite insert_insert_eq, Hv1, view_nil. cbn [o_pos].
  assert (h = zlen (header_bytes (sizes_of l))) as ->
    by (rewrite zlen_header_bytes, zlen_sizes_of; lia).
  rewrite header_then_data; [done|]. rewrite splice_head_len; [done|apply zlen_nonneg].
Qed.
End write.

(** ** What a recovery reads *)

(** The memory after the regions of [l] that are not skipped are restored. *)
Definition restore_regions (mode : Z) (ids : zset) (regions : regions_t) (l : list (Z * list byte))
    (m : mem) : mem :=
  foldl (λ m e, if skipped mode ids e.1 then m else
                match map_find e.1 regions with
                | Some r => store_bytes r.(ptr) e.2 m
                | None => m
                end) m l.

(** The protected regions can take the regions of [l] that are not skipped: raw
    memory, mapped and large enough. *)
Definition can_hold (mode : Z) (ids : zset) (regions : regions_t) (m : mem) (l : list (Z * list byte)) :
    Prop :=
  Forall (λ e, skipped mode ids e.1 = true ∨
    ∃ r, map_find e.1 regions = Some r ∧ r.(ptr) ≠ 0 ∧ zlen e.2 ≤ r.(size) ∧
         mapped r.(ptr) r.(size) m) l.

Lemma mapped_le p n n' m : n' ≤ n → mapped p n m → mapped p n' m.
Proof. intros Hn H a Ha. apply H. lia. Qed.

Lemma can_hold_store mode ids regions m l p bs :
  can_hold mode ids regions m l → can_hold mode ids regions (store_bytes p bs m) l.
Proof.
  intros H. eapply Forall_impl; [exact H|]. intros e [?|(r & ? & ? & ? & ?)]; [by left|right].
  exists r. split_and!; try done. by apply store_bytes_mapped.
Qed.

Lemma i64_small_size n : 0 ≤ n ≤ LONG_MAX → i64 n = n.
Proof. unfold i64, LONG_MAX. intros. rewrite Z.mod_small; lia. Qed.

Section recover.
Context {Q : Type}.
Implicit Types st : client_t Q.

Lemma recover_region_free fd pos bs r st f data :
  the_sys st = mk_sys f [] → f !! fd = Some (Reg data) →
  ztake (zlen bs) (zdrop pos data) = bs → r.(ptr) ≠ 0 → zlen bs ≤ r.(size) →
  mapped r.(ptr) r.(size) (memory st) →
  recover_region fd pos (zlen bs) r st
  = (Val (Some (pos + zlen bs)), set_memory (store_bytes r.(ptr) bs (memory st)) st).
Proof.
  intros Hs Hd Hbs Hp Hle Hm. unfold recover_region.
  rewrite (proj2 (Z.eqb_neq _ _) Hp). cbn [negb]. destruct (Z.ltb_spec (size r) (zlen bs)); [lia|].
  rewrite (comp_bind_val _ _ _ _ _ (on_sys_same _ _ _ _ Hs (f_read_some_free _ _ pos (zlen bs) _ Hd))).
  rewrite gets_bind. cbn [fst snd]. rewrite Hbs, Z.eqb_refl.
  rewrite store_mapped by by eapply mapped_le. by rewrite modify_bind.
Qed.

Lemma recover_regions_free fd pos mode ids regions l st f data :
  the_sys st = mk_sys f [] → f !! fd = Some (Reg data) → 0 ≤ pos →
  pos + zlen (data_of l) ≤ LONG_MAX →
  ztake (zlen (data_of l)) (zdrop pos data) = data_of l →
  can_hold mode ids regions (memory st) l →
  recover_regions fd pos mode ids regions (sizes_of l) st
  = (Val true, set_memory (restore_regions mode ids regions l (memory st)) st).
Proof.
  revert pos st. induction l as [|[id bs] l IH]; intros pos st Hs Hd Hpos Hmax Hdata Hhold.
  - simpl. unfold mret, comp_ret. by destruct st.
  - unfold data_of in *. cbn [map concat snd] in *. rewrite zlen_app in Hmax, Hdata.
    pose proof (zlen_nonneg bs). pose proof (zlen_nonneg (concat (map snd l))).
    rewrite ztake_add, zdrop_zdrop in Hdata by lia.
    apply app_inj_1 in Hdata as [Hbs Hrest].
    2: { apply (f_equal zlen) in Hdata. rewrite !zlen_app, !zlen_ztake, !zlen_zdrop in Hdata by lia.
         apply Nat2Z.inj. change (zlen (ztake (zlen bs) (zdrop pos data)) = zlen bs).
         rewrite zlen_ztake, zlen_zdrop by lia. lia. }
    apply Forall_cons in Hhold as [Hh Hhold]. cbn [sizes_of map recover_regions fst snd].
    unfold restore_regions. cbn [foldl fst snd]. simpl in Hh.
    destruct (skipped mode ids id) eqn:Hskip.
    + rewrite i64_small_size by lia. destruct (Z.ltb_spec (pos + zlen bs) 0); [lia|].
      apply IH; first [done | lia].
    + destruct Hh as [?|(r & Hr & Hp & Hle & Hm)]; [done|]. rewrite Hr.
      rewrite (comp_bind_val _ _ _ _ _ (recover_region_free fd pos bs r st f data Hs Hd Hbs Hp Hle Hm)).
      cbn beta iota.
      assert (the_sys (set_memory (store_bytes (ptr r) bs (memory st)) st) = mk_sys f []) as Hs' by done.
      fold (sizes_of l). rewrite (IH _ _ Hs'); [done|done|lia|lia|done|].
      by apply can_hold_store.
Qed.
End recover.

(** ** What writing leaves alone *)

Section write_preserves.
Context {Q : Type} (P : client_t Q → Prop) (bufsize : Z).
Hypothesis P_fs : ∀ st s, P st → P (with_sys st s).

Lemma write_regions_preserves fd fs regions : preserves P (write_regions bufsize fd fs regions).
Proof using P_fs.
  revert fs. induction regions as [|[id r] regions IH]; intros fs; simpl; auto with preserve.
Qed.

Lemma write_checkpoint_preserves fname regions : preserves P (write_checkpoint bufsize fname regions).
Proof using P_fs.
  unfold write_checkpoint. auto 10 using write_regions_preserves with preserve.
Qed.
End write_preserves.

(** ** Round trip *)

(** Protected regions of raw memory: non-null, of different identifiers, and not
    overlapping. *)
Definition raw_region (m : mem) (r : region_t) : Prop :=
  r.(ptr) ≠ 0 ∧ is_size r.(size) ∧ mapped r.(ptr) r.(size) m.

Definition disjoint_regions (regions : regions_t) : Prop :=
  ∀ id1 r1 id2 r2, (id1, r1) ∈ regions → (id2, r2) ∈ regions → id1 ≠ id2 →
    r1.(ptr) + r1.(size) ≤ r2.(ptr) ∨ r2.(ptr) + r2.(size) ≤ r1.(ptr).

Definition ids_ok (regions : regions_t) : Prop :=
  sorted regions.*1 ∧ Forall is_int regions.*1.

Lemma load_mapped p n m : mapped p n m → is_Some (load p n m).
Proof.
  intros H. apply mapM_is_Some, Forall_forall. intros a Ha. apply H. by apply addresses_elem.
Qed.

Lemma snapshot_raw regions m :
  Forall (λ e, raw_region m e.2) regions →
  ∃ l, snapshot regions m = Some l ∧ l.*1 = regions.*1 ∧
    ∀ id r, (id, r) ∈ regions → ∃ bs, (id, bs) ∈ l ∧ load r.(ptr) r.(size) m = Some bs.
Proof.
  induction regions as [|[id r] regions IH]; intros H.
  - exists []. simpl. split_and!; try done. intros ? ? []%elem_of_nil.
  - apply Forall_cons in H as [(Hp & Hs & Hm) H]. destruct (IH H) as (l & Hl & Hid & Hin). simpl in Hp, Hs, Hm.
    destruct (load_mapped _ _ _ Hm) as [bs Hbs]. exists ((id, bs) :: l). csimpl.
    unfold region_bytes. rewrite (proj2 (Z.eqb_neq _ _) Hp), Hbs, Hl, Hid. cbn [negb].
    split_and!; try done. intros id' r' [Heq|Hin']%elem_of_cons.
    + simplify_eq. exists bs. split; [by left|done].
    + destruct (Hin _ _ Hin') as (bs' & ? & ?). exists bs'. split; [by right|done].
Qed.

Lemma snapshot_sizes regions m l :
  Forall (λ e, raw_region m e.2) regions → snapshot regions m = Some l →
  map (λ e, (e.1, e.2.(size))) regions = sizes_of l.
Proof.
  revert l. induction regions as [|[id r] regions IH]; simpl; intros l H Hl; [by simplify_eq|].
  apply Forall_cons in H as [(Hp & [Hsz _] & Hm) H]. simpl in Hp, Hsz.
  destruct (region_bytes r m) as [bs| | | |] eqn:Hb; try done.
  destruct (snapshot regions m) as [l'|]; simplify_eq. unfold sizes_of in *. cbn [map fst snd].
  rewrite (IH _ H eq_refl). do 2 f_equal. apply (region_bytes_size r m bs); try done.
  by rewrite (proj2 (Z.eqb_neq _ _) Hp).
Qed.

(** The regions can take back what they gave. *)
Lemma snapshot_can_hold mode ids regions m0 m l :
  sorted regions.*1 → Forall (λ e, raw_region m0 e.2) regions →
  Forall (λ e, raw_region m e.2) regions → snapshot regions m0 = Some l →
  can_hold mode ids regions m l.
Proof.
  intros Hs H0 H Hl. apply Forall_forall. intros [id bs] Hin. right.
  destruct (snapshot_raw _ _ H0) as (l' & Hl' & Hid & Hall). simplify_eq. simpl.
  assert (∃ r, (id, r) ∈ regions) as [r Hr].
  { assert (id ∈ regions.*1) as Hk by (rewrite <-Hid; by apply (list_elem_of_fmap_2' fst) with (x := (id, bs))).
    apply list_elem_of_fmap in Hk as ([? r] & -> & ?). by exists r. }
  exists r. rewrite Forall_forall in H, H0. destruct (H _ Hr) as (? & Hsz & ?).
  split_and!; [by apply map_elem_find|done| |done].
  destruct (Hall _ _ Hr) as (bs' & Hin' & Hbs').
  assert (bs' = bs) as ->; [|apply load_length in Hbs'; [lia|apply Hsz]].
  pose proof (map_elem_find id bs l) as E1. pose proof (map_elem_find id bs' l) as E2.
  rewrite Hid in E1, E2. specialize (E1 Hs Hin). specialize (E2 Hs Hin'). congruence.
Qed.

(** The restored memory: the bytes of each region, and nothing else changed. *)
Lemma restore_regions_frame mode ids regions l m a :
  (∀ id r bs, (id, bs) ∈ l → map_find id regions = Some r → skipped mode ids id = false →
     ¬ (r.(ptr) ≤ a < r.(ptr) + zlen bs)) →
  restore_regions mode ids regions l m !! a = m !! a.
Proof.
  revert m. induction l as [|[id bs] l IH]; intros m H; [done|].
  unfold restore_regions in *. cbn [foldl fst snd]. rewrite IH.
  - destruct (skipped mode ids id) eqn:Hsk; [done|]. destruct (map_find id regions) as [r|] eqn:Hr; [|done].
    rewrite store_bytes_lookup. destruct (_ && _) eqn:E; [|done]. zbool.
    exfalso. apply (H id r bs); [by left|done|done|lia].
  - intros id' r' bs' Hin. apply H. by right.
Qed.

Lemma restore_regions_load mode ids regions l m id r bs :
  disjoint_regions regions → NoDup l.*1 → (id, bs) ∈ l → skipped mode ids id = false →
  map_find id regions = Some r → can_hold mode ids regions m l →
  load r.(ptr) (zlen bs) (restore_regions mode ids regions l m) = Some bs.
Proof.
  intros Hdis. revert m. induction l as [|[id' bs'] l IH]; intros m Hnd Hin Hsk Hr Hhold;
    [by apply elem_of_nil in Hin|]. cbn in Hnd. apply NoDup_cons in Hnd as [Hni Hnd].
  apply Forall_cons in Hhold as [Hh Hhold]. unfold restore_regions in *. cbn [foldl fst snd].
  apply elem_of_cons in Hin as [Heq|Hin].
  - simplify_eq. rewrite Hsk, Hr. rewrite <-(load_store_same (ptr r) bs' m).
    apply load_ext. intros a Ha. apply restore_regions_frame.
    intros id2 r2 bs2 Hin2 Hr2 Hsk2 Ha2.
    assert (id2 ≠ id') as Hne by (intros ->; apply Hni; by apply (list_elem_of_fmap_2' fst) with (x := (id', bs2))).
    destruct Hh as [?|(r' & Hr' & _ & Hle & _)]; [simpl in *; congruence|]. simpl in *. simplify_eq.
    rewrite Forall_forall in Hhold. destruct (Hhold _ Hin2) as [?|(r2' & Hr2' & _ & Hle2 & _)];
      [simpl in *; congruence|]. simpl in *. simplify_eq.
    destruct (Hdis id' r id2 r2); try (by apply map_find_elem); [done|lia|lia].
  - apply IH; try done. destruct (skipped mode ids id'); [done|].
    destruct (map_find id' regions); [|done]. by apply can_hold_store.
Qed.

(** Restoring a snapshot gives every region its bytes and changes no other. *)
Lemma restore_snapshot regions m0 m l :
  sorted regions.*1 → disjoint_regions regions → Forall (λ e, raw_region m0 e.2) regions →
  Forall (λ e, raw_region m e.2) regions → snapshot regions m0 = Some l →
  let m' := restore_regions VELOC_RECOVER_ALL [] regions l m in
  (∀ id r, (id, r) ∈ regions → load r.(ptr) r.(size) m' = load r.(ptr) r.(size) m0) ∧
  (∀ a, (∀ id r, (id, r) ∈ regions → ¬ (r.(ptr) ≤ a < r.(ptr) + r.(size))) → m' !! a = m !! a).
Proof.
  intros Hsorted Hdis Hraw0 Hraw Hl m'. subst m'.
  destruct (snapshot_raw _ _ Hraw0) as (l' & Hl' & Hkeys & Hall). simplify_eq.
  assert (can_hold VELOC_RECOVER_ALL [] regions m l) as Hhold
    by by eapply (snapshot_can_hold _ _ regions m0).
  rewrite Forall_forall in Hraw0.
  assert (∀ id r bs, (id, r) ∈ regions → load (ptr r) (size r) m0 = Some bs → size r = zlen bs) as Hsz.
  { intros id r bs Hr Hbs. symmetry. eapply load_length; [|done]. apply (Hraw0 _ Hr). }
  split.
  - intros id r Hr. destruct (Hall _ _ Hr) as (bs & Hin & Hbs). rewrite Hbs, (Hsz _ _ _ Hr Hbs).
    eapply restore_regions_load; try done; [rewrite Hkeys; by apply sorted_NoDup|by apply map_elem_find].
  - intros a Ha. apply restore_regions_frame. intros id r bs Hin Hr _ Hbs.
    apply map_find_elem in Hr. apply (Ha _ _ Hr). destruct (Hall _ _ Hr) as (bs' & Hin' & Hbs').
    rewrite <-Hkeys in Hsorted. apply map_elem_find in Hin, Hin'; [|done..].
    assert (bs' = bs) as -> by congruence. pose proof (Hsz _ _ _ Hr Hbs'). lia.
Qed.

(** A file can be (over)written at this path. *)
Definition writable (f : gmap string node) (p : string) : Prop :=
  (∃ d, f !! p = Some (Reg d)) ∨ f !! p = None ∧ parent_ok f p = true.

Section round_trip.
Context {Q : Type} (cfg : client_cfg) (bufsize : Z).
Implicit Types st : client_t Q.

Lemma checkpoint_mem_run mode ids st c f sel l :
  checkpoint_in_progress st = true → current_ckpt st = Some c → the_sys st = mk_sys f [] →
  writable f (filename c cfg.(scratch)) →
  select mode ids (current_regions st) = Val sel → sel ≠ [] →
  Forall (λ e, 0 ≤ e.2.(size)) sel → snapshot sel (memory st) = Some l →
  zlen (ckpt_file l) ≤ LONG_MAX →
  checkpoint_mem cfg bufsize mode ids st
  = (Val true, on_files (set_regions (<[current_name st := current_regions st]> (mem_regions st)) st)
                 (<[filename c cfg.(scratch) := Reg (ckpt_file l)]> f)).
Proof.
  intros Hp Hc Hs Hw Hsel Hne Hsz Hl Hmax. unfold checkpoint_mem. rewrite get_bind, Hp. cbn [negb].
  unfold get_current_ckpt_regions. erewrite comp_bind_val by done. cbn beta.
  rewrite Hsel, stop_bind, Hc, bool_decide_false by (by destruct sel). unfold try_ios.
  set (st' := set_regions _ st).
  assert (st' = on_files st' f) as Hst' by (unfold on_files; rewrite <-Hs; by destruct st).
  rewrite Hst'. destruct Hw as [[d Hd]|[Hn Hpar]].
  - rewrite (write_checkpoint_free bufsize _ sel l st' f d) by (try done; by left). done.
  - rewrite (write_checkpoint_free bufsize _ sel l st' f []) by (try done; by right). done.
Qed.

Lemma ckpt_file_header f p l :
  f !! p = Some (Reg (ckpt_file l)) → Forall is_int l.*1 → zlen (ckpt_file l) ≤ LONG_MAX →
  zlen l < 2 ^ 32 → header_of f p (sizes_of l).
Proof.
  intros Hp Hids Hmax Hl. exists p, (data_of l). split; [by apply lookup_path_reg|].
  split; [|by rewrite zlen_sizes_of, sum_sizes_of].
  unfold ckpt_file in Hmax. rewrite zlen_app, zlen_header_bytes in Hmax.
  pose proof (zlen_nonneg (sizes_of l)). apply Forall_forall. intros e He.
  unfold sizes_of in He. apply list_elem_of_fmap in He as ([id bs] & -> & He). split; simpl.
  - rewrite Forall_forall in Hids. apply Hids. by apply (list_elem_of_fmap_2' fst) with (x := (id, bs)).
  - pose proof (zlen_nonneg bs). split; [done|].
    apply list_elem_of_split in He as (l1 & l2 & ->). unfold data_of in Hmax.
    rewrite map_app, concat_app, zlen_app in Hmax. cbn [map concat snd] in Hmax. rewrite zlen_app in Hmax.
    pose proof (zlen_nonneg (concat (map snd l1))). pose proof (zlen_nonneg (concat (map snd l2))).
    unfold LONG_MAX, SIZE_MAX in *. lia.
Qed.

(** The header of a checkpoint file. *)
Lemma read_current_header_free st c f l :
  current_ckpt st = Some c → the_sys st = mk_sys f [] →
  f !! filename c cfg.(scratch) = Some (Reg (ckpt_file l)) → zlen (ckpt_file l) ≤ LONG_MAX →
  zlen l < 2 ^ 32 → Forall is_int l.*1 → sorted l.*1 →
  read_current_header cfg st = (Val true, set_header (sizes_of l) (zlen (header_bytes (sizes_of l))) st).
Proof.
  intros Hc Hs Hfile Hmax Hl32 Hids Hsorted.
  assert (header_of f (filename c (scratch cfg)) (sizes_of l)) as Hhd by by apply ckpt_file_header.
  assert ((sizes_of l).*1 = l.*1) as Hkeys by (unfold sizes_of; by rewrite <-list_fmap_compose).
  unfold read_current_header. rewrite Hc. unfold read_header. rewrite modify_bind. unfold try_ios.
  rewrite (validate_header_free _ st f (sizes_of l)) by done.
  rewrite insert_all_sorted by (by rewrite Hkeys). rewrite zlen_header_bytes.
  pose proof (zlen_nonneg (sizes_of l)). by destruct (Z.eqb_spec (8 + 12 * zlen (sizes_of l)) 0); [lia|].
Qed.

(** A recovery, once the header is read, is what the loop over the regions of the
    file does. *)
Lemma recover_mem_loop mode ids st c f l m' :
  current_ckpt st = Some c → region_info st = sizes_of l → header_size st = zlen (header_bytes (sizes_of l)) →
  the_sys st = mk_sys f [] → f !! filename c cfg.(scratch) = Some (Reg (ckpt_file l)) →
  (∀ st1, the_sys st1 = mk_sys f [] → memory st1 = memory st →
     recover_regions (filename c cfg.(scratch)) (zlen (header_bytes (sizes_of l))) mode ids
       (current_regions st) (sizes_of l) st1 = (Val true, set_memory m' st1)) →
  recover_mem cfg mode ids st
  = (Val true, set_memory m' (set_regions (<[current_name st := current_regions st]> (mem_regions st)) st)).
Proof.
  intros Hc Hi Hh Hs Hfile Hloop. unfold recover_mem. rewrite get_bind, Hh, zlen_header_bytes.
  pose proof (zlen_nonneg (sizes_of l)). destruct (Z.eqb_spec (8 + 12 * zlen (sizes_of l)) 0); [lia|].
  rewrite ret_bind. cbn [negb].
  unfold get_current_ckpt_regions. erewrite comp_bind_val by done. cbn beta. rewrite get_bind.
  cbn [current_ckpt set_regions header_size region_info]. rewrite Hc, Hi, Hh. unfold try_ios.
  set (st1 := set_regions _ _).
  assert (the_sys st1 = mk_sys f []) as Hs1 by done.
  rewrite (comp_bind_val _ _ _ _ _ (on_sys_same _ _ _ _ Hs1
    (f_open_in_free _ _ _ _ (lookup_path_reg _ _ _ Hfile)))). cbn beta.
  by rewrite (Hloop st1 Hs1 eq_refl).
Qed.

(** The state after a recovery of [l]. *)
Definition recovered (l : list (Z * list byte)) (m' : mem) st : client_t Q :=
  set_memory m' (set_regions (<[current_name st := current_regions st]> (mem_regions st))
    (set_header (sizes_of l) (zlen (header_bytes (sizes_of l))) st)).

Lemma recover_mem_via mode ids st c f l m' :
  current_ckpt st = Some c → header_size st = 0 → the_sys st = mk_sys f [] →
  f !! filename c cfg.(scratch) = Some (Reg (ckpt_file l)) → zlen (ckpt_file l) ≤ LONG_MAX →
  zlen l < 2 ^ 32 → Forall is_int l.*1 → sorted l.*1 →
  (∀ st1, the_sys st1 = mk_sys f [] → memory st1 = memory st →
     recover_regions (filename c cfg.(scratch)) (zlen (header_bytes (sizes_of l))) mode ids
       (current_regions st) (sizes_of l) st1 = (Val true, set_memory m' st1)) →
  recover_mem cfg mode ids st = (Val true, recovered l m' st).
Proof.
  intros Hc Hh Hs Hfile Hmax Hl32 Hids Hsorted Hloop.
  set (st0 := set_header (sizes_of l) (zlen (header_bytes (sizes_of l))) st).
  assert (recover_mem cfg mode ids st0 = (Val true, recovered l m' st)) as Hrec
    by by apply (recover_mem_loop mode ids st0 c f l m').
  rewrite <-Hrec. unfold recover_mem. rewrite !get_bind, Hh.
  simpl (0 =? 0). cbn iota.
  rewrite (comp_bind_val _ _ _ _ _ (read_current_header_free st c f l Hc Hs Hfile Hmax Hl32 Hids Hsorted)).
  subst st0. cbn [header_size set_header]. rewrite zlen_header_bytes. pose proof (zlen_nonneg (sizes_of l)).
  destruct (Z.eqb_spec (8 + 12 * zlen (sizes_of l)) 0); [lia|]. by rewrite ret_bind.
Qed.

(** The data of a checkpoint file, behind the header. *)
Lemma ckpt_file_data l : zdrop (zlen (header_bytes (sizes_of l))) (ckpt_file l) = data_of l.
Proof.
  unfold ckpt_file. pose proof (zlen_nonneg (header_bytes (sizes_of l))).
  by rewrite zdrop_app_ge, Z.sub_diag, zdrop_0 by lia.
Qed.

(** The loop over a checkpoint file whose regions can be held. *)
Lemma recover_regions_ckpt mode ids regions l p f st :
  the_sys st = mk_sys f [] → f !! p = Some (Reg (ckpt_file l)) → zlen (ckpt_file l) ≤ LONG_MAX →
  can_hold mode ids regions (memory st) l →
  recover_regions p (zlen (header_bytes (sizes_of l))) mode ids regions (sizes_of l) st
  = (Val true, set_memory (restore_regions mode ids regions l (memory st)) st).
Proof.
  intros Hs Hfile Hmax Hhold. unfold ckpt_file in Hmax. rewrite zlen_app in Hmax.
  pose proof (zlen_nonneg (header_bytes (sizes_of l))).
  rewrite (recover_regions_free _ _ mode ids _ l st f _ Hs Hfile); [done|lia|lia| |done].
  rewrite ckpt_file_data. by apply ztake_all.
Qed.

Lemma recover_mem_run mode ids st c f l :
  current_ckpt st = Some c → header_size st = 0 → the_sys st = mk_sys f [] →
  f !! filename c cfg.(scratch) = Some (Reg (ckpt_file l)) → zlen (ckpt_file l) ≤ LONG_MAX →
  zlen l < 2 ^ 32 → Forall is_int l.*1 → sorted l.*1 →
  can_hold mode ids (current_regions st) (memory st) l →
  recover_mem cfg mode ids st
  = (Val true, recovered l (restore_regions mode ids (current_regions st) l (memory st)) st).
Proof.
  intros Hc Hh Hs Hfile Hmax Hl32 Hids Hsorted Hhold.
  eapply recover_mem_via; try done. intros st1 Hs1 Hm. rewrite <-Hm in *. by apply recover_regions_ckpt with f.
Qed.

(** The same when [recover_size] has read the header already. *)
Lemma recover_mem_again mode ids st c f l :
  current_ckpt st = Some c → region_info st = sizes_of l → header_size st = zlen (header_bytes (sizes_of l)) →
  the_sys st = mk_sys f [] → f !! filename c cfg.(scratch) = Some (Reg (ckpt_file l)) →
  zlen (ckpt_file l) ≤ LONG_MAX → can_hold mode ids (current_regions st) (memory st) l →
  recover_mem cfg mode ids st
  = (Val true, recovered l (restore_regions mode ids (current_regions st) l (memory st)) st).
Proof.
  intros Hc Hi Hh Hs Hfile Hmax Hhold.
  rewrite (recover_mem_loop mode ids st c f l (restore_regions mode ids (current_regions st) l (memory st)));
    try done; [|intros st1 Hs1 Hm; rewrite <-Hm in *; by apply recover_regions_ckpt with f].
  unfold recovered. rewrite <-Hh, <-Hi. by destruct st.
Qed.

Lemma recover_size_run id st c f l :
  current_ckpt st = Some c → header_size st = 0 → the_sys st = mk_sys f [] →
  f !! filename c cfg.(scratch) = Some (Reg (ckpt_file l)) → zlen (ckpt_file l) ≤ LONG_MAX →
  zlen l < 2 ^ 32 → Forall is_int l.*1 → sorted l.*1 →
  recover_size cfg id st = (Val (default 0 (map_find id (sizes_of l))),
    set_header (sizes_of l) (zlen (header_bytes (sizes_of l))) st).
Proof.
  intros Hc Hh Hs Hfile Hmax Hl32 Hids Hsorted. unfold recover_size. rewrite get_bind, Hh. simpl (0 =? 0). cbn iota.
  rewrite comp_bind_unfold.
  by rewrite (comp_bind_val _ _ _ _ _ (read_current_header_free st c f l Hc Hs Hfile Hmax Hl32 Hids Hsorted)).
Qed.
End round_trip.

(** What is checkpointed is recovered.  Take any protected regions of raw
    memory that do not overlap.  A checkpoint of all of them succeeds, and a
    recovery of the file it wrote, at any later time, with the same regions
    protected and whatever the memory contains then, succeeds, gives every
    region the bytes it had, and changes no other byte. *)
Theorem checkpoint_recover {Q : Type} (cfg : client_cfg) (bufsize : Z) (st0 st2 : client_t Q)
    (c : command_t.t) (f0 f2 : gmap string node) (regions : regions_t) :
  checkpoint_in_progress st0 = true → current_ckpt st0 = Some c → the_fs st0 = mk_sys f0 [] →
  writable f0 (filename c cfg.(scratch)) →
  current_regions st0 = regions → regions ≠ [] → zlen regions < 2 ^ 32 →
  ids_ok regions → disjoint_regions regions →
  Forall (λ e, raw_region (memory st0) e.2) regions →
  8 + 12 * zlen regions + sum_sizes (map (λ e, (e.1, e.2.(size))) regions) ≤ LONG_MAX →
  ∃ st1, checkpoint_mem cfg bufsize VELOC_CKPT_ALL [] st0 = (Val true, st1) ∧
  (current_ckpt st2 = Some c → header_size st2 = 0 → the_fs st2 = mk_sys f2 [] →
   f2 !! filename c cfg.(scratch) = files (the_fs st1) !! filename c cfg.(scratch) →
   current_regions st2 = regions → Forall (λ e, raw_region (memory st2) e.2) regions →
   ∃ st3, recover_mem cfg VELOC_RECOVER_ALL [] st2 = (Val true, st3) ∧
     (∀ id r, (id, r) ∈ regions →
        load r.(ptr) r.(size) (memory st3) = load r.(ptr) r.(size) (memory st0)) ∧
     (∀ a, (∀ id r, (id, r) ∈ regions → ¬ (r.(ptr) ≤ a < r.(ptr) + r.(size))) →
        memory st3 !! a = memory st2 !! a)).
Proof.
  intros Hp Hc Hs Hw Hreg Hne Hl32 [Hsorted Hids] Hdis Hraw Hmax.
  destruct (snapshot_raw _ _ Hraw) as (l & Hl & Hkeys & Hall).
  pose proof (snapshot_length _ _ _ Hl) as Hlen.
  assert (map (λ e, (e.1, size e.2)) regions = sizes_of l) as Hsizes by by eapply snapshot_sizes.
  assert (zlen (ckpt_file l) ≤ LONG_MAX) as Hmax'.
  { unfold ckpt_file. rewrite zlen_app, zlen_header_bytes, zlen_sizes_of, <-sum_sizes_of.
    rewrite <-Hsizes. lia. }
  eexists. split.
  { eapply (checkpoint_mem_run cfg bufsize VELOC_CKPT_ALL [] st0 c f0 regions l); try done.
    - by rewrite Hreg.
    - eapply Forall_impl; [exact Hraw|]. by intros e (_ & [? _] & _). }
  intros Hc2 Hh2 Hs2 Hf2 Hreg2 Hraw2. simpl in Hf2. rewrite lookup_insert, decide_True in Hf2 by done.
  assert (can_hold VELOC_RECOVER_ALL [] (current_regions st2) (memory st2) l) as Hhold
    by (rewrite Hreg2; by eapply (snapshot_can_hold _ _ regions (memory st0))).
  pose proof (recover_mem_run cfg _ _ st2 c f2 l Hc2 Hh2 Hs2 Hf2 Hmax' ltac:(lia)
    ltac:(by rewrite Hkeys) ltac:(by rewrite Hkeys) Hhold) as Hrec.
  eexists. split; [exact Hrec|]. cbn [memory recovered set_memory]. rewrite Hreg2. by apply restore_snapshot.
Qed.

(** Two regions, of three and of two bytes, in a small memory. *)
Definition demo_cfg : client_cfg := {|
  scratch := "/s"; meta := Some "/m"; is_sync := true; aggregated := false; comm_set := false;
  rank := 0; no_ranks := 1
|}.
Definition demo_cmd : command_t.t :=
  {| unique_id := 0; command := CHECKPOINT; version := 3; offset := 0;
     name := "ck"; original := "" |}.
Definition demo_protected : regions_t :=
  [(1, mk_region 100 3 None None); (7, mk_region 200 2 None None)].
Definition demo_memory (b : byte) : mem :=
  store_bytes 100 [b; Byte.x02; Byte.x03; b] (store_bytes 200 [b; Byte.x0b; Byte.x0c] ∅).
Definition demo_client (b : byte) (f : gmap string node) (in_progress : bool) : client_t unit :=
  mk_client (mk_sys f []) (demo_memory b) tt {["default" := demo_protected]} [] (Some demo_cmd)
    in_progress [] 0.

Lemma demo_raw b : Forall (λ e, raw_region (demo_memory b) e.2) demo_protected.
Proof.
  repeat constructor; try (vm_compute; discriminate);
    intros a Ha; simpl in Ha; unfold demo_memory; rewrite !store_bytes_lookup; simpl;
    repeat match goal with |- context [?x <=? ?y] => destruct (Z.leb_spec x y) end;
    repeat match goal with |- context [?x <? ?y] => destruct (Z.ltb_spec x y) end;
    simpl; try (unfold zlen in *; simpl in *; lia); apply lookup_lt_is_Some; simpl; lia.
Qed.

Lemma demo_disjoint : disjoint_regions demo_protected.
Proof.
  intros id1 r1 id2 r2 E1 E2 Hne.
  repeat (apply elem_of_cons in E1 as [E1|E1]); [| |by apply elem_of_nil in E1];
    (repeat (apply elem_of_cons in E2 as [E2|E2]); [| |by apply elem_of_nil in E2]);
    simplify_eq; simpl; lia.
Qed.
Lemma demo_ids : ids_ok demo_protected.
Proof. split; repeat constructor; vm_compute; discriminate. Qed.

Lemma checkpoint_recover_witness :
  ∃ st3 : client_t unit, load 100 3 (memory st3) = load 100 3 (demo_memory Byte.x01).
Proof.
  set (f0 := <["/s" := Dir]> ∅ : gmap string node).
  set (st0 := demo_client Byte.x01 f0 true).
  set (st1' := (checkpoint_mem demo_cfg 4 VELOC_CKPT_ALL [] st0).2).
  set (f2 := files (the_fs st1')).
  destruct (checkpoint_recover demo_cfg 4 st0 (demo_client Byte.xff f2 false) demo_cmd f0 f2
    demo_protected) as (st1 & H1 & H2);
    [done|done|done| |reflexivity|done|reflexivity|apply demo_ids|apply demo_disjoint|apply demo_raw
    |vm_compute; discriminate|].
  - right. split; vm_compute; reflexivity.
  - destruct H2 as (st3 & _ & Hload & _);
      [done|done|done|subst f2 st1'; by rewrite H1|reflexivity|apply demo_raw|].
    exists st3. apply (Hload 1 (mk_region 100 3 None None)). left.
Defined.

(** C15: the layout of a checkpoint file: the number of regions, a table of
    identifiers and sizes, and the bytes of the regions in the same order, also
    for regions with serializers, whatever the size of the stream's buffer and
    whatever was in the file before. *)
Theorem checkpoint_mem_layout {Q : Type} (cfg : client_cfg) (bufsize mode : Z) (ids : zset)
    (st : client_t Q) (c : command_t.t) (f : gmap string node) (sel : regions_t)
    (l : list (Z * list byte)) :
  checkpoint_in_progress st = true → current_ckpt st = Some c → the_fs st = mk_sys f [] →
  writable f (filename c cfg.(scratch)) →
  select mode ids (current_regions st) = Val sel → sel ≠ [] →
  Forall (λ e, 0 ≤ e.2.(size)) sel → snapshot sel (memory st) = Some l →
  zlen (ckpt_file l) ≤ LONG_MAX →
  ∃ st', checkpoint_mem cfg bufsize mode ids st = (Val true, st') ∧
    files (the_fs st') = <[filename c cfg.(scratch) :=
      Reg (size_bytes (zlen l) ++ table (sizes_of l) ++ concat (map snd l))]> f ∧
    memory st' = memory st ∧ checkpoint_in_progress st' = true.
Proof.
  intros Hp Hc Hs Hw Hsel Hne Hsz Hl Hmax. eexists. split.
  { by eapply checkpoint_mem_run. }
  simpl. split_and!; [|done|done]. do 2 f_equal. unfold ckpt_file, header_bytes, data_of.
  by rewrite zlen_sizes_of, <-app_assoc.
Qed.

(** A raw region and one with a serializer. *)
Definition demo_mixed : regions_t :=
  [(1, mk_region 100 3 None None); (7, mk_region 0 0 (Some (λ _, [Byte.x21; Byte.x22])) None)].

Lemma checkpoint_mem_layout_witness :
  let st := mk_client (mk_sys (<["/s/ck-0-3.dat" := Reg (replicate 60 Byte.xaa)]> ∅) [])
    (demo_memory Byte.x01) tt {["ck" := demo_mixed]} [] (Some demo_cmd) true [] 0 in
  ∃ st', checkpoint_mem demo_cfg 10 VELOC_CKPT_ALL [] st = (Val true, st') ∧
    files (the_fs st') = <["/s/ck-0-3.dat" :=
      Reg (size_bytes 2 ++ table [(1, 3); (7, 2)] ++
           [Byte.x01; Byte.x02; Byte.x03; Byte.x21; Byte.x22])]>
      (<["/s/ck-0-3.dat" := Reg (replicate 60 Byte.xaa)]> ∅) ∧
    memory st' = memory st ∧ checkpoint_in_progress st' = true.
Proof.
  intros st.
  apply (checkpoint_mem_layout demo_cfg 10 VELOC_CKPT_ALL [] st demo_cmd _ demo_mixed
    [(1, [Byte.x01; Byte.x02; Byte.x03]); (7, [Byte.x21; Byte.x22])]);
    [done|done|done| |reflexivity|done| |vm_compute; reflexivity|vm_compute; discriminate].
  - left. eexists. vm_compute. reflexivity.
  - repeat constructor; vm_compute; discriminate.
Defined.

(** A checkpoint of some regions is undefined as soon as a protected region
    is not selected: the loop increments the iterator that it erased. *)
Theorem checkpoint_some_undefined {Q : Type} (cfg : client_cfg) (bufsize : Z) (ids : zset)
    (st : client_t Q) (id : Z) :
  checkpoint_in_progress st = true → id ∈ (current_regions st).*1 → id ∉ ids →
  (checkpoint_mem cfg bufsize VELOC_CKPT_SOME ids st).1 = Undef.
Proof.
  intros Hp Hid Hni. unfold checkpoint_mem. rewrite get_bind, Hp. cbn [negb].
  unfold get_current_ckpt_regions. erewrite comp_bind_val by done. cbn beta.
  unfold select. simpl (_ =? _). cbn iota. replace (forallb _ _) with false; [done|].
  symmetry. apply not_true_iff_false. rewrite forallb_forall. intros Hall.
  apply list_elem_of_fmap in Hid as (e & -> & He). apply list_elem_of_In in He.
  apply Hall in He. unfold set_mem in He. by apply bool_decide_eq_true in He.
Qed.

Lemma checkpoint_some_undefined_witness :
  (checkpoint_mem demo_cfg 10 VELOC_CKPT_SOME [1] (demo_client Byte.x01 ∅ true)).1 = Undef.
Proof.
  apply (checkpoint_some_undefined demo_cfg 10 [1] (demo_client Byte.x01 ∅ true) 7);
    [done| |by intros [?|[]%elem_of_nil]%elem_of_cons].
  right. left.
Defined.

(** The first checkpoint or recovery of a name without regions of its own
    copies the default group into it for good: a later [mem_protect] of the
    default group, for instance of a buffer that has moved, has no effect on the
    regions of that name. *)
Theorem default_group_frozen {Q : Type} (cfg : client_cfg) (bufsize : Z) (st st1 : client_t Q)
    (o : outcome bool) (c : command_t.t) (id p count base_size : Z) :
  current_ckpt st = Some c → c.(name) ≠ default_mem_group → checkpoint_in_progress st = true →
  regions_of c.(name) st = [] → regions_of default_mem_group st ≠ [] →
  checkpoint_mem cfg bufsize VELOC_CKPT_ALL [] st = (o, st1) →
  let st2 := (mem_protect id p count base_size default_mem_group st1).2 in
  current_regions st2 = regions_of default_mem_group st.
Proof.
  intros Hc Hne Hp Hown Hdef Hrun st2.
  assert (current_regions st = regions_of default_mem_group st) as Hcur.
  { unfold current_regions, current_name. by rewrite Hc, Hown. }
  set (R := <[name c := regions_of default_mem_group st]> (mem_regions st)).
  assert (mem_regions st1 = R ∧ current_ckpt st1 = Some c) as [HR Hc1].
  { unfold checkpoint_mem in Hrun. rewrite get_bind, Hp in Hrun. cbn [negb] in Hrun.
    unfold get_current_ckpt_regions in Hrun. erewrite comp_bind_val in Hrun by done.
    cbn beta in Hrun. unfold select in Hrun. simpl (_ =? _) in Hrun. cbn iota in Hrun.
    rewrite stop_bind, Hc, Hcur, bool_decide_false in Hrun by (by intros ?%length_zero_iff_nil).
    set (P := λ st : client_t Q, mem_regions st = R ∧ current_ckpt st = Some c).
    eapply (preserves_try P); [| |exact Hrun|].
    - by apply write_checkpoint_preserves.
    - apply preserves_ret.
    - unfold P. simpl. unfold current_name, R. by rewrite Hc. }
  unfold current_regions, current_name. subst st2. unfold mem_protect, protect.
  destruct (map_assign _ _ _) as [b m']. cbn [snd set_regions current_ckpt mem_regions]. rewrite Hc1.
  assert (regions_of (name c) (set_regions (<[default_mem_group := m']> (mem_regions st1)) st1)
    = regions_of default_mem_group st) as ->.
  { unfold regions_of at 1. cbn. rewrite HR. rewrite lookup_insert_ne by done. unfold R.
    by simplify_map_eq. }
  by rewrite bool_decide_false by (by intros ?%length_zero_iff_nil).
Qed.

Lemma default_group_frozen_witness :
  let st := demo_client Byte.x01 (<["/s" := Dir]> ∅) true in
  ∃ st1 : client_t unit, current_regions (mem_protect 1 300 3 1 default_mem_group st1).2 = demo_protected.
Proof.
  intros st. exists (checkpoint_mem demo_cfg 10 VELOC_CKPT_ALL [] st).2.
  apply (default_group_frozen demo_cfg 10 st _ (Val true) demo_cmd 1 300 3 1);
    [reflexivity|discriminate|reflexivity|reflexivity|discriminate|vm_compute; reflexivity].
Defined.

Section protocol.
Context {Q : Type} (qc : comm_client_t Q) (cfg : client_cfg) (mpi : mpi_t) (bufsize : Z).
Implicit Types st : client_t Q.

Lemma checkpoint_wait_busy st :
  checkpoint_in_progress st = true → checkpoint_wait qc st = (Val false, st).
Proof. intros H. unfold checkpoint_wait. by rewrite get_bind, H. Qed.

Lemma checkpoint_busy name version st :
  checkpoint_in_progress st = true → checkpoint qc cfg mpi bufsize name version st = (Val false, st).
Proof.
  intros H. unfold checkpoint, and_then at 1.
  by rewrite (comp_bind_val _ _ _ _ _ (checkpoint_wait_busy st H)).
Qed.

Lemma checkpoint_wait_idle st status s' q' :
  checkpoint_in_progress st = false →
  wait_completion qc (the_fs st, queue st) = (Val status, (s', q')) →
  checkpoint_wait qc st
  = (Val (status =? VELOC_SUCCESS),
     mk_client s' (memory st) q' (mem_regions st) (observers st) (current_ckpt st)
       false (region_info st) (header_size st)).
Proof.
  intros Hp Hq. unfold checkpoint_wait. rewrite get_bind, Hp.
  unfold on_queue, mbind, comp_bind. rewrite Hq. unfold mret, comp_ret. by rewrite Hp.
Qed.

Lemma checkpoint_begin_run name version st :
  checkpoint_in_progress st = false → validate_name name = true →
  Z.of_nat (String.length name) + 1 ≤ CKPT_NAME_MAX → 0 ≤ version →
  checkpoint_begin cfg name version st
  = (Val true, set_in_progress true (set_current
       (Some (command_t.mk (rank cfg) CHECKPOINT version 0 name "")) st)).
Proof.
  intros Hp Hn Hlen Hv. unfold checkpoint_begin. rewrite get_bind, Hp, Hn.
  destruct (Z.ltb_spec version 0); [lia|]. cbn [negb orb]. unfold command_t.make.
  by destruct (Z.ltb_spec CKPT_NAME_MAX (Z.of_nat (String.length name) + 1)); [lia|].
Qed.

Lemma checkpoint_mem_empty ids st :
  checkpoint_in_progress st = true → current_regions st = [] →
  checkpoint_mem cfg bufsize VELOC_CKPT_ALL ids st
  = (Val false, set_regions (<[current_name st := []]> (mem_regions st)) st).
Proof.
  intros Hp Hr. unfold checkpoint_mem. rewrite get_bind, Hp. cbn [negb].
  unfold get_current_ckpt_regions. erewrite comp_bind_val by done. cbn beta. rewrite Hr.
  unfold select. simpl (_ =? _). cbn iota. by rewrite stop_bind.
Qed.
End protocol.

(** A [checkpoint] that fails once it has begun, for instance because no
    region is protected, leaves the client in progress: it and every later
    [checkpoint] return [false], until the application calls [checkpoint_end]. *)
Theorem checkpoint_stuck {Q : Type} (qc : comm_client_t Q) (cfg : client_cfg) (mpi : mpi_t)
    (bufsize : Z) (st : client_t Q) (name name' : string) (version version' : Z) :
  checkpoint_in_progress st = false → validate_name name = true →
  Z.of_nat (String.length name) + 1 ≤ CKPT_NAME_MAX → 0 ≤ version →
  wait_completion qc (the_fs st, queue st) = (Val VELOC_SUCCESS, (the_fs st, queue st)) →
  regions_of name st = [] → regions_of default_mem_group st = [] →
  ∃ st1, checkpoint qc cfg mpi bufsize name version st = (Val false, st1) ∧
    checkpoint_in_progress st1 = true ∧
    checkpoint qc cfg mpi bufsize name' version' st1 = (Val false, st1).
Proof.
  intros Hp Hn Hlen Hv Hq Hown Hdef. unfold checkpoint at 1, and_then.
  rewrite (comp_bind_val _ _ _ _ _ (checkpoint_wait_idle qc st _ _ _ Hp Hq)). rewrite Z.eqb_refl. cbn iota.
  set (st1 := mk_client _ _ _ _ _ _ _ _ _).
  rewrite (comp_bind_val _ _ _ _ _ (checkpoint_begin_run cfg name version st1 eq_refl Hn Hlen Hv)).
  cbn iota. set (st2 := set_in_progress _ _).
  assert (current_regions st2 = []) as Hr2.
  { unfold current_regions, current_name, regions_of in *. simpl. by rewrite Hown, Hdef. }
  rewrite (comp_bind_val _ _ _ _ _ (checkpoint_mem_empty cfg bufsize [] st2 eq_refl Hr2)). cbn iota.
  eexists. split; [done|]. split; [done|]. by apply checkpoint_busy.
Qed.

(** A queue whose commands complete at once. *)
Definition instant_queue : comm_client_t unit := {|
  enqueue _ := mret tt;
  wait_completion := mret VELOC_SUCCESS;
  check_completion := mret true
|}.
Definition single_mpi : mpi_t := {|
  MPI_Exscan_sum _ := 0; MPI_Gather x := [x]; MPI_Allreduce_max x := x; MPI_Allreduce_lor x := x
|}.

Lemma checkpoint_stuck_witness :
  let st := mk_client (mk_sys (<["/s" := Dir]> ∅) []) (demo_memory Byte.x01) tt ∅ [] None false [] 0 in
  ∃ st1, checkpoint instant_queue demo_cfg single_mpi 10 "ck" 1 st = (Val false, st1) ∧
    checkpoint_in_progress st1 = true ∧
    checkpoint instant_queue demo_cfg single_mpi 10 "other" 2 st1 = (Val false, st1).
Proof.
  intros st. apply (checkpoint_stuck instant_queue demo_cfg single_mpi 10 st "ck" "other" 1 2);
    try reflexivity; vm_compute; discriminate.
Defined.

(** A checkpoint can succeed although its header was never written.  The
    header stays in the buffer of the stream until the destructor writes it,
    which cannot report a failure; the recovery then refuses the file. *)
Theorem checkpoint_header_lost :
  let st := set_in_progress true (demo_client Byte.x01 (<["/s" := Dir]> ∅) true) in
  let '(o, st1) := checkpoint_mem demo_cfg 8191 VELOC_CKPT_ALL []
    (with_sys st (mk_sys (<["/s" := Dir]> ∅) [Go; Go; Fail])) in
  o = Val true ∧
  (recover_mem demo_cfg VELOC_RECOVER_ALL [] (with_sys st1 (mk_sys (files (the_fs st1)) []))).1
  = Val false.
Proof. vm_compute. done. Qed.
