(* ===== verification/ClientInvariant.v ===== *)
(** * ClientInvariant: the invariant of the client library

    The well-formedness of the state of [client_impl_t], and that every call of
    the interface [veloc::client_t] keeps it, on every path: also when it fails,
    throws or is undefined. *)

From S2P Require Import Prelude Text Command FileSystem Containers FileUtil Bytes Streams Header.
From S2P Require Import Client.

Local Open Scope Z_scope.

Import command_t.

(** ** The invariant *)

(** A [std::map<int, region_t>]: ordered by distinct [int]s, and every region has
    a [size_t] size. *)
Definition regions_wf (r : regions_t) : Prop :=
  sorted r.*1 ∧ Forall (λ e, is_int e.1 ∧ is_size e.2.(size)) r.

(** The command of a checkpoint in progress has passed [checkpoint_begin]. *)
Definition begun (cfg : client_cfg) (c : command_t.t) : Prop :=
  validate_name c.(name) = true ∧ 0 ≤ c.(version) ∧ c.(command) = CHECKPOINT ∧
  c.(unique_id) = cfg.(rank).

Record client_inv {Q} (cfg : client_cfg) (st : client_t Q) : Prop := {
  inv_regions n r : st.(mem_regions) !! n = Some r → regions_wf r;
  inv_progress : st.(checkpoint_in_progress) = true →
    ∃ c, st.(current_ckpt) = Some c ∧ begun cfg c
}.

(** ** The calls *)

Inductive call :=
| Mem_protect (id p count base_size : Z) (name : string)
| Mem_protect_serializer (id : Z) (s : option serializer_t) (d : option deserializer_t) (name : string)
| Mem_unprotect (id : Z) (name : string)
| Mem_clear (name : string)
| Register_observer (type : Z) (obs : option observer_t)
| Route_file (cwd : option string) (original : string)
| Cleanup (name : string)
| Checkpoint (name : string) (version : Z)
| Checkpoint_begin (name : string) (version : Z)
| Checkpoint_mem (mode : Z) (ids : zset)
| Checkpoint_end (success : bool)
| Checkpoint_wait
| Checkpoint_finished
| Restart_test (name : string) (version target_rank : Z)
| Restart (name : string) (version target_rank : Z)
| Restart_begin (name : string) (version target_rank : Z)
| Recover_size (id : Z)
| Recover_mem (mode : Z) (ids : zset)
| Restart_end (success : bool).

(** The identifiers that are passed are [int]s. *)
Definition call_ok (k : call) : Prop :=
  match k with
  | Mem_protect id _ _ _ _ | Mem_protect_serializer id _ _ _ => is_int id
  | _ => True
  end.

Definition run_call {Q} (qc : comm_client_t Q) (cfg : client_cfg) (mpi : mpi_t) (bufsize : Z)
    (k : call) : comp (client_t Q) unit :=
  match k with
  | Mem_protect id p count base_size name => mem_protect id p count base_size name;; mret tt
  | Mem_protect_serializer id s d name => mem_protect_serializer id s d name;; mret tt
  | Mem_unprotect id name => mem_unprotect id name;; mret tt
  | Mem_clear name => mem_clear name
  | Register_observer type obs => register_observer type obs;; mret tt
  | Route_file cwd original => route_file cfg cwd original;; mret tt
  | Cleanup name => cleanup cfg name;; mret tt
  | Checkpoint name version => checkpoint qc cfg mpi bufsize name version;; mret tt
  | Checkpoint_begin name version => checkpoint_begin cfg name version;; mret tt
  | Checkpoint_mem mode ids => checkpoint_mem cfg bufsize mode ids;; mret tt
  | Checkpoint_end success => checkpoint_end qc cfg mpi success;; mret tt
  | Checkpoint_wait => checkpoint_wait qc;; mret tt
  | Checkpoint_finished => checkpoint_finished qc cfg;; mret tt
  | Restart_test name version target => restart_test qc cfg mpi name version target;; mret tt
  | Restart name version target => restart qc cfg mpi name version target;; mret tt
  | Restart_begin name version target => restart_begin qc cfg mpi name version target;; mret tt
  | Recover_size id => recover_size cfg id;; mret tt
  | Recover_mem mode ids => recover_mem cfg mode ids;; mret tt
  | Restart_end success => restart_end success;; mret tt
  end.

(** ** Preservation *)

Lemma regions_wf_nil : regions_wf [].
Proof. split; constructor. Qed.

Lemma regions_wf_assign id r m :
  is_int id → is_size r.(size) → regions_wf m → regions_wf (map_assign id r m).2.
Proof.
  intros Hid Hr [Hs Hm]. split.
  - rewrite map_assign_keys. by apply set_insert_sorted.
  - by apply map_assign_forall.
Qed.

Lemma regions_wf_erase id m : regions_wf m → regions_wf (map_erase id m).2.
Proof.
  intros [Hs Hm]. pose proof (map_erase_sublist id m) as Hsub. split.
  - eapply sublist_sorted; [by apply fmap_sublist|done].
  - by eapply forall_sublist.
Qed.

Section invariant.
Context {Q : Type} (qc : comm_client_t Q) (cfg : client_cfg) (mpi : mpi_t) (bufsize : Z).
Implicit Types st : client_t Q.

Abbreviation Inv := (client_inv (Q:=Q) cfg).

(** Changes outside of the invariant's fields *)
Lemma inv_same st st' :
  mem_regions st' = mem_regions st → current_ckpt st' = current_ckpt st →
  checkpoint_in_progress st' = checkpoint_in_progress st → Inv st → Inv st'.
Proof. intros E1 E2 E3 [H1 H2]. split; rewrite ?E1, ?E2, ?E3; done. Qed.

Lemma inv_regions_of st n : Inv st → regions_wf (regions_of n st).
Proof.
  intros H. unfold regions_of. destruct (mem_regions st !! n) eqn:E; simpl.
  - by eapply inv_regions.
  - apply regions_wf_nil.
Qed.

Lemma inv_current_regions st : Inv st → regions_wf (current_regions st).
Proof. intros H. unfold current_regions. case_bool_decide; by apply inv_regions_of. Qed.

Lemma inv_set_regions st n r :
  Inv st → regions_wf r → Inv (set_regions (<[n := r]> (mem_regions st)) st).
Proof.
  intros [H1 H2] Hr. split; [|done]. simpl. intros n' r'. rewrite lookup_insert_Some.
  intros [[_ <-]|[_ ?]]; [done|by eapply H1].
Qed.

Lemma inv_idle_current st c : checkpoint_in_progress st = false → Inv st → Inv (set_current c st).
Proof. intros Hp [H1 H2]. split; [done|]. simpl. by rewrite Hp. Qed.

Lemma on_queue_preserves {A} (m : comp (sys * Q) A) : preserves Inv (on_queue m).
Proof.
  intros st o st' H. unfold on_queue in H. destruct (m (the_fs st, queue st)) as [? [? ?]]. simplify_eq. by apply inv_same.
Qed.

Lemma inv_with_sys st s : Inv st → Inv (with_sys st s).
Proof. by apply inv_same. Qed.

Hint Resolve on_queue_preserves inv_with_sys : preserve.

Lemma protect_preserves id r n : is_int id → is_size r.(size) → preserves Inv (protect id r n).
Proof.
  intros Hid Hr st o st' H Hi. unfold protect in H.
  pose proof (regions_wf_assign id r _ Hid Hr (inv_regions_of st n Hi)) as Hwf.
  destruct (map_assign id r _) as [b m]. simplify_eq. by apply inv_set_regions.
Qed.

Lemma unprotect_preserves id n : preserves Inv (mem_unprotect id n).
Proof.
  intros st o st' H Hi. unfold mem_unprotect in H.
  pose proof (regions_wf_erase id _ (inv_regions_of st n Hi)) as Hwf.
  destruct (map_erase id _) as [b m]. simplify_eq. by apply inv_set_regions.
Qed.

Lemma clear_preserves n : preserves Inv (mem_clear n).
Proof. apply preserves_modify. intros st Hi. apply inv_set_regions; [done|apply regions_wf_nil]. Qed.

Lemma observer_preserves type obs : preserves Inv (register_observer type obs).
Proof.
  intros st o st' H. unfold register_observer in H. destruct (map_assign _ _ _).
  simplify_eq. by apply inv_same.
Qed.

Lemma get_regions_preserves : preserves Inv get_current_ckpt_regions.
Proof.
  intros st o st' H Hi. unfold get_current_ckpt_regions in H. simplify_eq.
  apply inv_set_regions; [done|by apply inv_current_regions].
Qed.

Lemma wait_preserves : preserves Inv (checkpoint_wait qc).
Proof.
  apply preserves_bind; [auto with preserve|]. intros st.
  destruct (checkpoint_in_progress st); auto with preserve.
Qed.

Lemma finished_preserves : preserves Inv (checkpoint_finished qc cfg).
Proof.
  apply preserves_bind; [auto with preserve|]. intros st.
  destruct (is_sync cfg); [auto with preserve|].
  destruct (checkpoint_in_progress st); auto with preserve.
Qed.

Lemma begin_preserves n v : preserves Inv (checkpoint_begin cfg n v).
Proof.
  intros st o st' H Hi. unfold checkpoint_begin in H. rewrite get_bind in H.
  destruct (checkpoint_in_progress st) eqn:Hp; [by apply (preserves_ret _ _ _ _ _ H)|].
  destruct (validate_name n) eqn:Hn; [|by apply (preserves_ret _ _ _ _ _ H)].
  destruct (Z.ltb_spec v 0); [by apply (preserves_ret _ _ _ _ _ H)|]. cbn [negb orb] in H.
  unfold command_t.make in H. destruct (_ <? _).
  { unfold FATAL, stop, mbind, comp_bind in H. by simplify_eq. }
  rewrite stop_bind, modify_bind in H. unfold mret, comp_ret in H. simplify_eq.
  split; [apply Hi|]. intros _. by eexists.
Qed.

Lemma mem_preserves mode ids : preserves Inv (checkpoint_mem cfg bufsize mode ids).
Proof.
  apply preserves_bind; [auto with preserve|]. intros st.
  destruct (checkpoint_in_progress st); cbn [negb]; [|auto with preserve].
  apply preserves_bind; [apply get_regions_preserves|]. intros r.
  apply preserves_bind; [auto with preserve|]. intros sel.
  case_bool_decide; [auto with preserve|]. destruct (current_ckpt st); [|auto with preserve].
  apply preserves_try; [|auto with preserve]. apply write_checkpoint_preserves, inv_with_sys.
Qed.

Lemma observers_preserves c : preserves Inv (notify_observers c).
Proof.
  apply preserves_bind; [auto with preserve|]. intros st.
  destruct (map_find _ _) as [[obs|]|]; auto with preserve.
  apply preserves_modify. intros st'. by apply inv_same.
Qed.

Lemma submit_preserves c : preserves Inv (submit qc cfg c).
Proof.
  apply preserves_bind; [|intros _; apply preserves_bind; [auto with preserve|];
    intros _; apply preserves_bind; [apply observers_preserves|];
    intros _; destruct (is_sync cfg); auto with preserve].
  apply preserves_modify. intros st [H1 H2]. by split.
Qed.

(** The command stays while the metadata of an aggregation is exchanged. *)
Lemma aggregate_preserves c :
  preserves (λ st, Inv st ∧ current_ckpt st = Some c) (aggregate cfg mpi c).
Proof.
  assert (∀ A (m : posix A), preserves (λ st, Inv st ∧ current_ckpt st = Some c) (on_sys m)) as Hos.
  { intros A m. apply preserves_on_sys. intros st s [? ?]. split; [by apply inv_with_sys|done]. }
  apply preserves_bind; [apply Hos|]. intros sz. destruct (rank cfg =? 0); [|apply preserves_ret].
  apply preserves_bind; [apply preserves_stop|]. intros dir.
  apply preserves_bind; [apply Hos|]. intros ok. apply preserves_ret.
Qed.

(** A change of the command that keeps what [begun] says. *)
Lemma inv_update_current st c c' :
  Inv st → current_ckpt st = Some c → (begun cfg c → begun cfg c') → Inv (set_current (Some c') st).
Proof.
  intros [H1 H2] Hc Hb. split; [done|]. simpl. intros (c1 & Hc1 & Hb1)%H2.
  simplify_eq. eauto.
Qed.

Lemma end_preserves b : preserves Inv (checkpoint_end qc cfg mpi b).
Proof.
  intros st o st' H Hi. unfold checkpoint_end in H. rewrite get_bind in H.
  destruct (current_ckpt st) as [c|] eqn:Hc; [|by apply (preserves_stop _ _ _ _ _ H)].
  destruct (aggregated cfg); [|by apply (submit_preserves c _ _ _ H)].
  bind_case H o1 st1 E. pose proof (aggregate_preserves c _ _ _ E (conj Hi Hc)) as [Hi1 Hc1].
  unfold mbind, comp_bind in H. rewrite E in H.
  destruct o1 as [[offset|]| | | |]; try (simplify_eq; done).
  - eapply (preserves_bind Inv (mret tt) (λ _, submit qc cfg _));
      [apply preserves_ret|intros _; apply submit_preserves|exact H|].
    eapply inv_update_current; [done|done|]. done.
  - by apply (preserves_ret _ _ _ _ _ H).
Qed.

Lemma blocking_preserves c : preserves Inv (run_blocking qc c).
Proof. apply preserves_bind; auto with preserve. Qed.

Lemma test_preserves n v t : preserves Inv (restart_test qc cfg mpi n v t).
Proof.
  unfold restart_test. destruct (_ || _); [auto with preserve|].
  apply preserves_bind; [auto with preserve|]. intros cmd.
  apply preserves_bind; [apply blocking_preserves|]. auto with preserve.
Qed.

Lemma route_preserves cwd original : preserves Inv (route_file cfg cwd original).
Proof.
  intros st o st' H Hi. unfold route_file in H. rewrite get_bind in H.
  destruct (current_ckpt st) as [c|] eqn:Hc; [|by apply (preserves_stop _ _ _ _ _ H)].
  unfold assign_path in H. destruct (_ <? _).
  { unfold FATAL, stop, mbind, comp_bind in H. by simplify_eq. }
  rewrite stop_bind, modify_bind in H. unfold mret, comp_ret in H. simplify_eq.
  by eapply inv_update_current.
Qed.

Lemma restart_begin_preserves n v t : preserves Inv (restart_begin qc cfg mpi n v t).
Proof.
  intros st o st' H Hi. unfold restart_begin in H. rewrite get_bind in H.
  destruct (checkpoint_in_progress st) eqn:Hp; [by apply (preserves_ret _ _ _ _ _ H)|].
  destruct (_ || _); [by apply (preserves_ret _ _ _ _ _ H)|].
  unfold command_t.make in H. destruct (_ <? _).
  { unfold FATAL, stop, mbind, comp_bind in H. by simplify_eq. }
  rewrite stop_bind, modify_bind in H. revert H.
  match goal with |- (run_blocking _ ?c ≫= ?k) ?s = _ → _ => intros H;
    eapply (preserves_bind Inv (run_blocking qc c) k); [apply blocking_preserves| |exact H|] end.
  - intros r. destruct (_ =? _); [|auto with preserve]. apply preserves_bind; [|auto with preserve].
    apply preserves_modify. intros st1. by apply inv_same.
  - by apply inv_idle_current.
Qed.

(** States with a local variable beside the client *)
Lemma pair_on_sys_preserves {R A} (m : posix A) :
  preserves (λ p : client_t Q * R, Inv p.1) (on_sys m).
Proof. apply preserves_on_sys. intros [st r] s. apply inv_with_sys. Qed.
Hint Resolve pair_on_sys_preserves : preserve.

Lemma read_regions_preserves fuel fd n i pos e :
  preserves (λ p : client_t Q * region_info_t, Inv p.1) (read_regions fuel fd n i pos e).
Proof.
  revert i pos e. induction fuel as [|fuel IH]; intros i pos e; cbn [read_regions];
    destruct (i <? n); auto with preserve.
  apply preserves_bind; [auto with preserve|]. intros id.
  apply preserves_bind; [auto with preserve|]. intros sz.
  apply preserves_bind; [apply preserves_modify; by intros []|]. intros _. apply IH.
Qed.

Lemma read_header_preserves n :
  preserves (λ p : client_t Q * region_info_t, Inv p.1) (read_header n).
Proof.
  apply preserves_bind; [apply preserves_modify; by intros []|]. intros _.
  apply preserves_try; [|auto with preserve]. unfold validate_header, validate_regions.
  apply preserves_bind; [auto with preserve|]. intros fd.
  apply preserves_bind; [auto with preserve|]. intros cnt.
  apply preserves_bind; [auto with preserve|]. intros st.
  apply preserves_bind; [apply read_regions_preserves|]. intros [h e].
  apply preserves_bind; [auto with preserve|]. intros end_. destruct (negb _); auto with preserve.
Qed.

Lemma read_current_preserves : preserves Inv (read_current_header cfg).
Proof.
  intros st o st' H Hi. unfold read_current_header in H.
  destruct (current_ckpt st) as [c|]; [|by simplify_eq].
  destruct (read_header _ _) as [o1 [st1 info1]] eqn:E.
  pose proof (read_header_preserves _ _ _ _ E Hi) as Hi1. simpl in Hi1.
  destruct o1; simplify_eq; try done; by apply (inv_same st1).
Qed.

Lemma recover_region_preserves fd pos sz r : preserves Inv (recover_region (Q:=Q) fd pos sz r).
Proof.
  assert (∀ m, preserves Inv (modify (set_memory m))) as Hm.
  { intros m. apply preserves_modify. intros st. by apply inv_same. }
  unfold recover_region. destruct (negb _).
  - destruct (_ <? _); [auto with preserve|]. apply preserves_bind; [auto with preserve|].
    intros [bs ok]. apply preserves_bind; [auto with preserve|]. intros m.
    destruct (store _ _ _); [|auto with preserve]. apply preserves_bind; [apply Hm|]. intros _.
    destruct ok; cbn [snd]; auto with preserve.
  - destruct (des r) as [d|]; [|auto with preserve]. apply preserves_bind; [auto with preserve|].
    intros [bs ok]. apply preserves_bind; [auto with preserve|]. intros m.
    destruct (d m _) as [[b n] m']. apply preserves_bind; [apply Hm|]. intros _.
    destruct b; auto with preserve.
Qed.

Lemma recover_regions_preserves fd pos mode ids regions info :
  preserves Inv (recover_regions (Q:=Q) fd pos mode ids regions info).
Proof.
  revert pos. induction info as [|[id sz] info IH]; intros pos; cbn [recover_regions];
    [auto with preserve|].
  destruct (skipped mode ids id); [destruct (_ <? _); auto with preserve|].
  destruct (map_find id regions); [|auto with preserve].
  apply preserves_bind; [apply recover_region_preserves|]. intros [p|]; auto with preserve.
Qed.

Lemma recover_mem_preserves mode ids : preserves Inv (recover_mem cfg mode ids).
Proof.
  apply preserves_bind; [auto with preserve|]. intros st.
  apply preserves_bind; [destruct (_ =? _); auto using read_current_preserves with preserve|].
  intros ok. destruct ok; cbn [negb]; [|auto with preserve].
  apply preserves_bind; [apply get_regions_preserves|]. intros r.
  apply preserves_bind; [auto with preserve|]. intros st1.
  destruct (current_ckpt st1); [|auto with preserve]. apply preserves_try; [|auto with preserve].
  apply preserves_bind; [auto with preserve|]. intros fd. apply recover_regions_preserves.
Qed.

Lemma recover_size_preserves id : preserves Inv (recover_size cfg id).
Proof.
  apply preserves_bind; [auto with preserve|]. intros st.
  apply preserves_bind; [destruct (_ =? _); auto using read_current_preserves with preserve|].
  intros _. apply preserves_bind; auto with preserve.
Qed.

Lemma cleanup_preserves n : preserves Inv (cleanup cfg n).
Proof.
  intros st o st' H Hi. unfold cleanup in H.
  destruct (parse_dir _ _ _ _) as [o1 [st1 u]] eqn:E.
  assert (Inv st1) as Hi1; [|destruct o1; by simplify_eq].
  change (Inv (st1, u).1). revert E Hi. change (Inv st) with (Inv (st, tt).1).
  generalize (st, tt). intros p. generalize (st1, u). intros p'.
  assert (preserves (λ p : client_t Q * unit, Inv p.1) (parse_dir (scratch cfg) n
    (λ fname _ _, on_sys (unlink fname);; mret tt))) as Hp; [|apply Hp].
  apply preserves_bind; [auto with preserve|]. intros b. destruct b; cbn [negb]; [|auto with preserve].
  destruct (command_t.regex n) as [e|]; [|auto with preserve].
  apply preserves_bind; [auto with preserve|]. intros s. apply preserves_bind; [|auto with preserve].
  apply preserves_foreach. intros [dname nd] _. unfold parse_entry.
  destruct nd; auto with preserve; (apply preserves_bind; [auto with preserve|];
    intros [[id v]|]; auto with preserve).
Qed.

Lemma and_then_preserves (m k : comp (client_t Q) bool) :
  preserves Inv m → preserves Inv k → preserves Inv (and_then m k).
Proof. intros Hm Hk. apply preserves_bind; [done|]. intros []; auto with preserve. Qed.
End invariant.

#[export] Hint Resolve on_queue_preserves blocking_preserves protect_preserves unprotect_preserves clear_preserves observer_preserves
  wait_preserves finished_preserves begin_preserves mem_preserves end_preserves test_preserves
  route_preserves restart_begin_preserves recover_mem_preserves recover_size_preserves
  cleanup_preserves and_then_preserves : preserve.

(** C11: the state of the client stays well-formed: every call of the interface,
    whether it succeeds, fails, throws or is undefined, keeps the maps of regions
    ordered and their sizes in range, and a checkpoint in progress always has a
    validated name, a non-negative version and the rank of this process. *)
Theorem client_invariant {Q : Type} (qc : comm_client_t Q) (cfg : client_cfg) (mpi : mpi_t)
    (bufsize : Z) (k : call) (st st' : client_t Q) (o : outcome unit) :
  call_ok k → run_call qc cfg mpi bufsize k st = (o, st') →
  client_inv cfg st → client_inv cfg st'.
Proof.
  intros Hok H Hi. revert H Hi. revert st o st'. fold (preserves (client_inv cfg) (run_call qc cfg mpi bufsize k)).
  destruct k; cbn [run_call]; try (apply preserves_bind; [|intros; apply preserves_ret]);
    eauto with preserve; apply protect_preserves; done || apply u64_range.
Qed.

Lemma client_invariant_witness :
  ∃ st' : client_t unit, client_inv demo_cfg st'.
Proof.
  set (st := mk_client (mk_sys (<["/s" := Dir]> ∅) []) (demo_memory Byte.x01) tt ∅ [] None
    false [] 0).
  exists (run_call instant_queue demo_cfg single_mpi 10 (Mem_protect 1 100 3 1 "default") st).2.
  apply (client_invariant instant_queue demo_cfg single_mpi 10 (Mem_protect 1 100 3 1 "default")
    st _ (Val tt)); [split; vm_compute; discriminate|reflexivity|].
  split; [|done]. intros n r Hn. simpl in Hn; by rewrite lookup_empty in Hn.
Defined.
