(* ===== verification/Serial.v ===== *)
(** * Serial: [include/veloc/boost.hpp], [include/veloc/cereal.hpp], [include/veloc/bitsery.hpp]

    Protected regions that are not raw memory but objects, which a serialization
    library writes to the checkpoint and reads back.  The three libraries are
    parameters; the adapters connect what they offer, archives that throw or
    readers that return an error, with the [std::function]s of [mem_protect].
    [Codec] is what the client needs of such a pair of functions, whatever library
    is behind it, and the main theorem is the round trip of a checkpoint that
    mixes raw memory and objects, into a process where everything may be at
    another address. *)

From S2P Require Import Prelude Text Command FileSystem Containers FileUtil Bytes Streams Header Client.

Local Open Scope Z_scope.

Import command_t.

(** ** The adapters *)

Definition exception : Type := string.

(** An archive reads from the rest of the stream into the object: it throws or has
    taken so many bytes. *)
Definition archive_get : Type := mem → list byte → (exception + Z) * mem.

Module boost.

(** [binary_oarchive] writes a signature when it is constructed, which the
    constructor of [binary_iarchive] reads and checks. *)
Record lib_t := {
  oarchive : list byte;
  put : mem → list byte;
  iarchive : list byte → exception + Z;
  get : archive_get
}.

Definition serializer (lib : lib_t) : serializer_t := λ m, lib.(oarchive) ++ lib.(put) m.

(** After [false] the client does not use the stream any more. *)
Definition deserializer (lib : lib_t) : deserializer_t := λ m bs,
  match lib.(iarchive) bs with
  | inl _ => (false, 0, m)
  | inr n =>
      match lib.(get) m (zdrop n bs) with
      | (inl _, m') => (false, 0, m')
      | (inr k, m') => (true, n + k, m')
      end
  end.

End boost.

Module cereal.

Record lib_t := {
  put : mem → list byte;
  get : archive_get
}.

Definition serializer (lib : lib_t) : serializer_t := lib.(put).

Definition deserializer (lib : lib_t) : deserializer_t := λ m bs,
  match lib.(get) m bs with
  | (inl _, m') => (false, 0, m')
  | (inr k, m') => (true, k, m')
  end.

End cereal.

Module bitsery.

Inductive ReaderError := NoError | ReadingError | DataOverflow | InvalidData | InvalidPointer.
Global Instance ReaderError_eq_dec : EqDecision ReaderError.
Proof. solve_decision. Defined.

(** [quickDeserialization] returns the error and whether the input was used up;
    besides, the bytes taken and the memory. *)
Record lib_t := {
  put : mem → list byte;
  quickDeserialization : mem → list byte → (ReaderError * bool) * Z * mem
}.

Definition serializer (lib : lib_t) : serializer_t := lib.(put).

Definition deserializer (lib : lib_t) : deserializer_t := λ m bs,
  let '(state, n, m') := lib.(quickDeserialization) m bs in
  (bool_decide (state.1 = NoError), n, m').

End bitsery.

(** ** What the client needs *)

(** An object of type [X]: its value, [None] where there is no object, and the
    memory that belongs to it. *)
Record object_t (X : Type) := mk_object {
  value : mem → option X;
  owned : Z → Prop
}.
Arguments mk_object {X} _ _.
Arguments value {X} _ _.
Arguments owned {X} _ _.

(** Nothing but its memory determines an object. *)
Class Located {X} (o : object_t X) : Prop :=
  value_ext m m' : (∀ a, o.(owned) a → m !! a = m' !! a) → o.(value) m = o.(value) m'.

(** [m'] is [m] with the value [x] in the object. *)
Definition assigned {X} (o : object_t X) (x : X) (m m' : mem) : Prop :=
  o.(value) m' = Some x ∧ ∀ a, ¬ o.(owned) a → m' !! a = m !! a.

(** Writing gives the encoding of the value; reading takes exactly an encoding
    from the stream and assigns the value. *)
Class Codec {X} (encode : X → list byte) (o : object_t X) (s : serializer_t) (d : deserializer_t) : Prop := {
  codec_located :: Located o;
  codec_ser m x : o.(value) m = Some x → s m = encode x;
  codec_des m x rest : is_Some (o.(value) m) →
    ∃ m', d m (encode x ++ rest) = (true, zlen (encode x), m') ∧ assigned o x m m'
}.

(** What the libraries document: an archive reads back what it has written. *)
Class Archive {X} (encode : X → list byte) (o : object_t X) (put : mem → list byte) (get : archive_get) : Prop := {
  archive_located :: Located o;
  archive_put m x : o.(value) m = Some x → put m = encode x;
  archive_read m x rest : is_Some (o.(value) m) →
    ∃ m', get m (encode x ++ rest) = (inr (zlen (encode x)), m') ∧ assigned o x m m'
}.

Global Instance cereal_codec {X} (encode : X → list byte) (o : object_t X) (lib : cereal.lib_t) :
  Archive encode o lib.(cereal.put) lib.(cereal.get) →
  Codec encode o (cereal.serializer lib) (cereal.deserializer lib).
Proof.
  intros HA. split; [apply _|apply archive_put|]. intros m x rest Hm.
  destruct (archive_read m x rest Hm) as (m' & Hget & Ha). exists m'. split; [|done].
  unfold cereal.deserializer. by rewrite Hget.
Qed.

Global Instance boost_codec {X} (encode : X → list byte) (o : object_t X) (lib : boost.lib_t) :
  Archive encode o lib.(boost.put) lib.(boost.get) →
  (∀ rest, lib.(boost.iarchive) (lib.(boost.oarchive) ++ rest) = inr (zlen lib.(boost.oarchive))) →
  Codec (λ x, lib.(boost.oarchive) ++ encode x) o (boost.serializer lib) (boost.deserializer lib).
Proof.
  intros HA Hsig. split; [apply _| |].
  - intros m x Hx. unfold boost.serializer. f_equal. by apply archive_put.
  - intros m x rest Hm. destruct (archive_read m x rest Hm) as (m' & Hget & Ha). exists m'. split; [|done].
    unfold boost.deserializer. rewrite <-app_assoc, Hsig.
    rewrite zdrop_app_ge, Z.sub_diag, zdrop_0, Hget by lia. by rewrite zlen_app.
Qed.

Global Instance bitsery_codec {X} (encode : X → list byte) (o : object_t X) (lib : bitsery.lib_t) :
  Located o → (∀ m x, o.(value) m = Some x → lib.(bitsery.put) m = encode x) →
  (∀ m x rest, is_Some (o.(value) m) → ∃ b m',
     lib.(bitsery.quickDeserialization) m (encode x ++ rest)
     = ((bitsery.NoError, b), zlen (encode x), m') ∧ assigned o x m m') →
  Codec encode o (bitsery.serializer lib) (bitsery.deserializer lib).
Proof.
  intros Ho Hput Hget. split; [done|done|]. intros m x rest Hm.
  destruct (Hget m x rest Hm) as (b & m' & Hq & Ha). exists m'. split; [|done].
  unfold bitsery.deserializer. by rewrite Hq.
Qed.

(** ** Protected regions before and after a restart *)

(** Raw memory, at [p0] when it was checkpointed and at [p2] when it is recovered,
    or an object with the functions it was protected with. *)
Inductive protected_t : Type :=
| Raw (p0 p2 n : Z)
| Object {X : Type} (encode : X → list byte) (o0 o2 : object_t X)
    (s0 s2 : serializer_t) (d0 d2 : deserializer_t).

Definition region_before (p : protected_t) : region_t :=
  match p with
  | Raw p0 _ n => mk_region p0 n None None
  | Object _ _ _ s0 _ d0 _ => mk_region 0 0 (Some s0) (Some d0)
  end.
Definition region_after (p : protected_t) : region_t :=
  match p with
  | Raw _ p2 n => mk_region p2 n None None
  | Object _ _ _ _ s2 _ d2 => mk_region 0 0 (Some s2) (Some d2)
  end.
Definition regions_by (f : protected_t → region_t) (ps : list (Z * protected_t)) : regions_t :=
  (λ e, (e.1, f e.2)) <$> ps.

(** The functions belong to the objects. *)
Definition coded (p : protected_t) : Prop :=
  match p with
  | Raw _ _ _ => True
  | Object encode o0 o2 s0 s2 d0 d2 => Codec encode o0 s0 d0 ∧ Codec encode o2 s2 d2
  end.

Definition valid_before (p : protected_t) (m : mem) : Prop :=
  match p with
  | Raw p0 _ n => raw_region m (mk_region p0 n None None)
  | Object _ o0 _ _ _ _ _ => is_Some (o0.(value) m)
  end.
Definition valid_after (p : protected_t) (m : mem) : Prop :=
  match p with
  | Raw _ p2 n => raw_region m (mk_region p2 n None None)
  | Object _ _ o2 _ _ _ _ => is_Some (o2.(value) m)
  end.
Definition owned_after (p : protected_t) (a : Z) : Prop :=
  match p with
  | Raw _ p2 n => p2 ≤ a < p2 + n
  | Object _ _ o2 _ _ _ _ => o2.(owned) a
  end.

(** [m] holds what [m0] held. *)
Definition restored (p : protected_t) (m0 m : mem) : Prop :=
  match p with
  | Raw p0 p2 n => load p2 n m = load p0 n m0
  | Object _ o0 o2 _ _ _ _ => o2.(value) m = o0.(value) m0
  end.

Lemma valid_ext p m m' :
  coded p → (∀ a, owned_after p a → m !! a = m' !! a) → valid_after p m → valid_after p m'.
Proof.
  destruct p as [p0 p2 n|X enc o0 o2 s0 s2 d0 d2]; simpl; intros Hc Hm Hv.
  - destruct Hv as (? & ? & Hmap). split_and!; [done|done|]. intros a Ha. rewrite <-Hm by done. by apply Hmap.
  - destruct Hc as [_ Hc2]. by rewrite <-(value_ext m m' Hm).
Qed.

Lemma restored_ext p m0 m m' :
  coded p → (∀ a, owned_after p a → m !! a = m' !! a) → restored p m0 m → restored p m0 m'.
Proof.
  destruct p as [p0 p2 n|X enc o0 o2 s0 s2 d0 d2]; simpl; intros Hc Hm Hr.
  - rewrite <-Hr. symmetry. by apply load_ext.
  - destruct Hc as [_ Hc2]. by rewrite <-(value_ext m m' Hm).
Qed.

Lemma region_bytes_before p m0 :
  coded p → valid_before p m0 → ∃ bs, region_bytes (region_before p) m0 = Val bs.
Proof.
  destruct p as [p0 p2 n|X enc o0 o2 s0 s2 d0 d2]; simpl; intros Hc Hv; unfold region_bytes; simpl.
  - destruct Hv as (Hp & _ & Hm). simpl in *. rewrite (proj2 (Z.eqb_neq _ _) Hp). cbn [negb].
    destruct (load_mapped _ _ _ Hm) as [bs ->]. eauto.
  - eauto.
Qed.

(** ** The recovery of one region, and of all *)

Section recover.
Context {Q : Type}.
Implicit Types st : client_t Q.

(** In every state with these files and this memory. *)
Definition recovers (f : gmap string node) (m : mem) {A} (k : comp (client_t Q) A) (a : A) (m' : mem) : Prop :=
  ∀ st, the_sys st = mk_sys f [] → memory st = m → k st = (Val a, set_memory m' st).

Lemma recover_region_protected fd pos p bs rest m f data m0 :
  f !! fd = Some (Reg data) → zdrop pos data = bs ++ rest →
  0 ≤ pos → zlen data ≤ LONG_MAX → coded p → valid_before p m0 → valid_after p m →
  region_bytes (region_before p) m0 = Val bs →
  ∃ m', recovers f m (recover_region fd pos (zlen bs) (region_after p)) (Some (pos + zlen bs)) m' ∧
    restored p m0 m' ∧ ∀ a, ¬ owned_after p a → m' !! a = m !! a.
Proof.
  intros Hd Hdrop Hpos Hmax Hc H0 H2 Hbs. pose proof (zlen_nonneg bs).
  destruct p as [p0 p2 n|X enc o0 o2 s0 s2 d0 d2]; unfold region_bytes in Hbs; simpl in *.
  - destruct H0 as (Hp0 & [Hn _] & _), H2 as (Hp2 & _ & Hm2). simpl in *.
    rewrite (proj2 (Z.eqb_neq _ _) Hp0) in Hbs. cbn [negb] in Hbs.
    destruct (load p0 n m0) as [bs'|] eqn:Hl; simplify_eq.
    pose proof (load_length _ _ _ _ Hn Hl) as Hlen. exists (store_bytes p2 bs m). split; [|split].
    + intros st Hs <-. eapply recover_region_free; try done; simpl; try lia.
      rewrite Hdrop, ztake_app_le, ztake_all by lia. done.
    + simpl. rewrite <-Hlen. apply load_store_same.
    + intros a Ha. rewrite store_bytes_lookup. simpl.
      destruct (Z.leb_spec p2 a), (Z.ltb_spec a (p2 + zlen bs)); try done. lia.
  - destruct Hc as [C0 C2], H0 as [x Hx]. simplify_eq. rewrite (codec_ser m0 x Hx) in *.
    destruct (codec_des (o:=o2) m x rest H2) as (m' & Hdes & Hv & Hf). exists m'.
    split; [|split; [by rewrite Hv, Hx|done]].
    intros st Hs <-. unfold recover_region. simpl.
    rewrite (comp_bind_val _ _ _ _ _ (on_sys_same _ _ _ _ Hs (f_read_some_free _ _ pos LONG_MAX _ Hd))).
    rewrite gets_bind. cbn [fst snd].
    assert (zlen (zdrop pos data) ≤ LONG_MAX) as Hz by (rewrite zlen_zdrop; unfold LONG_MAX in *; lia).
    rewrite ztake_all, Hdrop, Hdes by done. by rewrite modify_bind.
Qed.

(** Different regions have different memory. *)
Definition apart (ps : list (Z * protected_t)) : Prop :=
  ∀ id1 p1 id2 p2 a, (id1, p1) ∈ ps → (id2, p2) ∈ ps → id1 ≠ id2 →
    owned_after p1 a → owned_after p2 a → False.

(** The regions [ps] of a checkpoint, [l] their bytes, are restored one after the
    other; [regions] are the protected ones. *)
Lemma recover_regions_protected fd pos regions ps l m f data m0 :
  f !! fd = Some (Reg data) → zdrop pos data = data_of l → 0 ≤ pos →
  zlen data ≤ LONG_MAX → NoDup ps.*1 → apart ps →
  (∀ id p, (id, p) ∈ ps → map_find id regions = Some (region_after p) ∧ coded p ∧
     valid_before p m0 ∧ valid_after p m) →
  snapshot (regions_by region_before ps) m0 = Some l →
  ∃ m', recovers f m (recover_regions fd pos VELOC_RECOVER_ALL [] regions (sizes_of l)) true m' ∧
    (∀ id p, (id, p) ∈ ps → restored p m0 m') ∧
    ∀ a, (∀ id p, (id, p) ∈ ps → ¬ owned_after p a) → m' !! a = m !! a.
Proof.
  revert pos l m. induction ps as [|[id p] ps IH]; intros pos l m Hd Hdrop Hpos Hmax Hnd Hap Hps Hl.
  - simpl in Hl. simplify_eq. exists m. split_and!; [by intros [] ? <-| |done].
    by intros id p []%elem_of_nil.
  - cbn in Hl, Hnd. destruct (region_bytes (region_before p) m0) as [bs| | | |] eqn:Hbs; try done.
    destruct (snapshot _ m0) as [l'|] eqn:Hl'; simplify_eq. apply NoDup_cons in Hnd as [Hni Hnd].
    unfold data_of in Hdrop. cbn [map concat snd] in Hdrop. fold (data_of l') in Hdrop.
    destruct (Hps id p ltac:(by left)) as (Hfind & Hc & H0 & H2). pose proof (zlen_nonneg bs).
    destruct (recover_region_protected fd pos p bs (data_of l') m f data m0) as (m1 & Hrun & Hr & Hf); try done.
    assert (∀ id' p', (id', p') ∈ ps → id' ≠ id) as Hother.
    { intros id' p' Hin ->. apply Hni. by apply (list_elem_of_fmap_2' fst) with (x := (id, p')). }
    destruct (IH (pos + zlen bs) l' m1) as (m' & Hrest & Hr' & Hf'); try done; [| |..].
    + rewrite <-zdrop_zdrop, Hdrop by lia. by rewrite zdrop_app_ge, Z.sub_diag, zdrop_0 by lia.
    + lia.
    + intros id1 p1 id2 p2 a H1 H3. apply Hap; by right.
    + intros id' p' Hin. destruct (Hps id' p' ltac:(by right)) as (? & ? & ? & Hv). split_and!; try done.
      eapply valid_ext; [done| |exact Hv]. intros a Ha. symmetry. apply Hf. intros Ha'.
      eapply (Hap id' p' id p a); [by right|by left|by eapply Hother|done|done].
    + exists m'. split_and!.
      * intros st Hs Hm. cbn [sizes_of map recover_regions fst snd]. change (skipped VELOC_RECOVER_ALL [] id) with false. cbn iota. rewrite Hfind.
        rewrite (comp_bind_val _ _ _ _ _ (Hrun st Hs Hm)). cbn beta iota. fold (sizes_of l').
        by rewrite (Hrest (set_memory m1 st)).
      * intros id' p' [Heq|Hin]%elem_of_cons; [|by eapply Hr']. simplify_eq.
        eapply restored_ext; [done| |exact Hr]. intros a Ha. symmetry. apply Hf'. intros id' p' Hin Ha'.
        eapply (Hap id' p' id p a); [by right|by left|by eapply Hother|done|done].
      * intros a Ha. rewrite Hf' by (intros; eapply Ha; by right). simpl. apply Hf. eapply Ha. by left.
Qed.
End recover.

Lemma snapshot_before ps m0 :
  (∀ id p, (id, p) ∈ ps → coded p ∧ valid_before p m0) →
  ∃ l, snapshot (regions_by region_before ps) m0 = Some l ∧ l.*1 = ps.*1.
Proof.
  induction ps as [|[id p] ps IH]; intros H; [by exists []|].
  destruct IH as (l & Hl & Hkeys); [intros; eapply H; by right|].
  destruct (H id p ltac:(by left)) as [Hc Hv]. destruct (region_bytes_before p m0 Hc Hv) as [bs Hbs].
  exists ((id, bs) :: l). cbn. rewrite Hbs. unfold regions_by in Hl. rewrite Hl. by rewrite Hkeys.
Qed.

Lemma regions_by_keys f ps : (regions_by f ps).*1 = ps.*1.
Proof. unfold regions_by. by rewrite <-list_fmap_compose. Qed.

Lemma regions_by_find f ps id p :
  sorted ps.*1 → (id, p) ∈ ps → map_find id (regions_by f ps) = Some (f p).
Proof.
  intros Hs Hin. apply map_elem_find; [by rewrite regions_by_keys|].
  by apply (list_elem_of_fmap_2' (λ e, (e.1, f e.2))) with (x := (id, p)).
Qed.

(** ** Round trip *)

(** C4: what is checkpointed is recovered, for raw memory and for objects with
    serializers in the same checkpoint.  A checkpoint of all regions succeeds.  A
    recovery of the file it wrote, at any later time, in a process that protects
    the same data at whatever other addresses, succeeds, gives every raw region
    the bytes and every object the value it had, and changes no other memory. *)
Theorem mixed_roundtrip {Q : Type} (cfg : client_cfg) (bufsize : Z) (st0 st2 : client_t Q)
    (c : command_t.t) (f0 f2 : gmap string node) (ps : list (Z * protected_t)) :
  checkpoint_in_progress st0 = true → current_ckpt st0 = Some c → the_fs st0 = mk_sys f0 [] →
  writable f0 (filename c cfg.(scratch)) →
  current_regions st0 = regions_by region_before ps → ps ≠ [] → zlen ps < 2 ^ 32 →
  sorted ps.*1 → Forall is_int ps.*1 → apart ps →
  (∀ id p, (id, p) ∈ ps → coded p ∧ valid_before p (memory st0)) →
  (∀ l, snapshot (regions_by region_before ps) (memory st0) = Some l → zlen (ckpt_file l) ≤ LONG_MAX) →
  ∃ st1, checkpoint_mem cfg bufsize VELOC_CKPT_ALL [] st0 = (Val true, st1) ∧
  (current_ckpt st2 = Some c → header_size st2 = 0 → the_fs st2 = mk_sys f2 [] →
   f2 !! filename c cfg.(scratch) = files (the_fs st1) !! filename c cfg.(scratch) →
   current_regions st2 = regions_by region_after ps →
   (∀ id p, (id, p) ∈ ps → valid_after p (memory st2)) →
   ∃ st3, recover_mem cfg VELOC_RECOVER_ALL [] st2 = (Val true, st3) ∧
     (∀ id p, (id, p) ∈ ps → restored p (memory st0) (memory st3)) ∧
     (∀ a, (∀ id p, (id, p) ∈ ps → ¬ owned_after p a) → memory st3 !! a = memory st2 !! a)).
Proof.
  intros Hp Hc Hs Hw Hreg Hne Hl32 Hsorted Hids Hap Hps Hmax.
  destruct (snapshot_before ps (memory st0) Hps) as (l & Hl & Hkeys). specialize (Hmax l Hl).
  pose proof (snapshot_length _ _ _ Hl) as Hlen.
  assert (zlen (regions_by region_before ps) = zlen ps) as Hlen'
    by (unfold regions_by, zlen; by rewrite length_fmap).
  eexists. split.
  { eapply (checkpoint_mem_run cfg bufsize VELOC_CKPT_ALL [] st0 c f0 (regions_by region_before ps) l); try done.
    - by rewrite Hreg.
    - unfold regions_by. by destruct ps.
    - apply Forall_forall. intros e ([id p] & -> & Hin)%list_elem_of_fmap.
      destruct (Hps id p Hin) as [_ Hv]. simpl. destruct p; simpl in *; [apply Hv|lia]. }
  intros Hc2 Hh2 Hs2 Hf2 Hreg2 Hps2. simpl in Hf2. rewrite lookup_insert, decide_True in Hf2 by done.
  destruct (recover_regions_protected (Q:=Q) (filename c (scratch cfg)) (zlen (header_bytes (sizes_of l)))
    (regions_by region_after ps) ps l (memory st2) f2 (ckpt_file l) (memory st0))
    as (m' & Hrun & Hr & Hf); [done|apply ckpt_file_data|apply zlen_nonneg|done|by apply sorted_NoDup|done| |done|].
  - intros id p Hin. destruct (Hps id p Hin). split_and!; try done; [by apply regions_by_find|by eapply Hps2].
  - exists (recovered l m' st2). split; [|done].
    apply (recover_mem_via cfg VELOC_RECOVER_ALL [] st2 c f2 l m'); try done; try (by rewrite Hkeys); [lia|].
    intros st1 Hs1 Hm1. rewrite Hreg2. by apply Hrun.
Qed.

(** One byte in memory as an object, with the three libraries around it. *)
Definition cell (a : Z) : object_t byte := mk_object (λ m, m !! a) (λ b, b = a).
Definition cell_put (a : Z) : mem → list byte := λ m, match m !! a with Some b => [b] | None => [] end.
Definition cell_get (a : Z) : archive_get := λ m bs,
  match bs with b :: _ => (inr 1, <[a := b]> m) | [] => (inl "end of stream", m) end.

Global Instance cell_located a : Located (cell a).
Proof. intros m m' H. by apply H. Qed.

Lemma cell_assigned a b m : assigned (cell a) b m (<[a := b]> m).
Proof. split; simpl; [by simplify_map_eq|]. intros a' Ha. by rewrite lookup_insert_ne. Qed.

Global Instance cell_archive a : Archive (λ b, [b]) (cell a) (cell_put a) (cell_get a).
Proof.
  split; [apply _|intros m x Hx; unfold cell_put; simpl in Hx; by rewrite Hx|].
  intros m x rest _. eexists. split; [done|apply cell_assigned].
Qed.

Definition demo_boost (a : Z) : boost.lib_t := {|
  boost.oarchive := [Byte.x16; Byte.x0a];
  boost.put := cell_put a;
  boost.iarchive bs := if decide (ztake 2 bs = [Byte.x16; Byte.x0a]) then inr 2 else inl "invalid signature";
  boost.get := cell_get a
|}.
Definition demo_cereal (a : Z) : cereal.lib_t := {| cereal.put := cell_put a; cereal.get := cell_get a |}.
Definition demo_bitsery (a : Z) : bitsery.lib_t := {|
  bitsery.put := cell_put a;
  bitsery.quickDeserialization m bs :=
    match bs with
    | [b] => ((bitsery.NoError, true), 1, <[a := b]> m)
    | b :: _ => ((bitsery.NoError, false), 1, <[a := b]> m)
    | [] => ((bitsery.DataOverflow, true), 0, m)
    end
|}.

Lemma demo_boost_codec a :
  Codec (λ b, [Byte.x16; Byte.x0a; b]) (cell a) (boost.serializer (demo_boost a)) (boost.deserializer (demo_boost a)).
Proof.
  apply (boost_codec (λ b, [b]) (cell a) (demo_boost a)); [apply _|].
  intros rest. simpl. by rewrite ztake_take, decide_True.
Qed.
Lemma demo_cereal_codec a :
  Codec (λ b, [b]) (cell a) (cereal.serializer (demo_cereal a)) (cereal.deserializer (demo_cereal a)).
Proof. apply _. Qed.
Lemma demo_bitsery_codec a :
  Codec (λ b, [b]) (cell a) (bitsery.serializer (demo_bitsery a)) (bitsery.deserializer (demo_bitsery a)).
Proof.
  apply bitsery_codec; [apply _|intros m x Hx; simpl in *; unfold cell_put; by rewrite Hx|].
  intros m x [|b rest] _; eexists _, _; (split; [done|apply cell_assigned]).
Qed.

(** Three bytes of raw memory and three objects; all move in the new process. *)
Definition demo_ps : list (Z * protected_t) :=
  [(1, Raw 100 200 3);
   (2, Object (λ b, [Byte.x16; Byte.x0a; b]) (cell 110) (cell 210)
         (boost.serializer (demo_boost 110)) (boost.serializer (demo_boost 210))
         (boost.deserializer (demo_boost 110)) (boost.deserializer (demo_boost 210)));
   (3, Object (λ b, [b]) (cell 111) (cell 211)
         (cereal.serializer (demo_cereal 111)) (cereal.serializer (demo_cereal 211))
         (cereal.deserializer (demo_cereal 111)) (cereal.deserializer (demo_cereal 211)));
   (5, Object (λ b, [b]) (cell 112) (cell 212)
         (bitsery.serializer (demo_bitsery 112)) (bitsery.serializer (demo_bitsery 212))
         (bitsery.deserializer (demo_bitsery 112)) (bitsery.deserializer (demo_bitsery 212)))].

Definition demo_old : mem :=
  store_bytes 100 [Byte.x01; Byte.x02; Byte.x03] (store_bytes 110 [Byte.x0a; Byte.x0b; Byte.x0c] ∅).
Definition demo_new : mem := store_bytes 200 (replicate 13 Byte.xff) ∅.

Definition demo_process (m : mem) (f : gmap string node) (r : protected_t → region_t) (b : bool) : client_t unit :=
  mk_client (mk_sys f []) m tt {["ck" := regions_by r demo_ps]} [] (Some demo_cmd) b [] 0.

Ltac each_region H :=
  repeat (apply elem_of_cons in H as [H|H]; [simplify_eq|]); [..|by apply elem_of_nil in H].

Lemma demo_before id p : (id, p) ∈ demo_ps → coded p ∧ valid_before p demo_old.
Proof.
  intros H. each_region H.
  - split; [done|]. split_and!; [done|done|]. intros a Ha. simpl in Ha. unfold demo_old.
    rewrite store_bytes_lookup. assert (a = 100 ∨ a = 101 ∨ a = 102) as [->|[->| ->]] by lia; vm_compute; eauto.
  - split; [split; apply demo_boost_codec|vm_compute; eauto].
  - split; [split; apply demo_cereal_codec|vm_compute; eauto].
  - split; [split; apply demo_bitsery_codec|vm_compute; eauto].
Qed.

Lemma demo_after id p : (id, p) ∈ demo_ps → valid_after p demo_new.
Proof.
  intros H. each_region H; [|vm_compute; eauto..].
  split_and!; [done|done|]. intros a Ha. simpl in Ha.
  assert (a = 200 ∨ a = 201 ∨ a = 202) as [->|[->| ->]] by lia; vm_compute; eauto.
Qed.

Lemma demo_apart : apart demo_ps.
Proof. intros id1 p1 id2 p2 a H1 H2 Hne. each_region H1; each_region H2; simpl; lia. Qed.

Lemma demo_unowned id p : (id, p) ∈ demo_ps → ¬ owned_after p 205.
Proof. intros H. each_region H; simpl; lia. Qed.

Lemma mixed_roundtrip_witness : ∃ st3 : client_t unit,
  load 200 3 (memory st3) = Some [Byte.x01; Byte.x02; Byte.x03] ∧ memory st3 !! 210 = Some Byte.x0a ∧
  memory st3 !! 211 = Some Byte.x0b ∧ memory st3 !! 212 = Some Byte.x0c ∧ memory st3 !! 205 = Some Byte.xff.
Proof.
  set (f0 := <["/s" := Dir]> ∅ : gmap string node).
  set (st0 := demo_process demo_old f0 region_before true).
  set (st1' := (checkpoint_mem demo_cfg 4 VELOC_CKPT_ALL [] st0).2).
  set (f2 := files (the_fs st1')).
  destruct (mixed_roundtrip demo_cfg 4 st0 (demo_process demo_new f2 region_after false) demo_cmd f0 f2 demo_ps)
    as (st1 & H1 & H2);
    [done|done|done| |reflexivity|done|reflexivity|repeat constructor|repeat constructor; vm_compute; discriminate
    |apply demo_apart|apply demo_before| |].
  - right. split; vm_compute; reflexivity.
  - intros l Hl. vm_compute in Hl. injection Hl as <-. vm_compute. discriminate.
  - destruct H2 as (st3 & _ & Hr & Hf);
      [done|done|done|subst f2 st1'; by rewrite H1|reflexivity|apply demo_after|].
    exists st3. split_and!.
    + apply (Hr 1 (Raw 100 200 3)). left.
    + exact (Hr 2 _ (list_elem_of_lookup_2 demo_ps 1 _ eq_refl)).
    + exact (Hr 3 _ (list_elem_of_lookup_2 demo_ps 2 _ eq_refl)).
    + exact (Hr 5 _ (list_elem_of_lookup_2 demo_ps 3 _ eq_refl)).
    + rewrite Hf; [reflexivity|apply demo_unowned].
Defined.
