(* ===== verification/Versioning.v ===== *)
(** * Versioning: [src/modules/versioning_module.cpp]

    The module that knows which versions of a checkpoint exist: it answers
    [TEST] commands, and it prunes old versions from the persistent and from the
    scratch directory after a [CHECKPOINT]. *)

From S2P Require Import Prelude Text Command FileSystem Containers FileUtil Storage.

Local Open Scope Z_scope.

Import command_t.

(** ** State *)

(** [std::map<std::string, std::map<int, std::set<int> > >] *)
Abbreviation history := (gmap (string * Z) zset).

Record versioning_t := mk_versioning {
  persistent_history : history;
  scratch_history : history
}.

(** The entry of a command: [history[c.name][c.unique_id]]. *)
Definition key (c : command_t.t) : string * Z := (c.(name), c.(unique_id)).
Definition entry (h : history) (c : command_t.t) : zset := default [] (h !! key c).

Definition set_persistent (c : command_t.t) (vs : zset) (v : versioning_t) : versioning_t :=
  mk_versioning (<[key c := vs]> v.(persistent_history)) v.(scratch_history).
Definition set_scratch (c : command_t.t) (vs : zset) (v : versioning_t) : versioning_t :=
  mk_versioning v.(persistent_history) (<[key c := vs]> v.(scratch_history)).

(** Running code on the entry that [ph] or [sh] refers to: what it has done to
    the set stays, whatever its outcome. *)
Definition on_ph {S A} (c : command_t.t) (m : comp (S * zset) A) : comp (S * versioning_t) A := λ '(s, v),
  let '(o, (s', vs)) := m (s, entry v.(persistent_history) c) in (o, (s', set_persistent c vs v)).
Definition on_sh {S A} (c : command_t.t) (m : comp (S * zset) A) : comp (S * versioning_t) A := λ '(s, v),
  let '(o, (s', vs)) := m (s, entry v.(scratch_history) c) in (o, (s', set_scratch c vs v)).

(** [vs.clear()] and [vs.insert(v)] *)
Definition clear {S} : comp (S * zset) unit := modify (λ '(s, _), (s, [])).
Definition insert_version {S} (v : Z) : comp (S * zset) unit := modify (λ '(s, vs), (s, set_insert v vs)).

(** ** Operations *)

Module versioning_module_t.
Section versioning_module.
Context {S : Type} `{HasSys S}.

(** The configuration: [cfg.storage()], the directories, and the limits; a limit
    of 0 keeps all versions. *)
Variables (storage : option (storage_module_t S)) (scratch meta : string)
  (max_versions scratch_versions : Z).

Definition scratch_version_set (cname : string) (req_id : Z) : comp (S * zset) unit :=
  parse_dir scratch cname (collect (λ id, (id =? ID_EC) || (id =? req_id)));;
  mret tt.

(** The versions found for a [TEST], in the order of
    [std::set<int, std::greater<int> >]. *)
Definition latest (needed : Z) (versions : zset) : Z :=
  if bool_decide (length versions = 0%nat) then VELOC_IGNORED
  else if needed =? 0 then default VELOC_IGNORED (head (rev versions))
  else default VELOC_IGNORED (first_le needed (rev versions)).

Definition test (c : command_t.t) : comp (S * versioning_t) Z :=
  on_ph c clear;;
  match storage with
  | Some st => on_ph c (st.(Storage.get_versions) c)
  | None => mret tt
  end;;
  on_sh c clear;;
  on_sh c (scratch_version_set c.(name) c.(unique_id));;
  '(_, v) ← get;
  mret (latest c.(version) (set_union (entry v.(persistent_history) c) (entry v.(scratch_history) c))).

(** The loops of [CHECKPOINT]: from the smallest version on, as long as there are
    too many; [ph] is the part of the set from the iterator on, which is all of
    it. *)
Fixpoint prune_persistent (st : storage_module_t S) (c : command_t.t) (ph : zset) :
    comp (S * zset) unit :=
  match ph with
  | [] => mret tt
  | v :: rest =>
      if Z.of_nat (length ph) <=? max_versions then mret tt else
      let old := set_version c v in
      on_fst (st.(Storage.remove) old);;
      (if bool_decide (meta = "") then mret tt else on_sys (unlink (meta_filename old meta));; mret tt);;
      modify (λ '(s, _), (s, rest));;
      prune_persistent st c rest
  end.

(** [parse_dir] with the callback that removes the files of version [v], of
    every rank. *)
Definition remove_version (cname : string) (v : Z) : comp (S * zset) unit :=
  parse_dir scratch cname
    (λ f _ v', if v' =? v then on_sys (unlink f);; mret tt else mret tt);;
  mret tt.

Fixpoint prune_scratch (c : command_t.t) (sh : zset) : comp (S * zset) unit :=
  match sh with
  | [] => mret tt
  | v :: rest =>
      if Z.of_nat (length sh) <=? scratch_versions then mret tt else
      remove_version c.(name) v;;
      modify (λ '(s, _), (s, rest));;
      prune_scratch c rest
  end.

Definition checkpoint (c : command_t.t) : comp (S * versioning_t) Z :=
  match storage with
  | Some st =>
      if 0 <? max_versions then
        on_ph c (insert_version c.(version);; '(_, ph) ← get; prune_persistent st c ph)
      else mret tt
  | None => mret tt
  end;;
  (if 0 <? scratch_versions then
     on_sh c (insert_version c.(version);; '(_, sh) ← get; prune_scratch c sh)
   else mret tt);;
  mret VELOC_SUCCESS.

Definition restart (c : command_t.t) : comp (S * versioning_t) Z :=
  there ← match storage with Some st => on_fst (st.(Storage.exists_) c) | None => mret false end;
  (if (there : bool) then on_ph c (insert_version c.(version)) else mret tt);;
  local ← on_sys (access (filename c scratch));
  (if (local : bool) then on_sh c (insert_version c.(version)) else mret tt);;
  mret VELOC_IGNORED.

(** [history_lock] makes a command atomic. *)
Definition process_command (c : command_t.t) : comp (S * versioning_t) Z :=
  if c.(command) =? TEST then test c
  else if c.(command) =? CHECKPOINT then checkpoint c
  else if c.(command) =? RESTART then restart c
  else mret VELOC_IGNORED.

End versioning_module.
End versioning_module_t.

Import versioning_module_t.

(** ** Lemmas *)

Lemma latest_spec needed versions r :
  sorted versions → latest needed versions = r →
  (r = VELOC_IGNORED ∧ ∀ x, x ∈ versions → needed ≠ 0 ∧ needed < x) ∨
  (r ∈ versions ∧ (needed ≠ 0 → r ≤ needed) ∧
   ∀ x, x ∈ versions → needed = 0 ∨ x ≤ needed → x ≤ r).
Proof.
  intros Hs <-. unfold latest. case_bool_decide as Hlen.
  { apply length_zero_iff_nil in Hlen as ->. left. split; [done|]. by intros x []%elem_of_nil. }
  destruct (Z.eqb_spec needed 0) as [->|Hne].
  - right. destruct versions as [|x versions _] using rev_ind; [done|]. rewrite rev_app_distr. simpl.
    split; [set_solver|]. split; [done|]. intros y Hy _. by eapply sorted_last.
  - destruct (first_le needed (rev versions)) as [x|] eqn:Hfl; simpl.
    + apply first_le_some in Hfl as (? & ? & Hmax); [|done]. right. split_and!; [done..|].
      intros y Hy [?|?]; [done|]. by apply Hmax.
    + left. split; [done|]. intros x Hx. split; [done|].
      rewrite first_le_none in Hfl. apply Hfl. by rewrite list_elem_of_In, <-in_rev, <-list_elem_of_In.
Qed.

Lemma entry_set_persistent c vs v : entry (persistent_history (set_persistent c vs v)) c = vs.
Proof. unfold entry. simpl. by simplify_map_eq. Qed.
Lemma entry_set_scratch c vs v : entry (scratch_history (set_scratch c vs v)) c = vs.
Proof. unfold entry. simpl. by simplify_map_eq. Qed.

Lemma on_ph_run {S A} c (m : comp (S * zset) A) s v o s' vs :
  m (s, entry v.(persistent_history) c) = (o, (s', vs)) →
  on_ph c m (s, v) = (o, (s', set_persistent c vs v)).
Proof. intros H. unfold on_ph. by rewrite H. Qed.
Lemma on_sh_run {S A} c (m : comp (S * zset) A) s v o s' vs :
  m (s, entry v.(scratch_history) c) = (o, (s', vs)) →
  on_sh c m (s, v) = (o, (s', set_scratch c vs v)).
Proof. intros H. unfold on_sh. by rewrite H. Qed.

Section test.
Context {S : Type} `{HasSys S} (st : storage_module_t S) `{!StorageVersions st}.
Variables (scratch meta : string) (max_versions scratch_versions : Z).

(** The versions available to a command: stored, or in the scratch directory. *)
Definition available (f : gmap string node) (c : command_t.t) (x : Z) : Prop :=
  stored f c x ∨
  (is_dir f scratch = true ∧
   listed f scratch c.(name) (λ id, (id =? ID_EC) || (id =? c.(unique_id))) x).

Lemma test_latest (c : command_t.t) (s : S) (v : versioning_t) :
  c.(command) = TEST → sched (the_sys s) = [] →
  scannable (files (the_sys s)) c = true →
  dir_scannable (files (the_sys s)) scratch c.(name) = true →
  ∃ r v',
    process_command (Some st) scratch meta max_versions scratch_versions c (s, v)
    = (Val r, (s, v')) ∧
    ((r = VELOC_IGNORED ∧
      ∀ x, available (files (the_sys s)) c x → c.(version) ≠ 0 ∧ c.(version) < x) ∨
     (available (files (the_sys s)) c r ∧ (c.(version) ≠ 0 → r ≤ c.(version)) ∧
      ∀ x, available (files (the_sys s)) c x → c.(version) = 0 ∨ x ≤ c.(version) → x ≤ r)).
Proof.
  intros Hc Hsch Hsc1 Hsc2.
  destruct (get_versions_total c s [] Hsch Hsc1) as [[s1 ph] Hph].
  destruct (get_versions_free c s [] _ Hsch sorted_nil Hph) as (Hs1 & Hphs & Hphx). simpl in *. subst s1.
  destruct (scan_total (λ id, (id =? ID_EC) || (id =? unique_id c)) scratch (name c) s [] Hsch Hsc2)
    as [[s1 sh] Hsh].
  destruct (scan_versions _ _ _ _ _ _ Hsch sorted_nil Hsh) as (Hs1 & Hshs & Hshx). simpl in *. subst s1.
  eexists (latest (version c) (set_union ph sh)), _. split.
  { unfold process_command. rewrite Hc. simpl (TEST =? TEST). cbn iota. unfold test.
    erewrite comp_bind_val by done. cbn beta.
    erewrite comp_bind_val by (apply on_ph_run; rewrite entry_set_persistent; exact Hph).
    erewrite comp_bind_val by done. cbn beta.
    erewrite comp_bind_val by (apply on_sh_run; rewrite entry_set_scratch; exact Hsh).
    rewrite get_bind. cbn beta iota zeta.
    rewrite entry_set_scratch. unfold set_scratch at 1. cbn [persistent_history].
    unfold set_scratch at 1. cbn [persistent_history]. by rewrite entry_set_persistent. }
  assert (∀ x, x ∈ set_union ph sh ↔ available (files (the_sys s)) c x) as Hav.
  { intros x. rewrite set_union_elem, Hphx, Hshx. unfold available. rewrite !elem_of_nil. tauto. }
  destruct (latest_spec (version c) (set_union ph sh) _ (set_union_sorted _ _ Hshs) eq_refl)
    as [[Hr Hx]|(Hr & Hle & Hx)]; [left|right]; setoid_rewrite <-Hav; done.
Qed.

(** C13: what the code answers to a [TEST]: the greatest available version not
    above the one asked for (any, when that is 0), and [VELOC_IGNORED] exactly when
    there is none; it changes no file, whatever storage module is in use.  This is
    not what [veloc.h] and [docs/api.rst] document for [VELOC_Restart_test], a
    version strictly below the one asked for and [VELOC_FAILURE] when there is none:
    in particular the version asked for is itself the answer when it is available,
    so that an application which asks again with the version that it found to be
    corrupted, as the documentation suggests, gets that version again. *)
Theorem versioning_test (c : command_t.t) (s : S) (v : versioning_t) :
  c.(command) = TEST → sched (the_sys s) = [] →
  scannable (files (the_sys s)) c = true →
  dir_scannable (files (the_sys s)) scratch c.(name) = true →
  ∃ r v',
    process_command (Some st) scratch meta max_versions scratch_versions c (s, v)
    = (Val r, (s, v')) ∧
    ((r = VELOC_IGNORED ∧
      ∀ x, available (files (the_sys s)) c x → c.(version) ≠ 0 ∧ c.(version) < x) ∨
     (available (files (the_sys s)) c r ∧ (c.(version) ≠ 0 → r ≤ c.(version)) ∧
      ∀ x, available (files (the_sys s)) c x → c.(version) = 0 ∨ x ≤ c.(version) → x ≤ r)) ∧
    (c.(version) ≠ 0 → available (files (the_sys s)) c c.(version) → r = c.(version)).
Proof.
  intros Hc Hsch Hsc1 Hsc2. destruct (test_latest c s v Hc Hsch Hsc1 Hsc2) as (r & v' & Hrun & Hr).
  exists r, v'. split; [exact Hrun|]. split; [exact Hr|]. intros Hne Hav.
  destruct Hr as [[_ Hx]|(_ & Hle & Hx)]; [apply Hx in Hav; lia|].
  specialize (Hle Hne). specialize (Hx _ Hav). lia.
Qed.
End test.

(** Versions 1, 4 on the persistent storage and version 6 in the scratch
    directory; version 5 is asked for. *)
Definition demo_dirs : gmap string node :=
  <["/s" := Dir]> (<["/p" := Dir]> (<["/p/ck-0-1.dat" := Reg demo_data]>
  (<["/p/ck-0-4.dat" := Reg demo_data]> (<["/s/ck-0-6.dat" := Reg demo_data]> ∅)))).
Definition demo_test : command_t.t :=
  {| unique_id := 0; command := TEST; version := 5; offset := 0; name := "ck"; original := "" |}.

Lemma versioning_test_witness :
  let s := mk_sys demo_dirs [] in
  ∃ v', process_command (Some (posix_module_t.storage "/s" "/p")) "/s" "" 0 0 demo_test
          (s, mk_versioning ∅ ∅) = (Val 4, (s, v')) ∧
        available (posix_module_t.storage "/s" "/p") "/s" (files (the_sys s)) demo_test 4.
Proof.
  intros s.
  destruct (versioning_test (posix_module_t.storage "/s" "/p") "/s" "" 0 0 demo_test s
    (mk_versioning ∅ ∅)) as (r & v' & Hrun & Hr & _); [vm_compute; reflexivity..|].
  assert ((process_command (Some (posix_module_t.storage "/s" "/p")) "/s" "" 0 0 demo_test
    (s, mk_versioning ∅ ∅)).1 = Val 4) as Hr4 by (vm_compute; reflexivity).
  rewrite Hrun in Hr4. injection Hr4 as ->. exists v'. split; [exact Hrun|].
  destruct Hr as [[E _]|[Hav _]]; [vm_compute in E; discriminate E|exact Hav].
Defined.

(** ** Pruning *)

Lemma unlink_free f p :
  f !! p ≠ Some Dir →
  ∃ b, unlink p (mk_sys f []) = (Val b, mk_sys (delete p f) []).
Proof.
  intros Hd. unfold unlink. free_run. destruct (f !! p) as [[| |]|] eqn:E; try done; eexists; [done..|].
  by rewrite delete_id.
Qed.

#[export] Instance node_dir_dec (nd : node) : Decision (nd = Dir).
Proof. destruct nd; [right; done..|by left]. Defined.
#[export] Instance lookup_dir_dec (nd : option node) : Decision (nd = Some Dir).
Proof. destruct nd as [[| |]|]; [right; done..|by left|by right]. Defined.

(** [f'] is [f] without the files [R]; a directory stays. *)
Record cleared (R : string → Prop) (f f' : gmap string node) : Prop := {
  cleared_fewer p : f' !! p = f !! p ∨ f' !! p = None;
  cleared_gone p : R p → f !! p ≠ Some Dir → f' !! p = None;
  cleared_same p : ¬ R p ∨ f !! p = Some Dir → f' !! p = f !! p
}.

Lemma cleared_nothing (R : string → Prop) f : (∀ p, ¬ R p) → cleared R f f.
Proof. intros HR. split; intros p; [by left|by intros ?%HR|done]. Qed.

Lemma cleared_trans (R R' : string → Prop) f f' f'' :
  cleared R f f' → cleared R' f' f'' → cleared (λ p, R p ∨ R' p) f f''.
Proof.
  intros [H1 H2 H3] [H1' H2' H3']. split; intros p.
  - destruct (H1' p) as [->|]; [apply H1|by right].
  - intros [HR|HR'] Hd; [destruct (H1' p) as [->|]; [by apply H2|done]|].
    apply H2'; [done|]. destruct (H1 p) as [->| ->]; done.
  - intros [HR|Hd]; [rewrite H3', H3 by tauto; done|].
    rewrite H3'; [apply H3; by right|right]. rewrite H3; [done|by right].
Qed.

(** Only the files that are there matter. *)
Lemma cleared_iff (R R' : string → Prop) f f' :
  (∀ p nd, f !! p = Some nd → nd ≠ Dir → R p ↔ R' p) → cleared R f f' → cleared R' f f'.
Proof.
  intros HR [H1 H2 H3]. split; intros p; [apply H1|..].
  - intros HR' Hd. destruct (f !! p) as [nd|] eqn:E; [|destruct (H1 p); congruence].
    apply H2; [|by rewrite E]. apply (HR p nd); [done|by intros ->|done].
  - intros [HR'|Hd]; [|apply H3; by right]. destruct (f !! p) as [nd|] eqn:E; [|destruct (H1 p); congruence].
    rewrite <-E. apply H3. destruct (decide (nd = Dir)) as [->|Hnd]; [by right|].
    left. by rewrite (HR p nd).
Qed.

Lemma cleared_delete p f f' : cleared (λ q, q = p) f f' → f !! p ≠ Some Dir → f' = delete p f.
Proof.
  intros [_ H2 H3] Hd. apply map_eq. intros q. destruct (decide (q = p)) as [->|Hne].
  - rewrite lookup_delete_eq. by apply H2.
  - rewrite lookup_delete_ne by done. apply H3. by left.
Qed.

Lemma cleared_is_dir R f f' d : cleared R f f' → is_dir f' d = is_dir f d.
Proof.
  intros [H1 _ H3]. unfold is_dir. destruct (f !! d) as [[| |]|] eqn:E;
    [..|rewrite H3 by (by right); by rewrite E|]; destruct (H1 d) as [->| ->]; by rewrite ?E.
Qed.

Lemma cleared_entries R f f' dir n nd : cleared R f f' → (n, nd) ∈ entries f' dir → (n, nd) ∈ entries f dir.
Proof.
  intros Hc [Hl Hd]%entries_elem. apply entries_elem. split; [|done].
  destruct (cleared_fewer _ _ _ Hc (dir +:+ "/" +:+ n)); congruence.
Qed.

Lemma cleared_scannable R f f' dir cname :
  cleared R f f' → dir_scannable f dir cname = true → dir_scannable f' dir cname = true.
Proof.
  intros Hc Hs. unfold dir_scannable in *. zbool. rewrite bool_decide_true by done. simpl.
  apply numerals_fit_intro.
  intros e n nd He Hin Hnd. eapply numerals_fit_spec; [done|done|by eapply cleared_entries|done].
Qed.

Lemma delete_cleared f p : f !! p ≠ Some Dir → cleared (λ q, q = p) f (delete p f).
Proof.
  intros Hd. split; intros q; destruct (decide (q = p)) as [->|Hne];
    rewrite ?lookup_delete_eq, ?lookup_delete_ne by done; naive_solver.
Qed.

(** [unlink] of something that may be there. *)
Lemma unlink_cleared f p :
  ∃ b f', unlink p (mk_sys f []) = (Val b, mk_sys f' []) ∧ cleared (λ q, q = p) f f'.
Proof.
  destruct (decide (f !! p = Some Dir)) as [Hd|Hd].
  - exists false, f. split; [unfold unlink; free_run; by rewrite Hd|].
    split; intros q; [by left| |done]. by intros ->.
  - destruct (unlink_free f p Hd) as [b Hb]. exists b, (delete p f). split; [done|]. by apply delete_cleared.
Qed.

(** The number of versions that are too many, and what a history keeps of the
    versions it has with the new one. *)
Definition excess (limit : Z) (vs : zset) : nat := (length vs - Z.to_nat limit)%nat.
Definition pruned (limit version : Z) (vs : zset) : zset :=
  if 0 <? limit then let all := set_insert version vs in take (excess limit all) all else [].
Definition kept (limit version : Z) (vs : zset) : zset :=
  if 0 <? limit then let all := set_insert version vs in drop (excess limit all) all else vs.

(** [ks] are the newest of [vs] and [version], [ps] the others; a limit of 0 keeps
    what is there. *)
Definition newest (limit version : Z) (vs ps ks : zset) : Prop :=
  if 0 <? limit then
    set_insert version vs = ps ++ ks ∧ Z.of_nat (length ks) ≤ limit ∧
    (ps ≠ [] → Z.of_nat (length ks) = limit) ∧ ∀ x y, x ∈ ps → y ∈ ks → x < y
  else ps = [] ∧ ks = vs.

Lemma pruned_newest limit version vs :
  sorted vs → newest limit version vs (pruned limit version vs) (kept limit version vs).
Proof.
  intros Hs%(set_insert_sorted version). unfold newest, pruned, kept.
  destruct (Z.ltb_spec 0 limit); [|done]. cbv zeta. set (all := set_insert version vs) in *. split_and!.
  - by rewrite take_drop.
  - rewrite length_drop. unfold excess. lia.
  - intros Hne. rewrite length_drop. unfold excess in *.
    destruct (decide (length all ≤ Z.to_nat limit)%nat); [|lia].
    by replace (length all - Z.to_nat limit)%nat with 0%nat in Hne by lia.
  - rewrite <-(take_drop (excess limit all) all) in Hs. by apply sorted_app_inv in Hs as (_ & _ & Hlt).
Qed.

Lemma newest_above limit version vs ps ks x y : newest limit version vs ps ks → x ∈ ps → y ∈ ks → x < y.
Proof. unfold newest. destruct (0 <? limit); [naive_solver|]. by intros [-> _] ?%elem_of_nil. Qed.

Lemma newest_elem limit version vs ps ks x :
  newest limit version vs ps ks → x ∈ ps ∨ x ∈ ks → x = version ∨ x ∈ vs.
Proof.
  unfold newest. destruct (0 <? limit).
  - intros (Hall & _). rewrite <-elem_of_app, <-Hall, set_insert_elem. done.
  - intros [-> ->] [Hx|Hx]; [by apply elem_of_nil in Hx|by right].
Qed.

Section prune.
Context {S : Type} `{HasSys S}.
Variables (scratch persistent meta : string) (max_versions scratch_versions : Z) (c : command_t.t).

Abbreviation path v := (filename (set_version c v) persistent).

(** The files of version [u]: the checkpoint of this rank on the persistent
    storage and the record of its checksum; in the scratch directory those of all
    ranks. *)
Definition version_file (u : Z) (p : string) : Prop :=
  p = path u ∨ (meta ≠ "" ∧ p = meta_filename (set_version c u) meta).
Definition scratch_file (u : Z) (p : string) : Prop :=
  ∃ e n id, command_t.regex c.(name) = Some e ∧ p = scratch +:+ "/" +:+ n ∧
    dirname p = Some scratch ∧ match_ n e = Val (Some (id, u)).

Lemma path_inj v v' :
  wf c = true → 0 ≤ v ≤ INT_MAX → 0 ≤ v' ≤ INT_MAX → path v = path v' → v = v'.
Proof.
  intros Hwf Hv Hv' E. unfold filename in E. simplify_eq.
  apply wf_spec in Hwf as (? & ? & ? & _).
  apply stem_inj_aux in E as (_ & _ & ?); [done|apply wf_spec; simpl; tauto..].
Qed.

(** One round of the first loop. *)
Lemma remove_posix v (vs : zset) (s : S) f :
  the_sys s = mk_sys f [] →
  ∃ s' f', (on_fst (Storage.remove (posix_module_t.storage scratch persistent) (set_version c v));;
      if bool_decide (meta = "") then mret tt
      else on_sys (unlink (meta_filename (set_version c v) meta));; mret tt) (s, vs) = (Val tt, (s', vs)) ∧
    the_sys s' = mk_sys f' [] ∧ cleared (version_file v) f f'.
Proof.
  intros Hs. destruct (unlink_cleared f (path v)) as (b & f1 & Hb & Hc1).
  assert (Storage.remove (posix_module_t.storage scratch persistent) (set_version c v) s
    = (Val b, with_sys s (mk_sys f1 []))) as Hrm by (apply on_sys_run; by rewrite Hs).
  rewrite (comp_bind_val _ _ _ _ _ (on_fst_run _ _ vs _ _ Hrm)). case_bool_decide as Hm.
  - exists (with_sys s (mk_sys f1 [])), f1. split; [done|]. split; [by rewrite the_with_sys|].
    eapply cleared_iff; [|exact Hc1]. intros p ? _ _. unfold version_file. naive_solver.
  - destruct (unlink_cleared f1 (meta_filename (set_version c v) meta)) as (b' & f2 & Hb' & Hc2).
    assert (on_sys (unlink (meta_filename (set_version c v) meta)) (with_sys s (mk_sys f1 []), vs)
      = (Val b', with_sys (with_sys s (mk_sys f1 []), vs) (mk_sys f2 []))) as Hu
      by (apply on_sys_run; simpl; by rewrite the_with_sys).
    rewrite (comp_bind_val _ _ _ _ _ Hu). simpl. eexists _, f2. split; [done|].
    split; [by rewrite the_with_sys|]. eapply cleared_iff; [|exact (cleared_trans _ _ _ _ _ Hc1 Hc2)].
    intros p ? _ _. unfold version_file. naive_solver.
Qed.

Lemma prune_posix ph (s : S) f :
  the_sys s = mk_sys f [] →
  ∃ s' f', prune_persistent meta max_versions (posix_module_t.storage scratch persistent) c ph (s, ph)
      = (Val tt, (s', drop (excess max_versions ph) ph)) ∧
    the_sys s' = mk_sys f' [] ∧
    cleared (λ p, ∃ u, u ∈ take (excess max_versions ph) ph ∧ version_file u p) f f'.
Proof.
  revert s f. induction ph as [|v ph IH]; intros s f Hs.
  { exists s, f. split; [done|]. split; [done|]. apply cleared_nothing.
    rewrite take_nil. by intros p (u & []%elem_of_nil & _). }
  cbn [prune_persistent].
  destruct (Z.leb_spec (Z.of_nat (length (v :: ph))) max_versions);
    unfold excess in *; simpl length in *.
  { exists s, f. replace (Datatypes.S (length ph) - Z.to_nat max_versions)%nat with 0%nat by lia.
    split; [done|]. split; [done|]. apply cleared_nothing.
    by intros p (u & []%elem_of_nil & _). }
  replace (Datatypes.S (length ph) - Z.to_nat max_versions)%nat
    with (Datatypes.S (length ph - Z.to_nat max_versions)) by lia.
  destruct (remove_posix v (v :: ph) s f Hs) as (s1 & f1 & Hrun1 & Hs1 & Hc1).
  destruct (IH s1 f1 Hs1) as (s2 & f2 & Hrun2 & Hs2 & Hc2). exists s2, f2. split.
  { rewrite <-comp_bind_assoc. cbn beta. rewrite (comp_bind_val _ _ _ _ _ Hrun1), modify_bind. exact Hrun2. }
  split; [done|]. eapply cleared_iff; [|exact (cleared_trans _ _ _ _ _ Hc1 Hc2)].
  intros p ? _ _. simpl. setoid_rewrite elem_of_cons. naive_solver.
Qed.

(** The callback of the second loop. *)
Abbreviation remove_if v := (λ f (_ v' : Z), if v' =? v then on_sys (unlink f);; mret tt else mret tt).

Lemma remove_entry e v n nd (vs : zset) (s : S) f :
  the_sys s = mk_sys f [] → (nd ≠ Dir → ∃ m, match_ n e = Val m) →
  ∃ s' f', parse_entry scratch e (remove_if v) (n, nd) (s, vs) = (Val tt, (s', vs)) ∧
    the_sys s' = mk_sys f' [] ∧
    cleared (λ p, ∃ id, nd ≠ Dir ∧ match_ n e = Val (Some (id, v)) ∧ p = scratch +:+ "/" +:+ n) f f'.
Proof.
  intros Hs Hes. unfold parse_entry. destruct (decide (nd = Dir)) as [->|Hnd].
  { exists s, f. split; [done|]. split; [done|]. apply cleared_nothing. naive_solver. }
  destruct (Hes Hnd) as [m Hm].
  assert (∀ A (x y : A), match nd with Dir => x | _ => y end = y) as Hcase by by destruct nd.
  rewrite Hcase, Hm, stop_bind. destruct m as [[id v']|]; [destruct (Z.eqb_spec v' v) as [->|Hne]|].
  - destruct (unlink_cleared f (scratch +:+ "/" +:+ n)) as (b & f1 & Hb & Hc1).
    exists (with_sys s (mk_sys f1 [])), f1. split; [|split; [by rewrite the_with_sys|]].
    + assert (on_sys (unlink (scratch +:+ "/" +:+ n)) (s, vs) = (Val b, (with_sys s (mk_sys f1 []), vs))) as Hu
        by (unfold on_sys; simpl; by rewrite Hs, Hb).
      by rewrite (comp_bind_val _ _ _ _ _ Hu).
    + eapply cleared_iff; [|exact Hc1]. intros p ? _ _. naive_solver.
  - exists s, f. split; [done|]. split; [done|]. apply cleared_nothing. naive_solver.
  - exists s, f. split; [done|]. split; [done|]. apply cleared_nothing. naive_solver.
Qed.

Lemma remove_entries e v es (vs : zset) (s : S) f :
  the_sys s = mk_sys f [] → (∀ n nd, (n, nd) ∈ es → nd ≠ Dir → ∃ m, match_ n e = Val m) →
  ∃ s' f', mforeach (parse_entry scratch e (remove_if v)) es (s, vs) = (Val tt, (s', vs)) ∧
    the_sys s' = mk_sys f' [] ∧
    cleared (λ p, ∃ n nd id, (n, nd) ∈ es ∧ nd ≠ Dir ∧ match_ n e = Val (Some (id, v)) ∧
      p = scratch +:+ "/" +:+ n) f f'.
Proof.
  revert s f. induction es as [|[n nd] es IH]; intros s f Hs Hes.
  { exists s, f. split; [done|]. split; [done|]. apply cleared_nothing.
    by intros p (n & nd & id & []%elem_of_nil & _). }
  destruct (remove_entry e v n nd vs s f Hs) as (s1 & f1 & Hrun1 & Hs1 & Hc1); [apply Hes; by left|].
  destruct (IH s1 f1 Hs1) as (s2 & f2 & Hrun2 & Hs2 & Hc2).
  { intros n' nd' Hin. apply Hes. by right. }
  exists s2, f2. cbn [mforeach]. split; [by rewrite (comp_bind_val _ _ _ _ _ Hrun1)|].
  split; [done|]. eapply cleared_iff; [|exact (cleared_trans _ _ _ _ _ Hc1 Hc2)].
  intros p ? _ _. simpl. setoid_rewrite elem_of_cons. naive_solver.
Qed.

Lemma remove_version_run v (vs : zset) (s : S) f :
  the_sys s = mk_sys f [] → dir_scannable f scratch c.(name) = true →
  ∃ s' f', remove_version scratch c.(name) v (s, vs) = (Val tt, (s', vs)) ∧ the_sys s' = mk_sys f' [] ∧
    cleared (λ p, is_dir f scratch = true ∧ scratch_file v p) f f'.
Proof.
  intros Hs Hscan. unfold remove_version, parse_dir.
  assert (on_sys (opendir scratch) (s, vs) = (Val (is_dir f scratch), (s, vs))) as Ho.
  { eapply on_sys_same; [exact Hs|]. unfold opendir. by free_run. }
  rewrite comp_bind_assoc, (comp_bind_val _ _ _ _ _ Ho). cbn beta.
  destruct (is_dir f scratch); cbn [negb].
  - unfold dir_scannable in Hscan. zbool. destruct (command_t.regex (name c)) as [e|] eqn:He; [|by destruct H0].
    rewrite comp_bind_assoc, gets_bind.
    destruct (remove_entries e v (entries f scratch) vs s f Hs) as (s1 & f1 & Hrun & Hs1 & Hc).
    { intros n nd. by apply (numerals_fit_spec _ _ _ _ n nd H1). }
    exists s1, f1. split; [|split; [done|]].
    + rewrite comp_bind_assoc. simpl. rewrite Hs. simpl. by rewrite (comp_bind_val _ _ _ _ _ Hrun).
    + eapply cleared_iff; [|exact Hc]. intros p nd Hp Hnd. unfold scratch_file. split.
      * intros (n & nd' & id & Hin & _ & Hm & ->). apply entries_elem in Hin as [_ Hd].
        split; [done|]. by exists e, n, id.
      * intros (_ & e' & n & id & He' & -> & Hd & Hm). simplify_eq. exists n, nd, id.
        split; [by apply entries_elem|done].
  - exists s, f. split; [done|]. split; [done|]. apply cleared_nothing. by intros p [? _].
Qed.

Lemma prune_scratch_run sh (s : S) f :
  the_sys s = mk_sys f [] → dir_scannable f scratch c.(name) = true →
  ∃ s' f', prune_scratch scratch scratch_versions c sh (s, sh)
      = (Val tt, (s', drop (excess scratch_versions sh) sh)) ∧
    the_sys s' = mk_sys f' [] ∧
    cleared (λ p, ∃ u, u ∈ take (excess scratch_versions sh) sh ∧ is_dir f scratch = true ∧ scratch_file u p) f f'.
Proof.
  revert s f. induction sh as [|v sh IH]; intros s f Hs Hscan.
  { exists s, f. split; [done|]. split; [done|]. apply cleared_nothing.
    rewrite take_nil. by intros p (u & []%elem_of_nil & _). }
  cbn [prune_scratch].
  destruct (Z.leb_spec (Z.of_nat (length (v :: sh))) scratch_versions);
    unfold excess in *; simpl length in *.
  { exists s, f. replace (Datatypes.S (length sh) - Z.to_nat scratch_versions)%nat with 0%nat by lia.
    split; [done|]. split; [done|]. apply cleared_nothing.
    by intros p (u & []%elem_of_nil & _). }
  replace (Datatypes.S (length sh) - Z.to_nat scratch_versions)%nat
    with (Datatypes.S (length sh - Z.to_nat scratch_versions)) by lia.
  destruct (remove_version_run v (v :: sh) s f Hs Hscan) as (s1 & f1 & Hrun1 & Hs1 & Hc1).
  destruct (IH s1 f1 Hs1) as (s2 & f2 & Hrun2 & Hs2 & Hc2); [by eapply cleared_scannable|].
  exists s2, f2. split; [by rewrite (comp_bind_val _ _ _ _ _ Hrun1), modify_bind|].
  split; [done|]. eapply cleared_iff; [|exact (cleared_trans _ _ _ _ _ Hc1 Hc2)].
  intros p ? _ _. simpl. rewrite (cleared_is_dir _ _ _ _ Hc1). setoid_rewrite elem_of_cons. naive_solver.
Qed.

(** What a checkpoint removes from the files [f] with the versions [ps] and [ss]. *)
Definition removed (f : gmap string node) (ps ss : zset) (p : string) : Prop :=
  (∃ u, u ∈ ps ∧ version_file u p) ∨ (∃ u, u ∈ ss ∧ is_dir f scratch = true ∧ scratch_file u p).

Definition pruned_history (limit : Z) (h : history) : history :=
  if 0 <? limit then <[key c := kept limit c.(version) (entry h c)]> h else h.

Lemma entry_pruned limit h : entry (pruned_history limit h) c = kept limit c.(version) (entry h c).
Proof.
  unfold pruned_history, kept. destruct (0 <? limit); [|done]. unfold entry. by rewrite lookup_insert_eq.
Qed.

Lemma checkpoint_persistent (s : S) f v :
  the_sys s = mk_sys f [] →
  ∃ s' f', (if 0 <? max_versions
      then on_ph c (insert_version c.(version);; '(_, ph) ← get;
        prune_persistent meta max_versions (posix_module_t.storage scratch persistent) c ph)
      else mret tt) (s, v)
    = (Val tt, (s', mk_versioning (pruned_history max_versions v.(persistent_history)) v.(scratch_history))) ∧
    the_sys s' = mk_sys f' [] ∧
    cleared (λ p, ∃ u, u ∈ pruned max_versions c.(version) (entry v.(persistent_history) c) ∧ version_file u p) f f'.
Proof.
  intros Hs. unfold pruned, pruned_history, kept. destruct (0 <? max_versions).
  - destruct (prune_posix (set_insert c.(version) (entry v.(persistent_history) c)) s f Hs)
      as (s1 & f1 & Hrun & Hs1 & Hc). exists s1, f1. split; [|done].
    apply (on_ph_run c _ s v). unfold insert_version. rewrite modify_bind, get_bind. exact Hrun.
  - exists s, f. split; [by destruct v|]. split; [done|]. apply cleared_nothing.
    by intros p (u & []%elem_of_nil & _).
Qed.

Lemma checkpoint_cached (s : S) f v :
  the_sys s = mk_sys f [] → (0 < scratch_versions → dir_scannable f scratch c.(name) = true) →
  ∃ s' f', (if 0 <? scratch_versions
      then on_sh c (insert_version c.(version);; '(_, sh) ← get; prune_scratch scratch scratch_versions c sh)
      else mret tt) (s, v)
    = (Val tt, (s', mk_versioning v.(persistent_history) (pruned_history scratch_versions v.(scratch_history)))) ∧
    the_sys s' = mk_sys f' [] ∧
    cleared (λ p, ∃ u, u ∈ pruned scratch_versions c.(version) (entry v.(scratch_history) c) ∧
      is_dir f scratch = true ∧ scratch_file u p) f f'.
Proof.
  intros Hs Hscan. unfold pruned, pruned_history, kept. destruct (Z.ltb_spec 0 scratch_versions).
  - destruct (prune_scratch_run (set_insert c.(version) (entry v.(scratch_history) c)) s f Hs)
      as (s1 & f1 & Hrun & Hs1 & Hc); [by auto|]. exists s1, f1. split; [|done].
    apply (on_sh_run c _ s v). unfold insert_version. rewrite modify_bind, get_bind. exact Hrun.
  - exists s, f. split; [by destruct v|]. split; [done|]. apply cleared_nothing.
    by intros p (u & []%elem_of_nil & _).
Qed.

Lemma checkpoint_prunes (s : S) f v :
  the_sys s = mk_sys f [] → (0 < scratch_versions → dir_scannable f scratch c.(name) = true) →
  ∃ s' f', checkpoint (Some (posix_module_t.storage scratch persistent)) scratch meta max_versions
        scratch_versions c (s, v)
      = (Val VELOC_SUCCESS, (s', mk_versioning (pruned_history max_versions v.(persistent_history))
          (pruned_history scratch_versions v.(scratch_history)))) ∧
    the_sys s' = mk_sys f' [] ∧
    cleared (removed f (pruned max_versions c.(version) (entry v.(persistent_history) c))
      (pruned scratch_versions c.(version) (entry v.(scratch_history) c))) f f'.
Proof.
  intros Hs Hscan. unfold checkpoint.
  destruct (checkpoint_persistent s f v Hs) as (s1 & f1 & Hrun1 & Hs1 & Hc1).
  rewrite (comp_bind_val _ _ _ _ _ Hrun1).
  destruct (checkpoint_cached s1 f1 (mk_versioning (pruned_history max_versions v.(persistent_history))
    v.(scratch_history)) Hs1) as (s2 & f2 & Hrun2 & Hs2 & Hc2); [by intros ?; eapply cleared_scannable; [|auto]|].
  rewrite (comp_bind_val _ _ _ _ _ Hrun2). exists s2, f2. split; [done|]. split; [done|].
  eapply cleared_iff; [|exact (cleared_trans _ _ _ _ _ Hc1 Hc2)].
  intros p ? _ _. by rewrite (cleared_is_dir _ _ _ _ Hc1).
Qed.

(** *** What is kept *)

Hypothesis c_wf : wf c = true.

Lemma version_wf u : 0 ≤ u ≤ INT_MAX → wf (set_version c u) = true.
Proof using c_wf. pose proof (proj1 (wf_spec _) c_wf) as (? & ? & ? & _). intros Hu. by apply wf_spec. Qed.

Lemma dirname_version_record u : 0 ≤ u ≤ INT_MAX → dirname (meta_filename (set_version c u) meta) = Some meta.
Proof using c_wf.
  intros Hu%version_wf. unfold meta_filename, filename. rewrite !sapp_assoc. apply dirname_app.
  rewrite scount_app. by rewrite stem_no_slash.
Qed.

Lemma record_inj u u' :
  0 ≤ u ≤ INT_MAX → 0 ≤ u' ≤ INT_MAX →
  meta_filename (set_version c u) meta = meta_filename (set_version c u') meta → u = u'.
Proof using c_wf.
  intros Hu Hu' E%sapp_inj_r. unfold filename in E. simplify_eq.
  by apply stem_inj_aux in E as (_ & _ & ?); [|apply version_wf..].
Qed.

(** Files of versions that differ from all those removed. *)
Lemma version_stays f ps ss u :
  Forall (λ x, 0 ≤ x ≤ INT_MAX) (u :: ps) → u ∉ ps →
  (scratch ≠ persistent → ¬ removed f ps ss (path u)) ∧
  (meta ≠ scratch → ¬ removed f ps ss (meta_filename (set_version c u) meta)).
Proof using c_wf.
  intros [Hu Hps]%Forall_cons Hnin. rewrite Forall_forall in Hps. split.
  - intros Hne [(x & Hx & [Heq|[_ Heq]])|(x & _ & _ & e & n & id & _ & _ & Hd & _)].
    + apply path_inj in Heq; [by subst|done|done|auto].
    + symmetry in Heq. by apply record_not_file in Heq.
    + rewrite dirname_filename in Hd by by apply version_wf. by injection Hd as ->.
  - intros Hne [(x & Hx & [Heq|[_ Heq]])|(x & _ & _ & e & n & id & _ & _ & Hd & _)].
    + by apply record_not_file in Heq.
    + apply record_inj in Heq; [by subst|done|auto].
    + rewrite dirname_version_record in Hd by done. by injection Hd as ->.
Qed.

Lemma scratch_stays f ps ss u p :
  Forall (λ x, 0 ≤ x ≤ INT_MAX) ps → u ∉ ss → scratch ≠ persistent → meta ≠ scratch → scratch_file u p →
  ¬ removed f ps ss p.
Proof using c_wf.
  intros Hps Hnin Hne Hnm (e & n & id & He & -> & Hd & Hm). rewrite Forall_forall in Hps.
  intros [(x & Hx & [Heq|[_ Heq]])|(x & Hx & _ & e' & n' & id' & He' & Heq & _ & Hm')].
  - rewrite Heq, dirname_filename in Hd by (apply version_wf; auto). by injection Hd as ->.
  - rewrite Heq, dirname_version_record in Hd by auto. by injection Hd as ->.
  - simplify_eq. congruence.
Qed.
End prune.

(** C12: what a checkpoint command keeps, with any limits and with or without a
    metadata directory.  The history of the persistent storage is cut down to the
    newest [max_versions] versions and that of the scratch directory to the newest
    [scratch_versions] (a limit of 0 keeps all).  Removed are exactly: for each
    version dropped from the first, the file of this rank on the persistent storage
    and, with a metadata directory, the record of its checksum; for each version
    dropped from the second, the files of all ranks in the scratch directory.  The
    files of the versions kept are untouched (for the records, and in the scratch
    directory, when the metadata are not in the scratch directory itself). *)
Theorem versioning_keeps_newest {S : Type} `{HasSys S} (scratch persistent meta : string)
    (max_versions scratch_versions : Z) (c : command_t.t) (s : S) (f : gmap string node) (v : versioning_t) :
  c.(command) = CHECKPOINT → wf c = true → the_sys s = mk_sys f [] → scratch ≠ persistent →
  let ph := entry v.(persistent_history) c in
  let sh := entry v.(scratch_history) c in
  sorted ph → sorted sh → Forall (λ u, 0 ≤ u ≤ INT_MAX) ph →
  (0 < scratch_versions → dir_scannable f scratch c.(name) = true) →
  ∃ s' v' ps ks ss ls,
    process_command (Some (posix_module_t.storage scratch persistent)) scratch meta max_versions
      scratch_versions c (s, v) = (Val VELOC_SUCCESS, (s', v')) ∧
    newest max_versions c.(version) ph ps ks ∧ entry v'.(persistent_history) c = ks ∧
    newest scratch_versions c.(version) sh ss ls ∧ entry v'.(scratch_history) c = ls ∧
    sched (the_sys s') = [] ∧ cleared (removed scratch persistent meta c f ps ss) f (files (the_sys s')) ∧
    (∀ u, u ∈ ks → files (the_sys s') !! filename (set_version c u) persistent
                   = f !! filename (set_version c u) persistent) ∧
    (meta ≠ scratch →
      (∀ u, u ∈ ks → files (the_sys s') !! meta_filename (set_version c u) meta
                     = f !! meta_filename (set_version c u) meta) ∧
      (∀ u p, u ∈ ls → scratch_file scratch c u p → files (the_sys s') !! p = f !! p)).
Proof.
  intros Hc Hwf Hs Hne ph sh Hph Hsh Hall Hscan. rewrite Forall_forall in Hall.
  pose proof (pruned_newest max_versions c.(version) ph Hph) as Hn1.
  pose proof (pruned_newest scratch_versions c.(version) sh Hsh) as Hn2.
  destruct (checkpoint_prunes scratch persistent meta max_versions scratch_versions c s f v Hs Hscan)
    as (s' & f' & Hrun & Hs' & Hcl). fold ph sh in Hcl.
  set (ps := pruned max_versions c.(version) ph) in *. set (ks := kept max_versions c.(version) ph) in *.
  assert (∀ x, x ∈ ps ∨ x ∈ ks → 0 ≤ x ≤ INT_MAX) as Hint.
  { intros x Hx. apply (newest_elem _ _ _ _ _ _ Hn1) in Hx as [->|Hx]; [|by apply Hall].
    by apply wf_spec in Hwf as (_ & _ & _ & ?). }
  assert (∀ u, u ∈ ks → Forall (λ x, 0 ≤ x ≤ INT_MAX) (u :: ps) ∧ u ∉ ps) as Hkept.
  { intros u Hu. split; [apply Forall_forall; intros x [->|Hx]%elem_of_cons; auto|].
    intros Hx. pose proof (newest_above _ _ _ _ _ _ _ Hn1 Hx Hu). lia. }
  eexists s', _, ps, ks, _, _. rewrite Hs'. split.
  { unfold process_command. rewrite Hc. exact Hrun. }
  split; [exact Hn1|]. split; [apply entry_pruned|]. split; [exact Hn2|]. split; [apply entry_pruned|].
  split; [done|]. split; [exact Hcl|]. destruct Hcl as [_ _ Hsame]. split; [|intros Hnm; split].
  - intros u [H1 H2]%Hkept. apply Hsame. left. by apply version_stays.
  - intros u [H1 H2]%Hkept. apply Hsame. left. by apply version_stays.
  - intros u p Hu Hp. apply Hsame. left. apply (scratch_stays _ _ _ _ Hwf _ _ _ u); try done.
    + apply Forall_forall. auto.
    + intros Hx. pose proof (newest_above _ _ _ _ _ _ _ Hn2 Hx Hu). lia.
Qed.

Definition demo_ckpt (v : Z) : command_t.t :=
  {| unique_id := 0; command := CHECKPOINT; version := v; offset := 0; name := "ck"; original := "" |}.
Definition demo_history : versioning_t := mk_versioning {[("ck", 0) := [1; 4]]} ∅.

(** Two versions are kept on the persistent storage, one in the scratch
    directory, which has version 6 of two ranks and version 3 of one. *)
Definition demo_scratch : gmap string node :=
  <["/s/ck-1-6.dat" := Reg demo_data]> (<["/s/ck-0-3.dat" := Reg demo_data]>
  (<["/m/ck-0-1.dat.chksum" := Reg demo_data]> demo_dirs)).
Definition demo_histories : versioning_t := mk_versioning {[("ck", 0) := [1; 4]]} {[("ck", 0) := [3]]}.

Lemma versioning_keeps_newest_witness :
  ∃ (s' : sys) v' ps, process_command (Some (posix_module_t.storage "/s" "/p")) "/s" "/m" 2 1 (demo_ckpt 6)
      (mk_sys demo_scratch [], demo_histories) = (Val VELOC_SUCCESS, (s', v')) ∧
    newest 2 6 [1; 4] ps (entry v'.(persistent_history) (demo_ckpt 6)).
Proof.
  destruct (versioning_keeps_newest "/s" "/p" "/m" 2 1 (demo_ckpt 6) (mk_sys demo_scratch []) demo_scratch
    demo_histories) as (s' & v' & ps & ks & ss & ls & Hrun & Hn & Hk & _);
    [reflexivity|vm_compute; reflexivity|reflexivity|discriminate|repeat constructor|repeat constructor
    |repeat constructor; vm_compute; discriminate|intros _; vm_compute; reflexivity|].
  exists s', v', ps. split; [exact Hrun|]. rewrite Hk. exact Hn.
Defined.

Lemma set_insert_below v l : Forall (Z.lt v) l → set_insert v l = v :: l.
Proof.
  destruct l as [|x l]; [done|]. intros [Hx _]%Forall_cons. simpl.
  by destruct (Z.ltb_spec v x); [|lia].
Qed.

(** The versions that are pruned are the smallest, not the oldest: a
    checkpoint whose version is below a full history, as after a restart from an
    earlier version, is itself removed from the persistent storage, and the
    command still succeeds. *)
Theorem versioning_prunes_new {S : Type} `{HasSys S} (scratch persistent : string)
    (max_versions : Z) (c : command_t.t) (s : S) (f : gmap string node) (v : versioning_t) :
  c.(command) = CHECKPOINT → the_sys s = mk_sys f [] → 0 < max_versions →
  Forall (Z.lt c.(version)) (entry v.(persistent_history) c) →
  max_versions ≤ Z.of_nat (length (entry v.(persistent_history) c)) →
  (∀ u, f !! filename (set_version c u) persistent ≠ Some Dir) →
  ∃ s' v',
    process_command (Some (posix_module_t.storage scratch persistent)) scratch "" max_versions 0 c (s, v)
    = (Val VELOC_SUCCESS, (s', v')) ∧
    files (the_sys s') !! filename c persistent = None.
Proof.
  intros Hc Hs Hmax Hbelow Hfull Hdir.
  destruct (checkpoint_prunes scratch persistent "" max_versions 0 c s f v Hs) as (s' & f' & Hrun & Hs' & Hcl);
    [done|].
  eexists s', _. split.
  { unfold process_command. rewrite Hc. exact Hrun. }
  rewrite Hs'. simpl.
  assert (c = set_version c (version c)) as Hcv by by destruct c.
  replace (filename c persistent) with (filename (set_version c (version c)) persistent)
    by by rewrite <-Hcv.
  apply (cleared_gone _ _ _ Hcl); [|apply Hdir]. left. exists (version c). split; [|by left].
  unfold pruned. destruct (Z.ltb_spec 0 max_versions); [|lia]. rewrite set_insert_below by done.
  unfold excess. simpl length.
  replace (Datatypes.S (length (entry (persistent_history v) c)) - Z.to_nat max_versions)%nat
    with (Datatypes.S (length (entry (persistent_history v) c) - Z.to_nat max_versions)) by lia.
  left.
Qed.

Lemma versioning_prunes_new_witness :
  ∃ (s' : sys) v', process_command (Some (posix_module_t.storage "/s" "/p")) "/s" "" 2 0 (demo_ckpt 1)
      (mk_sys demo_dirs [], mk_versioning {[("ck", 0) := [4; 6]]} ∅) = (Val VELOC_SUCCESS, (s', v')) ∧
    files (the_sys s') !! filename (demo_ckpt 1) "/p" = None.
Proof.
  apply (versioning_prunes_new "/s" "/p" 2 (demo_ckpt 1) (mk_sys demo_dirs []) demo_dirs
    (mk_versioning {[("ck", 0) := [4; 6]]} ∅));
    [reflexivity|reflexivity|reflexivity|repeat constructor|vm_compute; discriminate|].
  intros u Hu. unfold demo_dirs in Hu. rewrite !lookup_insert_Some in Hu.
  destruct Hu as [[E _]|[_ [[E _]|[_ Hu]]]]; [discriminate..|].
  repeat destruct Hu as [[_ E]|[_ Hu]]; by try discriminate.
Defined.
