(* ===== verification/Environment.v ===== *)
(** * Environment: what the modules of the backend run in

    The file system together with the clock.  [std::chrono::system_clock::now()]
    returns a new reading at every call; the readings are an arbitrary function
    of the number of the call, so a theorem about them holds for every clock.
    Time points and durations are in nanoseconds, and far from the limits of
    their 64 bits. *)

From S2P Require Import Prelude Text Command FileSystem Containers FileUtil Storage AggStorage.

Local Open Scope Z_scope.

Record env := mk_env {
  env_sys : sys;
  clock : nat → Z;
  readings : nat
}.

Global Program Instance env_has_sys : HasSys env := {|
  the_sys := env_sys;
  with_sys e s := mk_env s e.(clock) e.(readings)
|}.
Next Obligation. done. Qed.
Next Obligation. by intros []. Qed.

(** [std::chrono::system_clock::now()] *)
Definition now : comp env Z := λ e,
  (Val (e.(clock) e.(readings)), mk_env e.(env_sys) e.(clock) (S e.(readings))).

(** The environment after the clock was read. *)
Definition tick (e : env) : env := mk_env e.(env_sys) e.(clock) (S e.(readings)).

(** [std::chrono::seconds(n)] *)
Definition seconds (n : Z) : Z := n * 1000000000.

(** Time does not run backwards. *)
Definition monotone (c : nat → Z) : Prop := ∀ i j, (i ≤ j)%nat → c i ≤ c j.

(** Code that leaves the clock alone: it may read it, but not set it. *)
Definition keeps_clock {A} (m : comp env A) : Prop := ∀ e o e',
  m e = (o, e') → e'.(clock) = e.(clock) ∧ (e.(readings) ≤ e'.(readings))%nat.

Lemma keeps_clock_on_sys {A} (m : posix A) : keeps_clock (on_sys m).
Proof. intros e o e' (s' & _ & ->)%on_sys_inv. done. Qed.

(** What the modules expect of a storage module with respect to time. *)
Class StorageClock (st : storage_module_t env) := {
  flush_clock c : keeps_clock (st.(flush) c);
  restore_clock c : keeps_clock (st.(restore) c);
  exists_clock c : keeps_clock (st.(exists_) c)
}.

Global Instance posix_clock scratch persistent :
  StorageClock (posix_module_t.storage scratch persistent).
Proof. split; intros c; apply keeps_clock_on_sys. Qed.

Global Instance posix_agg_clock scratch persistent meta :
  StorageClock (posix_agg_module_t.storage scratch persistent meta).
Proof. split; intros c; apply keeps_clock_on_sys. Qed.

Lemma on_fst_inv {S R A} (m : comp S A) s (r : R) o s' r' :
  on_fst m (s, r) = (o, (s', r')) → m s = (o, s') ∧ r' = r.
Proof. unfold on_fst. destruct (m s). intros. by simplify_eq. Qed.

(** [p->f()] of a pointer that may be [NULL] *)
Definition deref {S A} (p : option A) : comp S A :=
  match p with Some a => mret a | None => stop Undef end.
