(* ===== verification/Queue.v ===== *)
(** * Queue: what the clients and the backend expect of their queue

    [src/common/ipc_queue.hpp], [socket_queue.hpp] and [thallium_queue.hpp] are
    three implementations of one contract, which this file states for a single
    client: elements are enqueued, delivered to the backend in the same order,
    completed with a status in any order, and a wait returns when none is
    outstanding, with the status of all of them. *)

From S2P Require Import Prelude.

Local Open Scope Z_scope.

(** ** Statuses *)

(** How a completion changes the status of a queue: [if (q->status < 0 || status <
    0) q->status = min(...) else q->status = max(...)]. *)
Definition merge_status (status s : Z) : Z :=
  if (status <? 0) || (s <? 0) then Z.min status s else Z.max status s.

(** The status of a series of completions. *)
Definition merge_all (l : list Z) : Z := foldr merge_status VELOC_SUCCESS l.

Lemma merge_comm a b : merge_status a b = merge_status b a.
Proof. unfold merge_status. rewrite orb_comm, Z.min_comm, Z.max_comm. done. Qed.

Lemma merge_assoc a b c : merge_status a (merge_status b c) = merge_status (merge_status a b) c.
Proof.
  unfold merge_status. destruct (Z.ltb_spec a 0), (Z.ltb_spec b 0), (Z.ltb_spec c 0); simpl;
    repeat match goal with |- context [?x <? 0] => destruct (Z.ltb_spec x 0); simpl end; lia.
Qed.

Global Instance merge_all_proper : Proper (Permutation ==> eq) merge_all.
Proof.
  intros l k Hp. induction Hp as [|x l k _ IH|x y l|l k m _ IH1 _ IH2]; simpl; [done|by rewrite IH| |congruence].
  by rewrite !merge_assoc, (merge_comm x y).
Qed.

(** A negative status prevails, and the smallest of them. *)
Lemma merge_all_spec l :
  (Exists (λ s, s < 0) l → merge_all l < 0 ∧ merge_all l ∈ l ∧ Forall (λ s, merge_all l ≤ s) l) ∧
  (Forall (λ s, 0 ≤ s) l → 0 ≤ merge_all l ∧ Forall (λ s, s ≤ merge_all l) l).
Proof.
  induction l as [|x l [IHn IHp]]; simpl.
  { split; [by intros ?%Exists_nil|]. intros _. by unfold merge_all, VELOC_SUCCESS. }
  change (merge_all (x :: l)) with (merge_status x (merge_all l)). split.
  - intros He. assert (Exists (λ s, s < 0) l ∨ Forall (λ s, 0 ≤ s) l) as [Hl|Hl].
    { destruct (decide (Exists (λ s, s < 0) l)) as [|Hn]; [by left|right].
      rewrite <-Forall_Exists_neg in Hn. eapply Forall_impl; [exact Hn|]. simpl. lia. }
    + destruct (IHn Hl) as (Hneg & Hin & Hall). unfold merge_status.
      destruct (Z.ltb_spec (merge_all l) 0); [|lia]. rewrite orb_true_r.
      split_and!; [lia| |].
      * destruct (Z.min_spec x (merge_all l)) as [[_ ->]|[_ ->]]; set_solver.
      * constructor; [lia|]. eapply Forall_impl; [exact Hall|]. simpl. lia.
    + destruct (IHp Hl) as [Hpos Hall]. apply Exists_cons in He as [Hx|He].
      * unfold merge_status. destruct (Z.ltb_spec x 0); [|lia]. simpl.
        rewrite Z.min_l by lia. split_and!; [done|by left|].
        constructor; [done|]. eapply Forall_impl; [exact Hl|]. simpl. lia.
      * exfalso. apply Exists_exists in He as (s & Hs & ?). rewrite Forall_forall in Hl.
        specialize (Hl s Hs). lia.
  - intros [Hx Hl]%Forall_cons. destruct (IHp Hl) as [Hpos Hall]. unfold merge_status.
    destruct (Z.ltb_spec x 0), (Z.ltb_spec (merge_all l) 0); try lia. simpl.
    split; [lia|]. constructor; [lia|]. eapply Forall_impl; [exact Hall|]. simpl. lia.
Qed.

(** ** The contract *)

Inductive label (T : Type) :=
| Enqueue (e : T)
| Deliver (e : T)
| Complete (e : T) (status : Z)
| Wait (result : Z).
Arguments Enqueue {T} _.
Arguments Deliver {T} _.
Arguments Complete {T} _ _.
Arguments Wait {T} _.

(** What has not been delivered, what has been delivered and not completed, and the
    statuses since the last wait. *)
Record contract (T : Type) := mk_contract {
  queued : list T;
  taken : list T;
  statuses : list Z
}.
Arguments mk_contract {T} _ _ _.
Arguments queued {T} _.
Arguments taken {T} _.
Arguments statuses {T} _.

Inductive contract_step {T} : contract T → label T → contract T → Prop :=
| contract_enqueue q t ss e :
    contract_step (mk_contract q t ss) (Enqueue e) (mk_contract (q ++ [e]) t ss)
| contract_deliver q t ss e :
    contract_step (mk_contract (e :: q) t ss) (Deliver e) (mk_contract q (t ++ [e]) ss)
| contract_complete q t t' ss e s :
    t ≡ₚ e :: t' →
    contract_step (mk_contract q t ss) (Complete e s) (mk_contract q t' (s :: ss))
| contract_wait ss :
    contract_step (mk_contract [] [] ss) (Wait (merge_all ss)) (mk_contract [] [] []).

Definition no_elements {T} : contract T := mk_contract [] [] [].

(** Executions: the visible labels in order; [None] is a step that the client
    does not see. *)
Inductive execution {S L : Type} (step : S → option L → S → Prop) : S → list L → S → Prop :=
| execution_nil s : execution step s [] s
| execution_silent s1 s2 s3 tr :
    step s1 None s2 → execution step s2 tr s3 → execution step s1 tr s3
| execution_visible s1 s2 s3 l tr :
    step s1 (Some l) s2 → execution step s2 tr s3 → execution step s1 (l :: tr) s3.

Lemma execution_split {S L} (step : S → option L → S → Prop) x tr1 l tr2 z :
  execution step x (tr1 ++ l :: tr2) z →
  ∃ y y', execution step x tr1 y ∧ step y (Some l) y' ∧ execution step y' tr2 z.
Proof.
  intros He. remember (tr1 ++ l :: tr2) as tr eqn:Htr. revert tr1 Htr.
  induction He as [x|x y z tr Hs _ IH|x y z l' tr Hs He IH]; intros tr1 Htr.
  - by destruct tr1.
  - destruct (IH tr1 Htr) as (u & w & H1 & H2 & H3). exists u, w. split; [by eapply execution_silent|done].
  - destruct tr1 as [|l1 tr1]; simplify_eq/=; [exists x, y; split; [constructor|done]|].
    destruct (IH tr1 eq_refl) as (u & w & H1 & H2 & H3). exists u, w. split; [by eapply execution_visible|done].
Qed.

Inductive contract_run {T} : contract T → list (label T) → contract T → Prop :=
| run_nil s : contract_run s [] s
| run_cons s1 s2 s3 l tr :
    contract_step s1 l s2 → contract_run s2 tr s3 → contract_run s1 (l :: tr) s3.

(** What an implementation shows to be a refinement: a relation to the contract
    that holds at the start and that every step keeps. *)
Class Refines {S T : Type} (step : S → option (label T) → S → Prop) (start : S) := {
  refines : S → contract T → Prop;
  refines_start : refines start no_elements;
  refines_silent s1 s2 k : step s1 None s2 → refines s1 k → refines s2 k;
  refines_visible s1 l s2 k :
    step s1 (Some l) s2 → refines s1 k → ∃ k', contract_step k l k' ∧ refines s2 k'
}.

Lemma refinement_run {S T} (step : S → option (label T) → S → Prop) start `{!Refines step start}
    s tr s' k :
  execution step s tr s' → refines s k → ∃ k', contract_run k tr k' ∧ refines s' k'.
Proof.
  intros He. revert k. induction He as [s|s1 s2 s3 tr Hs _ IH|s1 s2 s3 l tr Hs _ IH]; intros k Hk.
  - exists k. split; [constructor|done].
  - apply IH. by eapply refines_silent.
  - destruct (refines_visible _ _ _ _ Hs Hk) as (k1 & Hk1 & Hr1).
    destruct (IH k1 Hr1) as (k2 & Hk2 & Hr2). exists k2. split; [by econstructor|done].
Qed.

(** A wait tells of every failure since the last one: its result is negative
    exactly when a completion was. *)
Fixpoint since_wait {T} (tr : list (label T)) (acc : list Z) : list Z :=
  match tr with
  | [] => acc
  | Enqueue _ :: tr | Deliver _ :: tr => since_wait tr acc
  | Complete _ s :: tr => since_wait tr (s :: acc)
  | Wait _ :: tr => since_wait tr []
  end.

Lemma contract_statuses {T} (k k' : contract T) tr :
  contract_run k tr k' → statuses k' = since_wait tr (statuses k).
Proof.
  induction 1 as [|k1 k2 k3 l tr Hs _ IH]; [done|]. rewrite IH. by destruct Hs.
Qed.

Lemma contract_run_snoc {T} (k k' : contract T) tr l :
  contract_run k (tr ++ [l]) k' → ∃ k1, contract_run k tr k1 ∧ contract_step k1 l k'.
Proof.
  revert k. induction tr as [|x tr IH]; simpl; intros k H.
  - inversion H as [|? k1 ? ? ? Hs Hr]; subst. inversion Hr; subst. exists k. split; [constructor|done].
  - inversion H as [|? k1 ? ? ? Hs Hr]; subst. apply IH in Hr as (k2 & Hr & Hl).
    exists k2. split; [by econstructor|done].
Qed.

Lemma merge_all_negative l : merge_all l < 0 ↔ Exists (λ s, s < 0) l.
Proof.
  destruct (merge_all_spec l) as [Hn Hp]. split.
  - intros Hneg. apply dec_stable. intros Hx. rewrite <-Forall_Exists_neg in Hx.
    destruct Hp as [? _]; [|lia]. eapply Forall_impl; [exact Hx|]. simpl. lia.
  - intros He. by apply Hn.
Qed.

Lemma wait_verdict {T} (k : contract T) tr r :
  contract_run no_elements (tr ++ [Wait r]) k →
  (r < 0 ↔ Exists (λ s, s < 0) (since_wait tr [])).
Proof.
  intros (k1 & Hr & Hs)%contract_run_snoc. apply contract_statuses in Hr. simpl in Hr.
  rewrite <-Hr. inversion Hs; subst. simpl. apply merge_all_negative.
Qed.

(** *** The order of delivery *)

Definition enqueued {T} (tr : list (label T)) : list T :=
  omap (λ l, match l with Enqueue e => Some e | _ => None end) tr.
Definition delivered {T} (tr : list (label T)) : list T :=
  omap (λ l, match l with Deliver e => Some e | _ => None end) tr.

Lemma contract_order {T} (k k' : contract T) tr :
  contract_run k tr k' → queued k ++ enqueued tr = delivered tr ++ queued k'.
Proof.
  induction 1 as [k|k1 k2 k3 l tr Hs _ IH]; [apply app_nil_r|].
  destruct Hs as [q t ss e|q t ss e|q t t' ss e s Hp|ss]; simpl in *; [|by rewrite IH|done|done].
  by rewrite <-IH, <-app_assoc.
Qed.

(** Nothing is delivered that has not been enqueued, nothing twice, and nothing
    before what was enqueued earlier. *)
Lemma delivered_prefix {T} (k : contract T) tr : contract_run no_elements tr k → delivered tr `prefix_of` enqueued tr.
Proof. intros H%contract_order. exists (queued k). done. Qed.

(** What an execution of an implementation looks like from outside. *)
Lemma refinement_wait {S T} (step : S → option (label T) → S → Prop) start `{!Refines step start} tr r s :
  execution step start (tr ++ [Wait r]) s →
  (∃ k, contract_run no_elements (tr ++ [Wait r]) k) ∧
  delivered tr `prefix_of` enqueued tr ∧ (r < 0 ↔ Exists (λ s, s < 0) (since_wait tr [])).
Proof.
  intros He. destruct (refinement_run _ start _ _ _ _ He refines_start) as (k & Hk & _).
  split; [by exists k|]. split; [|by eapply wait_verdict].
  apply contract_run_snoc in Hk as (k1 & Hk1 & _). by eapply delivered_prefix.
Qed.
