(* ===== verification/Watchdog.v ===== *)
(** * Watchdog: [src/modules/client_watchdog.cpp]

    Every client has to issue a command at least every [timeout] seconds; a
    background thread looks for those that do not.  The thread does not take
    [ts_lock], so that a command may come between any two clients that a round
    looks at; the clock may be set back. *)

From S2P Require Import Prelude Text Command FileSystem Environment Queue.

Local Open Scope Z_scope.

Import command_t.

Module client_watchdog_t.

(** [std::map<int, time_point> client_map]: until when a client is alive *)
Abbreviation client_map := (gmap Z Z).

(** The constructor: the setting [watchdog_interval], 0 when it is missing; the
    background thread runs only when it is there. *)
Definition make (watchdog_interval : option Z) : Z := default 0 watchdog_interval.

Section process_command.
Variable timeout : Z.

Definition ping (c : command_t.t) : comp (env * client_map) Z :=
  t ← on_fst now;
  modify (λ '(e, clients), (e, <[c.(unique_id) := t + seconds timeout]> clients));;
  mret VELOC_SUCCESS.

Definition process_command (c : command_t.t) : comp (env * client_map) Z :=
  if timeout =? 0 then mret VELOC_IGNORED
  else if c.(command) =? INIT then ping c
  else if c.(command) =? CHECKPOINT then
    '(_, clients) ← get;
    match clients !! c.(unique_id) with
    | None => mret VELOC_FAILURE
    | Some _ => ping c
    end
  else mret VELOC_IGNORED.

(** The background thread: in [sleep_for], or in the round of the time [t], past
    the client [visited]. *)
Inductive thread_pc := Sleeping | Checking (t : Z) (visited : option Z).

Record watchdog := mk_watchdog {
  environment : env;
  clients : client_map;
  thread : thread_pc
}.

(** [++it]: the entry with the next identifier.  No entry is ever erased. *)
Definition is_after (visited : option Z) (id : Z) : bool :=
  match visited with Some v => v <? id | None => true end.
Definition nearer (visited : option Z) (e : Z * Z) (best : option (Z * Z)) : option (Z * Z) :=
  if is_after visited e.1 && (match best with Some b => e.1 <? b.1 | None => true end) then Some e else best.
Definition next_client (visited : option Z) (m : client_map) : option (Z * Z) :=
  foldr (nearer visited) None (map_to_list m).

(** What can be observed: a command of a client that the watchdog accepts at the
    time [t], the start of a round, a report, the end of the round. *)
Inductive event := Accepted (id t : Z) | Round (t : Z) | Report (id t : Z) | Round_end.

(** [timeout_check] and the commands, in any order. *)
Inductive step (x : watchdog) : option event → watchdog → Prop :=
| client_command c r e' m' :
    process_command c (x.(environment), x.(clients)) = (Val r, (e', m')) →
    step x (if r =? VELOC_SUCCESS
            then Some (Accepted c.(unique_id) (clock x.(environment) (readings x.(environment)))) else None)
      (mk_watchdog e' m' x.(thread))
| round_starts t e' :
    x.(thread) = Sleeping → now x.(environment) = (Val t, e') →
    step x (Some (Round t)) (mk_watchdog e' x.(clients) (Checking t None))
| client_checked t v id d :
    x.(thread) = Checking t v → next_client v x.(clients) = Some (id, d) →
    step x (if d <? t then Some (Report id t) else None)
      (mk_watchdog x.(environment) x.(clients) (Checking t (Some id)))
| round_ends t v :
    x.(thread) = Checking t v → next_client v x.(clients) = None →
    step x (Some Round_end) (mk_watchdog x.(environment) x.(clients) Sleeping).

Definition start (e : env) : watchdog := mk_watchdog e ∅ Sleeping.

End process_command.
End client_watchdog_t.

Import client_watchdog_t.

(** ** Lemmas *)

Lemma ping_run timeout c e m :
  ping timeout c (e, m)
  = (Val VELOC_SUCCESS, (tick e, <[c.(unique_id) := clock e (readings e) + seconds timeout]> m)).
Proof. done. Qed.

(** Every command is answered: with a reading of the clock and the registration
    of its client, or without a change. *)
Lemma process_cases timeout c e m :
  (∃ r, r ≠ VELOC_SUCCESS ∧ process_command timeout c (e, m) = (Val r, (e, m))) ∨
  process_command timeout c (e, m) = ping timeout c (e, m).
Proof.
  unfold process_command. destruct (Z.eqb_spec timeout 0); [left; by exists VELOC_IGNORED|].
  destruct (command c =? INIT); [by right|].
  destruct (command c =? CHECKPOINT); [|left; by exists VELOC_IGNORED].
  rewrite get_bind. cbn beta iota. destruct (m !! unique_id c); [by right|left; by exists VELOC_FAILURE].
Qed.

(** The iteration over the map. *)
Lemma next_in_list v l :
  match foldr (nearer v) None l with
  | Some e => e ∈ l ∧ is_after v e.1 = true ∧ ∀ e', e' ∈ l → is_after v e'.1 = true → e.1 ≤ e'.1
  | None => ∀ e', e' ∈ l → is_after v e'.1 = false
  end.
Proof.
  induction l as [|e l IH]; simpl; [by intros e' ?%elem_of_nil|]. unfold nearer at 1.
  destruct (is_after v e.1) eqn:Ha; simpl;
    destruct (foldr (nearer v) None l) as [b|]; [destruct (Z.ltb_spec e.1 b.1)| | |].
  - destruct IH as (Hb & Hab & Hmin). split; [by left|]. split; [done|].
    intros e' [->|He']%elem_of_cons Ha'; [done|]. specialize (Hmin e' He' Ha'). lia.
  - destruct IH as (Hb & Hab & Hmin). split; [by right|]. split; [done|].
    intros e' [->|He']%elem_of_cons Ha'; [done|]. by apply Hmin.
  - split; [by left|]. split; [done|]. intros e' [->|He']%elem_of_cons Ha'; [done|].
    by rewrite IH in Ha'.
  - destruct IH as (Hb & Hab & Hmin). split; [by right|]. split; [done|].
    intros e' [->|He']%elem_of_cons Ha'; [congruence|]. by apply Hmin.
  - intros e' [->|He']%elem_of_cons; [done|]. by apply IH.
Qed.

Lemma next_some v m id d :
  next_client v m = Some (id, d) →
  m !! id = Some d ∧ is_after v id = true ∧
  ∀ id' d', m !! id' = Some d' → is_after v id' = true → id ≤ id'.
Proof.
  intros H. pose proof (next_in_list v (map_to_list m)) as Hl. unfold next_client in H. rewrite H in Hl.
  destruct Hl as (Hin & Ha & Hmin). split; [by apply elem_of_map_to_list|]. split; [done|].
  intros id' d' Hid'. apply (Hmin (id', d')). by apply elem_of_map_to_list.
Qed.

Lemma next_none v m id d : next_client v m = None → m !! id = Some d → is_after v id = false.
Proof.
  intros H Hid. pose proof (next_in_list v (map_to_list m)) as Hl. unfold next_client in H. rewrite H in Hl.
  apply (Hl (id, d)). by apply elem_of_map_to_list.
Qed.

(** The time of the last command of a client that was accepted, and of the round
    that is under way. *)
Definition note (id : Z) (seen : option Z) (e : event) : option Z :=
  match e with Accepted i t => if decide (i = id) then Some t else seen | _ => seen end.
Definition last_seen (id : Z) (tr : list event) : option Z := foldl (note id) None tr.
Definition note_round (now : option Z) (e : event) : option Z :=
  match e with Round t => Some t | Round_end => None | _ => now end.
Definition this_round (tr : list event) : option Z := foldl note_round None tr.

Section watchdog.
Variable timeout : Z.

(** The map holds the deadlines, the thread the time of its round. *)
Definition knows (x : watchdog) (seen : Z → option Z) (round : option Z) : Prop :=
  (∀ id, x.(clients) !! id = (λ t, t + seconds timeout) <$> seen id) ∧
  match x.(thread) with Sleeping => round = None | Checking t _ => round = Some t end.

Lemma knows_step x l y seen round :
  step timeout x l y → knows x seen round →
  knows y (λ id, match l with Some e => note id (seen id) e | None => seen id end)
    (match l with Some e => note_round round e | None => round end) ∧
  ∀ id t, l = Some (Report id t) → round = Some t ∧ ∃ t0, seen id = Some t0 ∧ t0 + seconds timeout < t.
Proof.
  intros Hs [Hm Hr]. destruct Hs as [c r e' m' Hc|t e' Ht Hn|t v id d Ht Hn|t v Ht Hn].
  - destruct (process_cases timeout c (environment x) (clients x)) as [(r' & Hr' & Hc')|Hc']; rewrite Hc' in Hc.
    + injection Hc as <- <- <-. destruct (Z.eqb_spec r' VELOC_SUCCESS); [done|]. by split.
    + rewrite ping_run in Hc. injection Hc as <- <- <-. rewrite Z.eqb_refl. split; [|done].
      split; [|exact Hr]. intros id. simpl.
      destruct (decide (unique_id c = id)) as [<-|]; [by rewrite lookup_insert_eq|by rewrite lookup_insert_ne].
  - injection Hn as <- <-. split; [|done]. by split.
  - rewrite Ht in Hr. apply next_some in Hn as (Hid & _). split; [destruct (d <? t); by split|].
    destruct (Z.ltb_spec d t); [|done]. intros ? ? [= <- <-]. split; [done|].
    rewrite Hm in Hid. apply fmap_Some in Hid as (t0 & Hs0 & ->). eauto.
  - split; [|done]. by split.
Qed.

Lemma knows_report tr1 x seen round id t tr2 y :
  knows x seen round → execution (step timeout) x (tr1 ++ Report id t :: tr2) y →
  foldl note_round round tr1 = Some t ∧
  ∃ t0, foldl (note id) (seen id) tr1 = Some t0 ∧ t0 + seconds timeout < t.
Proof.
  intros Hk He. remember (tr1 ++ Report id t :: tr2) as tr eqn:Htr. revert tr1 seen round Htr Hk.
  induction He as [x|x y z tr Hs _ IH|x y z l tr Hs _ IH]; intros tr1 seen round Htr Hk.
  - by destruct tr1.
  - destruct (knows_step _ _ _ _ _ Hs Hk) as [Hk' _]. by apply (IH tr1 seen round).
  - destruct (knows_step _ _ _ _ _ Hs Hk) as [Hk' Hrep]. destruct tr1 as [|e tr1]; simplify_eq/=.
    + by apply Hrep.
    + apply (IH tr1 (λ id, note id (seen id) e) (note_round round e) eq_refl Hk').
Qed.

Lemma knows_execution x tr y seen round :
  knows x seen round → execution (step timeout) x tr y →
  knows y (λ id, foldl (note id) (seen id) tr) (foldl note_round round tr).
Proof.
  intros Hk He. revert seen round Hk. induction He as [x|x y z tr Hs _ IH|x y z l tr Hs _ IH]; intros seen round Hk.
  - done.
  - by destruct (knows_step _ _ _ _ _ Hs Hk) as [Hk' _]; apply IH.
  - destruct (knows_step _ _ _ _ _ Hs Hk) as [Hk' _]. apply (IH _ _ Hk').
Qed.

(** A round that comes to its end has looked at every client that was there. *)
Lemma round_complete x tr y t v id d :
  execution (step timeout) x (tr ++ [Round_end]) y → thread x = Checking t v → Round_end ∉ tr →
  clients x !! id = Some d → d < t → is_after v id = true → (∀ t0, Accepted id t0 ∉ tr) →
  Report id t ∈ tr.
Proof.
  intros He. remember (tr ++ [Round_end]) as all eqn:Hall. revert tr v Hall.
  induction He as [x|x y z all Hs _ IH|x y z l all Hs _ IH]; intros tr v Hall Ht Hne Hid Hd Ha Hacc.
  { by destruct tr. }
  - inversion Hs as [c r e' m' Hc Hl| |t' v' id' d' Ht' Hn Hl|]; subst.
    + destruct (process_cases timeout c (environment x) (clients x)) as [(r' & Hr' & Hc')|Hc'];
        rewrite Hc' in Hc; [injection Hc as <- <- <-; by eapply IH|].
      rewrite ping_run in Hc. by injection Hc as <- <- <-.
    + rewrite Ht in Ht'. injection Ht' as <- <-. apply next_some in Hn as (Hid' & _ & Hmin).
      destruct (Z.ltb_spec d' t); [done|]. apply (IH tr (Some id') eq_refl); try done. simpl.
      assert (id ≠ id') by (intros ->; rewrite Hid in Hid'; simplify_eq; lia).
      specialize (Hmin id d Hid Ha). apply Z.ltb_lt. lia.
  - destruct tr as [|e tr]; simplify_eq/=.
    { inversion Hs as [c r ? ? Hc Hl| |t' v' id' d' Ht' Hn Hl|t' v' Ht' Hn]; subst.
      - by destruct (r =? VELOC_SUCCESS).
      - by destruct (d' <? t').
      - rewrite Ht in Ht'. injection Ht' as <- <-. by rewrite (next_none _ _ _ _ Hn Hid) in Ha. }
    apply not_elem_of_cons in Hne as [Hne1 Hne].
    assert (∀ t0, Accepted id t0 ∉ tr ∧ Accepted id t0 ≠ e) as Hacc'.
    { intros t0. specialize (Hacc t0). apply not_elem_of_cons in Hacc as [? ?]. done. }
    inversion Hs as [c r e' m' Hc Hl|t' e' Ht'|t' v' id' d' Ht' Hn Hl|t' v' Ht' Hn]; subst; try congruence.
    + destruct (process_cases timeout c (environment x) (clients x)) as [(r' & Hr' & Hc')|Hc']; rewrite Hc' in Hc.
      { injection Hc as <- <- <-. by destruct (Z.eqb_spec r' VELOC_SUCCESS). }
      rewrite ping_run in Hc. injection Hc as <- <- <-. rewrite Z.eqb_refl in Hl. simplify_eq.
      right. apply (IH tr v eq_refl); try done; [|by intros t0; apply Hacc']. simpl.
      rewrite lookup_insert_ne; [done|]. intros Heq.
      destruct (Hacc' (clock (environment x) (readings (environment x)))) as [_ Hn]. by rewrite Heq in Hn.
    + rewrite Ht in Ht'. injection Ht' as <- <-. apply next_some in Hn as (Hid' & _ & Hmin).
      destruct (Z.ltb_spec d' t); [|done]. simplify_eq. destruct (decide (id = id')) as [<-|Hii]; [by left|].
      right. apply (IH tr (Some id') eq_refl); try done; [|by intros t0; apply Hacc']. simpl.
      specialize (Hmin id d Hid Ha). apply Z.ltb_lt. lia.
Qed.

(** A round comes to its end when no command intervenes. *)
Definition to_visit (v : option Z) (m : client_map) : nat :=
  length (filter (λ e, is_after v e.1 = true) (map_to_list m)).

Lemma to_visit_less v m id d :
  next_client v m = Some (id, d) → (to_visit (Some id) m < to_visit v m)%nat.
Proof.
  intros (Hid & Ha & Hmin)%next_some. unfold to_visit.
  apply elem_of_map_to_list in Hid.
  assert (∀ e, e ∈ map_to_list m → is_after (Some id) e.1 = true → is_after v e.1 = true) as Hsub.
  { intros e _ He. simpl in He. destruct v as [v|]; simpl in *; [|done]. zbool. lia. }
  clear Hmin. induction (map_to_list m) as [|e l IH]; [by apply elem_of_nil in Hid|].
  assert (length (filter (λ e, is_after (Some id) e.1 = true) l)
    ≤ length (filter (λ e, is_after v e.1 = true) l))%nat as Hle.
  { clear -Hsub. induction l as [|e' l IH]; [done|]. rewrite !filter_cons.
    assert (is_after (Some id) e'.1 = true → is_after v e'.1 = true) as He' by (apply Hsub; set_solver).
    specialize (IH ltac:(intros e'' Hin; apply Hsub; set_solver)).
    repeat case_decide; cbn [length]; naive_solver lia. }
  rewrite !filter_cons. apply elem_of_cons in Hid as [<-|Hid].
  - rewrite decide_False by (simpl; intros ?; zbool; lia). rewrite decide_True by done. cbn [length]. lia.
  - specialize (IH Hid ltac:(intros e'' Hin; apply Hsub; set_solver)).
    assert (is_after (Some id) e.1 = true → is_after v e.1 = true) as He by (apply Hsub; set_solver).
    repeat case_decide; cbn [length]; naive_solver lia.
Qed.

Lemma round_terminates x t v :
  thread x = Checking t v →
  ∃ tr y, execution (step timeout) x (tr ++ [Round_end]) y ∧ Forall (λ e, ∃ id, e = Report id t) tr.
Proof.
  revert x v. assert (∀ n x v, (to_visit v (clients x) < n)%nat → thread x = Checking t v →
    ∃ tr y, execution (step timeout) x (tr ++ [Round_end]) y ∧ Forall (λ e, ∃ id, e = Report id t) tr) as H;
    [|intros x v; by apply (H (S (to_visit v (clients x)))); lia].
  induction n as [|n IH]; intros x v Hn Ht; [lia|].
  destruct (next_client v (clients x)) as [[id d]|] eqn:Hnext.
  - pose proof (to_visit_less _ _ _ _ Hnext) as Hless.
    destruct (IH (mk_watchdog (environment x) (clients x) (Checking t (Some id))) (Some id))
      as (tr & y & He & Hr); [simpl; lia|done|]. pose proof (client_checked timeout x t v id d Ht Hnext) as Hs.
    destruct (d <? t).
    + exists (Report id t :: tr), y. split; [by eapply execution_visible|]. constructor; [by eexists|done].
    + exists tr, y. split; [by eapply execution_silent|done].
  - exists [], (mk_watchdog (environment x) (clients x) Sleeping). split; [|constructor].
    eapply execution_visible; [by eapply round_ends|constructor].
Qed.

(** C28: the reports of the watchdog, for every order of the commands and of the
    steps of the thread, and whatever the clock shows.  A client is reported in a
    round only if its last accepted command is more than [timeout] seconds older
    than the round, by the clock; and a round that has ended has reported every
    client of which this is true at its start and of which no command was accepted
    in the meantime.  A round that is not interrupted by commands ends. *)
Theorem watchdog_reports (e : env) (tr : list event) (x : watchdog) :
  execution (step timeout) (start e) tr x →
  (∀ tr1 id t tr2, tr = tr1 ++ Report id t :: tr2 →
    this_round tr1 = Some t ∧ ∃ t0, last_seen id tr1 = Some t0 ∧ t0 + seconds timeout < t) ∧
  (∀ tr1 t tr2 id t0, tr = tr1 ++ Round t :: tr2 ++ [Round_end] → Round_end ∉ tr2 →
    last_seen id tr1 = Some t0 → t0 + seconds timeout < t → (∀ t1, Accepted id t1 ∉ tr2) →
    Report id t ∈ tr2) ∧
  (thread x ≠ Sleeping → ∃ tr' y, execution (step timeout) x (tr' ++ [Round_end]) y ∧
    Forall (λ e, ∃ id t, e = Report id t) tr').
Proof.
  intros He. assert (knows (start e) (λ _, None) None) as Hk by (split; [intros id; apply lookup_empty|done]).
  split; [|split].
  - intros tr1 id t tr2 ->. by apply (knows_report tr1 _ _ _ id t tr2 x Hk).
  - intros tr1 t tr2 id t0 -> Hne Hseen Hlt Hacc.
    apply execution_split in He as (y & z & H1 & Hs & H2).
    destruct (knows_execution _ _ _ _ _ Hk H1) as [Hm _].
    inversion Hs as [c r ? ? Hc Hl|t' e' Ht Hn| |]; subst; [by destruct (r =? VELOC_SUCCESS)| |by destruct (_ <? _)].
    eapply (round_complete _ tr2 x t None id (t0 + seconds timeout)); try done. simpl. rewrite Hm.
    unfold last_seen in Hseen. by rewrite Hseen.
  - intros Ht. destruct (thread x) as [|t v] eqn:Hx; [done|].
    destruct (round_terminates x t v Hx) as (tr' & y & Hrun & Hall). exists tr', y. split; [done|].
    eapply Forall_impl; [exact Hall|]. naive_solver.
Qed.
End watchdog.

Definition demo_init : command_t.t :=
  {| unique_id := 3; command := INIT; version := 0; offset := 0; name := ""; original := "" |}.

(** A clock with a reading of 0, then of 9 seconds. *)
Definition demo_env : env := mk_env (mk_sys ∅ []) (λ n, seconds (9 * Z.of_nat n)) 0.
Definition demo_clients : client_map := {[3 := seconds 5]}.

Lemma demo_round :
  execution (step 5) (start demo_env) [Accepted 3 0; Round (seconds 9); Report 3 (seconds 9); Round_end]
    (mk_watchdog (tick (tick demo_env)) demo_clients Sleeping).
Proof.
  eapply execution_visible; [exact (client_command 5 (start demo_env) demo_init VELOC_SUCCESS _ _ eq_refl)|].
  eapply execution_visible; [by eapply round_starts|].
  eapply execution_visible; [by eapply (client_checked 5 _ (seconds 9) None 3 (seconds 5))|].
  eapply execution_visible; [by eapply round_ends|]. constructor.
Qed.

Lemma watchdog_reports_witness :
  ∃ t0, last_seen 3 [Accepted 3 0; Round (seconds 9)] = Some t0 ∧ t0 + seconds 5 < seconds 9.
Proof.
  destruct (watchdog_reports 5 demo_env _ _ demo_round) as [Hrep _].
  destruct (Hrep [Accepted 3 0; Round (seconds 9)] 3 (seconds 9) [Round_end] eq_refl) as [_ H]. exact H.
Defined.
