(* ===== verification/Transfer.v ===== *)
(** * Transfer: [src/modules/transfer_module.cpp]

    The module that copies checkpoints between the scratch directory and the
    persistent storage, at most once per interval and client. *)

From S2P Require Import Prelude Text Command FileSystem Containers FileUtil Storage AggStorage.
From S2P Require Import Environment.

Local Open Scope Z_scope.

Import command_t.

Module transfer_module_t.

(** [std::map<int, time_point> last_timestamp]; a missing entry is the epoch. *)
Abbreviation timestamps := (gmap Z Z).

Definition timestamp (ts : timestamps) (id : Z) : Z := default 0 (ts !! id).

(** The constructor: the interval, from the setting [persistent_interval]. *)
Definition make {S} (storage : option (storage_module_t S)) (persistent_interval : option Z) : Z :=
  match storage with
  | None => -1
  | Some _ => default 0 persistent_interval
  end.

Section process_command.
Variables (storage : option (storage_module_t env)) (interval : Z) (scratch : string).

Definition set_timestamp (c : command_t.t) (t : Z) : comp (env * timestamps) unit :=
  modify (λ '(e, ts), (e, <[c.(unique_id) := t]> ts)).

(** The part of [CHECKPOINT] under [ts_lock]: whether to persist this one. *)
Definition due (c : command_t.t) : comp (env * timestamps) bool :=
  if 0 <? interval then
    t ← on_fst now;
    '(_, ts) ← get;
    if t <? timestamp ts c.(unique_id) then mret false
    else set_timestamp c (t + seconds interval);; mret true
  else mret true.

Definition checkpoint (c : command_t.t) : comp (env * timestamps) Z :=
  go ← due c;
  if negb go then mret VELOC_SUCCESS else
  st ← deref storage;
  ok ← on_fst (st.(Storage.flush) c);
  mret (if (ok : bool) then VELOC_SUCCESS else VELOC_FAILURE).

Definition restart (c : command_t.t) : comp (env * timestamps) Z :=
  here ← on_sys (access (filename c scratch));
  if (here : bool) then mret VELOC_SUCCESS else
  st ← deref storage;
  there ← on_fst (st.(Storage.exists_) c);
  if negb there then mret VELOC_IGNORED else
  ok ← on_fst (st.(Storage.restore) c);
  mret (if (ok : bool) then VELOC_SUCCESS else VELOC_IGNORED).

Definition process_command (c : command_t.t) : comp (env * timestamps) Z :=
  if interval <? 0 then mret VELOC_IGNORED
  else if c.(command) =? INIT then
    t ← on_fst now;
    set_timestamp c (t + seconds interval);;
    mret VELOC_SUCCESS
  else if c.(command) =? CHECKPOINT then checkpoint c
  else if c.(command) =? RESTART then restart c
  else mret VELOC_IGNORED.

(** The commands that arrive, one after the other; a command that throws does
    not end the backend. *)
Fixpoint process_commands (cs : list command_t.t) (st : env * timestamps) : env * timestamps :=
  match cs with
  | [] => st
  | c :: cs => process_commands cs (process_command c st).2
  end.

End process_command.
End transfer_module_t.

Import transfer_module_t.

(** ** Lemmas *)

(** Without an interval every checkpoint is flushed. *)
Lemma checkpoint_every st scratch c e ts (ok : bool) e' :
  c.(command) = CHECKPOINT → st.(flush) c e = (Val ok, e') →
  process_command (Some st) 0 scratch c (e, ts)
  = (Val (if ok then VELOC_SUCCESS else VELOC_FAILURE), (e', ts)).
Proof.
  intros Hc Hf. unfold process_command. rewrite Hc. cbn -[flush]. unfold checkpoint.
  erewrite comp_bind_val by done. cbn [negb]. cbn iota. unfold deref. rewrite ret_bind.
  by erewrite comp_bind_val by (apply on_fst_run; exact Hf).
Qed.

(** A restart fetches what is missing locally. *)
Lemma restart_missing st interval scratch c e ts (there ok : bool) e1 e2 e3 :
  0 ≤ interval → c.(command) = RESTART →
  on_sys (access (filename c scratch)) e = (Val false, e1) →
  st.(exists_) c e1 = (Val there, e2) → (there = true → st.(restore) c e2 = (Val ok, e3)) →
  process_command (Some st) interval scratch c (e, ts)
  = (Val (if there && ok then VELOC_SUCCESS else VELOC_IGNORED), (if there then e3 else e2, ts)).
Proof.
  intros Hi Hc Ha He Hr. unfold process_command. destruct (Z.ltb_spec interval 0); [lia|].
  rewrite Hc. cbn -[exists_ restore access]. unfold restart.
  assert (on_sys (access (filename c scratch)) (e, ts) = (Val false, (e1, ts))) as Ha'.
  { apply on_sys_inv in Ha as (s' & Ha & ->). exact (on_sys_run (access (filename c scratch)) (e, ts) _ _ Ha). }
  rewrite (comp_bind_val _ _ _ _ _ Ha'). unfold deref. rewrite ret_bind.
  erewrite comp_bind_val by (apply on_fst_run; exact He). cbn beta.
  destruct there; [|done]. cbn [negb]. cbn iota.
  by erewrite comp_bind_val by (apply on_fst_run; by apply Hr).
Qed.

Section spacing.
Variables (c0 : nat → Z) (r0 : nat) (interval id : Z).
Hypothesis Hmono : monotone c0.

(** Time has gone on from the reading [r0] of the clock [c0], and the client [id]
    has to wait for an interval from then on. *)
Definition waiting (st : env * timestamps) : Prop :=
  clock st.1 = c0 ∧ (r0 ≤ readings st.1)%nat ∧ c0 r0 + seconds interval ≤ timestamp st.2 id.

Lemma waiting_env {A} (m : comp env A) : keeps_clock m → preserves waiting (on_fst m).
Proof.
  intros Hm [e ts] o [e' ts'] [H ->]%on_fst_inv (Hc & Hr & Ht).
  apply Hm in H as [Hc' Hr']. split_and!; simpl in *; [congruence|lia|done].
Qed.

Lemma waiting_sys {A} (m : posix A) : preserves waiting (on_sys m).
Proof. apply preserves_on_sys. by intros [e ts] s. Qed.

(** A reading [t] that has just been taken. *)
Lemma waiting_set c t st :
  waiting st → (∃ i, (r0 ≤ i)%nat ∧ t = c0 i) →
  waiting (set_timestamp c (t + seconds interval) st).2.
Proof.
  destruct st as [e ts]. intros (Hc & Hr & Ht) (i & Hi & ->). split_and!; simpl in *; [done..|].
  pose proof (Hmono _ _ Hi). unfold timestamp in *.
  destruct (decide (c.(unique_id) = id)) as [->|]; simplify_map_eq; simpl; lia.
Qed.

Lemma waiting_now {A} (k : Z → comp (env * timestamps) A) :
  (∀ i, (r0 ≤ i)%nat → preserves waiting (k (c0 i))) → preserves waiting (on_fst now ≫= k).
Proof.
  intros Hk [e ts] o st' H (Hc & Hr & Ht). simpl in *.
  erewrite comp_bind_val in H by done. rewrite Hc in H.
  apply (Hk (readings e) Hr _ _ _ H). split_and!; simpl; [done|lia|done].
Qed.

Context (storage : option (storage_module_t env)) (scratch : string).
Hypothesis Hst : ∀ st, storage = Some st → StorageClock st.

Lemma waiting_deref {A} (k : storage_module_t env → comp (env * timestamps) A) :
  (∀ st, StorageClock st → preserves waiting (k st)) → preserves waiting (deref storage ≫= k).
Proof.
  intros Hk. destruct storage as [st|]; [by apply Hk, Hst|].
  intros st o st' H. unfold mbind, comp_bind, deref, stop in H. by simplify_eq.
Qed.

Lemma waiting_set_ret {A} c i (a : A) :
  (r0 ≤ i)%nat → preserves waiting (set_timestamp c (c0 i + seconds interval);; mret a).
Proof.
  intros Hi. apply preserves_bind; [|intros; apply preserves_ret].
  intros st o st' H Hw. pose proof (waiting_set c (c0 i) st Hw (ex_intro _ i (conj Hi eq_refl))) as Hw'.
  by rewrite H in Hw'.
Qed.

Lemma waiting_due c : preserves waiting (due interval c).
Proof.
  unfold due. case_match; [|apply preserves_ret].
  apply waiting_now. intros i Hi. apply preserves_get_bind. intros [e ts] o st' Hrun Hw.
  cbn beta iota in Hrun. case_match; [by apply (preserves_ret _ _ _ _ _ Hrun)|].
  by apply (waiting_set_ret _ _ _ Hi _ _ _ Hrun).
Qed.

Lemma waiting_process c : preserves waiting (process_command storage interval scratch c).
Proof.
  unfold process_command, checkpoint, restart.
  repeat case_match; try apply preserves_ret.
  - apply waiting_now. intros i Hi. by apply waiting_set_ret.
  - apply preserves_bind; [apply waiting_due|]. intros []; [|apply preserves_ret].
    apply waiting_deref. intros st Hclk.
    apply preserves_bind; [apply waiting_env, flush_clock|]. intros ?. apply preserves_ret.
  - apply preserves_bind; [apply waiting_sys|]. intros []; [apply preserves_ret|].
    apply waiting_deref. intros st Hclk.
    apply preserves_bind; [apply waiting_env, exists_clock|]. intros []; [|apply preserves_ret].
    apply preserves_bind; [apply waiting_env, restore_clock|]. intros ?. apply preserves_ret.
Qed.

Lemma waiting_process_commands cs st :
  waiting st → waiting (process_commands storage interval scratch cs st).
Proof.
  revert st. induction cs as [|c cs IH]; intros st Hw; [done|]. simpl. apply IH.
  destruct (process_command storage interval scratch c st) as [o st'] eqn:E.
  by apply (waiting_process _ _ _ _ E).
Qed.
End spacing.

(** Persisted checkpoints of a client are at least an interval apart.  When
    a checkpoint of a client was due, every later one that arrives before the
    interval is over is answered with success without touching the storage,
    whatever commands of any clients came in between. *)
Theorem transfer_spacing (st : storage_module_t env) (interval : Z) (scratch : string)
    (c c' : command_t.t) (cs : list command_t.t) (e e2 : env) (ts ts2 : timestamps) :
  StorageClock st → monotone (clock e) → 0 < interval →
  c.(command) = CHECKPOINT → c'.(command) = CHECKPOINT → c'.(unique_id) = c.(unique_id) →
  timestamp ts c.(unique_id) ≤ clock e (readings e) →
  process_commands (Some st) interval scratch (c :: cs) (e, ts) = (e2, ts2) →
  clock e (readings e2) < clock e (readings e) + seconds interval →
  process_command (Some st) interval scratch c' (e2, ts2) = (Val VELOC_SUCCESS, (tick e2, ts2)).
Proof.
  intros Hclk Hm Hi Hc Hc' Hid Hdue Hrun Hlt.
  assert (waiting (clock e) (readings e) interval (unique_id c) (e2, ts2)) as (Hc2 & _ & Hw).
  { rewrite <-Hrun. simpl. apply waiting_process_commands; [done|by intros ? [= <-]|].
    unfold process_command. destruct (Z.ltb_spec interval 0); [lia|]. rewrite Hc.
    simpl (CHECKPOINT =? INIT). simpl (CHECKPOINT =? CHECKPOINT). cbn iota. unfold checkpoint.
    assert (due interval c (e, ts) = (Val true,
      (tick e, <[unique_id c := clock e (readings e) + seconds interval]> ts))) as Hd.
    { unfold due. destruct (Z.ltb_spec 0 interval); [|lia]. erewrite comp_bind_val by done.
      rewrite get_bind. cbn beta iota. by destruct (Z.ltb_spec (clock e (readings e)) (timestamp ts (unique_id c))); [lia|]. }
    rewrite (comp_bind_val _ _ _ _ _ Hd). cbn [negb]. cbn iota. unfold deref. rewrite ret_bind.
    destruct ((ok ← on_fst (flush st c); mret (if (ok : bool) then VELOC_SUCCESS else VELOC_FAILURE))
      (tick e, <[unique_id c:=clock e (readings e) + seconds interval]> ts)) as [o st'] eqn:E.
    apply (preserves_bind (waiting (clock e) (readings e) interval (unique_id c)) _ _
      (waiting_env _ _ _ _ _ (flush_clock c)) (λ _, preserves_ret _ _) _ _ _ E).
    split_and!; [done|simpl; lia|]. unfold timestamp. simpl. by simplify_map_eq. }
  simpl in *. unfold process_command. destruct (Z.ltb_spec interval 0); [lia|]. rewrite Hc'.
  simpl (CHECKPOINT =? INIT). simpl (CHECKPOINT =? CHECKPOINT). cbn iota. unfold checkpoint, due.
  destruct (Z.ltb_spec 0 interval); [|lia].
  unfold mbind at 1, comp_bind at 1. erewrite comp_bind_val by done. rewrite get_bind. cbn beta iota.
  rewrite Hid. by destruct (Z.ltb_spec (clock e2 (readings e2)) (timestamp ts2 (unique_id c)));
    [|rewrite Hc2 in *; lia].
Qed.

Definition demo_ckpt (v : Z) : command_t.t :=
  {| unique_id := 0; command := CHECKPOINT; version := v; offset := 0; name := "ck"; original := "" |}.

(** The clock of this environment advances by a second per reading. *)
Definition demo_env : env :=
  mk_env (mk_sys (<["/s" := Dir]> (<["/p" := Dir]> (<["/s/ck-0-1.dat" := Reg demo_data]> ∅))) [])
    (λ n, 1000000000 * Z.of_nat n) 5.

Lemma transfer_spacing_witness :
  let st := posix_module_t.storage "/s" "/p" in
  let '(e2, ts2) := process_commands (Some st) 60 "/s" [demo_ckpt 1; demo_ckpt 2] (demo_env, ∅) in
  process_command (Some st) 60 "/s" (demo_ckpt 3) (e2, ts2) = (Val VELOC_SUCCESS, (tick e2, ts2)).
Proof.
  intros st. destruct (process_commands _ _ _ _ _) as [e2 ts2] eqn:E.
  assert (readings e2 = 7%nat) as Hr.
  { change (readings (e2, ts2).1 = 7%nat). rewrite <-E. vm_compute. reflexivity. }
  apply (transfer_spacing st 60 "/s" (demo_ckpt 1) (demo_ckpt 3) [demo_ckpt 2] demo_env e2 ∅ ts2);
    [exact (posix_clock "/s" "/p")| |reflexivity..|vm_compute; discriminate|exact E|
     rewrite Hr; reflexivity].
  intros i j Hij. unfold demo_env, clock. lia.
Defined.
