(* ===== verification/Chksum.v ===== *)
(** * Chksum: [src/modules/chksum_module.cpp]

    The module that records a checksum of every checkpoint in the metadata
    directory and verifies it at a restart.  [SHA256] is OpenSSL's: a parameter,
    of which only the size of the result is assumed. *)

From S2P Require Import Prelude Text Command FileSystem FileUtil Storage.

Local Open Scope Z_scope.

Import command_t.

(** [mmap(NULL, size, PROT_READ, MAP_PRIVATE, fd, 0)] of a whole file, [size]
    being its [lseek(fd, 0, SEEK_END)]: fails for an empty file, and for what is
    not a regular file. *)
Definition mmap_whole (fd : string) : posix (option (list byte)) :=
  ok ← next_ok;
  s ← get;
  mret (match s.(files) !! fd with
        | Some (Reg (b :: d)) => if (ok : bool) then Some (b :: d) else None
        | _ => None
        end).

Module chksum_module_t.

Definition HASH_SIZE : Z := 32.

(** The constructor: whether the module is active. *)
Definition make {S} `{HasSys S} (chksum : bool) (meta : string) : comp S bool :=
  if chksum then on_sys (check_dir meta) else mret false.

Section chksum.
Context {S : Type} `{HasSys S} (SHA256 : list byte → list byte).
Variables (active : bool) (scratch meta : string).

Definition chksum_file (source : string) : posix (option (list byte)) :=
  fd ← open_rd source;
  match fd with
  | None => mret None
  | Some fd =>
      buff ← mmap_whole fd;
      mret (SHA256 <$> buff)
  end.

Definition process_command (c : command_t.t) : comp S Z :=
  if negb active then mret VELOC_IGNORED else
  let record := meta_filename c meta in
  let local := filename c scratch in
  if c.(command) =? CHECKPOINT then
    chksum ← on_sys (chksum_file local);
    match chksum with
    | None => mret VELOC_FAILURE
    | Some chksum =>
        ok ← on_sys (write_file record chksum);
        mret (if (ok : bool) then VELOC_SUCCESS else VELOC_FAILURE)
    end
  else if c.(command) =? RESTART then
    orig_chksum ← on_sys (read_file record HASH_SIZE);
    match orig_chksum with
    | None => mret VELOC_FAILURE
    | Some orig_chksum =>
        chksum ← on_sys (chksum_file local);
        match chksum with
        | None => mret VELOC_FAILURE
        | Some chksum =>
            mret (if bool_decide (chksum = orig_chksum) then VELOC_SUCCESS else VELOC_FAILURE)
        end
    end
  else mret VELOC_IGNORED.

End chksum.
End chksum_module_t.

Import chksum_module_t.

(** ** Lemmas *)

Section spec.
Context (SHA256 : list byte → list byte).

Lemma mmap_whole_spec fd s o s' :
  mmap_whole fd s = (o, s') →
  files s' = files s ∧
  (o = Val None ∨ ∃ d, files s !! fd = Some (Reg d) ∧ o = Val (Some d)).
Proof.
  unfold mmap_whole. posix_step. unfold get, mret, comp_ret. intros. simplify_eq.
  rewrite Hf. destruct (files s !! fd) as [[[|x d]|t|]|]; destruct b; naive_solver.
Qed.

Lemma chksum_file_spec p s o s' :
  chksum_file SHA256 p s = (o, s') →
  files s' = files s ∧
  (o = Val None ∨ ∃ q d, lookup_path (files s) p = Some (q, Reg d) ∧ o = Val (Some (SHA256 d))).
Proof.
  unfold chksum_file. intros H. bind_spec H open_rd_spec E.
  destruct E as (Hf & [->|(q & nd & Hl & ->)]); cbn beta iota in H.
  { unfold mret, comp_ret in H. simplify_eq. auto. }
  bind_spec H mmap_whole_spec E. rewrite Hf in E.
  destruct E as (Hf' & [->|(d & Hd & ->)]); unfold mret, comp_ret in H; simplify_eq.
  { auto. }
  apply lookup_path_at in Hl as Hq. rewrite Hd in Hq. simplify_eq. split; [done|]. right. eauto.
Qed.

Lemma chksum_file_free p f q b d :
  lookup_path f p = Some (q, Reg (b :: d)) →
  chksum_file SHA256 p (mk_sys f []) = (Val (Some (SHA256 (b :: d))), mk_sys f []).
Proof.
  intros Hl. unfold chksum_file. erewrite comp_bind_val by by eapply open_rd_free. cbn beta iota.
  unfold mmap_whole. free_run. by rewrite (lookup_path_at _ _ _ _ Hl).
Qed.

Hypothesis SHA256_size : ∀ d, zlen (SHA256 d) = HASH_SIZE.
Context {S : Type} `{HS : HasSys S} (scratch meta : string).
Abbreviation process := (process_command (S:=S) SHA256 true scratch meta).

(** The record that a successful checkpoint leaves. *)
Lemma checkpoint_records c s s' :
  c.(command) = CHECKPOINT → no_link (files (the_sys s)) (meta_filename c meta) →
  process c s = (Val VELOC_SUCCESS, s') →
  ∃ q d, lookup_path (files (the_sys s)) (filename c scratch) = Some (q, Reg d) ∧
    files (the_sys s') = <[meta_filename c meta := Reg (SHA256 d)]> (files (the_sys s)).
Proof.
  intros Hc Hl H. unfold process_command in H. rewrite Hc in H. cbn -[chksum_file write_file] in H.
  apply comp_bind_inv in H as (r & s1 & H1 & H). apply on_sys_inv in H1 as (s1' & H1 & ->).
  apply chksum_file_spec in H1 as (Hf & [[= ->]|(q & d & Hq & [= ->])]);
    [unfold mret, comp_ret in H; simplify_eq|].
  apply comp_bind_inv in H as (ok & s2 & H2 & H). apply on_sys_inv in H2 as (s2' & H2 & ->).
  unfold mret, comp_ret in H. destruct ok; simplify_eq. rewrite the_with_sys in *.
  apply write_file_true in H2 as (q' & Hq' & ->). rewrite Hf in *.
  rewrite resolve_file in Hq' by done. simplify_eq. eauto.
Qed.

(** The verdict of a restart over a record. *)
Lemma restart_verdict c s h q :
  c.(command) = RESTART → zlen h = HASH_SIZE →
  lookup_path (files (the_sys s)) (meta_filename c meta) = Some (q, Reg h) →
  ∃ o s', process c s = (o, s') ∧ files (the_sys s') = files (the_sys s) ∧
    (o = Val VELOC_FAILURE ∨ o = Val VELOC_SUCCESS ∧
     ∃ q' d, lookup_path (files (the_sys s)) (filename c scratch) = Some (q', Reg d) ∧ SHA256 d = h).
Proof.
  intros Hc Hlen Hr. destruct (process c s) as [o s'] eqn:H. exists o, s'. split; [done|].
  unfold process_command in H. rewrite Hc in H. cbn -[chksum_file read_file] in H.
  bind_spec H (@on_sys_inv S) E. destruct E as (s1 & E & ->).
  apply read_file_spec in E as (Hf & [->|(q1 & d1 & Hq1 & ->)]); [| |done]; cbn beta iota in H.
  { unfold mret, comp_ret in H. simplify_eq. rewrite the_with_sys. auto. }
  rewrite Hr in Hq1. simplify_eq. rewrite ztake_all in H by lia.
  bind_spec H (@on_sys_inv S) E. destruct E as (s2 & E & ->). rewrite the_with_sys in E.
  apply chksum_file_spec in E as (Hf' & [->|(q2 & d2 & Hq2 & ->)]); cbn beta iota in H;
    unfold mret, comp_ret in H; simplify_eq; rewrite the_with_sys, Hf', Hf; (split; [done|]).
  { by left. }
  rewrite Hf in Hq2. case_bool_decide; [right|left]; naive_solver.
Qed.

(** Without errors, the checkpoint and the restart of the same data succeed. *)
Lemma checkpoint_free c s f q b d :
  c.(command) = CHECKPOINT → the_sys s = mk_sys f [] →
  lookup_path f (filename c scratch) = Some (q, Reg (b :: d)) →
  no_link f (meta_filename c meta) → f !! meta_filename c meta ≠ Some Dir →
  (f !! meta_filename c meta = None → parent_ok f (meta_filename c meta) = true) →
  process c s = (Val VELOC_SUCCESS,
    with_sys s (mk_sys (<[meta_filename c meta := Reg (SHA256 (b :: d))]> f) [])).
Proof.
  intros Hc Hs Hq Hl Hdir Hpar. unfold process_command. rewrite Hc. cbn -[chksum_file write_file].
  erewrite comp_bind_val by (eapply on_sys_same; [done|by eapply chksum_file_free]).
  cbn beta iota. erewrite comp_bind_val by (eapply on_sys_run; rewrite Hs; by apply write_file_free).
  done.
Qed.

Lemma restart_free c s f q q' b d :
  c.(command) = RESTART → the_sys s = mk_sys f [] →
  lookup_path f (meta_filename c meta) = Some (q, Reg (SHA256 (b :: d))) →
  lookup_path f (filename c scratch) = Some (q', Reg (b :: d)) →
  process c s = (Val VELOC_SUCCESS, s).
Proof.
  intros Hc Hs Hr Hq. unfold process_command. rewrite Hc. cbn -[chksum_file read_file].
  erewrite comp_bind_val
    by (eapply on_sys_same; [done|eapply read_file_free; [|done]; by rewrite SHA256_size]).
  cbn beta iota.
  erewrite comp_bind_val by (eapply on_sys_same; [done|by eapply chksum_file_free]). cbn beta iota.
  rewrite ztake_all by by rewrite SHA256_size. by rewrite bool_decide_true.
Qed.

(** C29: a restart succeeds only with the data of the checkpoint.  After a
    successful checkpoint whose record is still there, a restart never succeeds
    over a file with another checksum, whatever I/O errors occur; without errors
    it succeeds exactly when the checksums agree; it changes no file. *)
Theorem chksum_verdict (c r : command_t.t) (s0 s1 s2 : S) (q0 q2 : string) (d0 d2 : list byte) :
  c.(command) = CHECKPOINT → r.(command) = RESTART → stem r = stem c →
  no_link (files (the_sys s0)) (meta_filename c meta) →
  lookup_path (files (the_sys s0)) (filename c scratch) = Some (q0, Reg d0) →
  process_command SHA256 true scratch meta c s0 = (Val VELOC_SUCCESS, s1) →
  files (the_sys s2) !! meta_filename c meta = files (the_sys s1) !! meta_filename c meta →
  lookup_path (files (the_sys s2)) (filename c scratch) = Some (q2, Reg d2) →
  ∃ v s3, process_command SHA256 true scratch meta r s2 = (Val v, s3) ∧ files (the_sys s3) = files (the_sys s2) ∧
    (v = VELOC_SUCCESS ∨ v = VELOC_FAILURE) ∧
    (v = VELOC_SUCCESS → SHA256 d2 = SHA256 d0) ∧
    (sched (the_sys s2) = [] → d2 ≠ [] → SHA256 d2 = SHA256 d0 → v = VELOC_SUCCESS).
Proof.
  intros Hc Hr Hst Hl Hq0 H1 Hrec Hq2.
  apply checkpoint_records in H1 as (q & d & Hq & Hf1); [|done..].
  rewrite Hq0 in Hq. simplify_eq. rewrite Hf1 in Hrec. simplify_map_eq.
  assert (meta_filename r meta = meta_filename c meta ∧ filename r scratch = filename c scratch)
    as [Em Ef] by (unfold meta_filename, filename; by rewrite Hst).
  apply lookup_path_reg in Hrec. rewrite <-Em in Hrec. rewrite <-Ef in Hq2.
  destruct (restart_verdict r s2 _ _ Hr (SHA256_size d) Hrec) as (o & s3 & H3 & Hf3 & Hv).
  assert (∃ v, o = Val v ∧ (v = VELOC_SUCCESS ∨ v = VELOC_FAILURE)) as (v & -> & Hv') by naive_solver.
  exists v, s3. split_and!; [done|done|done| |].
  - intros ->. destruct Hv as [[=]|(_ & q' & d' & Hq' & <-)]. rewrite Hq2 in Hq'. by simplify_eq.
  - intros Hsch Hne Heq. destruct d2 as [|b d2]; [done|].
    destruct (the_sys s2) as [f sc] eqn:Hs2. simpl in *. subst sc.
    rewrite <-Heq in Hrec. rewrite (restart_free r s2 f _ _ b d2 Hr Hs2 Hrec Hq2) in H3.
    by simplify_eq.
Qed.
End spec.

(** A function with results of the right size. *)
Definition demo_hash (d : list byte) : list byte := ztake 32 (d ++ replicate 32 Byte.x00).
Definition demo_tree : gmap string node :=
  <["/s" := Dir]> (<["/m" := Dir]> (<["/s/ck-0-1.dat" := Reg demo_data]> ∅)).
Definition demo_c (k : Z) : command_t.t :=
  {| unique_id := 0; command := k; version := 1; offset := 0; name := "ck"; original := "" |}.

Lemma demo_hash_size d : zlen (demo_hash d) = HASH_SIZE.
Proof.
  unfold demo_hash. rewrite zlen_ztake, zlen_app by done.
  replace (zlen (replicate 32 Byte.x00)) with 32 by done. pose proof (zlen_nonneg d).
  unfold HASH_SIZE. lia.
Qed.

(** The local copy is damaged between the checkpoint and the restart. *)
Lemma chksum_verdict_witness :
  let '(_, s1) := process_command demo_hash true "/s" "/m" (demo_c CHECKPOINT) (mk_sys demo_tree []) in
  let s2 := mk_sys (<["/s/ck-0-1.dat" := Reg [Byte.x07]]> (files s1)) [] in
  ∃ v s3, process_command demo_hash true "/s" "/m" (demo_c RESTART) s2 = (Val v, s3) ∧ v ≠ VELOC_SUCCESS.
Proof.
  destruct (process_command demo_hash true "/s" "/m" (demo_c CHECKPOINT) (mk_sys demo_tree []))
    as [o s1] eqn:E. intros s2.
  assert (o = Val VELOC_SUCCESS) as ->.
  { change ((o, s1).1 = Val VELOC_SUCCESS). rewrite <-E. vm_compute. reflexivity. }
  destruct (chksum_verdict demo_hash demo_hash_size "/s" "/m" (demo_c CHECKPOINT) (demo_c RESTART)
    (mk_sys demo_tree []) s1 s2 "/s/ck-0-1.dat" "/s/ck-0-1.dat" demo_data [Byte.x07])
    as (v & s3 & Hrun & _ & _ & Hv & _);
    [reflexivity|reflexivity|reflexivity|intros t; vm_compute; discriminate
    |vm_compute; reflexivity|exact E| | |].
  - apply lookup_insert_ne. vm_compute. discriminate.
  - apply lookup_path_reg. apply lookup_insert_eq.
  - exists v, s3. split; [exact Hrun|]. intros Hs. specialize (Hv Hs). vm_compute in Hv. discriminate Hv.
Defined.
