(* ===== verification/AxlStorage.v ===== *)
(** * AxlStorage: [src/storage/axl_module.hpp], [src/storage/axl_module.cpp]

    The storage module that moves checkpoints with the AXL library.  AXL is not
    part of the sources: its functions are the fields of [axl_t], and what the
    module relies on is the class [AxlCopies]: a transfer that was created, took a
    file, was dispatched and completed has copied that file and touched no other. *)

From S2P Require Import Prelude Text Command FileSystem Containers FileUtil Storage.

Local Open Scope Z_scope.

Import command_t.

Record axl_t (S : Type) := {
  AXL_XFER_DEFAULT : Z;
  AXL_XFER_NATIVE : Z;
  AXL_XFER_SYNC : Z;
  AXL_XFER_ASYNC_DW : Z;
  AXL_XFER_ASYNC_BBAPI : Z;
  AXL_Init : comp S Z;
  AXL_Create : Z → string → comp S Z;
  AXL_Add : Z → string → string → comp S Z;
  AXL_Dispatch : Z → comp S Z;
  AXL_Wait : Z → comp S Z;
  AXL_Free : Z → comp S Z;
  AXL_Finalize : comp S Z
}.
Arguments AXL_XFER_DEFAULT {S} _.
Arguments AXL_XFER_NATIVE {S} _.
Arguments AXL_XFER_SYNC {S} _.
Arguments AXL_XFER_ASYNC_DW {S} _.
Arguments AXL_XFER_ASYNC_BBAPI {S} _.
Arguments AXL_Init {S} _.
Arguments AXL_Create {S} _ _ _.
Arguments AXL_Add {S} _ _ _ _.
Arguments AXL_Dispatch {S} _ _.
Arguments AXL_Wait {S} _ _.
Arguments AXL_Free {S} _ _.
Arguments AXL_Finalize {S} _.

Module axl_module_t.
Section axl_module.
Context {S : Type} {HS : HasSys S} (axl : axl_t S).
Variables scratch persistent : string.

Definition axl_type_strs : list (string * Z) :=
  [("default", axl.(AXL_XFER_DEFAULT)); ("native", axl.(AXL_XFER_NATIVE));
   ("AXL_XFER_SYNC", axl.(AXL_XFER_SYNC)); ("AXL_XFER_ASYNC_DW", axl.(AXL_XFER_ASYNC_DW));
   ("AXL_XFER_ASYNC_BBAPI", axl.(AXL_XFER_ASYNC_BBAPI))].

Definition find_type (axl_type_str : string) : option Z :=
  snd <$> List.find (λ e, bool_decide (e.1 = axl_type_str)) axl_type_strs.

(** The constructor: [axl_type]. *)
Definition make (axl_type_str : string) : comp S Z :=
  posix_module_t.make persistent;;
  match find_type axl_type_str with
  | None => stop FATAL
  | Some axl_type =>
      ret ← axl.(AXL_Init);
      if negb (ret =? 0) then stop FATAL else mret axl_type
  end.

Definition destroy : comp S unit := axl.(AXL_Finalize);; mret tt.

Variable axl_type : Z.

Definition axl_transfer_file (source dest : string) : comp S bool :=
  id ← axl.(AXL_Create) axl_type source;
  if id <? 0 then mret false else
  result ← axl.(AXL_Add) id source dest;
  if negb (result =? 0) then mret false else
  result ← axl.(AXL_Dispatch) id;
  if negb (result =? 0) then mret false else
  result ← axl.(AXL_Wait) id;
  if negb (result =? 0) then mret false else
  result ← axl.(AXL_Free) id;
  mret (result =? 0).

Definition flush (cmd : command_t.t) : comp S bool :=
  (* memory-based API *)
  if decide (cmd.(original) = "") then
    axl_transfer_file (filename cmd scratch) (filename cmd persistent)
  else
    (* file-based API *)
    ok ← axl_transfer_file (filename cmd scratch) cmd.(original);
    if negb ok then mret false else
    on_sys (unlink (filename cmd persistent));;
    on_sys (symlink cmd.(original) (filename cmd persistent)).

Definition restore (cmd : command_t.t) : comp S bool :=
  axl_transfer_file (filename cmd persistent) (filename cmd scratch).

(** The other operations are inherited. *)
Definition storage : storage_module_t S := {|
  Storage.get_versions := posix_module_t.get_versions persistent;
  Storage.remove := posix_module_t.remove persistent;
  Storage.flush := flush;
  Storage.restore := restore;
  Storage.exists_ := posix_module_t.exists_ persistent
|}.

End axl_module.
End axl_module_t.

(** ** What the module relies on *)

Class AxlCopies {S} {HS : HasSys S} (axl : axl_t S) : Prop := {
  axl_copies type source dest id st st1 st2 st3 st4 :
    axl.(AXL_Create) type source st = (Val id, st1) → 0 ≤ id →
    axl.(AXL_Add) id source dest st1 = (Val 0, st2) →
    axl.(AXL_Dispatch) id st2 = (Val 0, st3) →
    axl.(AXL_Wait) id st3 = (Val 0, st4) →
    ∃ p data q, lookup_path (files (the_sys st)) source = Some (p, Reg data) ∧
      resolve (files (the_sys st)) dest = Some q ∧
      files (the_sys st4) = <[q := Reg data]> (files (the_sys st));
  axl_free_files id st o st' :
    axl.(AXL_Free) id st = (o, st') → files (the_sys st') = files (the_sys st)
}.

Section axl.
Context {S : Type} {HS : HasSys S} (axl : axl_t S) {HA : AxlCopies axl}.

Lemma axl_transfer_true type source dest (st st' : S) p data :
  lookup_path (files (the_sys st)) source = Some (p, Reg data) →
  no_link (files (the_sys st)) dest →
  axl_module_t.axl_transfer_file axl type source dest st = (Val true, st') →
  files (the_sys st') = <[dest := Reg data]> (files (the_sys st)).
Proof.
  intros Hsrc Hdest. unfold axl_module_t.axl_transfer_file.
  intros (id & st1 & H1 & H)%comp_bind_inv. destruct (Z.ltb_spec id 0); [done|].
  apply comp_bind_inv in H as (r2 & st2 & H2 & H). destruct (Z.eqb_spec r2 0) as [->|]; [|done].
  apply comp_bind_inv in H as (r3 & st3 & H3 & H). destruct (Z.eqb_spec r3 0) as [->|]; [|done].
  apply comp_bind_inv in H as (r4 & st4 & H4 & H). destruct (Z.eqb_spec r4 0) as [->|]; [|done].
  apply comp_bind_inv in H as (r5 & st5 & H5%axl_free_files & H).
  assert (st5 = st') as -> by (by injection H). rewrite H5.
  destruct (axl_copies _ _ dest _ _ _ _ _ _ H1 ltac:(done) H2 H3 H4) as (p' & data' & q & Hp & Hq & ->).
  rewrite Hsrc in Hp. rewrite resolve_file in Hq by done. by simplify_eq.
Qed.

(** With AXL, flushing a checkpoint and restoring it after the local copy was
    lost gives the checkpoint back, in memory mode and in file mode, even over a
    longer file from before. *)
Theorem axl_flush_restore (scratch persistent : string) type (c : command_t.t)
    (st0 st1 st2 st3 : S) (data : list byte) :
  let dest := if decide (c.(original) = "") then filename c persistent else c.(original) in
  scratch ≠ persistent → filename c scratch ≠ c.(original) → filename c persistent ≠ c.(original) →
  files (the_sys st0) !! filename c scratch = Some (Reg data) →
  no_link (files (the_sys st0)) dest →
  axl_module_t.flush axl scratch persistent type c st0 = (Val true, st1) →
  files (the_sys st2) = delete (filename c scratch) (files (the_sys st1)) →
  axl_module_t.restore axl scratch persistent type c st2 = (Val true, st3) →
  files (the_sys st3) !! filename c scratch = Some (Reg data) ∧
  files (the_sys st3) !! dest = Some (Reg data).
Proof.
  intros dest Hsp Hso Hpo Hd Hnl Hfl Hdel Hre.
  assert (filename c scratch ≠ filename c persistent) as Hne
    by (intros H; by apply filename_prefix in H).
  assert (lookup_path (files (the_sys st2)) (filename c persistent) = Some (dest, Reg data) ∧
    files (the_sys st2) !! dest = Some (Reg data)) as [Hlp Hdest].
  { unfold axl_module_t.flush in Hfl. subst dest. case_decide as Ho.
    - eapply axl_transfer_true in Hfl; [|by apply lookup_path_reg|done].
      rewrite Hdel, Hfl. split; [apply lookup_path_reg|]; by simplify_map_eq.
    - apply comp_bind_inv in Hfl as ([|] & s' & Hc1 & Hfl); [|done].
      apply comp_bind_inv in Hfl as (b & s'' & (f1 & Hul & ->)%on_sys_inv & Hfl).
      apply on_sys_inv in Hfl as (f2 & Hsym & ->).
      eapply axl_transfer_true in Hc1; [|by apply lookup_path_reg|done].
      rewrite the_with_sys in Hsym, Hdel. apply symlink_true in Hsym as [Hnone Hs1].
      assert (files f1 !! original c = Some (Reg data)) as Horig.
      { apply unlink_spec in Hul as [[_ ->]|(_ & _ & ->)]; rewrite Hc1; by simplify_map_eq. }
      assert (files (the_sys st2) !! original c = Some (Reg data)) as Ho2
        by (rewrite Hdel, Hs1; by simplify_map_eq).
      split; [|done]. unfold lookup_path, resolve, SYMLOOP_MAX. simpl.
      assert (files (the_sys st2) !! filename c persistent = Some (Sym (original c))) as ->
        by (rewrite Hdel, Hs1; by simplify_map_eq).
      by rewrite Ho2, Ho2. }
  assert (files (the_sys st2) !! filename c scratch = None) as Hs2
    by (rewrite Hdel; by simplify_map_eq).
  unfold axl_module_t.restore in Hre.
  eapply axl_transfer_true in Hre; [|done|intros t; by rewrite Hs2].
  rewrite Hre. split; [by simplify_map_eq|].
  rewrite lookup_insert_ne; [done|]. intros Heq. subst dest. by case_decide.
Qed.
End axl.

(** An AXL that copies when it is waited for. *)
Definition demo_wait : comp (sys * option (string * string)) Z := λ '(s, x),
  match x with
  | Some (source, dest) =>
      match lookup_path s.(files) source, resolve s.(files) dest with
      | Some (_, Reg data), Some q => (Val 0, (set_files s (<[q := Reg data]> s.(files)), None))
      | _, _ => (Val 1, (s, None))
      end
  | None => (Val 1, (s, None))
  end.

Definition demo_axl : axl_t (sys * option (string * string)) := {|
  AXL_XFER_DEFAULT := 0; AXL_XFER_NATIVE := 1; AXL_XFER_SYNC := 2;
  AXL_XFER_ASYNC_DW := 3; AXL_XFER_ASYNC_BBAPI := 4;
  AXL_Init := mret 0;
  AXL_Create _ _ := mret 0;
  AXL_Add _ source dest := λ '(s, _), (Val 0, (s, Some (source, dest)));
  AXL_Dispatch _ := mret 0;
  AXL_Wait _ := demo_wait;
  AXL_Free _ := mret 0;
  AXL_Finalize := mret 0
|}.

Global Instance demo_axl_copies : AxlCopies demo_axl.
Proof.
  split; [|by intros id st o st' [= <- <-]].
  intros type source dest id [s x] st1 st2 st3 st4 [= <- <-] _ [= <-] [= <-] Hw. simpl in Hw |- *.
  destruct (lookup_path (files s) source) as [[p [data| |]]|], (resolve (files s) dest) as [q|];
    try discriminate Hw. injection Hw as <-. by exists p, data, q.
Qed.

Lemma axl_flush_restore_witness :
  let st0 := (mk_sys demo_files [], None) in
  let st1 := (axl_module_t.flush demo_axl "/s" "/p" 0 demo_routed st0).2 in
  let st2 := (mk_sys (delete "/s/ck-0-3.dat" (files st1.1)) [], None) in
  let st3 := (axl_module_t.restore demo_axl "/s" "/p" 0 demo_routed st2).2 in
  let dest := if decide (demo_routed.(original) = "") then filename demo_routed "/p"
              else demo_routed.(original) in
  files (the_sys st3) !! filename demo_routed "/s" = Some (Reg demo_data) ∧
  files (the_sys st3) !! dest = Some (Reg demo_data).
Proof.
  intros st0 st1 st2 st3 dest.
  apply (axl_flush_restore demo_axl "/s" "/p" 0 demo_routed st0 st1 st2 st3 demo_data);
    vm_compute; (reflexivity || discriminate).
Defined.
