(* ===== verification/DaosStorage.v ===== *)
(** * DaosStorage: [src/storage/daos_module.hpp], [src/storage/daos_module.cpp]

    The storage module that keeps checkpoints in a DAOS container: one key-value
    object per process, with the name of the checkpoint as the key.  DAOS is not
    part of the sources: its functions are the fields of [daos_t], and what the
    module relies on is the class [DaosKV], a key-value store behind handles. *)

From S2P Require Import Prelude Text Command FileSystem Containers FileUtil Storage Chksum Regex.

Local Open Scope Z_scope.

Import command_t.

(** [daos_obj_id_t]: [lo] and [hi]. *)
Definition daos_obj_id_t : Type := Z * Z.

(** Functions that fill in results return them with the return code. *)
Record daos_t (S : Type) := {
  daos_init : comp S Z;
  daos_pool_connect : string → comp S (Z * Z);
  daos_cont_open : Z → string → comp S (Z * Z);
  daos_obj_generate_oid : Z → daos_obj_id_t → comp S daos_obj_id_t;
  daos_kv_open : Z → daos_obj_id_t → comp S (Z * Z);
  (* the anchor to the return code, the keys and the next anchor *)
  daos_kv_list : Z → Z → comp S (Z * list string * Z);
  daos_anchor_is_eof : Z → bool;
  daos_kv_put : Z → string → list byte → comp S Z;
  (* without a buffer: the size passed in to the return code and the size *)
  daos_kv_get_size : Z → string → Z → comp S (Z * Z);
  (* into a buffer of a size: the return code and what was written *)
  daos_kv_get : Z → string → Z → comp S (Z * list byte);
  daos_kv_remove : Z → string → comp S Z;
  daos_kv_close : Z → comp S Z
}.
Arguments daos_init {S} _.
Arguments daos_pool_connect {S} _ _.
Arguments daos_cont_open {S} _ _ _.
Arguments daos_obj_generate_oid {S} _ _ _.
Arguments daos_kv_open {S} _ _ _.
Arguments daos_kv_list {S} _ _ _.
Arguments daos_anchor_is_eof {S} _ _.
Arguments daos_kv_put {S} _ _ _ _.
Arguments daos_kv_get_size {S} _ _ _ _.
Arguments daos_kv_get {S} _ _ _ _.
Arguments daos_kv_remove {S} _ _ _.
Arguments daos_kv_close {S} _ _.

(** ** Calls of the operating system *)

(** [posix_fallocate(fd, 0, size)]: true is 0; a size of 0 is invalid. *)
Definition posix_fallocate (fd : string) (size : Z) : posix bool :=
  ok ← next_ok;
  s ← get;
  match s.(files) !! fd with
  | Some (Reg d) =>
      if (ok : bool) && (0 <? size) then
        put (set_files s (<[fd := Reg (d ++ replicate (Z.to_nat (size - zlen d)) Byte.x00)]> s.(files)));;
        mret true
      else mret false
  | _ => mret false
  end.

(** [mmap(NULL, size, PROT_READ | PROT_WRITE, MAP_SHARED, fd, 0)] *)
Definition mmap_shared (fd : string) (size : Z) : posix bool :=
  ok ← next_ok;
  mret ((ok : bool) && (0 <? size)).

(** Writing to the head of such a mapping writes to the file. *)
Definition mapped_write (fd : string) (bs : list byte) : posix unit :=
  modify (λ s, match s.(files) !! fd with
               | Some (Reg d) => set_files s (<[fd := Reg (splice 0 bs d)]> s.(files))
               | _ => s
               end).

Module daos_module_t.
Section daos_module.
Context {S : Type} {HS : HasSys S} (daos : daos_t S).

(** The constructor: [poh] and [coh]. *)
Definition make (p c : string) : comp S (Z * Z) :=
  r ← daos.(daos_init);
  if negb (r =? 0) then stop FATAL else
  '(rc, poh) ← daos.(daos_pool_connect) p;
  if negb (rc =? 0) then stop FATAL else
  '(rc, coh) ← daos.(daos_cont_open) poh c;
  if negb (rc =? 0) then stop FATAL else
  mret (poh, coh).

(** [garbage] is what an uninitialised [size] holds, [fuel] bounds the batches of
    a listing. *)
Variables (scratch : string) (coh garbage : Z) (fuel : nat).

Definition generate_kv_id (unique_id : Z) : comp S daos_obj_id_t :=
  daos.(daos_obj_generate_oid) coh (u64 unique_id, 0).

(** The object of the process. *)
Definition open_kv (cmd : command_t.t) : comp S (Z * Z) :=
  oid ← generate_kv_id cmd.(unique_id);
  daos.(daos_kv_open) coh oid.

(** The versions of the keys of a batch. *)
Definition collect_keys (e : Regex.regex) : list string → comp (S * zset) unit :=
  mforeach (λ key, m ← stop (match_ key e);
    match m with
    | Some (id, v) => modify (λ '(s, result), (s, set_insert v result))
    | None => mret tt
    end).

Fixpoint list_keys (fuel : nat) (e : Regex.regex) (oh anchor : Z) : comp (S * zset) unit :=
  if daos.(daos_anchor_is_eof) anchor then on_fst (daos.(daos_kv_close) oh);; mret tt else
  match fuel with
  | O => stop Hang
  | Datatypes.S fuel =>
      '(rc, keys, anchor) ← on_fst (daos.(daos_kv_list) oh anchor);
      if negb (rc =? 0) then on_fst (daos.(daos_kv_close) oh);; mret tt else
      collect_keys e keys;;
      list_keys fuel e oh anchor
  end.

Definition get_versions (cmd : command_t.t) : comp (S * zset) unit :=
  '(rc, oh) ← on_fst (open_kv cmd);
  if negb (rc =? 0) then mret tt else
  match command_t.regex cmd.(name) with
  | None => stop (Raise regex_error)
  | Some e => list_keys fuel e oh 0
  end.

Definition flush (cmd : command_t.t) : comp S bool :=
  '(rc, oh) ← open_kv cmd;
  if negb (rc =? 0) then mret false else
  let source := filename cmd scratch in
  fi ← on_sys (open_rd source);
  size ← on_sys (file_size source);
  match fi with
  | None => daos.(daos_kv_close) oh;; mret false
  | Some fi =>
      if size =? -1 then daos.(daos_kv_close) oh;; mret false else
      buff ← on_sys (mmap_whole fi);
      match buff with
      | None => daos.(daos_kv_close) oh;; mret false
      | Some buff =>
          rc ← daos.(daos_kv_put) oh (stem cmd) buff;
          daos.(daos_kv_close) oh;;
          mret (rc =? 0)
      end
  end.

Definition restore (cmd : command_t.t) : comp S bool :=
  '(rc, oh) ← open_kv cmd;
  if negb (rc =? 0) then mret false else
  '(rc, size) ← daos.(daos_kv_get_size) oh (stem cmd) garbage;
  if negb (rc =? 0) then daos.(daos_kv_close) oh;; mret false else
  fo ← on_sys (open_wr true (filename cmd scratch));
  match fo with
  | None => daos.(daos_kv_close) oh;; mret false
  | Some fo =>
      ok ← on_sys (posix_fallocate fo size);
      if negb ok then daos.(daos_kv_close) oh;; mret false else
      ok ← on_sys (mmap_shared fo size);
      if negb ok then daos.(daos_kv_close) oh;; mret false else
      '(rc, bs) ← daos.(daos_kv_get) oh (stem cmd) size;
      on_sys (mapped_write fo bs);;
      daos.(daos_kv_close) oh;;
      mret (rc =? 0)
  end.

Definition exists_ (cmd : command_t.t) : comp S bool :=
  '(rc, oh) ← open_kv cmd;
  if negb (rc =? 0) then mret false else
  '(rc, _) ← daos.(daos_kv_get_size) oh (stem cmd) garbage;
  daos.(daos_kv_close) oh;;
  mret (rc =? 0).

Definition remove (cmd : command_t.t) : comp S bool :=
  '(rc, oh) ← open_kv cmd;
  if negb (rc =? 0) then mret false else
  rc ← daos.(daos_kv_remove) oh (stem cmd);
  daos.(daos_kv_close) oh;;
  mret (rc =? 0).

Definition storage : storage_module_t S := {|
  Storage.get_versions := get_versions;
  Storage.remove := remove;
  Storage.flush := flush;
  Storage.restore := restore;
  Storage.exists_ := exists_
|}.

End daos_module.
End daos_module_t.

(** ** What the module relies on *)

(** The store as a function from object and key to the value, with open handles. *)
Class DaosKV {S} {HS : HasSys S} (daos : daos_t S) := {
  kv : S → daos_obj_id_t → string → option (list byte);
  handle : S → Z → option daos_obj_id_t;
  oid_of : Z → daos_obj_id_t → daos_obj_id_t;
  kv_same (st st' : S) : Prop :=
    (∀ oid key, kv st' oid key = kv st oid key) ∧ files (the_sys st') = files (the_sys st);
  kv_with_sys st s oid key : kv (with_sys st s) oid key = kv st oid key;
  handle_with_sys st s oh : handle (with_sys st s) oh = handle st oh;
  kv_generate coh oid st o st' :
    daos.(daos_obj_generate_oid) coh oid st = (Val o, st') → o = oid_of coh oid ∧ kv_same st st';
  kv_open coh oid st oh st' :
    daos.(daos_kv_open) coh oid st = (Val (0, oh), st') → handle st' oh = Some oid ∧ kv_same st st';
  kv_put oh oid key bs st st' :
    handle st oh = Some oid → daos.(daos_kv_put) oh key bs st = (Val 0, st') →
    kv st' oid key = Some bs ∧
    (∀ oid' key', (oid', key') ≠ (oid, key) → kv st' oid' key' = kv st oid' key') ∧
    files (the_sys st') = files (the_sys st);
  kv_size oh oid key g n st st' :
    handle st oh = Some oid → daos.(daos_kv_get_size) oh key g st = (Val (0, n), st') →
    (∀ v, kv st oid key = Some v → n = zlen v) ∧ handle st' oh = Some oid ∧ kv_same st st';
  kv_get oh oid key n bs st st' :
    handle st oh = Some oid → daos.(daos_kv_get) oh key n st = (Val (0, bs), st') →
    (∀ v, kv st oid key = Some v → zlen v = n → bs = v) ∧ kv_same st st';
  kv_close oh st o st' : daos.(daos_kv_close) oh st = (o, st') → kv_same st st'
}.

Lemma mmap_whole_some fd s b s' :
  mmap_whole fd s = (Val (Some b), s') → files s' = files s ∧ files s !! fd = Some (Reg b).
Proof.
  unfold mmap_whole. posix_step. unfold get, mret, comp_ret. intros [= H <-].
  split; [done|]. rewrite Hf in H. by destruct (files s !! fd) as [[[|]| |]|], b0; simplify_eq.
Qed.

Lemma file_size_files p s o s' : file_size p s = (o, s') → files s' = files s.
Proof.
  unfold file_size. intros H. bind_spec H stat_size_spec E. destruct E as [Hf [->|Ho]].
  - by injection H as <- <-.
  - destruct o0; by injection H as <- <-.
Qed.

Lemma posix_fallocate_true fd n s s' d :
  files s !! fd = Some (Reg d) → posix_fallocate fd n s = (Val true, s') →
  files s' = <[fd := Reg (d ++ replicate (Z.to_nat (n - zlen d)) Byte.x00)]> (files s).
Proof.
  intros Hd. unfold posix_fallocate. posix_step. unfold get, put, mret, comp_ret. rewrite Hf, Hd.
  destruct (_ && _); intros; simplify_eq. simpl. by rewrite ?Hf.
Qed.

Lemma mmap_shared_files fd n s o s' : mmap_shared fd n s = (o, s') → files s' = files s.
Proof. unfold mmap_shared. posix_step. unfold mret, comp_ret. intros [= _ <-]. done. Qed.

Section daos.
Context {S : Type} {HS : HasSys S} (daos : daos_t S) {HD : DaosKV daos}.
Variables (scratch : string) (coh garbage : Z).

(** The object in which the checkpoints of a process are. *)
Definition object_of (c : command_t.t) : daos_obj_id_t := oid_of coh (u64 c.(unique_id), 0).

Lemma kv_same_trans st1 st2 st3 : kv_same st1 st2 → kv_same st2 st3 → kv_same st1 st3.
Proof. intros [H1 H2] [H3 H4]. split; [intros; by rewrite H3, H1|congruence]. Qed.

Lemma open_kv_val c st oh st' :
  daos_module_t.open_kv daos coh c st = (Val (0, oh), st') →
  handle st' oh = Some (object_of c) ∧ kv_same st st'.
Proof.
  intros (oid & st1 & [-> H1]%kv_generate & [H2 H3]%kv_open)%comp_bind_inv.
  split; [exact H2|]. by eapply kv_same_trans.
Qed.

Lemma daos_flush_true c st st' data :
  files (the_sys st) !! filename c scratch = Some (Reg data) →
  daos_module_t.flush daos scratch coh c st = (Val true, st') →
  kv st' (object_of c) (stem c) = Some data.
Proof.
  intros Hd. unfold daos_module_t.flush.
  intros ([rc oh] & st1 & H1 & H)%comp_bind_inv. destruct (Z.eqb_spec rc 0) as [->|]; [|done].
  apply open_kv_val in H1 as [Hh [_ Hf1]].
  apply comp_bind_inv in H as (fi & st2 & (f2 & H2 & ->)%on_sys_inv & H).
  apply comp_bind_inv in H as (size & st3 & (f3 & H3 & ->)%on_sys_inv & H).
  destruct fi as [fi|]; [|by apply comp_bind_inv in H as (? & ? & _ & ?)].
  destruct (size =? -1); [by apply comp_bind_inv in H as (? & ? & _ & ?)|].
  apply comp_bind_inv in H as (buff & st4 & (f4 & H4 & ->)%on_sys_inv & H).
  destruct buff as [buff|]; [|by apply comp_bind_inv in H as (? & ? & _ & ?)].
  apply comp_bind_inv in H as (rc & st5 & H5 & H).
  apply comp_bind_inv in H as (? & st6 & [H6 _]%kv_close & H).
  assert (st6 = st' ∧ rc = 0) as [-> ->] by (injection H; split; [done|lia]).
  rewrite H6. apply (kv_put _ (object_of c)) in H5 as (-> & _ & _); [|by rewrite !handle_with_sys].
  rewrite !the_with_sys in *. apply mmap_whole_some in H4 as [_ H4].
  apply open_rd_spec in H2 as [Hf2 [|(q & nd & Hl & [= <-])]]; [done|].
  apply file_size_files in H3. rewrite H3, Hf2, Hf1 in H4. rewrite Hf1 in Hl.
  rewrite (lookup_path_reg _ _ _ Hd) in Hl. simplify_map_eq. done.
Qed.

Lemma daos_restore_true c st st' data :
  no_link (files (the_sys st)) (filename c scratch) →
  kv st (object_of c) (stem c) = Some data →
  daos_module_t.restore daos scratch coh garbage c st = (Val true, st') →
  files (the_sys st') = <[filename c scratch := Reg data]> (files (the_sys st)).
Proof.
  intros Hnl Hkv. unfold daos_module_t.restore.
  intros ([rc oh] & st1 & H1 & H)%comp_bind_inv. destruct (Z.eqb_spec rc 0) as [->|]; [|done].
  apply open_kv_val in H1 as [Hh [Hkv1 Hf1]].
  apply comp_bind_inv in H as ([rc size] & st2 & H2 & H).
  destruct (Z.eqb_spec rc 0) as [->|]; [|by apply comp_bind_inv in H as (? & ? & _ & ?)].
  apply (kv_size _ (object_of c)) in H2 as (Hsize & Hh2 & Hkv2 & Hf2); [|done].
  rewrite Hkv1 in Hsize. specialize (Hsize _ Hkv). subst size.
  apply comp_bind_inv in H as (fo & st3 & (f3 & H3 & ->)%on_sys_inv & H).
  destruct fo as [fo|]; [|by apply comp_bind_inv in H as (? & ? & _ & ?)].
  apply open_wr_some in H3 as (Hres & d & _ & Hf3). rewrite Hf2, Hf1 in Hres, Hf3.
  rewrite resolve_file in Hres by done. injection Hres as <-.
  apply comp_bind_inv in H as ([] & st4 & (f4 & H4 & ->)%on_sys_inv & H);
    [|by apply comp_bind_inv in H as (? & ? & _ & ?)].
  rewrite the_with_sys in H4.
  apply (posix_fallocate_true _ _ _ _ []) in H4; [|rewrite Hf3; by simplify_map_eq].
  apply comp_bind_inv in H as ([] & st5 & (f5 & H5 & ->)%on_sys_inv & H);
    [|by apply comp_bind_inv in H as (? & ? & _ & ?)].
  rewrite the_with_sys in H5. apply mmap_shared_files in H5.
  apply comp_bind_inv in H as ([rc bs] & st6 & H6 & H).
  apply comp_bind_inv in H as ([] & st7 & (f7 & H7 & ->)%on_sys_inv & H).
  apply comp_bind_inv in H as (? & st8 & [_ H8]%kv_close & H).
  assert (st8 = st' ∧ rc = 0) as [-> ->] by (injection H; split; [done|lia]).
  apply (kv_get _ (object_of c)) in H6 as [Hbs [_ Hf6]]; [|by rewrite !handle_with_sys].
  rewrite !kv_with_sys, Hkv2, Hkv1 in Hbs. specialize (Hbs _ Hkv eq_refl). subst bs.
  rewrite H8. rewrite !the_with_sys in *.
  assert (files (the_sys st6) !! filename c scratch =
    Some (Reg (replicate (Z.to_nat (zlen data)) Byte.x00))) as Hz.
  { rewrite Hf6, H5, H4. simplify_map_eq. simpl. by rewrite Z.sub_0_r. }
  unfold mapped_write, modify in H7. injection H7 as <-. rewrite Hz. simpl.
  rewrite Hf6, H5, H4, Hf3, !insert_insert_eq. do 2 f_equal. rewrite splice_0, zdrop_all.
  - by rewrite app_nil_r.
  - unfold zlen at 1. rewrite length_replicate. unfold zlen. lia.
Qed.

(** C33: with DAOS, flushing a checkpoint and restoring it after the local copy was
    lost gives the checkpoint back, whatever errors the calls of the operating
    system and of DAOS met on the way to the two successful results. *)
Theorem daos_flush_restore (c : command_t.t) (st0 st1 st2 st3 : S) (data : list byte) :
  files (the_sys st0) !! filename c scratch = Some (Reg data) →
  daos_module_t.flush daos scratch coh c st0 = (Val true, st1) →
  files (the_sys st2) = delete (filename c scratch) (files (the_sys st1)) →
  (∀ oid key, kv st2 oid key = kv st1 oid key) →
  daos_module_t.restore daos scratch coh garbage c st2 = (Val true, st3) →
  files (the_sys st3) !! filename c scratch = Some (Reg data).
Proof.
  intros Hd Hfl Hdel Hkv Hre. apply (daos_flush_true _ _ _ data) in Hfl; [|done].
  apply (daos_restore_true _ _ _ data) in Hre; [|intros t; rewrite Hdel; by simplify_map_eq|by rewrite Hkv].
  rewrite Hre. by simplify_map_eq.
Qed.
End daos.

(** A store in memory with one handle: the newest entry of a key counts. *)
Definition demo_store : Type := list (daos_obj_id_t * string * list byte) * daos_obj_id_t.

Definition demo_find (m : list (daos_obj_id_t * string * list byte)) (oid : daos_obj_id_t) (key : string) :
    option (list byte) :=
  snd <$> List.find (λ e, bool_decide (e.1 = (oid, key))) m.

Definition demo_daos : daos_t (sys * demo_store) := {|
  daos_init := mret 0;
  daos_pool_connect _ := mret (0, 0);
  daos_cont_open _ _ := mret (0, 0);
  daos_obj_generate_oid _ oid := mret oid;
  daos_kv_open _ oid := λ '(s, (m, _)), (Val (0, 0), (s, (m, oid)));
  daos_kv_list _ _ := λ '(s, (m, oid)),
    (Val (0, omap (λ e, if decide (e.1.1 = oid) then Some e.1.2 else None) m, 1), (s, (m, oid)));
  daos_anchor_is_eof a := a =? 1;
  daos_kv_put _ key bs := λ '(s, (m, oid)), (Val 0, (s, ((oid, key, bs) :: m, oid)));
  daos_kv_get_size _ key _ := λ '(s, (m, oid)),
    (Val (match demo_find m oid key with Some v => (0, zlen v) | None => (-1, 0) end), (s, (m, oid)));
  daos_kv_get _ key n := λ '(s, (m, oid)),
    (Val (match demo_find m oid key with Some v => (0, ztake n v) | None => (-1, []) end), (s, (m, oid)));
  daos_kv_remove _ key := λ '(s, (m, oid)),
    (Val 0, (s, (List.filter (λ e, negb (bool_decide (e.1 = (oid, key)))) m, oid)));
  daos_kv_close _ := mret 0
|}.

Global Program Instance demo_daos_kv : DaosKV demo_daos := {|
  kv st := demo_find st.2.1;
  handle st _ := Some st.2.2;
  oid_of _ oid := oid
|}.
Next Obligation. done. Qed.
Next Obligation. done. Qed.
Next Obligation. by intros coh oid st o st' [= <- <-]. Qed.
Next Obligation. by intros coh oid [s [m x]] oh st' [= <- <-]. Qed.
Next Obligation.
  intros oh oid key bs [s [m x]] st' [= <-] [= <-]. unfold demo_find. simpl.
  split; [by rewrite bool_decide_true|]. split; [|done].
  intros oid' key' Hne. by rewrite bool_decide_false by congruence.
Qed.
Next Obligation.
  intros oh oid key g n [s [m x]] st' [= <-] [= Hn <-]. simpl.
  split; [|done]. intros v Hv. rewrite Hv in Hn. congruence.
Qed.
Next Obligation.
  intros oh oid key n bs [s [m x]] st' [= <-] [= Hn <-]. simpl.
  split; [|done]. intros v Hv Hlen. rewrite Hv in Hn. injection Hn as <-. rewrite ztake_all; [done|lia].
Qed.
Next Obligation. by intros oh st o st' [= <- <-]. Qed.

Lemma daos_flush_restore_witness :
  let st0 := (mk_sys demo_files [], ([], (0, 0))) in
  let st1 := (daos_module_t.flush demo_daos "/s" 0 demo_cmd st0).2 in
  let st2 := (mk_sys (delete "/s/ck-0-3.dat" (files st1.1)) [], st1.2) in
  let st3 := (daos_module_t.restore demo_daos "/s" 0 0 demo_cmd st2).2 in
  files (the_sys st3) !! filename demo_cmd "/s" = Some (Reg demo_data).
Proof.
  intros st0 st1 st2 st3.
  apply (daos_flush_restore demo_daos "/s" 0 0 demo_cmd st0 st1 st2 st3 demo_data);
    [vm_compute; reflexivity..|intros; reflexivity|vm_compute; reflexivity].
Defined.
