(* ===== verification/Ec.v ===== *)
(** * Ec: [src/modules/ec_module.cpp]

    The module that protects the checkpoints of all backends together by erasure
    coding.  The coding itself is the ER library's, and the agreement between
    the backends is MPI's: both are parameters. *)

From S2P Require Import Prelude Text Command FileSystem Environment.

Local Open Scope Z_scope.

Import command_t.

(** ** The ER library ([er.h]), over a state of its own *)

Record er_t (E : Type) := {
  ER_SUCCESS : Z;
  ER_DIRECTION_ENCODE : Z;
  ER_DIRECTION_REBUILD : Z;
  ER_Init : string → comp (env * E) Z;
  ER_Create_Scheme : string → Z → Z → comp (env * E) Z;
  ER_Free_Scheme : Z → comp (env * E) Z;
  ER_Finalize : comp (env * E) Z;
  ER_Create : string → Z → Z → comp (env * E) Z;
  ER_Add : Z → string → comp (env * E) Z;
  ER_Dispatch : Z → comp (env * E) Z;
  ER_Wait : Z → comp (env * E) Z;
  ER_Free : Z → comp (env * E) Z
}.
Arguments ER_SUCCESS {E} _.
Arguments ER_DIRECTION_ENCODE {E} _.
Arguments ER_DIRECTION_REBUILD {E} _.
Arguments ER_Init {E} _ _.
Arguments ER_Create_Scheme {E} _ _ _ _.
Arguments ER_Free_Scheme {E} _ _.
Arguments ER_Finalize {E} _.
Arguments ER_Create {E} _ _ _ _.
Arguments ER_Add {E} _ _ _.
Arguments ER_Dispatch {E} _ _.
Arguments ER_Wait {E} _ _.
Arguments ER_Free {E} _ _.

Module ec_module_t.
Section ec_module.
Context {E : Type} (er : er_t E).

(** The state: the ER library's, and [last_timestamp]. *)
Abbreviation state := ((env * E) * Z)%type.
Abbreviation ec := (comp state).

(** The constructor: [interval] and [scheme_id]; [rank] and [ranks] are those of
    the communicator. *)
Definition make (ec_interval : option Z) (cfg_file : string) (rank ranks : Z) : comp (env * E) (Z * Z) :=
  let interval := default 0 ec_interval in
  let interval := if ranks <? 2 then -1 else interval in
  if interval <? 0 then mret (interval, 0) else
  r ← er.(ER_Init) cfg_file;
  if negb (r =? er.(ER_SUCCESS)) then stop FATAL else
  scheme_id ← er.(ER_Create_Scheme) (to_string rank) ranks 1;
  if scheme_id <? 0 then er.(ER_Finalize);; stop FATAL
  else mret (interval, scheme_id).

(** The destructor. *)
Definition destroy (interval scheme_id : Z) : comp (env * E) unit :=
  if 0 <=? interval then er.(ER_Free_Scheme) scheme_id;; er.(ER_Finalize);; mret tt
  else mret tt.

Section process.
Variables (interval scheme_id : Z) (scratch : string).

Definition process_command (c : command_t.t) : ec Z :=
  if interval <? 0 then mret VELOC_IGNORED
  else if c.(command) =? INIT then
    t ← on_fst (on_fst now);
    modify (λ '(st, _), (st, t + seconds interval));;
    mret VELOC_SUCCESS
  else mret VELOC_IGNORED.

(** The result of [MPI_Allreduce] with [MPI_LAND], given what this rank put in. *)
Variable allreduce : Z → Z.

Definition set_name (c : command_t.t) : string :=
  scratch +:+ "/" +:+ c.(name) +:+ "-ec-" +:+ to_string c.(version).

(** The vote on a checkpoint, when there is an interval: whether all ranks are
    to protect it. *)
Definition checkpoint_vote : ec bool :=
  if 0 <? interval then
    t ← on_fst (on_fst now);
    '(_, last_timestamp) ← get;
    let checkpoint := if t <? last_timestamp then 0 else 1 in
    if negb (allreduce checkpoint =? 0) then
      modify (λ '(st, _), (st, t + seconds interval));; mret true
    else mret false
  else mret true.

Fixpoint add_files (set_id : Z) (cmds : list command_t.t) : comp (env * E) unit :=
  match cmds with
  | [] => mret tt
  | c :: cmds => er.(ER_Add) set_id (filename c scratch);; add_files set_id cmds
  end.

(** Dispatch, wait, free: the result of the wait. *)
Definition run_set (set_id : Z) : comp (env * E) Z :=
  er.(ER_Dispatch) set_id;;
  ret ← er.(ER_Wait) set_id;
  er.(ER_Free) set_id;;
  mret ret.

Definition encode (name : string) (cmds : list command_t.t) : comp (env * E) Z :=
  set_id ← er.(ER_Create) name er.(ER_DIRECTION_ENCODE) scheme_id;
  if set_id =? -1 then mret VELOC_FAILURE else
  add_files set_id cmds;;
  ret ← run_set set_id;
  mret (if ret =? er.(ER_SUCCESS) then VELOC_SUCCESS else VELOC_FAILURE).

Definition rebuild (name : string) : comp (env * E) Z :=
  set_id ← er.(ER_Create) name er.(ER_DIRECTION_REBUILD) 0;
  if set_id =? -1 then mret VELOC_FAILURE else
  ret ← run_set set_id;
  mret (if ret =? er.(ER_SUCCESS) then VELOC_SUCCESS else VELOC_IGNORED).

(** [local_alive]: all local files are there; the first missing one ends the
    loop. *)
Fixpoint local_alive (cmds : list command_t.t) : posix Z :=
  match cmds with
  | [] => mret 1
  | c :: cmds =>
      ok ← access (filename c scratch);
      if negb ok then mret 0 else local_alive cmds
  end.

Definition process_commands (cmds : list command_t.t) : ec Z :=
  match cmds with
  | [] => mret VELOC_IGNORED
  | c0 :: _ =>
      if interval <? 0 then mret VELOC_IGNORED
      else if c0.(command) =? CHECKPOINT then
        go ← checkpoint_vote;
        if (go : bool) then on_fst (encode (set_name c0) cmds) else mret VELOC_SUCCESS
      else if c0.(command) =? RESTART then
        alive ← on_sys (local_alive cmds);
        if negb (allreduce alive =? 0) then mret VELOC_SUCCESS
        else on_fst (rebuild (set_name c0))
      else mret VELOC_IGNORED
  end.

End process.
End ec_module.
End ec_module_t.

Import ec_module_t.

(** ** Collective agreement *)

(** A backend in the middle of a collective command: its commands, its state, and
    what MPI answers it. *)
Record backend_rank (E : Type) := mk_rank {
  rank_cmds : list command_t.t;
  rank_state : (env * E) * Z;
  rank_allreduce : Z → Z
}.
Arguments mk_rank {E} _ _ _.
Arguments rank_cmds {E} _.
Arguments rank_state {E} _.
Arguments rank_allreduce {E} _ _.

Section agreement.
Context {E : Type} (er : er_t E) (interval scheme_id : Z) (scratch : string).

(** What a backend puts into the vote on a command. *)
Definition contribution (k : Z) (r : backend_rank E) : Z :=
  let '((e, _), last_timestamp) := r.(rank_state) in
  if k =? CHECKPOINT then
    if clock e (readings e) <? last_timestamp then 0 else 1
  else
    match (local_alive scratch r.(rank_cmds) e.(env_sys)).1 with Val a => a | _ => 0 end.

(** What MPI documents of a reduction with [MPI_LAND]. *)
Definition allreduce_land (k : Z) (ranks : list (backend_rank E)) : Prop :=
  ∀ r, r ∈ ranks →
    (r.(rank_allreduce) (contribution k r) ≠ 0 ↔ ∀ r', r' ∈ ranks → contribution k r' ≠ 0).

Definition run_rank (r : backend_rank E) : outcome Z * ((env * E) * Z) :=
  process_commands er interval scheme_id scratch r.(rank_allreduce) r.(rank_cmds) r.(rank_state).

(** The rank makes no call of the ER library. *)
Definition skips (r : backend_rank E) : Prop :=
  ∃ st', run_rank r = (Val VELOC_SUCCESS, st') ∧ st'.1.2 = r.(rank_state).1.2.

(** The rank takes part in the collective operation. *)
Definition takes_part (k : Z) (r : backend_rank E) : Prop :=
  ∃ c0 st', head r.(rank_cmds) = Some c0 ∧ st'.1.2 = r.(rank_state).1.2 ∧
    run_rank r = on_fst (if k =? CHECKPOINT then encode er scheme_id scratch (set_name scratch c0) r.(rank_cmds)
                         else rebuild er (set_name scratch c0)) st'.

Lemma local_alive_total cmds s :
  ∃ a s', local_alive scratch cmds s = (Val a, s').
Proof.
  revert s. induction cmds as [|c cmds IH]; intros s; [by repeat eexists|]. cbn [local_alive].
  destruct (access (filename c scratch) s) as [o s1] eqn:Ha.
  apply access_files in Ha as Hb. destruct Hb as (_ & b & ->).
  rewrite (comp_bind_val _ _ _ _ _ Ha). destruct b; [apply IH|by repeat eexists].
Qed.

Lemma run_checkpoint r c0 cmds :
  0 < interval → r.(rank_cmds) = c0 :: cmds → c0.(command) = CHECKPOINT →
  (r.(rank_allreduce) (contribution CHECKPOINT r) = 0 → skips r) ∧
  (r.(rank_allreduce) (contribution CHECKPOINT r) ≠ 0 → takes_part CHECKPOINT r).
Proof.
  intros Hi Hcmds Hc. destruct r as [cmds' [[e er0] last] reduce]. simpl in *. subst cmds'.
  assert (∀ b, (reduce (contribution CHECKPOINT (mk_rank (c0 :: cmds) ((e, er0), last) reduce)) = 0 ↔ b = false) →
    checkpoint_vote interval reduce ((e, er0), last)
    = (Val b, ((tick e, er0), if b then clock e (readings e) + seconds interval else last))) as Hvote.
  { intros b Hb. unfold checkpoint_vote. destruct (Z.ltb_spec 0 interval); [|lia].
    erewrite comp_bind_val by done. rewrite get_bind. cbn beta iota zeta.
    unfold contribution in Hb. simpl in Hb.
    destruct (Z.eqb_spec (reduce (if clock e (readings e) <? last then 0 else 1)) 0); cbn [negb].
    - by rewrite (proj1 Hb).
    - destruct b; [done|]. by destruct Hb as [_ Hb]; rewrite Hb in *. }
  unfold skips, takes_part, run_rank. cbn [rank_cmds rank_state rank_allreduce process_commands].
  destruct (Z.ltb_spec interval 0); [lia|]. rewrite Hc. simpl (CHECKPOINT =? CHECKPOINT). cbn iota.
  split; intros Hr.
  - eexists. rewrite (comp_bind_val _ _ _ _ _ (Hvote false (conj (λ _, eq_refl) (λ _, Hr)))). done.
  - specialize (Hvote true). rewrite comp_bind_unfold, Hvote by (by split; [intros ?%Hr|]).
    eexists c0, ((tick e, er0), clock e (readings e) + seconds interval). done.
Qed.

Lemma run_restart r c0 cmds :
  0 ≤ interval → r.(rank_cmds) = c0 :: cmds → c0.(command) = RESTART →
  (r.(rank_allreduce) (contribution RESTART r) ≠ 0 → skips r) ∧
  (r.(rank_allreduce) (contribution RESTART r) = 0 → takes_part RESTART r).
Proof.
  intros Hi Hcmds Hc. destruct r as [cmds' [[e er0] last] reduce]. simpl in *. subst cmds'.
  destruct (local_alive_total (c0 :: cmds) (env_sys e)) as (a & s' & Ha).
  assert (on_sys (local_alive scratch (c0 :: cmds)) ((e, er0), last)
    = (Val a, ((with_sys e s', er0), last))) as Hal
    by exact (on_sys_run _ ((e, er0), last) _ _ Ha).
  unfold skips, takes_part, run_rank, contribution.
  cbn [rank_cmds rank_state rank_allreduce process_commands].
  destruct (Z.ltb_spec interval 0); [lia|]. rewrite Hc.
  simpl (RESTART =? CHECKPOINT). simpl (RESTART =? RESTART). cbn iota.
  rewrite (comp_bind_val _ _ _ _ _ Hal), Ha. cbn [fst].
  destruct (Z.eqb_spec (reduce a) 0); cbn [negb].
  - split; [done|]. intros _. by exists c0, ((with_sys e s', er0), last).
  - split; [|done]. intros _. by eexists.
Qed.

(** C27: the backends agree on the collective operations.  When MPI reduces as
    documented, for a checkpoint as well as for a restart either every backend
    answers without calling the ER library, or every one takes part in the
    encoding or the rebuild, so that none waits for another in vain.  (A set that
    only some of the backends can create, [ER_Create], is not covered.) *)
Theorem ec_agreement (k : Z) (ranks : list (backend_rank E)) :
  k = CHECKPOINT ∧ 0 < interval ∨ k = RESTART ∧ 0 ≤ interval →
  allreduce_land k ranks →
  (∀ r, r ∈ ranks → ∃ c0 cmds, r.(rank_cmds) = c0 :: cmds ∧ c0.(command) = k) →
  (∀ r, r ∈ ranks → skips r) ∨ (∀ r, r ∈ ranks → takes_part k r).
Proof.
  intros Hk Hland Hcmds.
  assert ((∀ r, r ∈ ranks → contribution k r ≠ 0) ∨ ¬ (∀ r, r ∈ ranks → contribution k r ≠ 0)) as Hall.
  { setoid_rewrite <-Forall_forall. destruct (decide (Forall (λ r, contribution k r ≠ 0) ranks)); auto. }
  destruct Hk as [[-> Hi]|[-> Hi]], Hall as [Hall|Hall].
  - right. intros r Hr. destruct (Hcmds r Hr) as (c0 & cmds & Hc & Hk).
    eapply run_checkpoint; [done..|]. by apply (Hland r Hr).
  - left. intros r Hr. destruct (Hcmds r Hr) as (c0 & cmds & Hc & Hk).
    eapply run_checkpoint; [done..|]. apply dec_stable. intros Hne. by apply Hall, (Hland r Hr).
  - left. intros r Hr. destruct (Hcmds r Hr) as (c0 & cmds & Hc & Hk).
    eapply run_restart; [done..|]. by apply (Hland r Hr).
  - right. intros r Hr. destruct (Hcmds r Hr) as (c0 & cmds & Hc & Hk).
    eapply run_restart; [done..|]. apply dec_stable. intros Hne. by apply Hall, (Hland r Hr).
Qed.
End agreement.

(** An ER library whose calls all succeed. *)
Definition demo_er : er_t unit := {|
  ER_SUCCESS := 0; ER_DIRECTION_ENCODE := 1; ER_DIRECTION_REBUILD := 2;
  ER_Init _ := mret 0; ER_Create_Scheme _ _ _ := mret 0; ER_Free_Scheme _ := mret 0;
  ER_Finalize := mret 0; ER_Create _ _ _ := mret 7; ER_Add _ _ := mret 0;
  ER_Dispatch _ := mret 0; ER_Wait _ := mret 0; ER_Free _ := mret 0
|}.
Definition demo_ckpt : command_t.t :=
  {| unique_id := 0; command := CHECKPOINT; version := 1; offset := 0; name := "ck"; original := "" |}.

(** The second of two backends is not due yet, so that neither encodes. *)
Definition demo_rank (last_timestamp : Z) : backend_rank unit :=
  mk_rank [demo_ckpt] ((mk_env (mk_sys ∅ []) (λ _, 100) 0, tt), last_timestamp) (λ _, 0).

Lemma ec_agreement_witness :
  let ranks := [demo_rank 50; demo_rank 200] in
  (∀ r, r ∈ ranks → skips demo_er 60 0 "/s" r) ∨ (∀ r, r ∈ ranks → takes_part demo_er 60 0 "/s" CHECKPOINT r).
Proof.
  intros ranks. apply ec_agreement.
  - left. split; [reflexivity|reflexivity].
  - intros r Hr. unfold ranks in *. split.
    + intros Hne. destruct Hne. apply elem_of_cons in Hr as [->|Hr]; [reflexivity|].
      apply list_elem_of_singleton in Hr as ->. reflexivity.
    + intros Hall. destruct (Hall (demo_rank 200)); [right; left|reflexivity].
  - intros r Hr. unfold ranks in Hr. exists demo_ckpt, []. split; [|reflexivity].
    apply elem_of_cons in Hr as [->|Hr]; [reflexivity|].
    apply list_elem_of_singleton in Hr as ->. reflexivity.
Defined.
