(* ===== verification/Aggregator.v ===== *)
(** * Aggregator: [src/modules/client_aggregator.cpp]

    Collects the commands of all clients of a backend, runs a function on the
    whole batch when the last client has arrived, and gives every client its
    result.  The commands run in threads of their own, which block in the middle
    of [process_command]: besides the function itself there is a step relation
    on the threads. *)

From S2P Require Import Prelude Text Command.
From stdpp Require Import relations.

Local Open Scope Z_scope.

Import command_t.

Record aggregator_t := mk_aggregator {
  cmds : gmap Z (list command_t.t);
  client_set : gset Z;
  res : gmap Z Z
}.

(** [cmds[k]] and [res[k]], with the defaults of [std::map::operator[]] *)
Definition batch (a : aggregator_t) (k : Z) : list command_t.t := default [] (a.(cmds) !! k).
Definition result (a : aggregator_t) (k : Z) : Z := default 0 (a.(res) !! k).

Definition register (c : command_t.t) (a : aggregator_t) : aggregator_t :=
  mk_aggregator a.(cmds) ({[c.(unique_id)]} ∪ a.(client_set)) a.(res).
Definition push_back (c : command_t.t) (a : aggregator_t) : aggregator_t :=
  mk_aggregator (<[c.(command) := batch a c.(command) ++ [c]]> a.(cmds)) a.(client_set) a.(res).
Definition complete (k r : Z) (a : aggregator_t) : aggregator_t :=
  mk_aggregator (<[k := []]> a.(cmds)) a.(client_set) (<[k := r]> a.(res)).

(** ** Threads *)

(** Where a thread is: before the lock, waiting on [cmds_cv], notified but not
    yet holding the lock again, before the final read of [res] (which happens
    after the unlock), returned. *)
Inductive pc := Start | Waiting | Notified | Ready | Done (r : Z).

Abbreviation thread := (command_t.t * pc)%type.

(** [cmds_cv.notify_all()] *)
Definition notify_all (ts : list thread) : list thread :=
  (λ '(c, p), (c, match p with Waiting => Notified | _ => p end)) <$> ts.

Module client_aggregator_t.
Section aggregator.
Context {S : Type} (agg_function : list command_t.t → comp S Z) (single_function : command_t.t → comp S Z).
Variable max_parallelism : Z.

Abbreviation agg := (comp (S * aggregator_t)).

(** More clients than threads: the batch could never be complete. *)
Definition overloaded (a : aggregator_t) : bool := max_parallelism <? Z.of_nat (size a.(client_set)).

(** The part of an aggregated command from locking [cmds_mutex] to the wait:
    whether the command was the last of its batch. *)
Definition collect (c : command_t.t) : agg bool :=
  modify (λ '(s, a), (s, push_back c a));;
  '(_, a) ← get;
  if bool_decide (length (batch a c.(command)) = size a.(client_set)) then
    r ← (λ '(s, a), let '(o, s') := agg_function (batch a c.(command)) s in (o, (s', a)));
    modify (λ '(s, a), (s, complete c.(command) r a));;
    mret true
  else mret false.

(** The method in a backend with no other thread: a wait never ends. *)
Definition process_command (c : command_t.t) : agg Z :=
  let single := λ '(s, a), let '(o, s') := single_function c s in (o, (s', a)) in
  if c.(command) =? INIT then
    modify (λ '(s, a), (s, register c a));;
    single
  else if c.(command) =? TEST then single
  else if (c.(command) =? CHECKPOINT) || (c.(command) =? RESTART) then
    '(_, a) ← get;
    if overloaded a then mret VELOC_IGNORED else
    last ← collect c;
    if (last : bool) then gets (λ '(_, a), result a c.(command)) else stop Hang
  else mret VELOC_IGNORED.

(** A step of one of the threads, each with an aggregated command.  The standard
    allows a wait to end without a notification. *)
Inductive step : (S * aggregator_t) * list thread → (S * aggregator_t) * list thread → Prop :=
| step_wait i c st st' ts :
    ts !! i = Some (c, Start) → overloaded st.2 = false → collect c st = (Val false, st') →
    step (st, ts) (st', <[i := (c, Waiting)]> ts)
| step_last i c st st' ts :
    ts !! i = Some (c, Start) → overloaded st.2 = false → collect c st = (Val true, st') →
    step (st, ts) (st', <[i := (c, Ready)]> (notify_all ts))
| step_refused i c st ts :
    ts !! i = Some (c, Start) → overloaded st.2 = true →
    step (st, ts) (st, <[i := (c, Done VELOC_IGNORED)]> ts)
| step_ready i c st ts :
    ts !! i = Some (c, Ready) →
    step (st, ts) (st, <[i := (c, Done (result st.2 c.(command)))]> ts)
| step_woken i c st ts :
    ts !! i = Some (c, Notified) → batch st.2 c.(command) = [] →
    step (st, ts) (st, <[i := (c, Done (result st.2 c.(command)))]> ts)
| step_again i c st ts :
    ts !! i = Some (c, Notified) → batch st.2 c.(command) ≠ [] →
    step (st, ts) (st, <[i := (c, Waiting)]> ts)
| step_spurious i c st ts :
    ts !! i = Some (c, Waiting) →
    step (st, ts) (st, <[i := (c, Notified)]> ts).

End aggregator.
End client_aggregator_t.

Import client_aggregator_t.

(** ** Lemmas *)

Lemma batch_push c a : batch (push_back c a) c.(command) = batch a c.(command) ++ [c].
Proof. unfold batch at 1. simpl. by simplify_map_eq. Qed.
Lemma batch_complete k r a : batch (complete k r a) k = [].
Proof. unfold batch. simpl. by simplify_map_eq. Qed.
Lemma result_complete k r a : result (complete k r a) k = r.
Proof. unfold result. simpl. by simplify_map_eq. Qed.

Lemma collect_false {S} (f : list command_t.t → comp S Z) c s a st' :
  collect f c (s, a) = (Val false, st') →
  st' = (s, push_back c a) ∧ length (batch a c.(command) ++ [c]) ≠ size a.(client_set).
Proof.
  unfold collect. rewrite modify_bind, get_bind. cbn beta iota. rewrite batch_push.
  case_bool_decide as Hlen; [|unfold mret, comp_ret; by intros; simplify_eq].
  intros (r & [s1 a1] & _ & H)%comp_bind_inv. by rewrite modify_bind in H.
Qed.

Lemma collect_true {S} (f : list command_t.t → comp S Z) c s a st' :
  collect f c (s, a) = (Val true, st') →
  ∃ r s', f (batch a c.(command) ++ [c]) s = (Val r, s') ∧
    st' = (s', complete c.(command) r (push_back c a)) ∧
    length (batch a c.(command) ++ [c]) = size a.(client_set).
Proof.
  unfold collect. rewrite modify_bind, get_bind. cbn beta iota. rewrite batch_push.
  case_bool_decide as Hlen; [|unfold mret, comp_ret; by intros; simplify_eq].
  intros (r & [s1 a1] & H1 & H)%comp_bind_inv. rewrite batch_push in H1.
  destruct (f (batch a c.(command) ++ [c]) s) as [o s'] eqn:Hf. simplify_eq.
  rewrite modify_bind in H. unfold mret, comp_ret in H. simplify_eq. eauto 10.
Qed.

(** With a function that returns, collecting never fails. *)
Lemma collect_total {S} (f : list command_t.t → comp S Z) c st :
  (∀ l s, ∃ r s', f l s = (Val r, s')) → ∃ b st', collect f c st = (Val b, st').
Proof.
  intros Hf. destruct st as [s a]. unfold collect. rewrite modify_bind, get_bind. cbn beta iota.
  case_bool_decide; [|by repeat eexists].
  destruct (Hf (batch (push_back c a) (command c)) s) as (r & s' & Hr).
  erewrite comp_bind_val by (cbn beta iota; by rewrite Hr). by repeat eexists.
Qed.

Global Instance pc_eq_dec : EqDecision pc.
Proof. solve_decision. Defined.

Lemma insert_split {A} (l : list A) i x :
  l !! i = Some x → ∃ l1 l2, l = l1 ++ x :: l2 ∧ length l1 = i ∧ ∀ y, <[i := y]> l = l1 ++ y :: l2.
Proof.
  intros Hi. exists (take i l), (drop (S i) l). pose proof (lookup_lt_Some _ _ _ Hi).
  split_and!; [by rewrite take_drop_middle|rewrite length_take; lia|].
  intros y. by rewrite insert_take_drop.
Qed.

(** ** One generation of commands *)

Section generation.
Context {S : Type} (f : list command_t.t → comp S Z) (max_parallelism k : Z) (cs : list command_t.t).
Hypothesis f_total : ∀ l s, ∃ r s', f l s = (Val r, s').
Hypothesis cs_command : Forall (λ c, c.(command) = k) cs.

Abbreviation step := (step f max_parallelism).
Abbreviation system := ((S * aggregator_t) * list thread)%type.

(** The commands of the threads that have started. *)
Definition arrived (ts : list thread) : list command_t.t := (filter (λ t, t.2 ≠ Start) ts).*1.

Definition gathering (a : aggregator_t) (ts : list thread) : Prop :=
  batch a k ≡ₚ arrived ts ∧ (length (batch a k) < length ts)%nat ∧
  Forall (λ t, t.2 = Start ∨ t.2 = Waiting ∨ t.2 = Notified) ts.

(** [r] is the result of the function on the whole batch. *)
Definition batch_result (r : Z) : Prop := ∃ l s s', l ≡ₚ cs ∧ f l s = (Val r, s').

Definition delivering (a : aggregator_t) (ts : list thread) : Prop :=
  batch a k = [] ∧ batch_result (result a k) ∧
  Forall (λ t, t.2 = Notified ∨ t.2 = Ready ∨ t.2 = Done (result a k)) ts.

Record generation_inv (x : system) : Prop := {
  inv_cmds : x.2.*1 = cs;
  inv_clients : size x.1.2.(client_set) = length cs;
  inv_threads : overloaded max_parallelism x.1.2 = false;
  inv_phase : gathering x.1.2 x.2 ∨ delivering x.1.2 x.2
}.

Lemma notify_all_cmds ts : (notify_all ts).*1 = ts.*1.
Proof. unfold notify_all. rewrite <-list_fmap_compose. apply list_fmap_ext. by intros i [c p]. Qed.

Lemma fst_insert (ts : list thread) i c p p' :
  ts !! i = Some (c, p) → (<[i := (c, p')]> ts).*1 = ts.*1.
Proof.
  intros (l1 & l2 & -> & _ & Hins)%insert_split. rewrite Hins. by rewrite !fmap_app.
Qed.

Lemma thread_command (x : system) i c p :
  generation_inv x → x.2 !! i = Some (c, p) → c.(command) = k.
Proof.
  intros [Hc _ _ _] Hi. rewrite <-Hc, Forall_forall in cs_command. apply cs_command.
  apply list_elem_of_fmap. exists (c, p). split; [done|]. by eapply list_elem_of_lookup_2.
Qed.

Lemma arrived_cons t ts : arrived (t :: ts) = (if decide (t.2 = Start) then [] else [t.1]) ++ arrived ts.
Proof. unfold arrived. rewrite filter_cons. by repeat case_decide. Qed.
Lemma arrived_app l1 l2 : arrived (l1 ++ l2) = arrived l1 ++ arrived l2.
Proof. unfold arrived. by rewrite filter_app, fmap_app. Qed.

Lemma arrived_all ts : Forall (λ t, t.2 ≠ Start) ts → arrived ts = ts.*1.
Proof.
  induction 1 as [|t ts Ht _ IH]; [done|]. rewrite arrived_cons, decide_False, IH by done. done.
Qed.
Lemma arrived_none l : arrived ((λ c, (c, Start)) <$> l) = [].
Proof. induction l as [|c l IH]; [done|]. simpl. by rewrite arrived_cons. Qed.

(** A batch as long as the threads holds the commands of all of them. *)
Lemma arrived_full ts :
  length (arrived ts) = length ts → arrived ts = ts.*1 ∧ Forall (λ t, t.2 ≠ Start) ts.
Proof.
  assert (∀ ts, length (arrived ts) ≤ length ts)%nat as Hle.
  { intros l. unfold arrived. rewrite length_fmap. apply length_filter. }
  induction ts as [|t ts IH]; [done|]. rewrite arrived_cons. pose proof (Hle ts).
  case_decide; simpl; intros Hlen; [lia|]. destruct IH as [-> ?]; [lia|]. auto.
Qed.

Lemma gathering_add a c l1 l2 p :
  c.(command) = k → p ≠ Start → gathering a (l1 ++ (c, Start) :: l2) →
  batch a k ++ [c] ≡ₚ arrived (l1 ++ (c, p) :: l2).
Proof.
  intros Hk Hp (Hb & _ & _). rewrite arrived_app, arrived_cons in *. simpl in *.
  rewrite decide_False by done. rewrite Hb. simpl. solve_Permutation.
Qed.

Lemma no_start_delivering (a : aggregator_t) (ts : list thread) i c :
  delivering a ts → ts !! i ≠ Some (c, Start).
Proof.
  intros (_ & _ & Hall) Hi. rewrite Forall_forall in Hall.
  apply list_elem_of_lookup_2, Hall in Hi. naive_solver.
Qed.

Lemma wait_step s a ts i c st' :
  generation_inv ((s, a), ts) → ts !! i = Some (c, Start) → collect f c (s, a) = (Val false, st') →
  generation_inv (st', <[i := (c, Waiting)]> ts).
Proof.
  intros Hinv Hi Hcol. pose proof (thread_command _ _ _ _ Hinv Hi) as Hk.
  destruct Hinv as [Hcs Hcl Hov Hph]. simpl in *.
  apply collect_false in Hcol as [-> Hlen]. rewrite Hcl, Hk in Hlen.
  destruct Hph as [Hg|Hd]; [|by destruct (no_start_delivering _ _ i c Hd)].
  split; simpl; [by erewrite fst_insert|done|done|left].
  destruct (insert_split _ _ _ Hi) as (l1 & l2 & -> & _ & ->).
  pose proof (gathering_add a c l1 l2 Waiting Hk ltac:(done) Hg) as Hperm.
  destruct Hg as (_ & Hlt & Hall).
  pose proof (batch_push c a) as Hb. rewrite Hk in Hb. split_and!.
  - by rewrite Hb.
  - rewrite Hb. rewrite <-Hcs, length_fmap in Hlen. rewrite !length_app in *. simpl in *. lia.
  - rewrite Forall_app, Forall_cons in *. naive_solver.
Qed.

Lemma notify_all_spec ts :
  Forall (λ t, t.2 = Start ∨ t.2 = Waiting ∨ t.2 = Notified) ts → Forall (λ t, t.2 ≠ Start) ts →
  Forall (λ t, t.2 = Notified) (notify_all ts).
Proof.
  induction ts as [|[c p] ts IH]; simpl; [constructor|]. rewrite !Forall_cons. simpl.
  intros [[->|[->| ->]] ?] [? ?]; naive_solver.
Qed.

Lemma last_step s a ts i c st' :
  generation_inv ((s, a), ts) → ts !! i = Some (c, Start) → collect f c (s, a) = (Val true, st') →
  generation_inv (st', <[i := (c, Ready)]> (notify_all ts)).
Proof.
  intros Hinv Hi Hcol. pose proof (thread_command _ _ _ _ Hinv Hi) as Hk.
  destruct Hinv as [Hcs Hcl Hov Hph]. simpl in *.
  apply collect_true in Hcol as (r & s' & Hf & -> & Hlen). rewrite Hcl, Hk in *.
  destruct Hph as [Hg|Hd]; [|by destruct (no_start_delivering _ _ i c Hd)].
  destruct (insert_split _ _ _ Hi) as (l1 & l2 & -> & Hl1 & _).
  pose proof (gathering_add a c l1 l2 Ready Hk ltac:(done) Hg) as Hperm.
  destruct (arrived_full (l1 ++ (c, Ready) :: l2)) as [Harr Hst].
  { rewrite <-(Permutation_length Hperm), Hlen, <-Hcs, length_fmap. by rewrite !length_app. }
  assert (<[i := (c, Ready)]> (notify_all (l1 ++ (c, Start) :: l2))
    = notify_all l1 ++ (c, Ready) :: notify_all l2) as ->.
  { unfold notify_all. rewrite fmap_app. apply list_eq. intros j.
    replace i with (length ((λ '(c, p), (c, match p with Waiting => Notified | _ => p end)) <$> l1) + 0)%nat
      by (rewrite length_fmap; lia). by rewrite insert_app_r. }
  split; simpl; [|done|done|right].
  - rewrite fmap_app. simpl. rewrite !notify_all_cmds. rewrite fmap_app in Hcs. done.
  - split_and!.
    + apply batch_complete.
    + rewrite result_complete. exists (batch a k ++ [c]), s, s'. split; [|done].
      rewrite Hperm, Harr, <-Hcs. by rewrite !fmap_app.
    + destruct Hg as (_ & _ & Hall). rewrite Forall_app, Forall_cons in *.
      destruct Hall as (? & _ & ?), Hst as (? & _ & ?).
      split_and!; [|by auto|]; (eapply Forall_impl; [by apply notify_all_spec|auto]).
Qed.

Lemma arrived_swap l1 l2 c p p' :
  p ≠ Start → p' ≠ Start → arrived (l1 ++ (c, p) :: l2) = arrived (l1 ++ (c, p') :: l2).
Proof. intros. rewrite !arrived_app, !arrived_cons. simpl. by rewrite !decide_False. Qed.

(** Falling asleep again, or waking up early. *)
Lemma swap_step s a ts i c p p' :
  generation_inv ((s, a), ts) → gathering a ts → ts !! i = Some (c, p) → p ≠ Start →
  p' = Waiting ∨ p' = Notified → generation_inv ((s, a), <[i := (c, p')]> ts).
Proof.
  intros [Hcs Hcl Hov _] (Hb & Hlt & Hall) Hi Hp Hp'. simpl in *.
  split; simpl; [by erewrite fst_insert|done|done|left].
  destruct (insert_split _ _ _ Hi) as (l1 & l2 & -> & _ & ->). split_and!.
  - rewrite Hb. erewrite arrived_swap; [done|done|by destruct Hp' as [->| ->]].
  - by rewrite !length_app in *.
  - rewrite Forall_app, Forall_cons in *. naive_solver.
Qed.

Lemma done_step s a ts i c p :
  generation_inv ((s, a), ts) → delivering a ts → ts !! i = Some (c, p) →
  generation_inv ((s, a), <[i := (c, Done (result a k))]> ts).
Proof.
  intros [Hcs Hcl Hov _] (Hb & Hr & Hall) Hi. simpl in *.
  split; simpl; [by erewrite fst_insert|done|done|right]. split_and!; [done..|].
  apply Forall_insert; [done|auto].
Qed.

(** A thread that has arrived left its command in the batch. *)
Lemma gathering_batch a ts i c p :
  gathering a ts → ts !! i = Some (c, p) → p ≠ Start → batch a k ≠ [].
Proof.
  intros (Hb & _) Hi Hp E. rewrite E in Hb. apply Permutation_nil_l in Hb.
  destruct (insert_split _ _ _ Hi) as (l1 & l2 & -> & _ & _).
  rewrite arrived_app, arrived_cons in Hb. simpl in Hb. rewrite decide_False in Hb by done.
  by destruct (arrived l1).
Qed.

Lemma inv_step x y : generation_inv x → step x y → generation_inv y.
Proof.
  intros Hinv Hstep. destruct Hstep as [i c [s a] st' ts Hi _ Hcol|i c [s a] st' ts Hi _ Hcol
    |i c st ts Hi Ho|i c [s a] ts Hi|i c [s a] ts Hi Hb|i c [s a] ts Hi Hb|i c [s a] ts Hi];
    pose proof (thread_command _ _ _ _ Hinv Hi) as Hk; pose proof (inv_phase _ Hinv) as Hph;
    simpl in *; rewrite ?Hk in *.
  - by eapply wait_step.
  - by eapply last_step.
  - pose proof (inv_threads _ Hinv). simpl in *. congruence.
  - destruct Hph as [(_ & _ & Hall)|Hd]; [|by eapply done_step].
    rewrite Forall_forall in Hall. apply list_elem_of_lookup_2, Hall in Hi. naive_solver.
  - destruct Hph as [Hg|Hd]; [|by eapply done_step].
    by destruct (gathering_batch _ _ _ _ _ Hg Hi).
  - destruct Hph as [Hg|(? & _)]; [|done]. eapply swap_step; [done..|auto].
  - destruct Hph as [Hg|(_ & _ & Hall)]; [eapply swap_step; [done..|auto]|].
    rewrite Forall_forall in Hall. apply list_elem_of_lookup_2, Hall in Hi. naive_solver.
Qed.

(** ** Progress *)

Definition weight (t : thread) : nat :=
  match t.2 with Start => 3 | Waiting => 2 | Notified | Ready => 1 | Done _ => 0 end.
Definition total (ts : list thread) : nat := sum_list_with weight ts.

Lemma total_insert (ts : list thread) i t t' :
  ts !! i = Some t → (weight t' < weight t)%nat → (total (<[i := t']> ts) < total ts)%nat.
Proof.
  intros (l1 & l2 & -> & _ & ->)%insert_split Hw. unfold total.
  rewrite !sum_list_with_app. simpl. lia.
Qed.

Lemma total_notify ts : (total (notify_all ts) ≤ total ts)%nat.
Proof. unfold total. induction ts as [|[c []] ts IH]; simpl; unfold weight in *; simpl in *; lia. Qed.

Lemma start_progress s a ts i c :
  generation_inv ((s, a), ts) → ts !! i = Some (c, Start) →
  ∃ y, step ((s, a), ts) y ∧ (total y.2 < total ts)%nat.
Proof.
  intros Hinv Hi. destruct (collect_total f c (s, a) f_total) as ([] & st' & Hcol).
  - eexists. split; [by eapply step_last; [|apply (inv_threads _ Hinv)|]|]. simpl.
    assert (notify_all ts !! i = Some (c, Start)) as Hi'.
    { unfold notify_all. apply list_lookup_fmap_Some. by exists (c, Start). }
    pose proof (total_insert _ _ _ (c, Ready) Hi' ltac:(unfold weight; simpl; lia)).
    pose proof (total_notify ts). lia.
  - eexists. split; [by eapply step_wait; [|apply (inv_threads _ Hinv)|]|]. simpl.
    eapply total_insert; [done|]. unfold weight. simpl. lia.
Qed.

Definition all_done (ts : list thread) : Prop := Forall (λ t, ∃ r, t.2 = Done r) ts.

Lemma progress x :
  generation_inv x → all_done x.2 ∨ ∃ y, step x y ∧ (total y.2 < total x.2)%nat.
Proof.
  destruct x as [[s a] ts]. intros Hinv. pose proof Hinv as [_ _ _ Hph]. simpl in *.
  destruct Hph as [(Hb & Hlt & Hall)|(Hb & Hr & Hall)].
  - right. assert (∃ i c, ts !! i = Some (c, Start)) as (i & c & Hi); [|by eapply start_progress].
    assert (Exists (λ t, t.2 = Start) ts) as He.
    { apply dec_stable. intros Hn. rewrite <-Forall_Exists_neg in Hn.
      rewrite Hb, arrived_all, length_fmap in Hlt by done. lia. }
    apply Exists_exists in He as ([c p] & Hin & Hp). simpl in Hp. subst p.
    apply list_elem_of_lookup_1 in Hin as [i Hi]. eauto.
  - destruct (decide (Exists (λ t, t.2 = Notified ∨ t.2 = Ready) ts)) as [He|Hn].
    + right. apply Exists_exists in He as ([c p] & Hin & Hp). simpl in Hp.
      apply list_elem_of_lookup_1 in Hin as [i Hi].
      assert (c.(command) = k) as Hk by by apply (thread_command _ i c p Hinv).
      exists ((s, a), <[i := (c, Done (result a c.(command)))]> ts). split.
      * destruct Hp as [->| ->]; [apply step_woken; [done|]; simpl; by rewrite Hk|by apply step_ready].
      * simpl. eapply total_insert; [done|]. unfold weight. destruct Hp as [->| ->]; simpl; lia.
    + left. rewrite <-Forall_Exists_neg in Hn. unfold all_done. rewrite Forall_forall in *.
      intros t Ht. specialize (Hall t Ht). specialize (Hn t Ht). simpl in *. naive_solver.
Qed.

Lemma inv_reachable x y : generation_inv x → rtc step x y → generation_inv y.
Proof. intros Hx Hr. induction Hr; [done|]. eauto using inv_step. Qed.

Lemma completes x : generation_inv x → ∃ y, rtc step x y ∧ all_done y.2.
Proof.
  remember (total x.2) as n eqn:Hn. revert x Hn. induction (lt_wf n) as [n _ IH]. intros x -> Hinv.
  destruct (progress x Hinv) as [Hd|(y & Hstep & Hlt)]; [by exists x|].
  destruct (IH _ Hlt y eq_refl) as (z & Hz & Hd); [by eapply inv_step|].
  exists z. split; [by eapply rtc_l|done].
Qed.
End generation.

(** C26: a generation of commands, one of every client and no more than the
    backend has tasks for, always completes.  Whatever the order and interleaving
    of the threads, no reachable state is a dead end, and every thread that returns gives the same result: that of the
    function on the batch of all commands. *)
Theorem agg_generation {S : Type} (f : list command_t.t → comp S Z) (max_parallelism k : Z)
    (cs : list command_t.t) (s : S) (a : aggregator_t) :
  (∀ l s, ∃ r s', f l s = (Val r, s')) → Forall (λ c, c.(command) = k) cs → cs ≠ [] →
  size a.(client_set) = length cs → Z.of_nat (length cs) ≤ max_parallelism → batch a k = [] →
  ∀ x, rtc (step f max_parallelism) ((s, a), (λ c, (c, Start)) <$> cs) x →
    (∃ y, rtc (step f max_parallelism) x y ∧ all_done y.2) ∧
    (∃ r, ∀ c r', (c, Done r') ∈ x.2 → r' = r ∧ batch_result f cs r).
Proof.
  intros Hf Hk Hne Hcl Hmp Hb x Hx.
  assert (generation_inv f max_parallelism k cs x) as Hinv.
  { eapply inv_reachable; [done| |exact Hx]. split; simpl.
    - rewrite <-list_fmap_compose. apply list_fmap_id.
    - done.
    - unfold overloaded. rewrite Hcl. by apply Z.ltb_ge.
    - left. split_and!.
      + by rewrite Hb, arrived_none.
      + rewrite Hb, length_fmap. destruct cs; [done|]. simpl. lia.
      + apply Forall_fmap, Forall_true. naive_solver. }
  split; [by eapply completes|]. exists (result x.1.2 k). intros c r' Hin.
  destruct (inv_phase _ _ _ _ _ Hinv) as [(_ & _ & Hall)|(_ & Hr & Hall)];
    rewrite Forall_forall in Hall; apply Hall in Hin; naive_solver.
Qed.

Definition demo_cmd (id v : Z) : command_t.t :=
  {| unique_id := id; command := CHECKPOINT; version := v; offset := 0; name := "ck"; original := "" |}.
Definition demo_agg : aggregator_t := mk_aggregator ∅ {[0; 1]} ∅.
Definition demo_function (l : list command_t.t) : comp unit Z := mret VELOC_SUCCESS.

Lemma agg_generation_witness :
  let x := ((tt, demo_agg), [(demo_cmd 0 1, Start); (demo_cmd 1 1, Start)]) in
  ∃ y, rtc (step demo_function 8) x y ∧ all_done y.2.
Proof.
  intros x.
  apply (agg_generation demo_function 8 CHECKPOINT [demo_cmd 0 1; demo_cmd 1 1] tt demo_agg).
  - intros l s. exists VELOC_SUCCESS, s. reflexivity.
  - repeat constructor.
  - discriminate.
  - reflexivity.
  - vm_compute. discriminate.
  - reflexivity.
  - reflexivity.
Defined.

(** ** A generation that comes too early *)

(** The aggregator while the second command of client 1 waits alone. *)
Definition missed (x : (unit * aggregator_t) * list thread) : Prop :=
  batch x.1.2 CHECKPOINT = [demo_cmd 1 2] ∧
  ∃ p q, x.2 = [(demo_cmd 0 1, p); (demo_cmd 1 1, Done VELOC_SUCCESS); (demo_cmd 1 2, q)] ∧
    (p = Waiting ∨ p = Notified) ∧ (q = Waiting ∨ q = Notified).

Lemma missed_step x y : missed x → step demo_function 8 x y → missed y.
Proof.
  intros (Hb & p & q & Hts & Hp & Hq) Hstep.
  destruct Hstep as [i c st st' ts Hi _ _|i c st st' ts Hi _ _|i c st ts Hi _|i c st ts Hi
    |i c st ts Hi He|i c st ts Hi Hne|i c st ts Hi]; simpl in *; subst ts;
    (destruct i as [|[|[|i]]]; simplify_eq/=; try (by destruct Hp); try (by destruct Hq); try congruence);
    (split; [done|]); eexists _, _; (split; [reflexivity|]); auto.
Qed.

Lemma missed_forever x y : missed x → rtc (step demo_function 8) x y → missed y.
Proof. intros Hx Hr. induction Hr; [done|]. eauto using missed_step. Qed.

Lemma missed_reachable :
  ∃ x, missed x ∧ rtc (step demo_function 8) ((tt, demo_agg),
    [(demo_cmd 0 1, Start); (demo_cmd 1 1, Start); (demo_cmd 1 2, Start)]) x.
Proof.
  eexists. split; [|
    eapply rtc_l; [eapply (step_wait _ _ 0); [done|done|reflexivity]|];
    eapply rtc_l; [eapply (step_last _ _ 1); [done|done|reflexivity]|];
    eapply rtc_l; [by eapply (step_ready _ _ 1)|];
    eapply rtc_l; [eapply (step_wait _ _ 2); [done|done|reflexivity]|];
    eapply rtc_l; [by eapply (step_again _ _ 0)|]; apply rtc_refl].
  split; [done|]. exists Waiting, Waiting. auto.
Qed.

(** A client that issues its next command before the others have woken up
    makes them miss the end of their batch.  The batch of the first commands of
    clients 0 and 1 completes and client 1 has its result; when its second
    command arrives before client 0 has the lock again, client 0 waits on, and
    no sequence of steps of these threads ever gives it its result. *)
Theorem agg_missed_generation :
  ∃ x, rtc (step demo_function 8) ((tt, demo_agg),
      [(demo_cmd 0 1, Start); (demo_cmd 1 1, Start); (demo_cmd 1 2, Start)]) x ∧
    x.2 !! 1%nat = Some (demo_cmd 1 1, Done VELOC_SUCCESS) ∧
    ∀ y, rtc (step demo_function 8) x y → ∀ r, y.2 !! 0%nat ≠ Some (demo_cmd 0 1, Done r).
Proof.
  destruct missed_reachable as (x & Hx & Hr). exists x. split; [done|]. split.
  - by destruct Hx as (_ & p & q & -> & _).
  - intros y Hy r. destruct (missed_forever x y Hx Hy) as (_ & p & q & -> & [->| ->] & _); done.
Qed.
