(* ===== verification/Manager.v ===== *)
(** * Manager: [src/modules/module_manager.cpp]

    The chain of modules through which a backend sends every command: watchdog,
    erasure coding (when there is a communicator), transfer, checksums,
    versioning. *)

From S2P Require Import Prelude Text Command FileSystem Containers FileUtil Storage.
From S2P Require Import Versioning Environment Watchdog Transfer Chksum Ec Aggregator.

Local Open Scope Z_scope.

Import command_t.

(** The state of a backend: the environment and what the modules keep. *)
Record backend_t (E : Type) := mk_backend {
  b_env : env;
  b_watchdog : gmap Z Z;
  b_er : E;
  b_ec_timestamp : Z;
  b_aggregator : aggregator_t;
  b_transfer : gmap Z Z;
  b_versioning : versioning_t
}.
Arguments mk_backend {E} _ _ _ _ _ _ _.
Arguments b_env {E} _.
Arguments b_watchdog {E} _.
Arguments b_er {E} _.
Arguments b_ec_timestamp {E} _.
Arguments b_aggregator {E} _.
Arguments b_transfer {E} _.
Arguments b_versioning {E} _.

(** The settings of [config_t] that the modules read; [None] is a missing one. *)
Record settings := {
  s_storage : option (storage_module_t env);
  s_cfg_file : string;
  s_scratch : string;
  s_meta : option string;
  s_watchdog_interval : option Z;
  s_ec_interval : option Z;
  s_max_parallelism : option Z;
  s_persistent_interval : option Z;
  s_chksum : bool;
  s_max_versions : option Z;
  s_scratch_versions : option Z
}.

Module module_manager_t.
Section manager.
Context {E : Type} (er : er_t E) (SHA256 : list byte → list byte) (cfg : settings).

(** [std::thread::hardware_concurrency()] *)
Variable hardware_concurrency : Z.

Abbreviation backend := (comp (backend_t E)).
Definition method_t : Type := command_t.t → backend Z.

(** *** The parts of the state that the modules see *)

Definition on_env {A} (m : comp env A) : backend A := λ '(mk_backend e w x t a ts v),
  let '(o, e') := m e in (o, mk_backend e' w x t a ts v).
Definition on_watchdog {A} (m : comp (env * gmap Z Z) A) : backend A := λ '(mk_backend e w x t a ts v),
  let '(o, (e', w')) := m (e, w) in (o, mk_backend e' w' x t a ts v).
Definition on_er {A} (m : comp (env * E) A) : backend A := λ '(mk_backend e w x t a ts v),
  let '(o, (e', x')) := m (e, x) in (o, mk_backend e' w x' t a ts v).
Definition on_aggregator {A} (m : comp (((env * E) * Z) * aggregator_t) A) : backend A :=
  λ '(mk_backend e w x t a ts v),
  let '(o, (((e', x'), t'), a')) := m (((e, x), t), a) in (o, mk_backend e' w x' t' a' ts v).
Definition on_transfer {A} (m : comp (env * gmap Z Z) A) : backend A := λ '(mk_backend e w x t a ts v),
  let '(o, (e', ts')) := m (e, ts) in (o, mk_backend e' w x t a ts' v).
Definition on_versioning {A} (m : comp (env * versioning_t) A) : backend A := λ '(mk_backend e w x t a ts v),
  let '(o, (e', v')) := m (e, v) in (o, mk_backend e' w x t a ts v').

(** *** Adding the modules *)

(** [cfg.get("meta")] *)
Definition get_meta : backend string :=
  match cfg.(s_meta) with Some m => mret m | None => stop FATAL end.

(** A communicator: its rank and size, and the outcome of its reductions. *)
Record comm_t := { c_rank : Z; c_ranks : Z; c_allreduce : Z → Z }.

(** What the constructor of [client_aggregator_t] takes from the configuration. *)
Definition max_parallelism : Z := default hardware_concurrency cfg.(s_max_parallelism).

Definition add_ec (comm : comm_t) : backend method_t :=
  '(interval, scheme_id) ← on_er (ec_module_t.make er cfg.(s_ec_interval) cfg.(s_cfg_file)
     comm.(c_rank) comm.(c_ranks));
  mret (λ c, on_aggregator (client_aggregator_t.process_command
    (ec_module_t.process_commands er interval scheme_id cfg.(s_scratch) comm.(c_allreduce))
    (ec_module_t.process_command interval) max_parallelism c)).

Definition chksum_method (active : bool) : method_t := λ c,
  meta ← (if active then get_meta else mret "");
  on_env (chksum_module_t.process_command SHA256 active cfg.(s_scratch) meta c).

Definition add_chksum : backend method_t :=
  active ← (if cfg.(s_chksum) then m ← get_meta; on_env (chksum_module_t.make true m) else mret false);
  mret (chksum_method active).

Definition watchdog_method : method_t := λ c,
  on_watchdog (client_watchdog_t.process_command (client_watchdog_t.make cfg.(s_watchdog_interval)) c).

Definition transfer_method : method_t := λ c,
  on_transfer (transfer_module_t.process_command cfg.(s_storage)
    (transfer_module_t.make cfg.(s_storage) cfg.(s_persistent_interval)) cfg.(s_scratch) c).

Definition versioning_method : method_t := λ c,
  on_versioning (versioning_module_t.process_command cfg.(s_storage) cfg.(s_scratch)
    (default "" cfg.(s_meta)) (default 0 cfg.(s_max_versions)) (default 0 cfg.(s_scratch_versions)) c).

Definition add_default (comm : option comm_t) : backend (list method_t) :=
  ec ← match comm with
       | Some comm => m ← add_ec comm; mret [m]
       | None => mret []
       end;
  chksum ← add_chksum;
  mret (watchdog_method :: ec ++ [transfer_method; chksum; versioning_method]).

(** *** Running a command *)

Fixpoint notify (ret : Z) (modules : list method_t) (c : command_t.t) : backend Z :=
  match modules with
  | [] => mret ret
  | f :: modules =>
      mod_ret ← f c;
      (* if any module failed, stop early *)
      if mod_ret =? VELOC_FAILURE then mret VELOC_FAILURE
      else notify (Z.max ret mod_ret) modules c
  end.

Definition notify_command (modules : list method_t) (c : command_t.t) : backend Z :=
  notify VELOC_IGNORED modules c.

End manager.
End module_manager_t.

Import module_manager_t.

(** ** Lemmas *)

(** The parts run in sequence. *)
Lemma notify_next {E} ret (f : method_t (E:=E)) ms c b r b' :
  f c b = (Val r, b') → r ≠ VELOC_FAILURE →
  notify ret (f :: ms) c b = notify (Z.max ret r) ms c b'.
Proof.
  intros Hf Hr. cbn [notify]. rewrite (comp_bind_val _ _ _ _ _ Hf).
  by destruct (Z.eqb_spec r VELOC_FAILURE).
Qed.

Lemma notify_fail {E} ret (f : method_t (E:=E)) ms c b b' :
  f c b = (Val VELOC_FAILURE, b') → notify ret (f :: ms) c b = (Val VELOC_FAILURE, b').
Proof. intros Hf. cbn [notify]. by rewrite (comp_bind_val _ _ _ _ _ Hf). Qed.

(** The modules [ms] all ran, with the results [rs], and none failed. *)
Inductive ran {E} (c : command_t.t) : list (method_t (E:=E)) → list Z → backend_t E → backend_t E → Prop :=
| ran_nil b : ran c [] [] b b
| ran_cons f ms r rs b b1 b2 :
    f c b = (Val r, b1) → r ≠ VELOC_FAILURE → ran c ms rs b1 b2 → ran c (f :: ms) (r :: rs) b b2.

Lemma notify_ran {E} (c : command_t.t) (ms : list (method_t (E:=E))) ret b r b' :
  VELOC_IGNORED ≤ ret →
  notify ret ms c b = (Val r, b') ↔
    (∃ rs, ran c ms rs b b' ∧ r = Z.max ret (foldr Z.max VELOC_IGNORED rs)) ∨
    (∃ ms1 f ms2 rs b1, ms = ms1 ++ f :: ms2 ∧ ran c ms1 rs b b1 ∧
       f c b1 = (Val VELOC_FAILURE, b') ∧ r = VELOC_FAILURE).
Proof.
  revert ret b. induction ms as [|f ms IH]; intros ret b Hret.
  { unfold notify, mret, comp_ret. split.
    - intros. simplify_eq. left. exists []. split; [constructor|]. simpl. lia.
    - intros [(rs & Hr & ->)|(ms1 & f & ms2 & ? & ? & E' & _)]; [|by destruct ms1].
      inversion Hr; subst. simpl. do 2 f_equal. lia. }
  split.
  - intros H. cbn [notify] in H. apply comp_bind_inv in H as (r1 & b1 & Hf & H).
    destruct (Z.eqb_spec r1 VELOC_FAILURE) as [->|Hne].
    + unfold mret, comp_ret in H. simplify_eq. right. exists [], f, ms, [], b.
      split_and!; [done|constructor|done|done].
    + apply IH in H as [(rs & Hr & ->)|(ms1 & g & ms2 & rs & b2 & -> & Hr & Hg & ->)]; [| |lia].
      * left. exists (r1 :: rs). split; [by econstructor|]. simpl. lia.
      * right. exists (f :: ms1), g, ms2, (r1 :: rs), b2. split_and!; [done|by econstructor|done|done].
  - intros [(rs & Hr & ->)|(ms1 & g & ms2 & rs & b1 & E' & Hr & Hg & ->)].
    + inversion Hr as [|? ? r1 rs' ? b1 ? Hf Hne Hr']; subst. rewrite (notify_next _ _ _ _ _ _ _ Hf Hne).
      apply IH; [lia|]. left. exists rs'. split; [done|]. simpl. lia.
    + destruct ms1 as [|g1 ms1]; simpl in E'; injection E' as -> ->.
      * inversion Hr; subst. by apply notify_fail.
      * inversion Hr as [|? ? r1 rs' ? b2 ? Hf Hne Hr']; subst. rewrite (notify_next _ _ _ _ _ _ _ Hf Hne).
        apply IH; [lia|]. right. by exists ms1, g, ms2, rs', b1.
Qed.

(** C30: a command runs through the modules in order.  Either all of them run,
    none fails, and the result is the greatest of theirs; or the first one that
    fails ends the command with [VELOC_FAILURE], and the ones behind it, such as
    the one that removes old versions, do not run. *)
Theorem notify_command_result {E : Type} (c : command_t.t) (ms : list (method_t (E:=E)))
    (b b' : backend_t E) (r : Z) :
  notify_command ms c b = (Val r, b') ↔
    (∃ rs, ran c ms rs b b' ∧ r = foldr Z.max VELOC_IGNORED rs) ∨
    (∃ ms1 f ms2 rs b1, ms = ms1 ++ f :: ms2 ∧ ran c ms1 rs b b1 ∧
       f c b1 = (Val VELOC_FAILURE, b') ∧ r = VELOC_FAILURE).
Proof.
  unfold notify_command. rewrite notify_ran by done.
  assert (∀ rs, Z.max VELOC_IGNORED (foldr Z.max VELOC_IGNORED rs) = foldr Z.max VELOC_IGNORED rs) as Hmax.
  { intros rs. induction rs; simpl in *; lia. }
  by setoid_rewrite Hmax.
Qed.

(** *** The modules without faults *)

Lemma on_env_run {E A} (m : comp env A) (b : backend_t E) o e' :
  m (b_env b) = (o, e') →
  on_env m b = (o, mk_backend e' (b_watchdog b) (b_er b) (b_ec_timestamp b) (b_aggregator b) (b_transfer b) (b_versioning b)).
Proof. destruct b. simpl. by intros ->. Qed.

Lemma on_transfer_run {E A} (m : comp (env * gmap Z Z) A) (b : backend_t E) o e' ts' :
  m (b_env b, b_transfer b) = (o, (e', ts')) →
  on_transfer m b = (o, mk_backend e' (b_watchdog b) (b_er b) (b_ec_timestamp b) (b_aggregator b) ts' (b_versioning b)).
Proof. destruct b. simpl. by intros ->. Qed.

Lemma on_versioning_run {E A} (m : comp (env * versioning_t) A) (b : backend_t E) o e' v' :
  m (b_env b, b_versioning b) = (o, (e', v')) →
  on_versioning m b = (o, mk_backend e' (b_watchdog b) (b_er b) (b_ec_timestamp b) (b_aggregator b) (b_transfer b) v').
Proof. destruct b. simpl. by intros ->. Qed.

(** The backend after its files changed. *)
Definition with_files {E} (b : backend_t E) (f : gmap string node) : backend_t E :=
  mk_backend (with_sys (b_env b) (mk_sys f [])) (b_watchdog b) (b_er b) (b_ec_timestamp b)
    (b_aggregator b) (b_transfer b) (b_versioning b).

Definition backend_files {E} (b : backend_t E) : gmap string node := files (env_sys (b_env b)).
Definition fault_free {E} (b : backend_t E) : Prop := sched (env_sys (b_env b)) = [].

Lemma with_files_same {E} (b : backend_t E) : fault_free b → with_files b (backend_files b) = b.
Proof. destruct b as [[[f sc] k n] w x t a ts v]. unfold fault_free. simpl. by intros ->. Qed.

Section chain.
Context {E : Type} (er : er_t E) (SHA256 : list byte → list byte).
Hypothesis SHA256_size : ∀ d, zlen (SHA256 d) = chksum_module_t.HASH_SIZE.
Variables (cfg : settings) (hardware_concurrency : Z) (scratch persistent meta : string).

(** A backend that persists every checkpoint with the POSIX module and records
    checksums. *)
Definition plain_settings : Prop :=
  s_storage cfg = Some (posix_module_t.storage scratch persistent) ∧ s_scratch cfg = scratch ∧
  s_meta cfg = Some meta ∧ s_watchdog_interval cfg = None ∧ s_persistent_interval cfg = None ∧
  s_chksum cfg = true ∧ s_max_versions cfg = None ∧ s_scratch_versions cfg = None.
Hypothesis Hcfg : plain_settings.
Hypothesis Hdirs : scratch ≠ persistent.

Abbreviation chain := [watchdog_method cfg; transfer_method cfg; chksum_method SHA256 cfg true;
  versioning_method (E:=E) cfg].

Lemma add_default_chain (b : backend_t E) :
  fault_free b → is_dir (backend_files b) meta = true →
  add_default er SHA256 cfg hardware_concurrency None b = (Val chain, b).
Proof.
  intros Hb Hm. destruct Hcfg as (_ & _ & Hmeta & _ & _ & Hck & _). unfold add_default.
  rewrite ret_bind. destruct b as [[[f sc] k n] w x t a ts v].
  unfold fault_free, backend_files in *. simpl in *. subst sc.
  assert (add_chksum SHA256 cfg (mk_backend (mk_env (mk_sys f []) k n) w x t a ts v)
    = (Val (chksum_method SHA256 cfg true), mk_backend (mk_env (mk_sys f []) k n) w x t a ts v)) as Hadd.
  { unfold add_chksum, get_meta. rewrite Hck, Hmeta. rewrite comp_bind_unfold, ret_bind.
    erewrite on_env_run by (apply (on_sys_run _ (mk_env (mk_sys f []) k n)), (check_dir_free meta f Hm)).
    done. }
  by rewrite (comp_bind_val _ _ _ _ _ Hadd).
Qed.

Lemma watchdog_off c (b : backend_t E) : watchdog_method cfg c b = (Val VELOC_IGNORED, b).
Proof.
  destruct Hcfg as (_ & _ & _ & Hw & _). unfold watchdog_method. rewrite Hw. by destruct b.
Qed.

Lemma chksum_method_run c (b : backend_t E) o e' :
  chksum_module_t.process_command SHA256 true scratch meta c (b_env b) = (o, e') →
  chksum_method SHA256 cfg true c b
  = (o, mk_backend e' (b_watchdog b) (b_er b) (b_ec_timestamp b) (b_aggregator b) (b_transfer b) (b_versioning b)).
Proof.
  intros H. destruct Hcfg as (_ & Hs & Hm & _). unfold chksum_method, get_meta.
  rewrite Hm, ret_bind, Hs. by apply on_env_run.
Qed.

(** *** Checkpoint *)

Lemma transfer_checkpoint c (b : backend_t E) d :
  c.(command) = CHECKPOINT → c.(original) = "" → fault_free b →
  backend_files b !! filename c scratch = Some (Reg d) → zlen d ≤ LONG_MAX →
  backend_files b !! filename c persistent = None →
  parent_ok (backend_files b) (filename c persistent) = true →
  transfer_method cfg c b
  = (Val VELOC_SUCCESS, with_files b (<[filename c persistent := Reg d]> (backend_files b))).
Proof.
  intros Hc Ho Hb Hd HL Hp Hpar. destruct Hcfg as (Hst & Hs & _ & _ & Hi & _).
  unfold transfer_method. rewrite Hst, Hs, Hi. destruct b as [[[f sc] k n] w x t a ts v].
  unfold fault_free, backend_files in *. simpl in Hb, Hd, Hp, Hpar. subst sc.
  apply (on_transfer_run _ (mk_backend (mk_env (mk_sys f []) k n) w x t a ts v)).
  apply checkpoint_every with (ok := true); [done|].
  assert (no_link f (filename c persistent)) as Hnl by (intros t' Ht'; by rewrite Hp in Ht').
  assert (filename c scratch ≠ filename c persistent) as Hne
    by (intros E'; by apply filename_prefix in E').
  apply (on_sys_run _ (mk_env (mk_sys f []) k n)). rewrite decide_True by done.
  cbn [the_sys env_has_sys env_sys].
  rewrite (copy_free _ _ f (filename c scratch) d); try done;
    [|by apply lookup_path_reg|by rewrite Hp].
  unfold contents. rewrite Hp. by rewrite zdrop_all, app_nil_r by apply zlen_nonneg.
Qed.

Lemma chksum_checkpoint c (b : backend_t E) x d :
  c.(command) = CHECKPOINT → fault_free b →
  backend_files b !! filename c scratch = Some (Reg (x :: d)) →
  no_link (backend_files b) (meta_filename c meta) →
  backend_files b !! meta_filename c meta ≠ Some Dir →
  (backend_files b !! meta_filename c meta = None →
   parent_ok (backend_files b) (meta_filename c meta) = true) →
  chksum_method SHA256 cfg true c b
  = (Val VELOC_SUCCESS, with_files b (<[meta_filename c meta := Reg (SHA256 (x :: d))]> (backend_files b))).
Proof.
  intros Hc Hb Hd Hl Hdir Hpar. apply chksum_method_run.
  apply (checkpoint_free SHA256 scratch meta c (b_env b) (backend_files b) (filename c scratch));
    try done; [|by apply lookup_path_reg].
  unfold fault_free, backend_files in *. simpl. destruct (env_sys (b_env b)). simpl in *. by subst.
Qed.

Lemma versioning_checkpoint c (b : backend_t E) :
  c.(command) = CHECKPOINT → versioning_method cfg c b = (Val VELOC_SUCCESS, b).
Proof.
  intros Hc. destruct Hcfg as (Hst & Hs & Hm & _ & _ & _ & Hmv & Hsv). unfold versioning_method.
  rewrite Hst, Hs, Hmv, Hsv. destruct b. unfold on_versioning, versioning_module_t.process_command.
  by rewrite Hc.
Qed.

(** *** Restart *)

Lemma transfer_restart_via c (b : backend_t E) p d :
  c.(command) = RESTART → fault_free b →
  lookup_path (backend_files b) (filename c persistent) = Some (p, Reg d) → p ≠ filename c scratch →
  zlen d ≤ LONG_MAX → backend_files b !! filename c scratch = None →
  parent_ok (backend_files b) (filename c scratch) = true →
  transfer_method cfg c b
  = (Val VELOC_SUCCESS, with_files b (<[filename c scratch := Reg d]> (backend_files b))).
Proof.
  intros Hc Hb Hd Hne HL Hp Hpar. destruct Hcfg as (Hst & Hs & _ & _ & Hi & _).
  unfold transfer_method. rewrite Hst, Hs, Hi. destruct b as [[[f sc] k n] w x t a ts v].
  unfold fault_free, backend_files in *. simpl in Hb, Hd, Hp, Hpar. subst sc.
  set (e := mk_env (mk_sys f []) k n).
  apply (on_transfer_run _ (mk_backend e w x t a ts v)).
  assert (no_link f (filename c scratch)) as Hnl by (intros t' Ht'; by rewrite Hp in Ht').
  apply (restart_missing _ _ _ _ e ts true true e e); [done|done| | |intros _].
  - apply (on_sys_same _ e _ (mk_sys f [])); [done|]. rewrite access_free. unfold lookup_path.
    by rewrite resolve_none, Hp by done.
  - apply (on_sys_same _ e _ (mk_sys f [])); [done|]. rewrite access_free. by rewrite Hd.
  - apply (on_sys_run _ e). cbn [the_sys env_has_sys env_sys e].
    rewrite (copy_free _ _ f p d); try done; [|by rewrite Hp].
    unfold contents. rewrite Hp. by rewrite zdrop_all, app_nil_r by apply zlen_nonneg.
Qed.

Lemma transfer_restart_local c (b : backend_t E) d :
  c.(command) = RESTART → fault_free b → backend_files b !! filename c scratch = Some (Reg d) →
  transfer_method cfg c b = (Val VELOC_SUCCESS, b).
Proof.
  intros Hc Hb Hd. destruct Hcfg as (Hst & Hs & _ & _ & Hi & _).
  unfold transfer_method. rewrite Hst, Hs, Hi. destruct b as [[[f sc] k n] w x t a ts v].
  unfold fault_free, backend_files in *. simpl in Hb, Hd. subst sc. set (e := mk_env (mk_sys f []) k n).
  rewrite (on_transfer_run _ (mk_backend e w x t a ts v) (Val VELOC_SUCCESS) e ts); [done|].
  unfold transfer_module_t.process_command. rewrite Hc. cbn -[access]. unfold transfer_module_t.restart.
  erewrite comp_bind_val.
  2:{ apply (on_sys_same _ (e, ts) _ (mk_sys f [])); [done|]. apply access_free. }
  by rewrite (lookup_path_reg _ _ _ Hd).
Qed.

Lemma chksum_restart c (b : backend_t E) x d :
  c.(command) = RESTART → fault_free b →
  backend_files b !! filename c scratch = Some (Reg (x :: d)) →
  backend_files b !! meta_filename c meta = Some (Reg (SHA256 (x :: d))) →
  chksum_method SHA256 cfg true c b = (Val VELOC_SUCCESS, b).
Proof.
  intros Hc Hb Hd Hr. rewrite (chksum_method_run c b (Val VELOC_SUCCESS) (b_env b)); [by destruct b|].
  apply (restart_free SHA256 SHA256_size scratch meta c (b_env b) (backend_files b) (meta_filename c meta)
    (filename c scratch) x d); [done| |by apply lookup_path_reg..].
  unfold fault_free, backend_files in *. simpl. destruct (env_sys (b_env b)). simpl in *. by subst.
Qed.

Lemma versioning_restart c (b : backend_t E) :
  c.(command) = RESTART → fault_free b →
  ∃ v', versioning_method cfg c b = (Val VELOC_IGNORED,
    mk_backend (b_env b) (b_watchdog b) (b_er b) (b_ec_timestamp b) (b_aggregator b) (b_transfer b) v').
Proof.
  intros Hc Hb. destruct Hcfg as (Hst & Hs & Hm & _ & _ & _ & Hmv & Hsv). unfold versioning_method.
  rewrite Hst, Hs, Hmv, Hsv. destruct b as [[[f sc] k n] w x t a ts v].
  unfold fault_free in Hb. simpl in Hb. subst sc. set (e := mk_env (mk_sys f []) k n).
  assert (∃ v', versioning_module_t.process_command (Some (posix_module_t.storage scratch persistent))
    scratch (default "" (s_meta cfg)) (default 0 None) (default 0 None) c (e, v)
    = (Val VELOC_IGNORED, (e, v'))) as [v' Hv].
  { unfold versioning_module_t.process_command. rewrite Hc. cbn -[posix_module_t.storage].
    unfold versioning_module_t.restart.
    assert (∀ p, on_sys (access p) e = (Val (bool_decide (is_Some (lookup_path f p))), e)) as Ha.
    { intros p. by apply (on_sys_same _ e _ (mk_sys f [])). }
    erewrite comp_bind_val by (apply on_fst_run; apply (Ha (filename c persistent))).
    destruct (bool_decide (is_Some (lookup_path f (filename c persistent))));
      (erewrite comp_bind_val by done);
      (erewrite comp_bind_val by (eapply (on_sys_same _ (e, _) _ (mk_sys f [])); [done|by apply access_free]));
      destruct (bool_decide (is_Some (lookup_path f (filename c scratch)))); by eexists. }
  exists v'. by apply (on_versioning_run _ (mk_backend e w x t a ts v)).
Qed.

(** The command sequences through the chain. *)

Lemma dirname_record c d : wf c = true → dirname (meta_filename c d) = Some d.
Proof.
  intros Hwf. unfold meta_filename, filename. rewrite !sapp_assoc. apply dirname_app.
  by rewrite scount_app, stem_no_slash.
Qed.

(** After a transfer that succeeds. *)
Lemma chain_checkpoint_via c (b b1 : backend_t E) x d :
  c.(command) = CHECKPOINT → transfer_method cfg c b = (Val VELOC_SUCCESS, b1) → fault_free b1 →
  backend_files b1 !! filename c scratch = Some (Reg (x :: d)) →
  no_link (backend_files b1) (meta_filename c meta) →
  backend_files b1 !! meta_filename c meta ≠ Some Dir → is_dir (backend_files b1) meta = true → wf c = true →
  notify_command chain c b = (Val VELOC_SUCCESS, with_files b1
    (<[meta_filename c meta := Reg (SHA256 (x :: d))]> (backend_files b1))).
Proof.
  intros Hc Ht Hb Hd Hl Hdir Hm Hwf. unfold notify_command.
  erewrite notify_next by (first [apply watchdog_off|done]).
  rewrite (notify_next _ _ _ _ _ VELOC_SUCCESS b1 Ht) by done.
  rewrite (notify_next _ _ _ _ _ VELOC_SUCCESS (with_files b1
    (<[meta_filename c meta := Reg (SHA256 (x :: d))]> (backend_files b1)))); [| |done].
  - by rewrite (notify_next _ _ _ _ _ VELOC_SUCCESS _ (versioning_checkpoint c _ Hc)).
  - apply (chksum_checkpoint c b1 x d); try done.
    intros _. unfold parent_ok. by rewrite dirname_record, Hm, orb_true_r.
Qed.

Lemma chain_checkpoint c (b : backend_t E) x d :
  c.(command) = CHECKPOINT → c.(original) = "" → fault_free b →
  backend_files b !! filename c scratch = Some (Reg (x :: d)) → zlen (x :: d) ≤ LONG_MAX →
  backend_files b !! filename c persistent = None →
  parent_ok (backend_files b) (filename c persistent) = true →
  no_link (backend_files b) (meta_filename c meta) →
  backend_files b !! meta_filename c meta ≠ Some Dir → is_dir (backend_files b) meta = true → wf c = true →
  notify_command chain c b = (Val VELOC_SUCCESS, with_files b
    (<[meta_filename c meta := Reg (SHA256 (x :: d))]>
      (<[filename c persistent := Reg (x :: d)]> (backend_files b)))).
Proof.
  intros Hc Ho Hb Hd HL Hp Hpar Hl Hdir Hm Hwf. pose proof (record_not_file c c meta persistent) as Hrec.
  rewrite (chain_checkpoint_via c b _ x d Hc (transfer_checkpoint c b _ Hc Ho Hb Hd HL Hp Hpar)); try done;
    unfold backend_files; simpl.
  - rewrite lookup_insert_ne; [done|]. intros E'; by apply filename_prefix in E'.
  - intros t. by rewrite lookup_insert_ne.
  - by rewrite lookup_insert_ne.
  - unfold is_dir in *. rewrite lookup_insert_ne; [done|]. intros E'. by rewrite <-E', Hp in Hm.
Qed.

(** The scratch directory has the file, or it can be put there. *)
Definition local_or_missing (f : gmap string node) (p : string) (d : list byte) : Prop :=
  f !! p = None ∧ parent_ok f p = true ∨ f !! p = Some (Reg d).

Lemma chain_restart_via c (b : backend_t E) p x d :
  c.(command) = RESTART → fault_free b →
  lookup_path (backend_files b) (filename c persistent) = Some (p, Reg (x :: d)) → p ≠ filename c scratch →
  zlen (x :: d) ≤ LONG_MAX →
  local_or_missing (backend_files b) (filename c scratch) (x :: d) →
  backend_files b !! meta_filename c meta = Some (Reg (SHA256 (x :: d))) →
  ∃ b', notify_command chain c b = (Val VELOC_SUCCESS, b') ∧ fault_free b' ∧
    backend_files b' = <[filename c scratch := Reg (x :: d)]> (backend_files b).
Proof.
  intros Hc Hb Hd Hne HL Hp Hr. unfold notify_command.
  set (b1 := with_files b (<[filename c scratch := Reg (x :: d)]> (backend_files b))).
  assert (backend_files b1 = <[filename c scratch := Reg (x :: d)]> (backend_files b)) as Hf1 by done.
  destruct (versioning_restart c b1 Hc) as [v' Hv]; [done|].
  erewrite notify_next by (first [apply watchdog_off|done]).
  assert (transfer_method cfg c b = (Val VELOC_SUCCESS, b1)) as Ht.
  { destruct Hp as [[Hp Hpar]|Hp]; [by apply transfer_restart_via with p|].
    unfold b1. rewrite insert_id, with_files_same by done. by eapply transfer_restart_local. }
  rewrite (notify_next _ _ _ _ _ _ _ Ht) by done.
  rewrite (notify_next _ _ _ _ _ VELOC_SUCCESS b1); [| |done].
  - rewrite (notify_next _ _ _ _ _ _ _ Hv) by done. by eexists.
  - apply (chksum_restart c b1 x d); [done|done|rewrite Hf1..].
    + by rewrite lookup_insert_eq.
    + rewrite lookup_insert_ne; [done|]. apply not_eq_sym, record_not_file.
Qed.

Lemma chain_restart c (b : backend_t E) x d :
  c.(command) = RESTART → fault_free b →
  backend_files b !! filename c persistent = Some (Reg (x :: d)) → zlen (x :: d) ≤ LONG_MAX →
  local_or_missing (backend_files b) (filename c scratch) (x :: d) →
  backend_files b !! meta_filename c meta = Some (Reg (SHA256 (x :: d))) →
  ∃ b', notify_command chain c b = (Val VELOC_SUCCESS, b') ∧ fault_free b' ∧
    backend_files b' = <[filename c scratch := Reg (x :: d)]> (backend_files b).
Proof.
  intros Hc Hb Hd. apply (chain_restart_via c b (filename c persistent)); [done|done|by apply lookup_path_reg|].
  intros E'. by apply filename_prefix in E'.
Qed.

(** A file in the scratch directory without a record of its checksum is refused. *)
Lemma chain_restart_unrecorded c (b : backend_t E) d :
  c.(command) = RESTART → fault_free b → backend_files b !! filename c scratch = Some (Reg d) →
  backend_files b !! meta_filename c meta = None →
  notify_command chain c b = (Val VELOC_FAILURE, b).
Proof.
  intros Hc Hb Hd Hr. unfold notify_command.
  rewrite (notify_next _ _ _ _ _ _ _ (watchdog_off c b)) by done.
  rewrite (notify_next _ _ _ _ _ _ _ (transfer_restart_local c b d Hc Hb Hd)) by done.
  apply notify_fail. rewrite (chksum_method_run c b (Val VELOC_FAILURE) (b_env b)); [by destruct b|].
  unfold chksum_module_t.process_command. rewrite Hc. cbn -[read_file].
  destruct (b_env b) as [[f sc] k n] eqn:He. unfold fault_free, backend_files in *. rewrite He in *. simpl in *. subst.
  erewrite comp_bind_val by (eapply on_sys_same; [done|by apply read_file_missing]). done.
Qed.

(** *** Test *)

Lemma transfer_test c (b : backend_t E) :
  c.(command) = TEST → transfer_method cfg c b = (Val VELOC_IGNORED, b).
Proof.
  intros Hc. destruct Hcfg as (Hst & _ & _ & _ & Hi & _). unfold transfer_method. rewrite Hst, Hi.
  destruct b. unfold on_transfer, transfer_module_t.process_command. by rewrite Hc.
Qed.

Lemma chksum_test c (b : backend_t E) :
  c.(command) = TEST → chksum_method SHA256 cfg true c b = (Val VELOC_IGNORED, b).
Proof.
  intros Hc. rewrite (chksum_method_run c b (Val VELOC_IGNORED) (b_env b)); [by destruct b|].
  unfold chksum_module_t.process_command. by rewrite Hc.
Qed.

(** The versions that a test finds. *)
Definition found (f : gmap string node) (c : command_t.t) : Z → Prop :=
  available (posix_module_t.storage (S:=env) scratch persistent) scratch f c.

Lemma chain_test c (b : backend_t E) :
  c.(command) = TEST → fault_free b →
  dir_scannable (backend_files b) persistent c.(name) = true →
  dir_scannable (backend_files b) scratch c.(name) = true →
  (∀ x, found (backend_files b) c x → 0 ≤ x) →
  ∃ r b', notify_command chain c b = (Val r, b') ∧ fault_free b' ∧ backend_files b' = backend_files b ∧
    ((r = VELOC_IGNORED ∧ ∀ x, found (backend_files b) c x → c.(version) ≠ 0 ∧ c.(version) < x) ∨
     (found (backend_files b) c r ∧ (c.(version) ≠ 0 → r ≤ c.(version)) ∧
      ∀ x, found (backend_files b) c x → c.(version) = 0 ∨ x ≤ c.(version) → x ≤ r)).
Proof.
  intros Hc Hb Hp Hs Hpos. destruct Hcfg as (Hst & Hsc & _ & _ & _ & _ & Hmv & Hsv).
  destruct (test_latest (S:=env) (posix_module_t.storage scratch persistent) scratch (default "" (s_meta cfg)) 0 0
    c (b_env b) (b_versioning b)) as (r & v' & Hrun & Hr); [exact Hc|exact Hb|exact Hp|exact Hs|].
  assert (r ≠ VELOC_FAILURE ∧ VELOC_IGNORED ≤ r) as [Hnf Hge].
  { destruct Hr as [[-> _]|[Hr _]]; [done|]. apply Hpos in Hr. unfold VELOC_FAILURE, VELOC_IGNORED. lia. }
  assert (versioning_method cfg c b = (Val r, mk_backend (b_env b) (b_watchdog b) (b_er b)
    (b_ec_timestamp b) (b_aggregator b) (b_transfer b) v')) as Hv.
  { unfold versioning_method. rewrite Hst, Hsc, Hmv, Hsv. by apply on_versioning_run. }
  eexists r, (mk_backend (b_env b) (b_watchdog b) (b_er b) _ _ _ v').
  split_and!; [unfold notify_command|exact Hb|done|exact Hr].
  rewrite (notify_next _ _ _ _ _ _ _ (watchdog_off c b)) by done.
  rewrite (notify_next _ _ _ _ _ _ _ (transfer_test c b Hc)) by done.
  rewrite (notify_next _ _ _ _ _ _ _ (chksum_test c b Hc)) by done.
  rewrite (notify_next _ _ _ _ _ _ _ Hv) by done.
  cbn [notify]. unfold mret, comp_ret. rewrite !Z.max_id. by rewrite Z.max_r.
Qed.
End chain.

(** The backend brings a lost checkpoint back.  With the default modules,
    the POSIX storage and checksums, a [CHECKPOINT] of a file in the scratch
    directory succeeds; when that file is lost later, and whatever else has
    changed, as long as the persistent copy and the record are there, a
    [RESTART] succeeds, and it puts the file back, byte for byte, changing
    nothing else. *)
Theorem backend_checkpoint_restart {E : Type} (er : er_t E) (SHA256 : list byte → list byte)
    (cfg : settings) (hardware_concurrency : Z) (scratch persistent meta : string)
    (c r : command_t.t) (d : list byte) (b0 b : backend_t E) (ms : list method_t) :
  (∀ d, zlen (SHA256 d) = chksum_module_t.HASH_SIZE) →
  plain_settings cfg scratch persistent meta → scratch ≠ persistent →
  wf c = true → c.(command) = CHECKPOINT → c.(original) = "" →
  r.(command) = RESTART → stem r = stem c →
  fault_free b0 → is_dir (backend_files b0) meta = true → is_dir (backend_files b0) persistent = true →
  backend_files b0 !! filename c scratch = Some (Reg d) → d ≠ [] → zlen d ≤ LONG_MAX →
  backend_files b0 !! filename c persistent = None → backend_files b0 !! meta_filename c meta = None →
  add_default er SHA256 cfg hardware_concurrency None b0 = (Val ms, b) →
  ∃ b1, notify_command ms c b = (Val VELOC_SUCCESS, b1) ∧
    ∀ b2 : backend_t E, fault_free b2 →
      backend_files b2 !! filename c persistent = backend_files b1 !! filename c persistent →
      backend_files b2 !! meta_filename c meta = backend_files b1 !! meta_filename c meta →
      backend_files b2 !! filename c scratch = None → is_dir (backend_files b2) scratch = true →
      ∃ b3, notify_command ms r b2 = (Val VELOC_SUCCESS, b3) ∧
        backend_files b3 = <[filename c scratch := Reg d]> (backend_files b2).
Proof.
  intros HS Hcfg Hne Hwf Hc Ho Hr Hst Hb Hm Hpd Hd Hd0 HL Hp Hrec Hadd.
  rewrite (add_default_chain er SHA256 cfg hardware_concurrency scratch persistent meta Hcfg) in Hadd by done.
  simplify_eq. destruct d as [|x d]; [done|].
  assert (∀ f q, is_dir f q = true → parent_ok f (filename c q) = true) as Hpar.
  { intros f q Hq. unfold parent_ok. by rewrite dirname_filename, Hq, orb_true_r. }
  eexists. split.
  { apply (chain_checkpoint SHA256 cfg scratch persistent meta Hcfg Hne c b x d); try done; [by apply Hpar| |];
      [intros t|]; by rewrite Hrec. }
  intros b2 Hb2 Hp2 Hrec2 Hs2 Hsd.
  assert (filename r scratch = filename c scratch ∧ filename r persistent = filename c persistent ∧
    meta_filename r meta = meta_filename c meta) as (E1 & E2 & E3)
    by (unfold meta_filename, filename; by rewrite Hst).
  unfold backend_files in Hp2, Hrec2. simpl in Hp2, Hrec2.
  rewrite lookup_insert_ne, lookup_insert_eq in Hp2 by apply record_not_file.
  rewrite lookup_insert_eq in Hrec2.
  destruct (chain_restart SHA256 HS cfg scratch persistent meta Hcfg Hne r b2 x d) as (b3 & Hrun & _ & Hf3);
    rewrite ?E1, ?E2, ?E3; try done; [left; split; [done|by apply Hpar]|].
  exists b3. split; [done|]. by rewrite Hf3, E1.
Qed.

Definition demo_settings (interval max_versions : option Z) (chksum : bool) : settings := {|
  s_storage := Some (posix_module_t.storage "/s" "/p"); s_cfg_file := ""; s_scratch := "/s";
  s_meta := if chksum then Some "/m" else None; s_watchdog_interval := None; s_ec_interval := None;
  s_max_parallelism := None; s_persistent_interval := interval; s_chksum := chksum;
  s_max_versions := max_versions; s_scratch_versions := None
|}.
Definition demo_backend (f : gmap string node) (ts : gmap Z Z) (v : versioning_t) : backend_t unit :=
  mk_backend (mk_env (mk_sys f []) (λ n, 1000000000 * Z.of_nat n) 0) ∅ tt 0
    (mk_aggregator ∅ ∅ ∅) ts v.
Definition demo_files : gmap string node :=
  <["/s" := Dir]> (<["/p" := Dir]> (<["/m" := Dir]> (<["/s/ck-0-1.dat" := Reg demo_data]> ∅))).
Definition demo_command (k v : Z) : command_t.t :=
  {| unique_id := 0; command := k; version := v; offset := 0; name := "ck"; original := "" |}.

Lemma backend_checkpoint_restart_witness :
  let cfg := demo_settings None None true in
  let b := demo_backend demo_files ∅ (mk_versioning ∅ ∅) in
  ∃ ms b1, add_default demo_er demo_hash cfg 4 None b = (Val ms, b) ∧
    notify_command ms (demo_command CHECKPOINT 1) b = (Val VELOC_SUCCESS, b1).
Proof.
  intros cfg b.
  set (ms := [watchdog_method cfg; transfer_method cfg; chksum_method demo_hash cfg true;
    versioning_method (E:=unit) cfg]).
  assert (add_default demo_er demo_hash cfg 4 None b = (Val ms, b)) as Hadd by reflexivity.
  destruct (backend_checkpoint_restart demo_er demo_hash cfg 4 "/s" "/p" "/m" (demo_command CHECKPOINT 1)
    (demo_command RESTART 1) demo_data b b ms demo_hash_size) as (b1 & Hrun & _);
    [repeat split|discriminate|vm_compute; reflexivity|reflexivity|reflexivity|reflexivity|reflexivity
    |reflexivity|reflexivity|reflexivity|vm_compute; reflexivity|discriminate|vm_compute; discriminate
    |vm_compute; reflexivity|vm_compute; reflexivity|exact Hadd|].
  exists ms, b1. split; [exact Hadd|exact Hrun].
Defined.

(** ** A checkpoint that is not persisted *)

Lemma set_insert_above v l : Forall (λ x, x < v) l → set_insert v l = l ++ [v].
Proof.
  induction 1 as [|x l Hx _ IH]; [done|]. simpl. rewrite IH.
  destruct (Z.ltb_spec v x); [lia|]. by destruct (Z.eqb_spec v x); [lia|].
Qed.

(** Before its time a checkpoint is answered without a transfer. *)
Lemma checkpoint_early st interval scratch c e ts :
  0 < interval → c.(command) = CHECKPOINT →
  clock e (readings e) < transfer_module_t.timestamp ts c.(unique_id) →
  transfer_module_t.process_command (Some st) interval scratch c (e, ts)
  = (Val VELOC_SUCCESS, (tick e, ts)).
Proof.
  intros Hi Hc Ht. unfold transfer_module_t.process_command. destruct (Z.ltb_spec interval 0); [lia|].
  rewrite Hc. cbn -[flush]. unfold transfer_module_t.checkpoint, transfer_module_t.due.
  destruct (Z.ltb_spec 0 interval); [|lia]. rewrite comp_bind_unfold.
  erewrite comp_bind_val by done. rewrite get_bind. cbn beta iota.
  by destruct (Z.ltb_spec (clock e (readings e)) (transfer_module_t.timestamp ts (unique_id c))); [|lia].
Qed.

(** With an interval between transfers, the versioning module counts
    checkpoints that were never persisted.  When the history is full and the next
    checkpoint comes before the interval is over, the command succeeds, nothing
    is written to the persistent storage, and its oldest version is removed: a
    few quick checkpoints leave it without any. *)
Theorem backend_interval_evicts {E : Type} (er : er_t E) (SHA256 : list byte → list byte)
    (cfg : settings) (hardware_concurrency interval max_versions : Z) (scratch persistent : string)
    (c : command_t.t) (oldest : Z) (rest : zset) (b0 b : backend_t E) (ms : list method_t) :
  s_storage cfg = Some (posix_module_t.storage scratch persistent) → s_scratch cfg = scratch →
  s_meta cfg = None → s_watchdog_interval cfg = None → s_persistent_interval cfg = Some interval →
  s_chksum cfg = false → s_max_versions cfg = Some max_versions → s_scratch_versions cfg = None →
  0 < interval → 0 < max_versions → wf c = true → c.(command) = CHECKPOINT →
  add_default er SHA256 cfg hardware_concurrency None b0 = (Val ms, b) → fault_free b →
  clock (b_env b) (readings (b_env b)) < transfer_module_t.timestamp (b_transfer b) c.(unique_id) →
  entry (b_versioning b).(persistent_history) c = oldest :: rest →
  Forall (λ u, 0 ≤ u < c.(version)) (oldest :: rest) → Z.of_nat (length (oldest :: rest)) = max_versions →
  (∀ u, backend_files b !! filename (set_version c u) persistent ≠ Some Dir) →
  ∃ b', notify_command ms c b = (Val VELOC_SUCCESS, b') ∧
    backend_files b' = delete (filename (set_version c oldest) persistent) (backend_files b).
Proof.
  intros Hst Hs Hme Hw Hi Hck Hmv Hsv Hi0 Hm0 Hwf Hc Hadd Hb Ht Hh Hall Hlen Hdir.
  assert (ms = [watchdog_method cfg; transfer_method cfg; chksum_method SHA256 cfg false;
    versioning_method cfg]) as ->.
  { unfold add_default, add_chksum in Hadd. rewrite Hck in Hadd.
    unfold mbind, comp_bind, mret, comp_ret in Hadd. simpl in Hadd. by simplify_eq. }
  unfold notify_command. clear Hadd b0. destruct b as [[[f sc] k n] w x t a ts v].
  unfold fault_free, backend_files in *. simpl in Hb, Ht, Hh, Hdir. subst sc.
  set (e := mk_env (mk_sys f []) k n). set (b := mk_backend e w x t a ts v).
  set (b1 := mk_backend (tick e) w x t a ts v).
  rewrite (notify_next _ _ _ _ _ VELOC_IGNORED b); [|unfold watchdog_method; by rewrite Hw|done].
  rewrite (notify_next _ _ _ _ _ VELOC_SUCCESS b1); [| |done].
  2:{ unfold transfer_method. rewrite Hst, Hs, Hi. apply (on_transfer_run _ b). by apply checkpoint_early. }
  rewrite (notify_next _ _ _ _ _ VELOC_IGNORED b1); [|done|done].
  destruct (checkpoint_prunes scratch persistent "" max_versions 0 c (tick e) f v)
    as (e' & f' & Hrun & He' & Hcl); [done|done|].
  assert (set_insert (version c) (oldest :: rest) = (oldest :: rest) ++ [version c]) as Hins
    by (apply set_insert_above; eapply Forall_impl; [exact Hall|]; simpl; lia).
  assert (pruned max_versions (version c) (oldest :: rest) = [oldest]) as Hpr.
  { unfold pruned. destruct (Z.ltb_spec 0 max_versions); [|lia]. rewrite Hins. unfold excess.
    rewrite length_app. simpl length in *.
    by replace (S (length rest) + 1 - Z.to_nat max_versions)%nat with 1%nat by lia. }
  remember (mk_versioning _ _) as v' eqn:Hv' in Hrun.
  rewrite (notify_next _ _ _ _ _ VELOC_SUCCESS (mk_backend e' w x t a ts v')); [| |done].
  2:{ unfold versioning_method. rewrite Hst, Hs, Hmv, Hsv, Hme. apply (on_versioning_run _ b1).
      unfold versioning_module_t.process_command. rewrite Hc. exact Hrun. }
  eexists. split; [done|]. simpl. change (env_sys e') with (the_sys e'). rewrite He'. simpl files.
  apply cleared_delete; [|apply Hdir]. eapply cleared_iff; [|exact Hcl]. intros p ? _ _. rewrite Hh, Hpr.
  unfold removed, version_file. split.
  - intros [(u & ->%list_elem_of_singleton & [->|[? _]])|(u & []%elem_of_nil & _)]; done.
  - intros ->. left. exists oldest. split; [by left|by left].
Qed.

Lemma backend_interval_evicts_witness :
  let cfg := demo_settings (Some 60) (Some 1) false in
  let f := <["/s" := Dir]> (<["/p" := Dir]> (<["/p/ck-0-1.dat" := Reg demo_data]> ∅)) in
  let b := demo_backend f {[0 := 60000000000]} (mk_versioning {[("ck", 0) := [1]]} ∅) in
  let ms := [watchdog_method cfg; transfer_method cfg; chksum_method demo_hash cfg false;
    versioning_method (E:=unit) cfg] in
  ∃ b', notify_command ms (demo_command CHECKPOINT 2) b = (Val VELOC_SUCCESS, b') ∧
    backend_files b' = delete "/p/ck-0-1.dat" f.
Proof.
  intros cfg f b ms.
  apply (backend_interval_evicts demo_er demo_hash cfg 4 60 1 "/s" "/p" (demo_command CHECKPOINT 2) 1 []
    b b ms); try reflexivity.
  - constructor; [split; [vm_compute; discriminate|reflexivity]|constructor].
  - intros u Hu. unfold backend_files, b, demo_backend, f in Hu. cbn [b_env env_sys files] in Hu.
    rewrite !lookup_insert_Some in Hu.
    destruct Hu as [[E _]|[_ [[E _]|[_ [[_ E]|[_ E]]]]]]; discriminate E.
Defined.

(** ** A backend without persistent storage *)

(** Without a persistent storage, and with checksums and erasure coding off,
    no restart ever succeeds: the transfer module, which would see that the
    checkpoint is in the scratch directory, is inactive, and the chain answers
    [VELOC_IGNORED] even though the file is there. *)
Theorem backend_restart_ignored {E : Type} (er : er_t E) (SHA256 : list byte → list byte)
    (cfg : settings) (hardware_concurrency : Z) (r : command_t.t) (b0 b : backend_t E) (ms : list method_t) :
  s_storage cfg = None → s_watchdog_interval cfg = None → s_chksum cfg = false →
  r.(command) = RESTART → add_default er SHA256 cfg hardware_concurrency None b0 = (Val ms, b) →
  ∃ b', notify_command ms r b = (Val VELOC_IGNORED, b') ∧ backend_files b' = backend_files b.
Proof.
  intros Hst Hw Hck Hr Hadd.
  assert (ms = [watchdog_method cfg; transfer_method cfg; chksum_method SHA256 cfg false;
    versioning_method cfg]) as ->.
  { unfold add_default, add_chksum in Hadd. rewrite Hck in Hadd.
    unfold mbind, comp_bind, mret, comp_ret in Hadd. simpl in Hadd. by simplify_eq. }
  unfold notify_command. clear Hadd b0.
  rewrite (notify_next _ _ _ _ _ VELOC_IGNORED b);
    [|unfold watchdog_method; rewrite Hw; by destruct b|done].
  rewrite (notify_next _ _ _ _ _ VELOC_IGNORED b);
    [|unfold transfer_method; rewrite Hst; by destruct b|done].
  rewrite (notify_next _ _ _ _ _ VELOC_IGNORED b); [|by destruct b|done].
  assert (∃ b', versioning_method cfg r b = (Val VELOC_IGNORED, b') ∧ backend_files b' = backend_files b)
    as (b' & Hv & Hf).
  { unfold versioning_method. rewrite Hst. destruct b as [e w x t a ts v]. unfold on_versioning,
      versioning_module_t.process_command. rewrite Hr. simpl (_ =? _). cbn iota.
    unfold versioning_module_t.restart. rewrite ret_bind. rewrite ret_bind. rewrite comp_bind_unfold.
    destruct (access (filename r (s_scratch cfg)) (env_sys e)) as [o s'] eqn:Ha.
    apply access_files in Ha as Ha'. destruct Ha' as (Hf & [] & ->);
      rewrite (on_sys_run _ (e, v) _ _ Ha); by eexists. }
  exists b'. split; [|done]. by rewrite (notify_next _ _ _ _ _ _ _ Hv) by done.
Qed.

Lemma backend_restart_ignored_witness :
  let cfg := {| s_storage := None; s_cfg_file := ""; s_scratch := "/s"; s_meta := None;
    s_watchdog_interval := None; s_ec_interval := None; s_max_parallelism := None;
    s_persistent_interval := None; s_chksum := false; s_max_versions := None;
    s_scratch_versions := None |} in
  let b := demo_backend demo_files ∅ (mk_versioning ∅ ∅) in
  let ms := [watchdog_method cfg; transfer_method cfg; chksum_method demo_hash cfg false;
    versioning_method (E:=unit) cfg] in
  demo_files !! filename (demo_command RESTART 1) "/s" = Some (Reg demo_data) ∧
  ∃ b', notify_command ms (demo_command RESTART 1) b = (Val VELOC_IGNORED, b').
Proof.
  intros cfg b ms. split; [vm_compute; reflexivity|].
  destruct (backend_restart_ignored demo_er demo_hash cfg 4 (demo_command RESTART 1) b b ms)
    as (b' & Hrun & _); [reflexivity..|]. exists b'. exact Hrun.
Defined.
