(* ===== verification/IpcQueue.v ===== *)
(** * IpcQueue: [src/common/ipc_queue.hpp]

    The queue in shared memory.  A client and the backend share one
    [client_queue_t] per client, with a mutex and a condition for the client's
    waits; a further named mutex and condition tell the backend of new elements.
    The critical sections are functions; the threads around them are a step
    relation. *)

From S2P Require Import Prelude Queue.
From stdpp Require Import relations.

Local Open Scope Z_scope.

(** An iterator into [progress] stays valid while other elements come and go: it
    is a ticket that the element got when it was inserted. *)
Record client_queue_t (T : Type) := mk_queue {
  status : Z;
  pending : list T;
  progress : list (nat * T);
  next_ticket : nat
}.
Arguments mk_queue {T} _ _ _ _.
Arguments status {T} _.
Arguments pending {T} _.
Arguments progress {T} _.
Arguments next_ticket {T} _.

Definition empty_queue {T} : client_queue_t T := mk_queue VELOC_SUCCESS [] [] 0.

Definition is_empty {A} (l : list A) : bool := match l with [] => true | _ => false end.

(** [list.erase(it)]: the element; [None] when the iterator is not valid. *)
Fixpoint erase {T} (it : nat) (l : list (nat * T)) : option (T * list (nat * T)) :=
  match l with
  | [] => None
  | (t, e) :: l =>
      if decide (t = it) then Some (e, l)
      else '(x, l') ← erase it l; Some (x, (t, e) :: l')
  end.

Module ipc_queue.
Section ipc_queue.
Context {T : Type}.
Abbreviation queue := (client_queue_t T).

(** *** [comm_client_t] *)

(** [wait_completion]: the result, once the loop on the condition has ended;
    [None] while it waits. *)
Definition wait_completion (reset_status : bool) (q : queue) : option (Z * queue) :=
  if negb (is_empty q.(pending)) || negb (is_empty q.(progress)) then None
  else Some (q.(status),
             if reset_status then mk_queue VELOC_SUCCESS q.(pending) q.(progress) q.(next_ticket) else q).

Definition check_completion (q : queue) : bool :=
  is_empty q.(pending) && is_empty q.(progress).

(** [enqueue] up to the notification. *)
Definition enqueue (e : T) (q : queue) : queue :=
  mk_queue q.(status) (q.(pending) ++ [e]) q.(progress) q.(next_ticket).

(** *** [comm_backend_t] *)

(** The first queue of the segment with a pending element. *)
Fixpoint find_non_empty_pending (segment : list queue) : option nat :=
  match segment with
  | [] => None
  | q :: segment =>
      if negb (is_empty q.(pending)) then Some 0%nat
      else S <$> find_non_empty_pending segment
  end.

(** The end of [dequeue_any]: the head of the pending elements moves to the end
    of those in progress; the element and its iterator. *)
Definition dequeue (q : queue) : option (T * nat * queue) :=
  match q.(pending) with
  | [] => None
  | e :: rest =>
      Some (e, q.(next_ticket),
            mk_queue q.(status) rest (q.(progress) ++ [(q.(next_ticket), e)]) (S q.(next_ticket)))
  end.

(** [dequeue_any], once the loop on the condition has ended. *)
Definition dequeue_any (segment : list queue) : option (T * (nat * nat) * list queue) :=
  i ← find_non_empty_pending segment;
  q ← segment !! i;
  '(e, it, q') ← dequeue q;
  Some (e, (i, it), <[i := q']> segment).

(** [set_completion] up to the notification. *)
Definition set_completion (it : nat) (s : Z) (q : queue) : option (T * queue) :=
  '(e, rest) ← erase it q.(progress);
  Some (e, mk_queue (merge_status q.(status) s) q.(pending) rest q.(next_ticket)).

(** *** What happens to the queue of a client *)

Inductive step : queue → option (label T) → queue → Prop :=
| step_enqueue q e : step q (Some (Enqueue e)) (enqueue e q)
| step_dequeue q e it q' : dequeue q = Some (e, it, q') → step q (Some (Deliver e)) q'
| step_complete q it s e q' :
    set_completion it s q = Some (e, q') → step q (Some (Complete e s)) q'
| step_wait q r q' : wait_completion true q = Some (r, q') → step q (Some (Wait r)) q'.

End ipc_queue.
End ipc_queue.

Import ipc_queue.

(** ** Refinement of the contract *)

Lemma erase_perm {T} it (l : list (nat * T)) e rest :
  erase it l = Some (e, rest) → l ≡ₚ (it, e) :: rest.
Proof.
  revert rest. induction l as [|[t x] l IH]; simpl; intros rest H; [done|].
  destruct (decide (t = it)) as [->|]; [by simplify_eq|].
  destruct (erase it l) as [[y l']|]; simplify_eq/=.
  rewrite IH by done. apply Permutation_swap.
Qed.

Lemma wait_completion_spec {T} b (q : client_queue_t T) r q' :
  wait_completion b q = Some (r, q') →
  pending q = [] ∧ progress q = [] ∧ r = status q ∧ pending q' = [] ∧ progress q' = [] ∧
  status q' = if b then VELOC_SUCCESS else status q.
Proof.
  unfold wait_completion. destruct q as [s [|] [|] n], b; simpl; intros; by simplify_eq.
Qed.

(** The queue [q] stands for [k]. *)
Definition stands_for {T} (q : client_queue_t T) (k : contract T) : Prop :=
  queued k = pending q ∧ taken k ≡ₚ (progress q).*2 ∧ status q = merge_all (statuses k).

Global Program Instance ipc_refines {T} : Refines (ipc_queue.step (T:=T)) empty_queue :=
  {| refines := stands_for |}.
Next Obligation. intros T. done. Qed.
Next Obligation. intros T q1 q2 k Hs. inversion Hs. Qed.
Next Obligation.
  intros T q1 l q2 [u t ss] Hs (Hu & Ht & Hst). simpl in *.
  inversion Hs as [? e|? e it ? Hd|? it s e ? Hc|? r ? Hw]; subst.
  - eexists. split; [constructor|]. by split_and!.
  - unfold dequeue in Hd. destruct (pending q1) as [|x rest] eqn:Hp; simplify_eq.
    eexists. split; [constructor|]. split_and!; simpl; [done| |done]. rewrite Ht, fmap_app. done.
  - unfold set_completion in Hc. destruct (erase it (progress q1)) as [[x rest]|] eqn:He; simplify_eq/=.
    apply erase_perm in He. exists (mk_contract (pending q1) rest.*2 (s :: ss)). split.
    + constructor. by rewrite Ht, He.
    + split_and!; simpl; [done..|]. by rewrite Hst, merge_comm.
  - apply wait_completion_spec in Hw as (Hp & Hg & -> & Hp' & Hg' & Hs').
    rewrite Hg in Ht. apply Permutation_nil_r in Ht as ->. rewrite Hp, Hst.
    eexists. split; [constructor|]. split_and!; simpl; [by rewrite Hp'|by rewrite Hg'|done].
Qed.

(** C16: the queue in shared memory keeps its contract: everything a client and
    the workers of the backend do to it, in any order, is a run of the contract.
    In particular the elements are delivered in the order in which they were
    enqueued, and a wait returns a negative status exactly when an element
    completed with one since the wait before. *)
Theorem ipc_refinement {T : Type} (tr : list (label T)) (r : Z) (q : client_queue_t T) :
  execution ipc_queue.step empty_queue (tr ++ [Wait r]) q →
  (∃ k, contract_run no_elements (tr ++ [Wait r]) k) ∧
  delivered tr `prefix_of` enqueued tr ∧ (r < 0 ↔ Exists (λ s, s < 0) (since_wait tr [])).
Proof. apply refinement_wait, _. Qed.

Lemma ipc_refinement_witness :
  let tr := [Enqueue 5%nat; Enqueue 6%nat; Deliver 5%nat; Complete 5%nat (-1); Deliver 6%nat; Complete 6%nat 0] in
  ∃ q : client_queue_t nat, execution ipc_queue.step empty_queue (tr ++ [Wait (-1)]) q ∧
    (-1 < 0 ↔ Exists (λ s, s < 0) (since_wait tr [])).
Proof.
  intros tr. set (q0 := mk_queue VELOC_SUCCESS [] ([] : list (nat * nat)) 2).
  assert (execution ipc_queue.step empty_queue (tr ++ [Wait (-1)]) q0) as He.
  { do 2 (eapply execution_visible; [constructor|]).
    eapply execution_visible; [by apply (step_dequeue _ 5%nat 0%nat)|].
    eapply execution_visible; [by apply (step_complete _ 0%nat)|].
    eapply execution_visible; [by apply (step_dequeue _ 6%nat 1%nat)|].
    eapply execution_visible; [by apply (step_complete _ 1%nat)|].
    eapply execution_visible; [by apply step_wait|]. constructor. }
  exists q0. split; [exact He|]. apply (ipc_refinement _ _ _ He).
Defined.

(** ** Threads *)

(** The client is running, has pushed an element that it has not announced yet,
    or is in [wait_completion]: asleep, or notified. *)
Inductive client_pc := C_run | C_pushed | C_waiting | C_notified.

(** The backend is about to look for an element, has found none and is about to
    sleep, sleeps, or is notified. *)
Inductive backend_pc := B_scan | B_none | B_waiting | B_notified.

Record threads (T : Type) := mk_threads {
  shared : client_queue_t T;
  client : client_pc;
  backend : backend_pc;
  announcing : nat   (* workers that have completed an element and not notified the client *)
}.
Arguments mk_threads {T} _ _ _ _.
Arguments shared {T} _.
Arguments client {T} _.
Arguments backend {T} _.
Arguments announcing {T} _.

(** [pending_cond.notify_one()] and [cond.notify_one()] reach whoever sleeps
    now. *)
Definition notify_backend (b : backend_pc) : backend_pc :=
  match b with B_waiting => B_notified | _ => b end.
Definition notify_client (c : client_pc) : client_pc :=
  match c with C_waiting => C_notified | _ => c end.

(** One client, the main loop of the backend and its workers.  The backend looks
    for elements under [pending_mutex], which [enqueue] does not take; the
    client checks under the mutex of its queue, which a worker takes as well. *)
Inductive thread_step {T} : threads T → threads T → Prop :=
| t_push q b n e : thread_step (mk_threads q C_run b n) (mk_threads (enqueue e q) C_pushed b n)
| t_announce q b n : thread_step (mk_threads q C_pushed b n) (mk_threads q C_run (notify_backend b) n)
| t_wait_return q q' r c b n :
    c = C_run ∨ c = C_notified → wait_completion true q = Some (r, q') →
    thread_step (mk_threads q c b n) (mk_threads q' C_run b n)
| t_wait_sleep q c b n :
    c = C_run ∨ c = C_notified → wait_completion true q = None →
    thread_step (mk_threads q c b n) (mk_threads q C_waiting b n)
| t_dequeue q q' e it c b n :
    b = B_scan ∨ b = B_notified → dequeue q = Some (e, it, q') →
    thread_step (mk_threads q c b n) (mk_threads q' c B_scan n)
| t_none q c b n :
    b = B_scan ∨ b = B_notified → dequeue q = None →
    thread_step (mk_threads q c b n) (mk_threads q c B_none n)
| t_sleep q c n : thread_step (mk_threads q c B_none n) (mk_threads q c B_waiting n)
| t_complete q q' it e s c b n :
    set_completion it s q = Some (e, q') →
    thread_step (mk_threads q c b n) (mk_threads q' c b (S n))
| t_notify q c b n : thread_step (mk_threads q c b (S n)) (mk_threads q (notify_client c) b n).

Definition start {T} : threads T := mk_threads empty_queue C_run B_scan 0.

(** A client that sleeps has something to wait for, or is about to be woken. *)
Definition wakeable {T} (x : threads T) : Prop :=
  client x = C_waiting →
  pending (shared x) ≠ [] ∨ progress (shared x) ≠ [] ∨ (0 < announcing x)%nat.

Lemma wait_completion_none {T} b (q : client_queue_t T) :
  wait_completion b q = None → pending q ≠ [] ∨ progress q ≠ [].
Proof. unfold wait_completion. destruct q as [s [|] [|] n]; simpl; auto. Qed.

Lemma wakeable_step {T} (x y : threads T) : thread_step x y → wakeable x → wakeable y.
Proof.
  intros Hs Hx. unfold wakeable in *. destruct Hs as [| | |q c b n ? Hw|q q' e it c b n ? Hd| | |q q' it e s c b n Hc|q c b n];
    simpl in *; try done; try (by intros; right; right; lia).
  - intros _. apply wait_completion_none in Hw. tauto.
  - intros Hcl. unfold dequeue in Hd. destruct (pending q); simplify_eq/=. right. left. by destruct (progress q).
  - by destruct c.
Qed.

Lemma wakeable_reachable {T} (x : threads T) : rtc thread_step start x → wakeable x.
Proof.
  assert (wakeable (start (T:=T))) as Hstart by done. revert Hstart. generalize (start (T:=T)).
  intros y Hy Hr. induction Hr; [done|]. eauto using wakeable_step.
Qed.

(** C19: a wait is never stuck when its work is done: whenever the client sleeps
    in [wait_completion] with nothing pending or in progress, a worker is about
    to notify it, and after that it returns. *)
Theorem ipc_wait_wakes {T : Type} (x : threads T) :
  rtc thread_step start x → client x = C_waiting →
  pending (shared x) = [] → progress (shared x) = [] →
  ∃ y z, thread_step x y ∧ client y = C_notified ∧ thread_step y z ∧ client z = C_run.
Proof.
  intros Hr Hc Hp Hg. destruct (wakeable_reachable x Hr Hc) as [?|[?|Hn]]; [done..|].
  destruct x as [q c b [|n]]; simpl in *; [lia|]. subst c.
  exists (mk_threads q C_notified b n). eexists. split_and!; [apply (t_notify q C_waiting)|done| |].
  - eapply t_wait_return; [by right|]. unfold wait_completion. by rewrite Hp, Hg.
  - done.
Qed.

Lemma ipc_wait_wakes_witness :
  ∃ x : threads nat, client x = C_waiting ∧ pending (shared x) = [] ∧ progress (shared x) = [] ∧
    ∃ y z, thread_step x y ∧ client y = C_notified ∧ thread_step y z ∧ client z = C_run.
Proof.
  set (q1 := enqueue 5%nat empty_queue). set (q2 := mk_queue VELOC_SUCCESS [] [(0%nat, 5%nat)] 1).
  set (q3 := mk_queue VELOC_SUCCESS [] ([] : list (nat * nat)) 1).
  exists (mk_threads q3 C_waiting B_scan 1). split; [reflexivity|]. split; [reflexivity|].
  split; [reflexivity|]. apply ipc_wait_wakes; [|reflexivity|reflexivity|reflexivity].
  eapply rtc_l; [apply (t_push empty_queue B_scan 0 5%nat)|].
  eapply rtc_l; [apply t_announce|].
  eapply rtc_l; [apply (t_wait_sleep q1); [left|]; reflexivity|].
  eapply rtc_l; [apply (t_dequeue q1 q2 5%nat 0%nat); [left|]; reflexivity|].
  eapply rtc_l; [apply (t_complete q2 q3 0%nat 5%nat 0); reflexivity|].
  apply rtc_refl.
Defined.

(** The backend can miss an element.  [enqueue] changes the queue and
    notifies without [pending_mutex]: when this happens between the backend's
    look at the queues and its wait, nobody is notified.  Then the element is
    pending, the backend sleeps, the client sleeps until its element is
    complete, and no thread can make a step. *)
Theorem ipc_lost_wakeup :
  ∃ x : threads unit, rtc thread_step start x ∧ pending (shared x) = [tt] ∧ client x = C_waiting ∧
    backend x = B_waiting ∧ ∀ y, ¬ thread_step x y.
Proof.
  set (q := enqueue tt empty_queue). exists (mk_threads q C_waiting B_waiting 0). split_and!; try done.
  - eapply rtc_l; [apply (t_none empty_queue); [by left|done]|].
    eapply rtc_l; [apply (t_push _ _ _ tt)|].
    eapply rtc_l; [apply t_announce|].
    eapply rtc_l; [apply t_sleep|].
    eapply rtc_l; [apply (t_wait_sleep q); [by left|done]|]. apply rtc_refl.
  - intros y Hs. inversion Hs; subst; naive_solver.
Qed.
