(* ===== verification/WorkQueue.v ===== *)
(** * WorkQueue: the tasks of [src/backend/work_queue.cpp] in parallel

    The main loop takes the commands of all clients from their queues in shared
    memory ([dequeue_any] of [src/common/ipc_queue.hpp], which sleeps when there is
    none) and gives each to a task of its own, [std::async]; it waits for the
    oldest task when there are too many.  Here the tasks run in parallel, in a
    step relation on the queues, the futures and the position of the loop; what
    [notify_command] does is a parameter, down to its result. *)

From S2P Require Import Prelude Queue IpcQueue.
From stdpp Require Import relations.

Local Open Scope Z_scope.

Import ipc_queue.

(** A task: its element, the queue and the iterator in its completion, and
    whether its future is ready. *)
Record task_t (T : Type) := mk_task {
  element : T;
  origin : nat * nat;
  is_ready : bool
}.
Arguments mk_task {T} _ _ _.
Arguments element {T} _.
Arguments origin {T} _.
Arguments is_ready {T} _.

(** Where the main loop is: in [dequeue_any] at the test of its loop, past a test
    that has found nothing, asleep; or in the wait for the first future. *)
Inductive loop_pc := Scanning | Missed | Sleeping | Waiting_front.

(** The queues of the clients, the futures of [work_queue] and the main loop, and
    the number of calls of [enqueue] that have changed a queue and not notified
    yet. *)
Record loop_t (T : Type) := mk_loop {
  segment : list (client_queue_t T);
  futures : list (task_t T);
  at_ : loop_pc;
  unannounced : nat
}.
Arguments mk_loop {T} _ _ _ _.
Arguments segment {T} _.
Arguments futures {T} _.
Arguments at_ {T} _.
Arguments unannounced {T} _.

Module task_loop.
Section task_loop.
Context {T : Type}.
Abbreviation loop := (loop_t T).
Abbreviation task := (task_t T).

(** What [notify_command] of a task may return while the futures are in the
    queue; [None] when it throws.  No result: the task is blocked. *)
Variable notify : list task → task → option Z → Prop.
Variable max_parallelism : Z.

(** The round of the loop up to the wait, when there is an element: the client and
    the element. *)
Definition launch (x : loop) : option (nat * T * loop) :=
  match x.(at_) with
  | Scanning =>
      '(e, it, s) ← dequeue_any x.(segment);
      let work_queue := x.(futures) ++ [mk_task e it false] in
      Some (it.1, e, mk_loop s work_queue
        (if max_parallelism <=? Z.of_nat (length work_queue) then Waiting_front else Scanning) x.(unannounced))
  | _ => None
  end.

(** The test of the loop in [dequeue_any] fails; [pending_cond.wait]. *)
Definition fall_asleep (x : loop) : option loop :=
  match x.(at_), find_non_empty_pending x.(segment) with
  | Scanning, None => Some (mk_loop x.(segment) x.(futures) Missed x.(unannounced))
  | Missed, _ => Some (mk_loop x.(segment) x.(futures) Sleeping x.(unannounced))
  | _, _ => None
  end.

(** [pending_cond.notify_one()]: who sleeps now looks again; a notification is not
    remembered. *)
Definition wake_up (pc : loop_pc) : loop_pc := match pc with Sleeping => Scanning | _ => pc end.

(** [work_queue.front().wait(); work_queue.pop();] *)
Definition pop_front (x : loop) : option loop :=
  match x.(at_), x.(futures) with
  | Waiting_front, t :: work_queue =>
      if t.(is_ready) then Some (mk_loop x.(segment) work_queue Scanning x.(unannounced)) else None
  | _, _ => None
  end.

(** The completion [f] that a task calls with the result. *)
Definition completion (t : task) (r : Z) (s : list (client_queue_t T)) :
    outcome (T * list (client_queue_t T)) :=
  match s !! t.(origin).1 with
  | None => Undef
  | Some q =>
      match set_completion t.(origin).2 r q with
      | None => Undef
      | Some (e, q') => Val (e, <[t.(origin).1 := q']> s)
      end
  end.

Definition set_ready (k : nat) (t : task) (l : list task) : list task :=
  <[k := mk_task t.(element) t.(origin) true]> l.

(** The main loop and the tasks; the label is what a client sees. *)
Inductive backend_step (x : loop) : option (nat * label T) → loop → Prop :=
| loop_launch i e y : launch x = Some (i, e, y) → backend_step x (Some (i, Deliver e)) y
| loop_asleep y : fall_asleep x = Some y → backend_step x None y
| loop_pop y : pop_front x = Some y → backend_step x None y
| task_return k t r e s :
    x.(futures) !! k = Some t → t.(is_ready) = false → notify x.(futures) t (Some r) →
    completion t r x.(segment) = Val (e, s) →
    backend_step x (Some (t.(origin).1, Complete e r)) (mk_loop s (set_ready k t x.(futures)) x.(at_) x.(unannounced))
| task_throw k t :
    x.(futures) !! k = Some t → t.(is_ready) = false → notify x.(futures) t None →
    backend_step x None (mk_loop x.(segment) (set_ready k t x.(futures)) x.(at_) x.(unannounced)).

(** With the clients.  [enqueue] changes the queue and notifies afterwards, without
    [pending_mutex], which the loop holds while it looks for an element. *)
Inductive step (x : loop) : option (nat * label T) → loop → Prop :=
| client_enqueue i q e :
    x.(segment) !! i = Some q →
    step x (Some (i, Enqueue e))
      (mk_loop (<[i := enqueue e q]> x.(segment)) x.(futures) x.(at_) (S x.(unannounced)))
| client_announce n :
    x.(unannounced) = S n → step x None (mk_loop x.(segment) x.(futures) (wake_up x.(at_)) n)
| client_wait i q r q' :
    x.(segment) !! i = Some q → wait_completion true q = Some (r, q') →
    step x (Some (i, Wait r)) (mk_loop (<[i := q']> x.(segment)) x.(futures) x.(at_) x.(unannounced))
| backend_steps l y : backend_step x l y → step x l y.

(** The backend alone. *)
Definition backend (x y : loop) : Prop := ∃ l, backend_step x l y.

(** No notification comes between a test that finds nothing and the sleep. *)
Definition timely_step (x : loop) (l : option (nat * label T)) (y : loop) : Prop :=
  step x l y ∧ (x.(at_) = Missed → (x.(unannounced) ≤ y.(unannounced))%nat).

(** [n] clients have connected. *)
Definition start (n : nat) : loop := mk_loop (replicate n empty_queue) [] Scanning 0.

End task_loop.
End task_loop.

Import task_loop.

(** ** Taking an element *)

Lemma find_pending_some {T} (s : list (client_queue_t T)) i :
  find_non_empty_pending s = Some i → ∃ q, s !! i = Some q ∧ pending q ≠ [].
Proof.
  revert i. induction s as [|q s IH]; intros i H; simplify_eq/=.
  destruct (pending q) eqn:Hp; simplify_eq/=; [|exists q; by rewrite Hp].
  apply fmap_Some in H as (j & Hj & ->). by apply IH.
Qed.

Lemma find_pending_none {T} (s : list (client_queue_t T)) :
  find_non_empty_pending s = None → Forall (λ q, pending q = []) s.
Proof.
  induction s as [|q s IH]; simpl; intros H; [constructor|].
  destruct (pending q) eqn:Hp; simplify_eq/=. apply fmap_None in H. constructor; auto.
Qed.

Lemma dequeue_some {T} (q : client_queue_t T) :
  pending q ≠ [] → ∃ e it q', dequeue q = Some (e, it, q').
Proof. unfold dequeue. destruct (pending q); [done|]. intros _. eauto. Qed.

Lemma dequeue_any_some {T} (s s' : list (client_queue_t T)) e i it :
  dequeue_any s = Some (e, (i, it), s') →
  ∃ q q', s !! i = Some q ∧ dequeue q = Some (e, it, q') ∧ s' = <[i := q']> s.
Proof.
  unfold dequeue_any. intros (j & Hj & H)%bind_Some. apply bind_Some in H as (q & Hq & H).
  apply bind_Some in H as ([[e1 it1] q'] & Hd & H). simplify_eq. eauto.
Qed.

Lemma dequeue_any_none {T} (s : list (client_queue_t T)) :
  dequeue_any s = None → Forall (λ q, pending q = []) s.
Proof.
  unfold dequeue_any. intros H. destruct (find_non_empty_pending s) as [i|] eqn:Hf;
    [|by apply find_pending_none].
  apply find_pending_some in Hf as (q & Hq & Hp). apply dequeue_some in Hp as (e & it & q' & Hd).
  simpl in H. rewrite Hq in H. simpl in H. by rewrite Hd in H.
Qed.

(** ** The queue of one client *)

(** What client [i] sees. *)
Definition seen_by {T} (i : nat) (tr : list (nat * label T)) : list (label T) :=
  omap (λ '(j, l), if decide (j = i) then Some l else None) tr.

Lemma segment_insert {T} (s : list (client_queue_t T)) i j q q' :
  s !! i = Some q → s !! j = Some q' → ∀ p, <[j := p]> s !! i = Some (if decide (j = i) then p else q).
Proof.
  intros Hi Hj p. destruct (decide (j = i)) as [->|]; [|by rewrite list_lookup_insert_ne].
  apply list_lookup_insert_eq. by eapply lookup_lt_Some.
Qed.

Lemma completion_val {T} (t : task_t T) r s e s' :
  completion t r s = Val (e, s') →
  ∃ q q', s !! t.(origin).1 = Some q ∧ set_completion t.(origin).2 r q = Some (e, q') ∧
    s' = <[t.(origin).1 := q']> s.
Proof.
  unfold completion. destruct (s !! _) as [q|]; [|done].
  destruct (set_completion _ r q) as [[e' q']|] eqn:Hq; [|done]. intros. simplify_eq. eauto.
Qed.

Lemma launch_some {T} m (x y : loop_t T) i e :
  launch m x = Some (i, e, y) →
  ∃ it q q', at_ x = Scanning ∧ segment x !! i = Some q ∧ dequeue q = Some (e, it, q') ∧
    y = mk_loop (<[i := q']> (segment x)) (futures x ++ [mk_task e (i, it) false])
      (if m <=? Z.of_nat (length (futures x) + 1) then Waiting_front else Scanning) (unannounced x).
Proof.
  unfold launch. destruct (at_ x); try done. intros ([[e' [j it]] s] & Hd & Hl)%bind_Some. simplify_eq/=.
  apply dequeue_any_some in Hd as (q & q' & Hj & Hd & ->). rewrite length_app. simpl. eauto 10.
Qed.

Lemma fall_asleep_some {T} (x y : loop_t T) :
  fall_asleep x = Some y →
  segment y = segment x ∧ futures y = futures x ∧ unannounced y = unannounced x ∧
  ((at_ x = Scanning ∧ at_ y = Missed ∧ Forall (λ q, pending q = []) (segment x)) ∨
   (at_ x = Missed ∧ at_ y = Sleeping)).
Proof.
  unfold fall_asleep. destruct (at_ x), (find_non_empty_pending (segment x)) eqn:Hf; intros; simplify_eq/=;
    (split_and!; [done..|]); [left|by right..].
  split_and!; [done..|]. by apply find_pending_none.
Qed.

Lemma pop_front_some {T} (x y : loop_t T) :
  pop_front x = Some y →
  ∃ t fs, at_ x = Waiting_front ∧ futures x = t :: fs ∧ is_ready t = true ∧
    y = mk_loop (segment x) fs Scanning (unannounced x).
Proof.
  unfold pop_front. destruct (at_ x), (futures x) as [|t fs]; try done.
  destruct (is_ready t) eqn:Hr; intros; simplify_eq. eauto 10.
Qed.

(** A step is a step of the queue of one client, or leaves it alone. *)
Lemma step_queue {T} notify m (x y : loop_t T) l i q :
  step notify m x l y → segment x !! i = Some q →
  ∃ q', segment y !! i = Some q' ∧
    match l with
    | Some (j, l) => if decide (j = i) then ipc_queue.step q (Some l) q' else q' = q
    | None => q' = q
    end.
Proof.
  intros Hs Hi. destruct Hs as [j p e Hj|n Hn|j p r p' Hj Hw|l y Hs]; simpl; [| by eauto| |].
  - erewrite segment_insert by done. eexists. split; [done|].
    destruct (decide (j = i)) as [->|]; [|done]. simplify_eq. constructor.
  - erewrite segment_insert by done. eexists. split; [done|].
    destruct (decide (j = i)) as [->|]; [|done]. simplify_eq. by constructor.
  - destruct Hs as [j e y Hl|y Hl|y Hp|k t r e s Hk Hr Hn Hc|k t Hk Hr Hn]; simpl.
    + apply launch_some in Hl as (it & p & p' & _ & Hj & Hd & ->). simpl.
      erewrite segment_insert by done. eexists. split; [done|].
      destruct (decide (j = i)) as [->|]; [|done]. simplify_eq. by econstructor.
    + apply fall_asleep_some in Hl as (-> & _). eauto.
    + apply pop_front_some in Hp as (t & fs & _ & _ & _ & ->). eauto.
    + apply completion_val in Hc as (p & p' & Hj & Hc & ->).
      erewrite segment_insert by done. eexists. split; [done|].
      destruct (decide _) as [Hji|]; [|done]. rewrite Hji in Hj. simplify_eq. by econstructor.
    + eauto.
Qed.

Lemma execution_queue {T} notify m (x y : loop_t T) tr i q :
  execution (step notify m) x tr y → segment x !! i = Some q →
  ∃ q', segment y !! i = Some q' ∧ execution ipc_queue.step q (seen_by i tr) q'.
Proof.
  intros He. revert q. induction He as [x|x y z tr Hs _ IH|x y z [j l] tr Hs _ IH]; intros q Hq.
  - eauto using execution.
  - destruct (step_queue _ _ _ _ _ _ _ Hs Hq) as (p & Hp & Hs'). destruct (IH p Hp) as (q' & Hq' & He').
    exists q'. split; [done|]. by subst.
  - destruct (step_queue _ _ _ _ _ _ _ Hs Hq) as (p & Hp & Hs'). destruct (IH p Hp) as (q' & Hq' & He').
    exists q'. split; [done|]. unfold seen_by in *. simpl.
    destruct (decide (j = i)); [by eapply execution_visible|by subst].
Qed.

(** ** Tasks and elements in progress *)

(** The elements of client [i] that tasks work on. *)
Definition running_at {T} (i : nat) (fs : list (task_t T)) : list (nat * T) :=
  omap (λ t, if negb t.(is_ready) && bool_decide (t.(origin).1 = i)
             then Some (t.(origin).2, t.(element)) else None) fs.

Definition running {T} (fs : list (task_t T)) : list (task_t T) := List.filter (λ t, negb t.(is_ready)) fs.

Lemma running_at_ready {T} i k (t : task_t T) fs :
  fs !! k = Some t → is_ready t = false →
  running_at i fs ≡ₚ
    (if decide (t.(origin).1 = i) then [(t.(origin).2, t.(element))] else []) ++ running_at i (set_ready k t fs).
Proof.
  intros Hk Hr. unfold set_ready. rewrite insert_take_drop by (by eapply lookup_lt_Some).
  rewrite <-(take_drop_middle fs k t Hk) at 1. unfold running_at. rewrite !omap_app. simpl. rewrite Hr. simpl.
  destruct (decide _) as [He|He]; [rewrite bool_decide_true by done|rewrite bool_decide_false by done];
    simpl; [|done]. by rewrite Permutation_middle.
Qed.

Lemma erase_elem {T} it (e : T) l :
  (it, e) ∈ l → NoDup l.*1 → ∃ rest, erase it l = Some (e, rest).
Proof.
  induction l as [|[n x] l IH]; simpl; intros Hin Hnd; [by apply elem_of_nil in Hin|].
  apply NoDup_cons in Hnd as [Hn Hnd]. apply elem_of_cons in Hin as [Heq|Hin].
  - simplify_eq. rewrite decide_True by done. eauto.
  - rewrite decide_False.
    + destruct (IH Hin Hnd) as [rest ->]. simpl. eauto.
    + intros ->. apply Hn. by apply (list_elem_of_fmap_2 fst) in Hin.
Qed.

Section invariant.
Context {T : Type} (notify : list (task_t T) → task_t T → option Z → Prop) (max_parallelism : Z).

Definition never_throws : Prop := ∀ fs t, ¬ notify fs t None.

(** The tasks at the same time: one more is started before the wait. *)
Definition bound : nat := Nat.max 1 (Z.to_nat max_parallelism).

(** The elements in progress have iterators of their own; they are those of the
    tasks and what was lost to exceptions. *)
Definition queue_inv (fs : list (task_t T)) (i : nat) (q : client_queue_t T) : Prop :=
  NoDup (progress q).*1 ∧ Forall (λ e, e.1 < next_ticket q)%nat (progress q) ∧
  ∃ lost, progress q ≡ₚ running_at i fs ++ lost ∧ (never_throws → lost = []).

Record loop_inv (x : loop_t T) : Prop := {
  inv_bound : match at_ x with
              | Waiting_front => futures x ≠ [] ∧ (length (futures x) ≤ bound)%nat
              | _ => (length (futures x) < bound)%nat
              end;
  inv_origin : Forall (λ t, (origin t).1 < length (segment x))%nat (futures x);
  inv_queues i q : segment x !! i = Some q → queue_inv (futures x) i q
}.

Lemma queue_inv_fs fs fs' i q :
  running_at i fs' = running_at i fs → queue_inv fs i q → queue_inv fs' i q.
Proof. unfold queue_inv. by intros ->. Qed.

Lemma queue_inv_dequeue fs i q e it q' :
  queue_inv fs i q → dequeue q = Some (e, it, q') → queue_inv (fs ++ [mk_task e (i, it) false]) i q'.
Proof.
  intros (Hnd & Hlt & lost & Hp & Hl) Hd. unfold dequeue in Hd.
  destruct (pending q) as [|x rest]; simplify_eq. unfold queue_inv. simpl. split_and!.
  - rewrite fmap_app. apply NoDup_app. split_and!; [done| |apply NoDup_singleton].
    intros n Hn Hin. apply list_elem_of_singleton in Hin. simpl in Hin. subst n.
    apply list_elem_of_fmap in Hn as (e' & He & Hin). rewrite Forall_forall in Hlt.
    apply Hlt in Hin. lia.
  - apply Forall_app. split; [|by repeat constructor].
    eapply Forall_impl; [exact Hlt|]. simpl. lia.
  - exists lost. split; [|done]. unfold running_at. rewrite omap_app. simpl.
    rewrite bool_decide_true by done. fold (running_at i fs). rewrite Hp. solve_Permutation.
Qed.

Lemma queue_inv_running fs k t q :
  fs !! k = Some t → is_ready t = false → queue_inv fs (origin t).1 q →
  ((origin t).2, element t) ∈ progress q.
Proof.
  intros Hk Hr (_ & _ & lost & Hp & _). rewrite Hp, (running_at_ready _ k t) by done.
  rewrite decide_True by done. set_solver.
Qed.

Lemma queue_inv_complete fs k (t : task_t T) r q e q' :
  fs !! k = Some t → is_ready t = false → queue_inv fs (origin t).1 q →
  set_completion (origin t).2 r q = Some (e, q') →
  e = element t ∧ queue_inv (set_ready k t fs) (origin t).1 q'.
Proof.
  intros Hk Hr Hinv Hc. pose proof (queue_inv_running _ _ _ _ Hk Hr Hinv) as Hin.
  destruct Hinv as (Hnd & Hlt & lost & Hp & Hl).
  destruct (erase_elem _ _ _ Hin Hnd) as [rest He]. unfold set_completion in Hc. rewrite He in Hc.
  simplify_eq/=. split; [done|]. apply erase_perm in He. rewrite He in Hnd, Hlt. simpl in Hnd.
  apply NoDup_cons in Hnd as [_ Hnd]. apply Forall_cons in Hlt as [_ Hlt]. split_and!; [done|done|].
  exists lost. split; [|done]. rewrite He, (running_at_ready _ k t) in Hp by done.
  rewrite decide_True in Hp by done. simpl in *. by apply Permutation_cons_inv in Hp.
Qed.

Lemma queue_inv_throw fs k t q :
  fs !! k = Some t → is_ready t = false → notify fs t None → queue_inv fs (origin t).1 q →
  queue_inv (set_ready k t fs) (origin t).1 q.
Proof.
  intros Hk Hr Hn (Hnd & Hlt & lost & Hp & Hl). split_and!; [done|done|].
  exists (((origin t).2, element t) :: lost). split; [|intros Hnt; by apply Hnt in Hn].
  rewrite Hp, (running_at_ready _ k t) by done. rewrite decide_True by done. solve_Permutation.
Qed.

Lemma running_at_other i k (t : task_t T) fs :
  fs !! k = Some t → (origin t).1 ≠ i → running_at i (set_ready k t fs) = running_at i fs.
Proof.
  intros Hk Hne. unfold set_ready. rewrite insert_take_drop by (by eapply lookup_lt_Some).
  rewrite <-(take_drop_middle fs k t Hk) at 3. unfold running_at. rewrite !omap_app. simpl.
  rewrite bool_decide_false by done. by destruct (is_ready t).
Qed.

Lemma bound_ready k t (x : loop_t T) (s : list (client_queue_t T)) :
  loop_inv x → futures x !! k = Some t → length s = length (segment x) →
  match at_ x with
  | Waiting_front => set_ready k t (futures x) ≠ [] ∧ (length (set_ready k t (futures x)) ≤ bound)%nat
  | _ => (length (set_ready k t (futures x)) < bound)%nat
  end ∧ Forall (λ t, (origin t).1 < length s)%nat (set_ready k t (futures x)).
Proof.
  intros [Hb Ho _] Hk Hs. unfold set_ready. rewrite length_insert, Hs. split.
  - destruct (at_ x); [done..|]. destruct Hb. split; [|done].
    intros Hnil. apply (f_equal length) in Hnil. rewrite length_insert in Hnil.
    destruct (futures x); simplify_eq/=.
  - apply Forall_insert; [done|]. simpl. by eapply (Forall_lookup_1 _ _ _ _ Ho).
Qed.

Lemma queues_insert fs fs' (s : list (client_queue_t T)) j p p' :
  (∀ i q, s !! i = Some q → queue_inv fs i q) → s !! j = Some p →
  (∀ i, i ≠ j → running_at i fs' = running_at i fs) → queue_inv fs' j p' →
  ∀ i q, <[j := p']> s !! i = Some q → queue_inv fs' i q.
Proof.
  intros Hs Hj Hfs Hp i q Hi. apply list_lookup_insert_Some in Hi as [(<- & <- & _)|[Hne Hi]]; [done|].
  eapply queue_inv_fs; [by apply Hfs|by apply Hs].
Qed.

Lemma launch_inv x i e y : loop_inv x → launch max_parallelism x = Some (i, e, y) → loop_inv y.
Proof.
  intros [Hb Ho Hq] (it & p & p' & Hat & Hj & Hd & ->)%launch_some. rewrite Hat in Hb. split; simpl.
  - rewrite length_app. simpl. destruct (Z.leb_spec max_parallelism (Z.of_nat (length (futures x) + 1))).
    + split; [by destruct (futures x)|lia].
    + unfold bound in *. lia.
  - rewrite length_insert. apply Forall_app. split; [done|]. constructor; [|done].
    by eapply lookup_lt_Some.
  - eapply queues_insert; [exact Hq|exact Hj| |by eapply queue_inv_dequeue; [apply Hq|]].
    intros j Hne. unfold running_at. rewrite omap_app. simpl. rewrite bool_decide_false by done.
    by rewrite app_nil_r.
Qed.

Lemma pop_inv x y : loop_inv x → pop_front x = Some y → loop_inv y.
Proof.
  intros [Hb Ho Hq] (t & fs & Hat & Hfs & Hr & ->)%pop_front_some. rewrite Hat, Hfs in *. split; simpl in *.
  - lia.
  - by inversion Ho.
  - intros i q Hi. eapply queue_inv_fs; [|by apply Hq]. unfold running_at. simpl. by rewrite Hr.
Qed.

Lemma asleep_inv x y : loop_inv x → fall_asleep x = Some y → loop_inv y.
Proof.
  intros [Hb Ho Hq] (Hs & Hf & _ & Hat)%fall_asleep_some. split; rewrite ?Hs, ?Hf; [|done..].
  destruct Hat as [(Hx & -> & _)|[Hx ->]]; by rewrite Hx in Hb.
Qed.

Lemma backend_step_inv x l y : loop_inv x → backend_step notify max_parallelism x l y → loop_inv y.
Proof.
  intros Hx Hs. pose proof Hx as [Hb Ho Hq].
  destruct Hs as [i e y Hl|y Hl|y Hp|k t r e s Hk Hr Hn Hc|k t Hk Hr Hn];
    [by eapply launch_inv|by eapply asleep_inv|by eapply pop_inv| |].
  - apply completion_val in Hc as (p & p' & Hj & Hc & ->).
    destruct (bound_ready k t x (<[(origin t).1:=p']> (segment x))) as [Hb' Ho'];
      [done|done|by rewrite length_insert|].
    split; simpl; [done|done|]. eapply queues_insert; [exact Hq|exact Hj| |].
    + intros i Hne. by apply running_at_other.
    + by eapply queue_inv_complete; [| |apply Hq|].
  - destruct (bound_ready k t x (segment x)) as [Hb' Ho']; [done..|].
    split; simpl; [done|done|]. intros i q Hi. destruct (decide ((origin t).1 = i)) as [<-|Hne].
    + by apply queue_inv_throw, Hq.
    + eapply queue_inv_fs; [by apply running_at_other|by apply Hq].
Qed.

Lemma loop_inv_step x l y : loop_inv x → step notify max_parallelism x l y → loop_inv y.
Proof.
  intros Hx Hs. pose proof Hx as [Hb Ho Hq].
  destruct Hs as [j p e Hj|n Hn|j p r p' Hj Hw|l y Hs]; [| | |by eapply backend_step_inv].
  - split; simpl; [done|by rewrite length_insert|].
    eapply queues_insert; [exact Hq|exact Hj|done|]. exact (Hq _ _ Hj).
  - split; simpl; [by destruct (at_ x)|done..].
  - split; simpl; [done|by rewrite length_insert|].
    eapply queues_insert; [exact Hq|exact Hj|done|]. specialize (Hq _ _ Hj).
    unfold wait_completion in Hw. destruct p as [s [|] [|] n]; simplify_eq/=. exact Hq.
Qed.

Lemma loop_start_inv n : loop_inv (start n).
Proof.
  split; simpl; [unfold bound; lia|constructor|].
  intros i q [-> _]%lookup_replicate. split_and!; simpl; [constructor|constructor|by exists []].
Qed.

Lemma inv_execution x tr y : loop_inv x → execution (step notify max_parallelism) x tr y → loop_inv y.
Proof. intros Hx He. induction He; eauto using loop_inv_step. Qed.

(** A completion is that of a task for the element that it completes. *)
Lemma completion_origin x tr y i e r :
  loop_inv x → execution (step notify max_parallelism) x tr y → (i, Complete e r) ∈ tr →
  ∃ fs t, (origin t).1 = i ∧ element t = e ∧ notify fs t (Some r).
Proof.
  intros Hx He Hin. induction He as [x|x y z tr Hs _ IH|x y z l tr Hs _ IH].
  - by apply elem_of_nil in Hin.
  - eauto using loop_inv_step.
  - apply elem_of_cons in Hin as [<-|Hin]; [|by eauto using loop_inv_step].
    inversion Hs as [| | |? ? Hb]; subst. inversion Hb as [| | |k t r' e' s Hk Hr Hn Hc|]; subst.
    apply completion_val in Hc as (p & p' & Hj & Hc & _).
    destruct (queue_inv_complete _ _ _ _ _ _ _ Hk Hr (inv_queues _ Hx _ _ Hj) Hc) as [-> _]. eauto.
Qed.

(** A task can complete its element. *)
Lemma completion_total x k t r :
  loop_inv x → futures x !! k = Some t → is_ready t = false →
  ∃ s, completion t r (segment x) = Val (element t, s).
Proof.
  intros [_ Ho Hq] Hk Hr. destruct (lookup_lt_is_Some_2 (segment x) (origin t).1) as [q Hi].
  { by eapply (Forall_lookup_1 _ _ _ _ Ho). }
  pose proof (Hq _ _ Hi) as Hinv.
  destruct (erase_elem _ _ _ (queue_inv_running _ _ _ _ Hk Hr Hinv) (proj1 Hinv)) as [rest He].
  unfold completion. rewrite Hi. unfold set_completion. rewrite He. simpl. eauto.
Qed.

(** ** The backend comes to rest *)

(** What is left to do: every element is launched, completed and popped, and the
    loop falls asleep. *)
Definition wakefulness (pc : loop_pc) : nat := match pc with Scanning => 2 | Missed => 1 | _ => 0 end.
Definition work (x : loop_t T) : nat :=
  8 * sum_list_with (λ q, length (pending q)) (segment x) + 2 * length (running (futures x)) +
  4 * length (futures x) + wakefulness (at_ x).

Lemma work_insert (s : list (client_queue_t T)) i q q' :
  s !! i = Some q →
  (sum_list_with (λ q, length (pending q)) (<[i := q']> s) + length (pending q)
   = sum_list_with (λ q, length (pending q)) s + length (pending q'))%nat.
Proof.
  intros Hi. rewrite insert_take_drop by (by eapply lookup_lt_Some).
  rewrite <-(take_drop_middle s i q Hi) at 3. rewrite !sum_list_with_app. simpl. lia.
Qed.

Lemma running_ready k (t : task_t T) fs :
  fs !! k = Some t → is_ready t = false → length (running fs) = S (length (running (set_ready k t fs))).
Proof.
  intros Hk Hr. unfold set_ready. rewrite insert_take_drop by (by eapply lookup_lt_Some).
  rewrite <-(take_drop_middle fs k t Hk) at 1. unfold running. rewrite !List.filter_app. simpl. rewrite Hr. simpl.
  rewrite !length_app. simpl. lia.
Qed.

Lemma work_decreases x y : backend notify max_parallelism x y → (work y < work x)%nat.
Proof.
  unfold work. intros [l [i e y' Hl|y' Hl|y' Hp|k t r e s Hk Hr _ Hc|k t Hk Hr _]]; simpl.
  - apply launch_some in Hl as (it & p & p' & Hat & Hj & Hd & ->). rewrite Hat. simpl.
    pose proof (work_insert _ _ _ p' Hj). unfold dequeue in Hd. destruct (pending p) eqn:Hp; simplify_eq/=.
    unfold running. rewrite List.filter_app, !length_app. simpl. destruct (_ <=? _); simpl; lia.
  - apply fall_asleep_some in Hl as (-> & -> & _ & [(-> & -> & _)|[-> ->]]); simpl; lia.
  - apply pop_front_some in Hp as (t & fs & -> & -> & Hr & ->). simpl. rewrite Hr. simpl. lia.
  - apply completion_val in Hc as (p & p' & Hj & Hc & ->). pose proof (work_insert _ _ _ p' Hj).
    unfold set_completion in Hc. destruct (erase _ _) as [[? rest]|]; simplify_eq/=.
    rewrite (running_ready _ _ _ Hk Hr). unfold set_ready. rewrite length_insert. lia.
  - rewrite (running_ready _ _ _ Hk Hr). unfold set_ready. rewrite length_insert. lia.
Qed.

Lemma backend_terminates x : sn (backend notify max_parallelism) x.
Proof. apply (sn_measure _ work), work_decreases. Qed.

Lemma backend_inv x y : loop_inv x → rtc (backend notify max_parallelism) x y → loop_inv y.
Proof. intros Hx Hr. induction Hr as [|x y z [l Hs] _ IH]; [done|]. eauto using backend_step_inv. Qed.

(** At rest the loop sleeps, no task is left, and what the loop has taken up is
    completed. *)
Lemma rest_sleeps x :
  never_throws → (∀ fs t, ∃ r, notify fs t (Some r)) → loop_inv x → nf (backend notify max_parallelism) x →
  at_ x = Sleeping ∧ running (futures x) = [] ∧ Forall (λ q, progress q = []) (segment x).
Proof.
  intros Hnt Hret Hx Hnf.
  assert (∀ t, t ∈ futures x → is_ready t = true) as Hready.
  { intros t [k Hk]%list_elem_of_lookup. destruct (is_ready t) eqn:Hr; [done|].
    destruct (Hret (futures x) t) as [r Hn]. destruct (completion_total x k t r Hx Hk Hr) as [s Hs].
    destruct Hnf. eexists _, _. by eapply task_return. }
  split.
  { pose proof (inv_bound _ Hx) as Hb. destruct (at_ x) eqn:Ha; [..|done|].
    - destruct Hnf. destruct (find_non_empty_pending (segment x)) as [i|] eqn:Hf.
      + apply find_pending_some in Hf as Hp. destruct Hp as (q & Hq & (e & it & q' & Hd)%dequeue_some).
        eexists _, _. eapply loop_launch. unfold launch, dequeue_any. rewrite Ha, Hf. simpl. rewrite Hq. simpl.
        by rewrite Hd.
      + eexists _, _. apply loop_asleep. unfold fall_asleep. by rewrite Ha, Hf.
    - destruct Hnf. eexists _, _. apply loop_asleep. unfold fall_asleep. by rewrite Ha.
    - destruct Hb as [Hne _]. destruct (futures x) as [|t fs] eqn:Hfs; [done|]. destruct Hnf.
      eexists _, _. apply loop_pop. unfold pop_front. rewrite Ha, Hfs, Hready by left. done. }
  split.
  - unfold running. induction (futures x) as [|t fs IH]; [done|]. simpl. rewrite Hready by left.
    apply IH. intros u Hu. apply Hready. by right.
  - apply Forall_lookup. intros i q Hi. destruct (inv_queues _ Hx _ _ Hi) as (_ & _ & lost & Hp & Hl).
    assert (running_at i (futures x) = []) as Hnone.
    { clear Hp. unfold running_at. induction (futures x) as [|t fs IH]; [done|]. simpl.
      rewrite Hready by left. apply IH. intros u Hu. apply Hready. by right. }
    rewrite Hnone, (Hl Hnt) in Hp. by apply Permutation_nil_r in Hp.
Qed.

(** *** Notifications that are not lost *)

Definition drained (x : loop_t T) : Prop := Forall (λ q, check_completion q = true) (segment x).

(** Who does not look has nothing to look for, or, with [late], is about to be
    notified. *)
Definition attentive (late : bool) (x : loop_t T) : Prop :=
  at_ x = Missed ∨ at_ x = Sleeping →
  Forall (λ q, pending q = []) (segment x) ∨ (late = true ∧ (0 < unannounced x)%nat).

Lemma attentive_drained late x :
  at_ x = Sleeping → Forall (λ q, progress q = []) (segment x) → attentive late x →
  (late = true → unannounced x = 0%nat) → drained x.
Proof.
  intros Ha Hg Hx Hu. destruct Hx as [Hp|[Hl ?]]; [by right| |specialize (Hu Hl); lia]. unfold drained.
  rewrite Forall_forall in Hp, Hg. apply Forall_forall. intros q Hq. unfold check_completion.
  by rewrite Hp, Hg.
Qed.

(** The backend adds nothing to the pending elements. *)
Lemma backend_pending x l y :
  backend_step notify max_parallelism x l y → Forall (λ q, pending q = []) (segment x) →
  Forall (λ q, pending q = []) (segment y).
Proof.
  intros Hs Hp. destruct Hs as [i e y Hl|y Hl|y Hpop|k t r e s Hk Hr _ Hc|]; [..|done].
  - apply launch_some in Hl as (it & q & q' & _ & Hj & Hd & _). rewrite Forall_lookup in Hp.
    apply Hp in Hj. unfold dequeue in Hd. by rewrite Hj in Hd.
  - by apply fall_asleep_some in Hl as (-> & _).
  - by apply pop_front_some in Hpop as (? & ? & _ & _ & _ & ->).
  - apply completion_val in Hc as (q & q' & Hj & Hc & ->). simpl. apply Forall_insert; [done|].
    unfold set_completion in Hc. destruct (erase _ _) as [[? ?]|]; simplify_eq/=. by eapply (Forall_lookup_1 _ _ _ _ Hp).
Qed.

Lemma attentive_backend late x l y :
  attentive late x → backend_step notify max_parallelism x l y → attentive late y.
Proof.
  unfold attentive. intros Hx Hs Hat. pose proof (backend_pending _ _ _ Hs) as Hkeep.
  destruct Hs as [i e y Hl|y Hl|y Hpop|k t r e s Hk Hr _ Hc|k t Hk Hr Hn]; simpl in *.
  - apply launch_some in Hl as (it & q & q' & _ & _ & _ & ->). simpl in Hat. destruct (_ <=? _); naive_solver.
  - apply fall_asleep_some in Hl as (Hs & _ & Hu & [(_ & _ & Hp)|[Hm _]]).
    + left. by rewrite Hs.
    + rewrite Hs, Hu. apply Hx. by left.
  - apply pop_front_some in Hpop as (? & ? & _ & _ & _ & ->). naive_solver.
  - destruct (Hx Hat) as [Hp|Hu]; [left; by apply Hkeep|by right].
  - by apply Hx.
Qed.

Lemma attentive_rtc late x y :
  attentive late x → rtc (backend notify max_parallelism) x y → attentive late y.
Proof. intros Hx Hr. induction Hr as [|x y z [l Hs] _ IH]; [done|]. eauto using attentive_backend. Qed.

Lemma attentive_step x l y : attentive true x → timely_step notify max_parallelism x l y → attentive true y.
Proof.
  intros Hx [Hs Ht]. destruct Hs as [j p e Hj|n Hn|j p r p' Hj Hw|l y Hs]; [..|by eapply attentive_backend];
    unfold attentive in *; simpl in *.
  - intros _. right. split; [done|lia].
  - rewrite Hn in Ht. destruct (at_ x); simpl in *; [naive_solver|specialize (Ht eq_refl); lia|naive_solver..].
  - intros Hat. destruct (Hx Hat) as [Hp|]; [|by right]. left. apply Forall_insert; [done|].
    unfold wait_completion in Hw. by destruct p as [s [|] [|] n]; simplify_eq/=.
Qed.

Lemma attentive_execution x tr y :
  attentive true x → execution (timely_step notify max_parallelism) x tr y → attentive true y.
Proof. intros Hx He. induction He; eauto using attentive_step. Qed.

Lemma backend_unannounced x y : rtc (backend notify max_parallelism) x y → unannounced y = unannounced x.
Proof.
  induction 1 as [|x y z [l Hs] _ IH]; [done|]. rewrite IH.
  destruct Hs as [i e y Hl|y Hl|y Hpop| |]; simpl; [..|done|done].
  - by apply launch_some in Hl as (? & ? & ? & _ & _ & _ & ->).
  - by apply fall_asleep_some in Hl as (_ & _ & -> & _).
  - by apply pop_front_some in Hpop as (? & ? & _ & _ & _ & ->).
Qed.

End invariant.

(** ** Theorems *)

(** C20: the main loop with its parallel tasks keeps the contract of the queues.
    Whatever the clients, the loop and the tasks do, in any order and with any
    results: what client [i] sees is a run of the contract of a queue, its
    commands are taken up in the order in which it enqueued them, every completion
    that it gets is the result of [notify_command] for the very element that is
    completed, in a task for this client, and a wait of the client fails exactly
    when one of these completions did since its wait before. *)
Theorem work_queue_contract {T : Type} notify (max_parallelism : Z) (n i : nat)
    (tr : list (nat * label T)) (r : Z) (x : loop_t T) :
  (i < n)%nat → execution (step notify max_parallelism) (start n) (tr ++ [(i, Wait r)]) x →
  (∃ k, contract_run no_elements (seen_by i tr ++ [Wait r]) k) ∧
  delivered (seen_by i tr) `prefix_of` enqueued (seen_by i tr) ∧
  (∀ e s, (i, Complete e s) ∈ tr → ∃ fs t, (origin t).1 = i ∧ element t = e ∧ notify fs t (Some s)) ∧
  (r < 0 ↔ Exists (λ s, s < 0) (since_wait (seen_by i tr) [])).
Proof.
  intros Hi He. assert (segment (start (T:=T) n) !! i = Some empty_queue) as Hq by by apply lookup_replicate.
  destruct (execution_queue _ _ _ _ _ _ _ He Hq) as (q & _ & Hq').
  unfold seen_by in Hq'. rewrite omap_app in Hq'. simpl in Hq'. rewrite decide_True in Hq' by done.
  destruct (refinement_wait _ empty_queue _ _ _ Hq') as (Hk & Hd & Hr).
  split; [exact Hk|]. split; [exact Hd|]. split; [|exact Hr]. intros e s Hin.
  eapply (completion_origin notify max_parallelism (start n)); [apply loop_start_inv|exact He|set_solver].
Qed.

(** No more than [max_parallelism] tasks run at the same time (but always
    one), and every task finds its element when it completes: the iterator that
    the task keeps is still valid, whatever other tasks have erased before. *)
Theorem work_queue_safe {T : Type} notify (max_parallelism : Z) (n : nat)
    (tr : list (nat * label T)) (x : loop_t T) :
  execution (step notify max_parallelism) (start n) tr x →
  Z.of_nat (length (running (futures x))) ≤ Z.max 1 max_parallelism ∧
  ∀ k t r, futures x !! k = Some t → is_ready t = false →
    ∃ s, completion t r (segment x) = Val (element t, s).
Proof.
  intros He. assert (loop_inv notify max_parallelism x) as Hx by (eapply inv_execution; [apply loop_start_inv|done]).
  split; [|intros k t r Hk Hr; by eapply completion_total].
  pose proof (List.filter_length_le (λ t, negb (is_ready t)) (futures x)). unfold running.
  destruct Hx as [Hb _ _]. unfold bound in Hb. destruct (at_ x); lia.
Qed.

(** C21: what the backend leaves behind when it comes to rest.  When every task
    returns sooner or later, there is no infinite run of the backend without new
    commands, and where it cannot go on it sleeps in [dequeue_any], without a task
    and with everything completed that it has taken up.  A command can still be
    pending there, because a notification that comes between the look at the queues
    and the sleep is lost.  But when none came there, and all have come, no element
    is left in any queue; and in any case the next notification, for whatever
    command of whatever client, makes the backend empty all of them. *)
Theorem work_queue_drains {T : Type} notify (max_parallelism : Z) (n : nat)
    (tr : list (nat * label T)) (x : loop_t T) :
  never_throws notify → (∀ fs t, ∃ r, notify fs t (Some r)) →
  execution (step notify max_parallelism) (start n) tr x →
  sn (backend notify max_parallelism) x ∧
  ∀ y, rtc (backend notify max_parallelism) x y → nf (backend notify max_parallelism) y →
    at_ y = Sleeping ∧ running (futures y) = [] ∧ Forall (λ q, progress q = []) (segment y) ∧
    (execution (timely_step notify max_parallelism) (start n) tr x → unannounced x = 0%nat → drained y) ∧
    ∀ m z, rtc (backend notify max_parallelism) (mk_loop (segment y) (futures y) (wake_up (at_ y)) m) z →
      nf (backend notify max_parallelism) z → drained z.
Proof.
  intros Hnt Hret He. split; [apply backend_terminates|]. intros y Hy Hnf.
  assert (loop_inv notify max_parallelism y) as Hinv.
  { eapply backend_inv; [|done]. eapply inv_execution; [apply loop_start_inv|done]. }
  destruct (rest_sleeps _ _ y Hnt Hret Hinv Hnf) as (Hat & Hrun & Hg). split_and!; [done..| |].
  - intros Ht Hu. apply (attentive_drained true); [done..| |by rewrite (backend_unannounced _ _ _ _ Hy)].
    eapply attentive_rtc; [|exact Hy]. eapply attentive_execution; [|exact Ht]. by intros [|].
  - intros m z Hz Hnz. rewrite Hat in Hz. simpl in Hz.
    assert (loop_inv notify max_parallelism z) as Hinvz.
    { eapply backend_inv; [|exact Hz]. destruct Hinv as [Hb Ho Hq]. split; simpl; [by rewrite Hat in Hb|done..]. }
    destruct (rest_sleeps _ _ z Hnt Hret Hinvz Hnz) as (Hatz & _ & Hgz).
    apply (attentive_drained false); [done..| |done]. eapply attentive_rtc; [|exact Hz]. by intros [|].
Qed.

(** Every command succeeds or fails at once. *)
Definition any_result {T} (fs : list (task_t T)) (t : task_t T) (r : option Z) : Prop := is_Some r.

(** Two tasks in parallel: the second fails before the first succeeds. *)
Definition demo_trace : list (nat * label Z) :=
  [(0%nat, Enqueue 10); (1%nat, Enqueue 20); (0%nat, Deliver 10); (1%nat, Deliver 20);
   (1%nat, Complete 20 (-1)); (0%nat, Complete 10 0)].

Lemma execution_app {S L : Type} (step : S → option L → S → Prop) x y z tr tr' :
  execution step x tr y → execution step y tr' z → execution step x (tr ++ tr') z.
Proof. intros H Hz. induction H; simpl; eauto using execution. Qed.

Lemma demo_execution : ∃ x, execution (timely_step any_result 4) (start 2) demo_trace x ∧
  segment x !! 0%nat = Some (mk_queue 0 [] [] 1) ∧ segment x !! 1%nat = Some (mk_queue (-1) [] [] 1) ∧
  unannounced x = 0%nat.
Proof.
  eexists. split.
  - do 2 (eapply execution_visible; [split; [by eapply client_enqueue|done]|]).
    do 2 (eapply execution_silent; [split; [by eapply client_announce|done]|]).
    do 2 (eapply execution_visible; [split; [by eapply backend_steps, loop_launch|done]|]).
    eapply execution_visible; [split; [eapply backend_steps,
      (task_return _ _ _ 1 (mk_task 20 (1%nat, 0%nat) false) (-1) 20); by try eexists|done]|].
    eapply execution_visible; [split; [eapply backend_steps,
      (task_return _ _ _ 0 (mk_task 10 (0%nat, 0%nat) false) 0 10); by try eexists|done]|]. constructor.
  - done.
Qed.

Lemma timely_execution {T} notify m (x y : loop_t T) tr :
  execution (timely_step notify m) x tr y → execution (step notify m) x tr y.
Proof. induction 1 as [|x y z tr [Hs _]|x y z l tr [Hs _]]; eauto using execution. Qed.

Lemma work_queue_contract_witness : ∃ x : loop_t Z,
  execution (step any_result 4) (start 2) (demo_trace ++ [(1%nat, Wait (-1))]) x ∧
  Exists (λ s, s < 0) (since_wait (seen_by 1 demo_trace) []).
Proof.
  destruct demo_execution as (x & He%timely_execution & _ & H1 & _).
  assert (∃ y, execution (step any_result 4) (start 2) (demo_trace ++ [(1%nat, Wait (-1))]) y) as [y Hy].
  { eexists. eapply execution_app; [exact He|]. eapply execution_visible; [|constructor].
    by eapply client_wait. }
  exists y. split; [exact Hy|].
  apply (work_queue_contract any_result 4 2 1 demo_trace (-1) y); [lia|exact Hy|lia].
Defined.

Lemma work_queue_safe_witness : ∃ x : loop_t Z,
  execution (step any_result 4) (start 2) demo_trace x ∧ Z.of_nat (length (running (futures x))) ≤ 4.
Proof.
  destruct demo_execution as (x & He%timely_execution & _). exists x. split; [exact He|].
  apply (work_queue_safe any_result 4 2 demo_trace x He).
Defined.

Lemma work_queue_drains_witness : ∃ x : loop_t Z,
  execution (step any_result 4) (start 2) demo_trace x ∧
  ∀ y, rtc (backend any_result 4) x y → nf (backend any_result 4) y → drained y.
Proof.
  destruct demo_execution as (x & Ht & _ & _ & Hu). pose proof (timely_execution _ _ _ _ _ Ht) as He.
  exists x. split; [exact He|]. intros y Hy Hnf.
  apply (work_queue_drains any_result 4 2 demo_trace x); [|intros fs t; exists 0; by eexists|exact He|exact Hy|exact Hnf|exact Ht|exact Hu].
  intros fs t [r Hr]. discriminate.
Defined.

(** ** Tasks that wait for each other *)

(** As many threads as clients, which is what the aggregator asks for, are not
    enough for commands that wait for those of the other clients.  When client 0
    has two commands in its queue, both get a task before client 1 gets one; they
    wait for the command of client 1, the loop waits for the first of them, and
    nothing can move any more. *)
Theorem work_queue_deadlock {T : Type} notify (a b c : T) :
  (∀ fs t r, notify fs t r → (origin t).1 = 0%nat → ∃ u, u ∈ fs ∧ (origin u).1 = 1%nat) →
  ∃ x, execution (step notify 2) (start 2)
      [(0%nat, Enqueue a); (0%nat, Enqueue b); (1%nat, Enqueue c); (0%nat, Deliver a); (0%nat, Deliver b)] x ∧
    nf (backend notify 2) x ∧ ∃ q, segment x !! 1%nat = Some q ∧ pending q = [c].
Proof.
  intros Hwait. eexists. split; [|split].
  - do 3 (eapply execution_visible; [by eapply client_enqueue|]).
    do 2 (eapply execution_visible; [by eapply backend_steps, loop_launch|]). constructor.
  - assert (∀ k t r, [mk_task a (0%nat, 0%nat) false; mk_task b (0%nat, 1%nat) false] !! k = Some t →
      ¬ notify [mk_task a (0%nat, 0%nat) false; mk_task b (0%nat, 1%nat) false] t r) as Hstuck.
    { intros k t r Hk Hn. destruct (Hwait _ _ _ Hn) as (u & Hu & Hu1); [by destruct k as [|[|k]]; simplify_eq/=|].
      apply list_elem_of_lookup in Hu as [j Hj]. by destruct j as [|[|j]]; simplify_eq/=. }
    intros [y [l Hs]]; inversion Hs; simplify_eq/=; by eapply Hstuck.
  - eexists. split; reflexivity.
Qed.

(** A command returns when there is one of both clients. *)
Definition barrier {T} (fs : list (task_t T)) (t : task_t T) (r : option Z) : Prop :=
  r = Some 0 ∧ ∀ i, (i < 2)%nat → ∃ u, u ∈ fs ∧ (origin u).1 = i.

Lemma work_queue_deadlock_witness : ∃ x : loop_t Z,
  execution (step barrier 2) (start 2)
    [(0%nat, Enqueue 1); (0%nat, Enqueue 2); (1%nat, Enqueue 1); (0%nat, Deliver 1); (0%nat, Deliver 2)] x ∧
  nf (backend barrier 2) x.
Proof.
  destruct (work_queue_deadlock (T:=Z) barrier 1 2 1) as (x & He & Hnf & _).
  - intros fs t r [_ Hn] _. by apply Hn, Nat.lt_1_2.
  - by exists x.
Defined.
