(* ===== verification/IpcSegment.v ===== *)
(** * IpcSegment: the shared memory of [src/common/ipc_queue.hpp]

    The queues of [IpcQueue] live in a segment of shared memory of fixed size,
    where every element of a list takes a node.  Here the segment has its names,
    the constructors of both sides, and an allocator that can run out: Boost's, a
    parameter of which only is assumed that what it hands out fits into the
    segment.  A [push_back] that finds no memory throws. *)

From S2P Require Import Prelude Text Command Queue IpcQueue.

Local Open Scope Z_scope.

Import command_t ipc_queue.

(** The queues by the names they were constructed with. *)
Abbreviation segment_t := (gmap string (client_queue_t command_t.t)).

Module ipc_segment.

Definition IPC_MAX_SIZE : Z := Z.shiftl 1 20.

(** [sizeof(command_t)]: three [int]s, padding, a [size_t], and the arrays [name]
    and [original]; a node of a list has two pointers besides. *)
Definition PATH_MAX : Z := 4096.
Definition sizeof_command : Z := 3 * 4 + 4 + 8 + CKPT_NAME_MAX + PATH_MAX.
Definition node_size : Z := 2 * 8 + sizeof_command.

(** Elements that have a node. *)
Definition queue_nodes (q : client_queue_t command_t.t) : nat := length q.(pending) + length q.(progress).
Definition nodes (s : segment_t) : nat := map_fold (λ _ q n, queue_nodes q + n)%nat 0%nat s.

Section segment.
(** Whether the allocator finds a node, given the segment. *)
Variable allocate : segment_t → bool.

(** [comm_backend_t::comm_backend_t] after [backend_cleanup]. *)
Definition make_backend : segment_t := ∅.

(** [comm_client_t::comm_client_t]: [find_or_construct]. *)
Definition make_client (id : Z) (s : segment_t) : segment_t :=
  match s !! to_string id with
  | Some _ => s
  | None => <[to_string id := empty_queue]> s
  end.

(** [pending.push_back(e)]; [data] is not null once the constructor has run. *)
Definition enqueue (id : Z) (e : command_t.t) (s : segment_t) : outcome segment_t :=
  match s !! to_string id with
  | None => Undef
  | Some q => if allocate s then Val (<[to_string id := ipc_queue.enqueue e q]> s)
              else Raise bad_alloc
  end.

(** [dequeue_any] after the queue has been found: the element leaves [pending],
    which frees its node, *)
Definition pop_front (n : string) (s : segment_t) : outcome (command_t.t * segment_t) :=
  match s !! n with
  | Some (mk_queue st (e :: rest) pr t) => Val (e, <[n := mk_queue st rest pr t]> s)
  | _ => Undef
  end.

(** and gets a node in [progress]. *)
Definition push_progress (n : string) (e : command_t.t) (s : segment_t) : outcome segment_t :=
  match s !! n with
  | Some (mk_queue st pe pr t) =>
      if allocate s then Val (<[n := mk_queue st pe (pr ++ [(t, e)]) (S t)]> s) else Raise bad_alloc
  | None => Undef
  end.

Definition set_completion (n : string) (it : nat) (r : Z) (s : segment_t) : outcome segment_t :=
  match s !! n with
  | Some q => match ipc_queue.set_completion it r q with
              | Some (_, q') => Val (<[n := q']> s)
              | None => Undef
              end
  | None => Undef
  end.

(** All processes on the segment.  The backend holds the mutex of one queue in
    [dequeue_any]; the others go on. *)
Inductive step : segment_t → segment_t → Prop :=
| step_client id s : step s (make_client id s)
| step_enqueue id e s s' : enqueue id e s = Val s' → step s s'
| step_pop n e s s' : pop_front n s = Val (e, s') → step s s'
| step_push n e s s' : push_progress n e s = Val s' → step s s'
| step_complete n it r s s' : set_completion n it r s = Val s' → step s s'
| step_wait n q r q' s : s !! n = Some q → wait_completion true q = Some (r, q') → step s (<[n := q']> s).

End segment.
End ipc_segment.

Import ipc_segment.

(** ** How many commands fit *)

Lemma nodes_insert_new s n q : s !! n = None → nodes (<[n := q]> s) = (queue_nodes q + nodes s)%nat.
Proof. intros Hn. unfold nodes. rewrite map_fold_insert_L; [done|lia|done]. Qed.

Lemma nodes_insert s n q q' :
  s !! n = Some q → (nodes (<[n := q']> s) + queue_nodes q = nodes s + queue_nodes q')%nat.
Proof.
  intros Hn. rewrite <-(insert_delete_id s n q Hn) at 2. rewrite <-insert_delete_eq.
  rewrite !nodes_insert_new by apply lookup_delete_eq. lia.
Qed.

(** The allocator does not hand out more than there is. *)
Definition fits (allocate : segment_t → bool) : Prop :=
  ∀ s, allocate s = true → (Z.of_nat (nodes s) + 1) * node_size ≤ IPC_MAX_SIZE.

Lemma queue_nodes_completion it r q e q' :
  ipc_queue.set_completion it r q = Some (e, q') → queue_nodes q = S (queue_nodes q').
Proof.
  unfold ipc_queue.set_completion. destruct (erase it (progress q)) as [[x rest]|] eqn:He; [|done].
  intros [= <- <-]. apply erase_perm, Permutation_length in He. unfold queue_nodes. simpl in *. lia.
Qed.

Lemma nodes_step allocate s s' :
  fits allocate → step allocate s s' →
  Z.of_nat (nodes s) * node_size ≤ IPC_MAX_SIZE → Z.of_nat (nodes s') * node_size ≤ IPC_MAX_SIZE.
Proof.
  intros Hfit Hs Hle. assert (0 < node_size) as Hpos by done.
  assert (∀ n q q', s !! n = Some q → (queue_nodes q' ≤ queue_nodes q)%nat →
    Z.of_nat (nodes (<[n := q']> s)) * node_size ≤ IPC_MAX_SIZE) as Hless.
  { intros n q q' Hn Hq. pose proof (nodes_insert s n q q' Hn). nia. }
  assert (∀ n q q', s !! n = Some q → queue_nodes q' = S (queue_nodes q) → allocate s = true →
    Z.of_nat (nodes (<[n := q']> s)) * node_size ≤ IPC_MAX_SIZE) as Hmore.
  { intros n q q' Hn Hq Ha. pose proof (nodes_insert s n q q' Hn). apply Hfit in Ha. nia. }
  destruct Hs as [id s|id e s s' H|n e s s' H|n e s s' H|n it r s s' H|n q r q' s Hn H].
  - unfold make_client. destruct (s !! to_string id) eqn:E; [done|]. rewrite nodes_insert_new by done. done.
  - unfold enqueue in H. destruct (s !! to_string id) as [q|] eqn:E; [|done].
    destruct (allocate s) eqn:Ha; simplify_eq. eapply Hmore; [done| |done].
    unfold queue_nodes. simpl. rewrite length_app. simpl. lia.
  - unfold pop_front in H. destruct (s !! n) as [[st [|x pe] pr t]|] eqn:E; simplify_eq.
    eapply Hless; [done|]. unfold queue_nodes. simpl. lia.
  - unfold push_progress in H. destruct (s !! n) as [[st pe pr t]|] eqn:E; [|done].
    destruct (allocate s) eqn:Ha; simplify_eq. eapply Hmore; [done| |done].
    unfold queue_nodes. simpl. rewrite length_app. simpl. lia.
  - unfold set_completion in H. destruct (s !! n) as [q|] eqn:E; [|done].
    destruct (ipc_queue.set_completion it r q) as [[x q']|] eqn:Hc; simplify_eq.
    eapply Hless; [done|]. apply queue_nodes_completion in Hc. lia.
  - apply wait_completion_spec in H as (Hp & Hg & _ & Hp' & Hg' & _).
    eapply Hless; [done|]. unfold queue_nodes. by rewrite Hp, Hg, Hp', Hg'.
Qed.

(** The segment holds 245 commands.  Whatever the processes do, in any order,
    and however the allocator works, all queues together never have more than 245
    commands pending or in progress; an enqueue that finds no memory throws and
    leaves the queue as it is. *)
Theorem ipc_capacity (allocate : segment_t → bool) (s : segment_t) :
  fits allocate → rtc (step allocate) make_backend s →
  (nodes s ≤ 245)%nat ∧
  ∀ id e q, s !! to_string id = Some q → (nodes s = 245)%nat → enqueue allocate id e s = Raise bad_alloc.
Proof.
  intros Hfit Hr. assert (Z.of_nat (nodes s) * node_size ≤ IPC_MAX_SIZE) as Hle.
  { assert (Z.of_nat (nodes make_backend) * node_size ≤ IPC_MAX_SIZE) as H0 by (vm_compute; discriminate).
    induction Hr; eauto using nodes_step. }
  change (Z.of_nat (nodes s) * 4264 ≤ 1048576) in Hle. split; [lia|].
  intros id e q Hq Hn. unfold enqueue. rewrite Hq. destruct (allocate s) eqn:Ha; [|done].
  apply Hfit in Ha. change ((Z.of_nat (nodes s) + 1) * 4264 ≤ 1048576) in Ha. lia.
Qed.

(** An allocator that wastes nothing. *)
Definition exact_allocator (s : segment_t) : bool := (Z.of_nat (nodes s) + 1) * node_size <=? IPC_MAX_SIZE.

Definition demo_cmd (id v : Z) : command_t.t :=
  {| unique_id := id; command := CHECKPOINT; version := v; offset := 0; name := "ck"; original := "" |}.

Lemma enqueue_many id n s q :
  s !! to_string id = Some q → (nodes s + n ≤ 245)%nat →
  ∃ s' q', rtc (step exact_allocator) s s' ∧ s' !! to_string id = Some q' ∧ nodes s' = (nodes s + n)%nat ∧
    ∀ k, k ≠ to_string id → s' !! k = s !! k.
Proof.
  revert s q. induction n as [|n IH]; intros s q Hq Hn.
  - exists s, q. split_and!; [done|done|lia|done].
  - set (s1 := <[to_string id := ipc_queue.enqueue (demo_cmd id 1) q]> s).
    assert (nodes s1 = S (nodes s)) as Hn1.
    { pose proof (nodes_insert s (to_string id) q (ipc_queue.enqueue (demo_cmd id 1) q) Hq) as H. fold s1 in H.
      unfold queue_nodes in H. simpl in H. rewrite length_app in H. simpl in H. lia. }
    destruct (IH s1 (ipc_queue.enqueue (demo_cmd id 1) q)) as (s' & q' & Hr & Hq' & Hs' & Hk); [|lia|].
    { apply lookup_insert_eq. }
    exists s', q'. split_and!; [|done|lia|intros k Hne; rewrite Hk by done; by apply lookup_insert_ne]. eapply rtc_l; [|exact Hr].
    apply (step_enqueue _ id (demo_cmd id 1)). unfold enqueue. rewrite Hq.
    unfold exact_allocator. change ((if (Z.of_nat (nodes s) + 1) * 4264 <=? 1048576 then Val s1 else Raise bad_alloc) = Val s1).
    by destruct (Z.leb_spec ((Z.of_nat (nodes s) + 1) * 4264) 1048576); [|lia].
Qed.

Lemma ipc_capacity_witness : ∃ s,
  rtc (step exact_allocator) make_backend s ∧ nodes s = 245%nat ∧
  enqueue exact_allocator 0 (demo_cmd 0 1) s = Raise bad_alloc.
Proof.
  destruct (enqueue_many 0 245 (make_client 0 make_backend) empty_queue) as (s & q & Hr & Hq & Hn & _);
    [vm_compute; reflexivity|vm_compute; lia|].
  assert (rtc (step exact_allocator) make_backend s) as Hs by (eapply rtc_l; [apply step_client|exact Hr]).
  assert (nodes s = 245%nat) as Hn' by (rewrite Hn; reflexivity).
  exists s. split; [exact Hs|]. split; [exact Hn'|].
  apply (ipc_capacity exact_allocator s) with (q := q); [|exact Hs|exact Hq|exact Hn'].
  intros s0 H. by apply Z.leb_le in H.
Defined.

(** ** A command that gets lost *)

(** [dequeue_any] frees the node of the element before it asks for another one.
    When the segment is full and a client enqueues in between, the second
    allocation fails.  The exception ends the backend; the element is in neither
    list any more, so that its client, once it waits, is told that all its
    commands have been executed. *)
Theorem ipc_dequeue_loses (idA idB : Z) (a b : command_t.t) (s : segment_t) (qA qB : client_queue_t command_t.t) :
  to_string idA ≠ to_string idB → s !! to_string idA = Some qA → s !! to_string idB = Some qB →
  pending qA = [a] → progress qA = [] → status qA = VELOC_SUCCESS → nodes s = 245%nat →
  ∃ s1 s2, pop_front (to_string idA) s = Val (a, s1) ∧ enqueue exact_allocator idB b s1 = Val s2 ∧
    push_progress exact_allocator (to_string idA) a s2 = Raise bad_alloc ∧
    ∃ q, s2 !! to_string idA = Some q ∧ wait_completion true q = Some (VELOC_SUCCESS, q).
Proof.
  intros Hne HA HB Hp Hg Hst Hn. destruct qA as [st pe pr t]. simpl in *. subst.
  set (s1 := <[to_string idA := mk_queue VELOC_SUCCESS [] [] t]> s).
  set (s2 := <[to_string idB := ipc_queue.enqueue b qB]> s1).
  pose proof (nodes_insert s _ _ (mk_queue VELOC_SUCCESS [] [] t) HA) as Hn1.
  assert (s1 !! to_string idB = Some qB) as HB1 by (unfold s1; by rewrite lookup_insert_ne).
  pose proof (nodes_insert s1 _ _ (ipc_queue.enqueue b qB) HB1) as Hn2. fold s1 in Hn1. fold s2 in Hn2.
  unfold queue_nodes in Hn1, Hn2. simpl in Hn1, Hn2. rewrite length_app in Hn2. simpl in Hn2.
  assert (s2 !! to_string idA = Some (mk_queue VELOC_SUCCESS [] [] t)) as HA2
    by (unfold s2, s1; rewrite lookup_insert_ne by done; apply lookup_insert_eq).
  assert (∀ k, exact_allocator k = ((Z.of_nat (nodes k) + 1) * 4264 <=? 1048576)) as Hex by done.
  exists s1, s2. split_and!.
  - unfold pop_front. by rewrite HA.
  - unfold enqueue. rewrite HB1, Hex. by destruct (Z.leb_spec ((Z.of_nat (nodes s1) + 1) * 4264) 1048576); [|lia].
  - unfold push_progress. rewrite HA2, Hex.
    by destruct (Z.leb_spec ((Z.of_nat (nodes s2) + 1) * 4264) 1048576); [lia|].
  - eexists. by split.
Qed.

Lemma ipc_dequeue_loses_witness : ∃ s s1 s2,
  rtc (step exact_allocator) make_backend s ∧ pop_front "0" s = Val (demo_cmd 0 7, s1) ∧
  enqueue exact_allocator 1 (demo_cmd 1 1) s1 = Val s2 ∧
  push_progress exact_allocator "0" (demo_cmd 0 7) s2 = Raise bad_alloc.
Proof.
  set (s0 := make_client 1 (make_client 0 make_backend)).
  destruct (enqueue exact_allocator 0 (demo_cmd 0 7) s0) as [s1'| | | |] eqn:E; [|vm_compute in E; discriminate E..].
  assert (s1' !! "1" = Some empty_queue ∧ s1' !! "0" = Some (mk_queue 0 [demo_cmd 0 7] [] 0) ∧ nodes s1' = 1%nat)
    as (HB & HA & Hn1) by (vm_compute in E; injection E as <-; vm_compute; auto).
  destruct (enqueue_many 1 244 s1' empty_queue) as (s & q & Hr & Hq & Hn & Hk); [exact HB|lia|].
  destruct (ipc_dequeue_loses 0 1 (demo_cmd 0 7) (demo_cmd 1 1) s (mk_queue 0 [demo_cmd 0 7] [] 0) q)
    as (s1 & s2 & H1 & H2 & H3 & _);
    [vm_compute; discriminate|by rewrite Hk by (vm_compute; discriminate)|exact Hq|reflexivity|reflexivity|reflexivity|lia|].
  exists s, s1, s2. split_and!; [|exact H1|exact H2|exact H3].
  eapply rtc_l; [apply (step_client _ 0)|]. eapply rtc_l; [apply (step_client _ 1)|].
  eapply rtc_l; [by eapply step_enqueue|exact Hr].
Defined.
