(* ===== verification/SocketQueue.v ===== *)
(** * SocketQueue: [src/common/socket_queue.hpp]

    The queue over a Unix socket.  A client writes its commands to the socket, a
    [STATUS] command when it waits, and reads one reply.  A thread of the backend
    reads the commands of all clients; all operations of the backend lock one
    mutex. *)

From S2P Require Import Prelude Text Command Queue IpcQueue.

Local Open Scope Z_scope.

Import command_t.

Record container_t := mk_container {
  q_status : Z;
  q_pending : list command_t.t;
  q_progress : list (nat * command_t.t);
  q_ticket : nat;
  waiting : bool;
  reset_status : bool
}.

Definition empty_container : container_t := mk_container VELOC_SUCCESS [] [] 0 false true.

Module socket_queue.

Definition MAX_CLIENTS : Z := 256.

(** *** The backend's operations on the queue of a client *)

(** The reply, when one is due; [write_ok]: the write to the socket succeeds. *)
Definition send_wait_reply (write_ok : bool) (q : container_t) : outcome (option Z * container_t) :=
  if q.(waiting) && is_empty q.(q_pending) && is_empty q.(q_progress) then
    let q' := mk_container (if q.(reset_status) then VELOC_SUCCESS else q.(q_status))
                q.(q_pending) q.(q_progress) q.(q_ticket) false q.(reset_status) in
    if write_ok then Val (Some q.(q_status), q') else FATAL
  else Val (None, q).

Definition set_completion (write_ok : bool) (it : nat) (s : Z) (q : container_t) :
    outcome (command_t.t * option Z * container_t) :=
  match erase it q.(q_progress) with
  | None => Undef
  | Some (e, rest) =>
      '(reply, q') ← send_wait_reply write_ok
        (mk_container (merge_status q.(q_status) s) q.(q_pending) rest q.(q_ticket) q.(waiting) q.(reset_status));
      Val (e, reply, q')
  end.

Definition enqueue (write_ok : bool) (e : command_t.t) (q : container_t) : outcome (option Z * container_t) :=
  if e.(command) =? STATUS then
    send_wait_reply write_ok
      (mk_container q.(q_status) q.(q_pending) q.(q_progress) q.(q_ticket) true (negb (e.(version) =? 0)))
  else Val (None, mk_container q.(q_status) (q.(q_pending) ++ [e]) q.(q_progress) q.(q_ticket)
                    q.(waiting) q.(reset_status)).

(** The end of [dequeue_any]. *)
Definition dequeue (q : container_t) : option (command_t.t * nat * container_t) :=
  match q.(q_pending) with
  | [] => None
  | e :: rest =>
      Some (e, q.(q_ticket), mk_container q.(q_status) rest (q.(q_progress) ++ [(q.(q_ticket), e)])
                               (S q.(q_ticket)) q.(waiting) q.(reset_status))
  end.

(** [find_non_empty_pending]: the order of [std::unordered_map] is unspecified,
    so any client with a pending command may be the one found. *)
Definition may_find (client_map : gmap Z container_t) (fd : Z) : Prop :=
  ∃ q, client_map !! fd = Some q ∧ q.(q_pending) ≠ [].

(** *** The client *)

(** The command that [wait_completion] sends. *)
Definition status_command (id : Z) (reset : bool) : command_t.t :=
  {| unique_id := id; command := STATUS; version := if reset then 1 else 0; offset := 0;
     name := ""; original := "" |}.

Definition check_completion : bool := false.

(** *** The connections *)

(** The descriptors [fds[0]], the listening one, to [fds[fds_size - 1]]; -1 marks
    a closed connection. *)
Fixpoint free_slot (fds : list Z) : nat :=
  match fds with
  | [] => 0
  | fd :: fds => if fd =? -1 then 0 else S (free_slot fds)
  end.

(** A new connection; the array has [MAX_CLIENTS] entries, and a write behind its
    end is undefined. *)
Definition accept_connection (client : Z) (fds : list Z) : outcome (list Z) :=
  let i := Z.of_nat (free_slot fds) in
  if MAX_CLIENTS <? i then FATAL
  else if MAX_CLIENTS <=? i then Undef
  else if i <? Z.of_nat (length fds) then Val (<[free_slot fds := client]> fds)
  else Val (fds ++ [client]).

(** What [poll] reports of a connection, and what [read] returns then: a command,
    or not all of one. *)
Definition handle_input (write_ok : bool) (input : option command_t.t) (i : nat) (fds : list Z)
    (client_map : gmap Z container_t) : outcome (list Z * option Z * gmap Z container_t) :=
  match fds !! i with
  | None => Undef
  | Some fd =>
      match input with
      | Some c =>
          '(reply, q) ← enqueue write_ok c (default empty_container (client_map !! fd));
          Val (fds, reply, <[fd := q]> client_map)
      | None => Val (<[i := -1]> fds, None, client_map)
      end
  end.

(** *** A client and its queue *)

(** The commands on their way to the backend, the queue, the reply on its way to
    the client, and whether the client is in [wait_completion]. *)
Record connection := mk_connection {
  channel : list command_t.t;
  container : container_t;
  reply : option Z;
  blocked : bool
}.

Definition connected : connection := mk_connection [] empty_container None false.

Inductive step (id : Z) : connection → option (label command_t.t) → connection → Prop :=
| client_enqueue ch q e :
    e.(command) ≠ STATUS →
    step id (mk_connection ch q None false) (Some (Enqueue e)) (mk_connection (ch ++ [e]) q None false)
| client_wait ch q :
    step id (mk_connection ch q None false) None (mk_connection (ch ++ [status_command id true]) q None true)
| client_return ch q r :
    step id (mk_connection ch q (Some r) true) (Some (Wait r)) (mk_connection ch q None false)
| backend_read e ch q q' b r :
    enqueue true e q = Val (r, q') →
    step id (mk_connection (e :: ch) q None b) None (mk_connection ch q' r b)
| backend_dequeue ch q r b e it q' :
    dequeue q = Some (e, it, q') →
    step id (mk_connection ch q r b) (Some (Deliver e)) (mk_connection ch q' r b)
| backend_complete ch q b it s e r q' :
    set_completion true it s q = Val (e, r, q') →
    step id (mk_connection ch q None b) (Some (Complete e s)) (mk_connection ch q' r b).

End socket_queue.

Import socket_queue.

(** ** Refinement *)

(** The phases of a wait: none, announced, waiting, answered. *)
Inductive phase (id : Z) (ss : list Z) : connection → Prop :=
| phase_idle ch q :
    Forall (λ e, e.(command) ≠ STATUS) ch → waiting q = false → q_status q = merge_all ss →
    phase id ss (mk_connection ch q None false)
| phase_announced ch q :
    Forall (λ e, e.(command) ≠ STATUS) ch → waiting q = false → q_status q = merge_all ss →
    phase id ss (mk_connection (ch ++ [status_command id true]) q None true)
| phase_waiting q :
    waiting q = true → reset_status q = true → q_status q = merge_all ss →
    q_pending q ≠ [] ∨ q_progress q ≠ [] →
    phase id ss (mk_connection [] q None true)
| phase_answered q :
    waiting q = false → q_status q = VELOC_SUCCESS → q_pending q = [] → q_progress q = [] →
    phase id ss (mk_connection [] q (Some (merge_all ss)) true).

Definition is_request (e : command_t.t) : bool := negb (e.(command) =? STATUS).

(** The connection [x] stands for [k]. *)
Definition connection_stands_for (id : Z) (x : connection) (k : contract command_t.t) : Prop :=
  phase id (statuses k) x ∧
  queued k = q_pending (container x) ++ List.filter is_request (channel x) ∧
  taken k ≡ₚ (q_progress (container x)).*2.

Lemma filter_requests ch : Forall (λ e, e.(command) ≠ STATUS) ch → List.filter is_request ch = ch.
Proof.
  induction 1 as [|e ch He _ IH]; [done|]. simpl. unfold is_request at 1.
  destruct (Z.eqb_spec (command e) STATUS); [done|]. simpl. by rewrite IH.
Qed.

Lemma filter_status ch id :
  Forall (λ e, e.(command) ≠ STATUS) ch → List.filter is_request (ch ++ [status_command id true]) = ch.
Proof. intros H. rewrite List.filter_app. by rewrite filter_requests, app_nil_r. Qed.

Lemma reply_not_waiting w q : waiting q = false → send_wait_reply w q = Val (None, q).
Proof. unfold send_wait_reply. by intros ->. Qed.

(** A waiting queue is answered as soon as it is empty. *)
Lemma reply_waiting id ss q r q' :
  waiting q = true → reset_status q = true → q_status q = merge_all ss →
  send_wait_reply true q = Val (r, q') →
  phase id ss (mk_connection [] q' r true) ∧ q_pending q' = q_pending q ∧ q_progress q' = q_progress q.
Proof.
  intros Hw Hr Hs. unfold send_wait_reply. rewrite Hw, Hr. simpl.
  destruct (is_empty (q_pending q)) eqn:Hp, (is_empty (q_progress q)) eqn:Hg; simpl; intros ?; simplify_eq;
    (split; [|done]); rewrite <-?Hs.
  - rewrite Hs. constructor; simpl; [done|done|by destruct (q_pending q)|by destruct (q_progress q)].
  - constructor; [done..|]. right. by destruct (q_progress q').
  - constructor; [done..|]. left. by destruct (q_pending q').
  - constructor; [done..|]. left. by destruct (q_pending q').
Qed.

Lemma enqueue_request w e q :
  e.(command) ≠ STATUS →
  enqueue w e q = Val (None, mk_container (q_status q) (q_pending q ++ [e]) (q_progress q) (q_ticket q)
                              (waiting q) (reset_status q)).
Proof. intros He. unfold enqueue. by destruct (Z.eqb_spec (command e) STATUS). Qed.

(** Reading a request moves it from the channel to the end of the pending ones. *)
Lemma read_request e (p ch : list command_t.t) :
  e.(command) ≠ STATUS → p ++ (if is_request e then e :: ch else ch) = (p ++ [e]) ++ ch.
Proof.
  intros He. unfold is_request. destruct (Z.eqb_spec (command e) STATUS); [done|].
  simpl. by rewrite <-app_assoc.
Qed.

Lemma silent_step id x y k :
  step id x None y → connection_stands_for id x k → connection_stands_for id y k.
Proof.
  intros Hs (Hph & Ho & Ht). remember None as l eqn:Hl.
  destruct Hs as [| ch q| |e ch q q' b r He|ch q r b e it q' Hd| ]; simplify_eq; simpl in *.
  - inversion Hph; subst. split; [by constructor|]. split; [|done]. simpl.
    by rewrite Ho, filter_status, filter_requests.
  - inversion Hph as [ch' q0 Hall Hw Hst|ch' q0 Hall Hw Hst| |]; subst.
    + apply Forall_cons in Hall as [Hne Hall]. rewrite enqueue_request in He by done. simplify_eq.
      split; [by constructor|]. split; [|done]. by rewrite Ho, read_request.
    + destruct ch' as [|e' ch']; simplify_eq/=.
      * unfold enqueue in He. simpl in He.
        apply (reply_waiting id (statuses k)) in He as (Hp & Hpe & Hpr); [|done..].
        split; [done|]. simpl in *. by rewrite Hpe, Hpr, Ho.
      * apply Forall_cons in Hall as [Hne Hall]. rewrite enqueue_request in He by done. simplify_eq.
        split; [by constructor|]. split; [|done]. by rewrite Ho, read_request.
Qed.

Lemma visible_step id x l y k :
  step id x (Some l) y → connection_stands_for id x k →
  ∃ k', contract_step k l k' ∧ connection_stands_for id y k'.
Proof.
  intros Hs (Hph & Ho & Ht). destruct k as [u t ss]. simpl in *. remember (Some l) as ol eqn:Hl.
  destruct Hs as [ch q e Hne| |ch q r| |ch q r b e it q' Hd|ch q b it s e r q' Hc]; simplify_eq; simpl in *.
  - inversion Hph as [? ? Hall| | |]; subst. eexists. split; [constructor|]. split_and!; simpl; [| |done].
    + constructor; [|done..]. apply Forall_app. auto.
    + by rewrite List.filter_app, (filter_requests [e]), app_assoc by auto.
  - inversion Hph as [| | |? Hw Hst Hp Hg]; subst. rewrite Hp in *. rewrite Hg in Ht.
    apply Permutation_nil_r in Ht as ->. eexists. split; [constructor|].
    split_and!; simpl; [by constructor|by rewrite Hp|by rewrite Hg].
  - unfold dequeue in Hd. destruct (q_pending q) as [|e' rest] eqn:Hp; simplify_eq.
    eexists. split; [constructor|]. split_and!; simpl; [|done|by rewrite Ht, fmap_app].
    inversion Hph; subst; try (by constructor); [|congruence].
    constructor; simpl; [done..|]. right. by destruct (q_progress q).
  - unfold set_completion in Hc. destruct (erase it (q_progress q)) as [[x rest]|] eqn:Her; [|done].
    apply erase_perm in Her.
    destruct (send_wait_reply true _) as [[r1 q1]| | | |] eqn:Hsend; simplify_eq/=.
    eexists (mk_contract _ rest.*2 (s :: ss)). split; [constructor; by rewrite Ht, Her|].
    assert (q_status q = merge_all ss → merge_status (q_status q) s = merge_all (s :: ss)) as Hm.
    { intros ->. simpl. apply merge_comm. }
    destruct (waiting q) eqn:Hw.
    + inversion Hph as [? ? ? ?|? ? ? ?|? ? Hrs Hst|]; subst; [congruence..|].
      rewrite (Hm Hst) in Hsend.
      apply (reply_waiting id (s :: ss)) in Hsend as (Hp' & Hpe & Hpr); [|done..].
      split; [done|]. simpl in *. by rewrite Hpe, Hpr.
    + rewrite reply_not_waiting in Hsend by done. simplify_eq. split; [|done].
      inversion Hph; subst; [| |congruence]; constructor; simpl; auto.
Qed.

Lemma connected_stands_for id : connection_stands_for id connected no_elements.
Proof. split; [|done]. by apply phase_idle. Qed.

Global Instance socket_refines (id : Z) : Refines (socket_queue.step id) connected := {|
  refines := connection_stands_for id;
  refines_start := connected_stands_for id;
  refines_silent := silent_step id;
  refines_visible := visible_step id
|}.

(** C17: the queue over a socket keeps the same contract, seen from the client:
    what it has written and what it reads, with the messages that are on their
    way in between; commands are delivered in the order in which they were
    written. *)
Theorem socket_refinement (id : Z) (tr : list (label command_t.t)) (r : Z) (x : connection) :
  execution (socket_queue.step id) connected (tr ++ [Wait r]) x →
  (∃ k, contract_run no_elements (tr ++ [Wait r]) k) ∧
  delivered tr `prefix_of` enqueued tr ∧ (r < 0 ↔ Exists (λ s, s < 0) (since_wait tr [])).
Proof. apply refinement_wait, socket_refines. Qed.

Definition demo_request : command_t.t :=
  {| unique_id := 3; command := CHECKPOINT; version := 1; offset := 0; name := "ck"; original := "" |}.

Lemma socket_refinement_witness :
  let tr := [Enqueue demo_request; Deliver demo_request; Complete demo_request (-1)] in
  ∃ x, execution (socket_queue.step 3) connected (tr ++ [Wait (-1)]) x ∧
    (-1 < 0 ↔ Exists (λ s, s < 0) (since_wait tr [])).
Proof.
  intros tr.
  set (q1 := mk_container 0 [demo_request] [] 0 false true).
  set (q2 := mk_container 0 [demo_request] [] 0 true true).
  set (q3 := mk_container 0 [] [(0%nat, demo_request)] 1 true true).
  set (q4 := mk_container 0 [] [] 1 false true).
  assert (execution (socket_queue.step 3) connected (tr ++ [Wait (-1)]) (mk_connection [] q4 None false)) as He.
  { eapply execution_visible; [apply client_enqueue; discriminate|].
    eapply execution_silent; [apply client_wait|].
    eapply execution_silent; [apply (backend_read 3 _ _ _ q1); reflexivity|].
    eapply execution_silent; [apply (backend_read 3 _ _ _ q2); reflexivity|].
    eapply execution_visible; [apply (backend_dequeue 3 _ q2 _ _ demo_request 0 q3); reflexivity|].
    eapply execution_visible; [apply (backend_complete 3 [] q3 true 0 (-1) demo_request (Some (-1)) q4);
      reflexivity|].
    eapply execution_visible; [apply client_return|]. apply execution_nil. }
  exists (mk_connection [] q4 None false). split; [exact He|]. apply (socket_refinement _ _ _ _ He).
Defined.

(** ** The table of connections *)

(** The table of connections overflows by one.  With [MAX_CLIENTS - 1]
    clients connected and none gone, the next one is not refused but stored
    behind the end of the array. *)
Theorem socket_overflow (fds : list Z) (client : Z) :
  Z.of_nat (length fds) = MAX_CLIENTS → Forall (λ fd, 0 ≤ fd) fds →
  accept_connection client fds = Undef.
Proof.
  intros Hlen Hall. assert (free_slot fds = length fds) as Hs.
  { clear Hlen. induction Hall as [|fd fds Hfd _ IH]; [done|]. simpl.
    destruct (Z.eqb_spec fd (-1)); [lia|]. by rewrite IH. }
  unfold accept_connection. rewrite Hs, Hlen. done.
Qed.

Lemma socket_overflow_witness :
  accept_connection 300 (seqZ 3 256) = Undef ∧ accept_connection 300 (seqZ 3 255) = Val (seqZ 3 255 ++ [300]).
Proof.
  split; [|vm_compute; reflexivity]. apply socket_overflow; [reflexivity|].
  apply Forall_forall. intros x Hx. apply elem_of_seqZ in Hx. lia.
Defined.
