(* ===== verification/SocketServer.v ===== *)
(** * SocketServer: the sockets of [src/common/socket_queue.hpp]

    The path of the socket, the constructors of both sides, the calls of the client
    with their system calls, and the thread of the backend that polls the
    connections.  What a system call returns is an argument.  The effect of the
    commands on the queues, and the contract that both sides keep, are in
    [SocketQueue]. *)

From S2P Require Import Prelude Text Command FileUtil Queue IpcQueue SocketQueue IpcSegment.

Local Open Scope Z_scope.

Import command_t socket_queue.

(** ** The path *)

Definition HOST_NAME_MAX : Z := 64.

(** [gethostname] into an array of [HOST_NAME_MAX] zeros, read as a C string: a
    longer name fills the array and leaves no null byte. *)
Definition host_string (host_name : string) : outcome string :=
  if Z.of_nat (String.length host_name) <? HOST_NAME_MAX then Val host_name else Undef.

Definition CHANNEL (host_name : string) (uid : Z) : outcome string :=
  host ← host_string host_name;
  Val ("/dev/shm/veloc-socket-" +:+ unique_suffix host uid).

(** [strcpy(addr.sun_path, CHANNEL.c_str())]; [sun_path] has 108 bytes. *)
Definition sockaddr (channel : string) : outcome string :=
  if Z.of_nat (String.length channel) + 1 <=? 108 then Val channel else Undef.

(** ** The client *)

Section client.
Variables (host_name : string) (uid id : Z).

(** The constructor, with the results of [socket] and [connect]. *)
Definition make_client (socket : Z) (connect : bool) : outcome Z :=
  channel ← CHANNEL host_name uid;
  if socket =? -1 then FATAL else
  sockaddr channel ≫= λ _,
  if negb connect then FATAL else Val socket.

(** [write] returns the number of bytes written; [read] the bytes of a reply, as
    many as have come. *)
Definition wait_completion (write : Z) (read : Z * Z) : outcome Z :=
  if negb (write =? ipc_segment.sizeof_command) then FATAL else
  if negb (read.1 =? 4) then FATAL else Val read.2.

Definition client_enqueue (write : Z) : outcome unit :=
  if negb (write =? ipc_segment.sizeof_command) then FATAL else Val tt.

End client.

(** ** The backend *)

(** The descriptors that are polled and the queues by their descriptors. *)
Record server_t := mk_server {
  fds : list Z;
  client_map : gmap Z container_t
}.

(** The constructor up to the start of the thread, whose first entry is the
    listening socket. *)
Definition make_server (host_name : string) (uid socket : Z) (bind listen : bool) : outcome server_t :=
  channel ← CHANNEL host_name uid;
  if socket =? -1 then FATAL else
  sockaddr channel ≫= λ _,
  if negb bind then FATAL else
  if negb listen then FATAL else Val (mk_server [socket] ∅).

(** What a round meets: whether [poll] succeeds; for an entry with [POLLIN] the
    command that [read] delivers, or not all of one; whether a reply to an entry can
    be written; for the listening socket the result of [accept]. *)
Record round_t := mk_round {
  polled : bool;
  ready : nat → option (option command_t.t);
  written : nat → bool;
  listening : option Z
}.

(** The loop over the connections, [n] entries from [i] on; the replies that are
    written to the descriptors. *)
Fixpoint poll_clients (r : round_t) (n i : nat) (s : server_t) : outcome (list (Z * Z) * server_t) :=
  match n with
  | O => Val ([], s)
  | S n =>
      match r.(ready) i with
      | None => poll_clients r n (S i) s
      | Some input =>
          '(fds', reply, m) ← handle_input (r.(written) i) input i s.(fds) s.(client_map);
          '(replies, s') ← poll_clients r n (S i) (mk_server fds' m);
          Val (match reply with Some x => (default (-1) (s.(fds) !! i), x) :: replies | None => replies end, s')
      end
  end.

Definition accept_client (r : round_t) (s : server_t) : outcome server_t :=
  match r.(listening) with
  | None => Val s
  | Some client =>
      if client =? -1 then FATAL else
      fds' ← accept_connection client s.(fds);
      Val (mk_server fds' s.(client_map))
  end.

(** An iteration of [handle_connections]. *)
Definition handle_connections (r : round_t) (s : server_t) : outcome (list (Z * Z) * server_t) :=
  if negb r.(polled) then FATAL else
  '(replies, s') ← poll_clients r (length s.(fds) - 1) 1 s;
  s'' ← accept_client r s';
  Val (replies, s'').

(** ** The path fits *)

Lemma pretty_N_go_length k x s :
  (x < 10 ^ N.of_nat k)%N → (String.length (pretty_N_go x s) ≤ k + String.length s)%nat.
Proof.
  revert x s. induction k as [|k IH]; intros x s Hx.
  - assert (x = 0)%N as -> by (simpl in Hx; lia). by rewrite pretty_N_go_0.
  - destruct (decide (x = 0)%N) as [->|Hne]; [rewrite pretty_N_go_0; lia|].
    rewrite pretty_N_go_step by lia. etrans; [apply IH|simpl; lia].
    apply N.Div0.div_lt_upper_bound. rewrite Nat2N.inj_succ, N.pow_succ_r' in Hx. lia.
Qed.

Lemma to_string_length n : 0 ≤ n < 2 ^ 32 → (String.length (to_string n) ≤ 10)%nat.
Proof.
  intros Hn. unfold to_string. destruct n as [|p|p]; [vm_compute; lia| |lia].
  change (pretty (Z.pos p)) with (pretty (N.pos p)). unfold pretty, pretty_N. rewrite decide_False by done.
  etrans; [apply (pretty_N_go_length 10)|simpl; lia]. simpl. lia.
Qed.

(** C38: the path of the socket fits into its address.  For every host name that
    [gethostname] can store with its null byte and every user, the constructors of
    both sides copy the path within the bounds of [sun_path]: their behaviour is
    defined, whatever the system calls return. *)
Theorem socket_path_fits (host_name : string) (uid socket : Z) (ok1 ok2 : bool) :
  Z.of_nat (String.length host_name) < HOST_NAME_MAX → 0 ≤ uid < 2 ^ 32 →
  make_client host_name uid socket ok1 ≠ Undef ∧ make_server host_name uid socket ok1 ok2 ≠ Undef ∧
  (socket ≠ -1 → make_client host_name uid socket true = Val socket).
Proof.
  intros Hh Hu. assert (∃ c, CHANNEL host_name uid = Val c ∧ sockaddr c = Val c) as (c & Hc & Hs).
  { unfold CHANNEL, host_string. destruct (Z.ltb_spec (Z.of_nat (String.length host_name)) HOST_NAME_MAX); [|lia].
    eexists. split; [done|]. unfold sockaddr, unique_suffix. rewrite !length_sapp. simpl (String.length _).
    pose proof (to_string_length uid Hu). unfold HOST_NAME_MAX in *.
    by destruct (Z.leb_spec (Z.of_nat (22 + (String.length host_name + (1 + String.length (to_string uid)))) + 1) 108);
      [|lia]. }
  unfold make_client, make_server. rewrite Hc. simpl. rewrite Hs. simpl.
  split_and!; [by destruct (socket =? -1), ok1|by destruct (socket =? -1), ok1, ok2|].
  intros Hne. by rewrite (proj2 (Z.eqb_neq _ _) Hne).
Qed.

Lemma socket_path_fits_witness :
  make_client "login1.cluster.example.org" 4294967295 3 true = Val 3.
Proof. by apply (socket_path_fits "login1.cluster.example.org" 4294967295 3 true true). Defined.

(** A host name of the greatest length that the system allows leaves no room for
    the null byte. *)
Lemma host_name_overread (host_name : string) uid :
  Z.of_nat (String.length host_name) = HOST_NAME_MAX → CHANNEL host_name uid = Undef.
Proof. intros Hh. unfold CHANNEL, host_string. by rewrite Hh. Qed.

(** ** The table of connections stays within its bounds *)

Definition is_open (fd : Z) : bool := negb (fd =? -1).
Definition open_connections (s : server_t) : nat := length (List.filter is_open (tail s.(fds))).

(** There are never more clients than the table has room for. *)
Definition room (r : round_t) (s : server_t) : Prop :=
  ∀ c, r.(listening) = Some c → c = -1 ∨ (0 ≤ c ∧ Z.of_nat (open_connections s) < MAX_CLIENTS - 1).

(** The system calls that fail: [poll], [accept], or the [write] of the reply to a
    client that asks for the status. *)
Definition fails (r : round_t) (s : server_t) : Prop :=
  r.(polled) = false ∨ r.(listening) = Some (-1) ∨
  ∃ i c, (0 < i < length s.(fds))%nat ∧ r.(ready) i = Some (Some c) ∧ c.(command) = STATUS ∧
    r.(written) i = false.

(** The states of the thread.  Between its rounds the main loop and the tasks work
    on the queues. *)
Inductive serving : server_t → Prop :=
| serving_start host uid socket s :
    make_server host uid socket true true = Val s → serving s
| serving_round r s replies s' :
    serving s → room r s → handle_connections r s = Val (replies, s') → serving s'
| serving_backend s m : serving s → serving (mk_server s.(fds) m).

Record server_inv (s : server_t) : Prop := {
  inv_head : ∃ l rest, s.(fds) = l :: rest ∧ is_open l = true;
  inv_size : Z.of_nat (length s.(fds)) ≤ MAX_CLIENTS
}.

Lemma enqueue_cases w e q :
  (∃ reply q', enqueue w e q = Val (reply, q')) ∨
  (enqueue w e q = FATAL ∧ e.(command) = STATUS ∧ w = false).
Proof.
  unfold enqueue, send_wait_reply. destruct (Z.eqb_spec (command e) STATUS); [|by eauto].
  destruct (_ && _); [destruct w; [by eauto|by right]|by eauto].
Qed.

Lemma handle_input_cases w input i s :
  (i < length (fds s))%nat →
  (∃ fds' reply m, handle_input w input i (fds s) (client_map s) = Val (fds', reply, m) ∧
    (fds' = fds s ∨ fds' = <[i := -1]> (fds s))) ∨
  (handle_input w input i (fds s) (client_map s) = FATAL ∧
    ∃ c, input = Some c ∧ c.(command) = STATUS ∧ w = false).
Proof.
  intros Hi. apply lookup_lt_is_Some in Hi as [fd Hfd]. unfold handle_input. rewrite Hfd.
  destruct input as [c|]; [|by eauto 10].
  destruct (enqueue_cases w c (default empty_container (client_map s !! fd))) as [(reply & q & ->)|(-> & ? & ?)];
    simpl; eauto 10.
Qed.

(** Closing a connection does not add any. *)
Lemma filter_close l i : (length (List.filter is_open (<[i := (-1)%Z]> l)) ≤ length (List.filter is_open l))%nat.
Proof.
  revert i. induction l as [|x l IH]; intros [|i]; simpl; try lia.
  - destruct (is_open x); simpl; lia.
  - specialize (IH i). destruct (is_open x); simpl; lia.
Qed.

Lemma poll_clients_cases r n i s :
  (i + n ≤ length (fds s))%nat → (0 < i)%nat →
  (∃ replies s', poll_clients r n i s = Val (replies, s') ∧ length (fds s') = length (fds s) ∧
    head (fds s') = head (fds s) ∧ (open_connections s' ≤ open_connections s)%nat) ∨
  (poll_clients r n i s = FATAL ∧ fails r s).
Proof.
  revert i s. induction n as [|n IH]; intros i s Hn Hi; simpl; [left; by eauto 10|].
  destruct (ready r i) as [input|] eqn:Hready; [|apply IH; lia].
  destruct (handle_input_cases (written r i) input i s ltac:(lia))
    as [(fds' & reply & m & Hrun & Hfds)|(Hrun & c & -> & Hc & Hw)]; rewrite Hrun; simpl.
  2:{ right. split; [done|]. right. right. exists i, c. split; [lia|done]. }
  assert (length fds' = length (fds s) ∧ head fds' = head (fds s) ∧
    (open_connections (mk_server fds' m) ≤ open_connections s)%nat) as (Hlen & Hhd & Hop).
  { destruct Hfds as [->| ->]; [by destruct s|]. rewrite length_insert. unfold open_connections. simpl.
    destruct (fds s) as [|x l]; [done|]. destruct i as [|i]; [lia|]. simpl.
    split_and!; [done|done|apply filter_close]. }
  destruct (IH (S i) (mk_server fds' m)) as [(replies & s' & Hp & Hl & Hh & Ho)|(Hp & Hf)]; [simpl; lia|lia|..];
    rewrite Hp; simpl in *.
  - left. eexists _, s'. split; [done|]. split_and!; [lia|congruence|lia].
  - right. split; [done|]. unfold fails in *. simpl in Hf. by rewrite Hlen in Hf.
Qed.

Lemma free_slot_le l : (free_slot l ≤ length l)%nat.
Proof. induction l as [|x l IH]; simpl; [done|]. destruct (x =? -1); lia. Qed.

Lemma free_slot_full l : (length (List.filter is_open l) < length l)%nat → (free_slot l < length l)%nat.
Proof.
  induction l as [|x l IH]; simpl; [lia|]. unfold is_open at 1. destruct (x =? -1); simpl; lia.
Qed.

Lemma accept_connection_total c s :
  server_inv s → 0 ≤ c → Z.of_nat (open_connections s) < MAX_CLIENTS - 1 →
  ∃ fds', accept_connection c (fds s) = Val fds' ∧ Z.of_nat (length fds') ≤ MAX_CLIENTS ∧ c ∈ fds' ∧
    ∃ l rest, fds' = l :: rest ∧ is_open l = true.
Proof.
  intros [(l & rest & Hfds & Hl) Hsz] Hc Hop. unfold open_connections in Hop. rewrite Hfds in *. simpl in Hop, Hsz.
  assert (Z.of_nat (free_slot (l :: rest)) < MAX_CLIENTS) as Hslot.
  { pose proof (free_slot_le (l :: rest)). simpl length in *. unfold MAX_CLIENTS in *.
    destruct (decide (length rest = 255%nat)) as [Hr|]; [|lia].
    assert (free_slot (l :: rest) < length (l :: rest))%nat as Hlt; [|rewrite length_cons in Hlt; lia].
    apply free_slot_full. simpl. rewrite Hl. simpl. lia. }
  assert (free_slot (l :: rest) ≠ 0%nat) as Hpos.
  { simpl. unfold is_open in Hl. by destruct (l =? -1). }
  unfold accept_connection. destruct (Z.ltb_spec MAX_CLIENTS (Z.of_nat (free_slot (l :: rest)))); [lia|].
  destruct (Z.leb_spec MAX_CLIENTS (Z.of_nat (free_slot (l :: rest)))); [lia|].
  destruct (Z.ltb_spec (Z.of_nat (free_slot (l :: rest))) (Z.of_nat (length (l :: rest)))) as [Hlt|Hge].
  - eexists. split; [done|]. rewrite length_insert. split_and!; [done| |].
    + apply list_elem_of_lookup. exists (free_slot (l :: rest)). apply list_lookup_insert_eq. lia.
    + destruct (free_slot (l :: rest)) as [|k]; [done|]. simpl. eauto.
  - eexists. split; [done|]. rewrite length_app. simpl length in *.
    pose proof (free_slot_le (l :: rest)). simpl length in *. split_and!; [lia| |simpl; eauto].
    apply elem_of_app. right. by left.
Qed.

Lemma round_cases r s :
  server_inv s → room r s →
  (handle_connections r s = FATAL ∧ fails r s) ∨
  ∃ replies s', handle_connections r s = Val (replies, s') ∧ server_inv s' ∧ polled r = true ∧
    ∀ c, listening r = Some c → c ≠ -1 ∧ c ∈ fds s'.
Proof.
  intros Hs Hr. pose proof Hs as [(l & rest & Hfds & Hl) Hsz]. unfold handle_connections.
  destruct (polled r) eqn:Hpoll; [simpl|left; split; [done|by left]].
  destruct (poll_clients_cases r (length (fds s) - 1) 1 s)
    as [(replies & s1 & Hp & Hlen & Hhd & Hop)|(Hp & Hf)]; [rewrite Hfds; simpl; lia|lia|..]; rewrite Hp; simpl;
    [|by left].
  assert (server_inv s1) as Hs1.
  { split; [|by rewrite Hlen]. rewrite Hfds in Hhd. destruct (fds s1) as [|x f]; simplify_eq/=. eauto. }
  unfold accept_client. destruct (listening r) as [c|] eqn:Hli; [|right; by eexists _, _].
  destruct (Z.eqb_spec c (-1)) as [->|Hne]; [left; split; [done|by right; left]|].
  destruct (Hr c Hli) as [?|[Hc Hroom]]; [done|]. right.
  destruct (accept_connection_total c s1 Hs1 Hc ltac:(lia)) as (fds' & Ha & Hsz' & Hin & Hhead).
  rewrite Ha. simpl. eexists _, _. split; [done|]. split; [by split|]. split; [done|]. by intros c' [= <-].
Qed.

Lemma serving_inv s : serving s → server_inv s.
Proof.
  induction 1 as [host uid socket s Hm|r s replies s' _ IH Hr Hrun|s m _ [H1 H2]]; [..|by split].
  - unfold make_server in Hm. destruct (CHANNEL host uid) as [c| | | |]; try done. simpl in Hm.
    destruct (Z.eqb_spec socket (-1)); [done|]. destruct (sockaddr c); simplify_eq/=.
    split; simpl; [|done]. eexists _, _. split; [done|]. unfold is_open. by rewrite (proj2 (Z.eqb_neq _ _)).
  - destruct (round_cases r s IH Hr) as [[Hrun' _]|(? & ? & Hrun' & Hinv & _)]; rewrite Hrun in Hrun'; by simplify_eq.
Qed.

(** C39: the server never leaves its table.  From its start on, whatever the
    clients send, however they come and go and whatever system calls fail, as long
    as no more than [MAX_CLIENTS - 1] are connected at the same time: a round is
    defined; the table has at most [MAX_CLIENTS] entries afterwards, and a new client
    is in it.  A round ends the backend only if [poll], [accept] or the write of a
    reply fails (then with a fatal message), and always when one of the first two
    does. *)
Theorem socket_server_bounded (r : round_t) (s : server_t) :
  serving s → room r s →
  (handle_connections r s = FATAL ∧ fails r s) ∨
  ∃ replies s', handle_connections r s = Val (replies, s') ∧
    Z.of_nat (length s'.(fds)) ≤ MAX_CLIENTS ∧ r.(polled) = true ∧
    ∀ c, r.(listening) = Some c → c ≠ -1 ∧ c ∈ s'.(fds).
Proof.
  intros Hs Hr. destruct (round_cases r s (serving_inv s Hs) Hr)
    as [?|(replies & s' & Hrun & [_ Hsz] & Hp & Hin)]; [by left|right]. eauto 10.
Qed.

Lemma socket_server_bounded_witness :
  let r := mk_round true (λ _, None) (λ _, true) (Some 7) in
  ∃ replies s', handle_connections r (mk_server [3] ∅) = Val (replies, s') ∧ 7 ∈ s'.(fds).
Proof.
  intros r. destruct (socket_server_bounded r (mk_server [3] ∅))
    as [[_ [H|[H|(i & c & _ & H & _)]]]|(replies & s' & Hrun & _ & _ & Hin)].
  - apply (serving_start "host" 0 3). reflexivity.
  - intros c [= <-]. right. split; [lia|]. vm_compute. reflexivity.
  - discriminate H.
  - discriminate H.
  - discriminate H.
  - exists replies, s'. split; [exact Hrun|]. by apply Hin.
Defined.

(** A client that asks for the status and is gone before the reply is written ends
    the backend, with all the other clients. *)
Theorem socket_client_ends_backend (r : round_t) (s : server_t) (fd id : Z) (reset : bool) (rest : list Z) :
  s.(fds) = (default 0 (head s.(fds))) :: fd :: rest → r.(polled) = true →
  r.(ready) 1%nat = Some (Some (status_command id reset)) → r.(written) 1%nat = false →
  s.(client_map) !! fd = None → handle_connections r s = FATAL.
Proof.
  intros Hfds Hp Hready Hw Hm. unfold handle_connections. rewrite Hp, Hfds. simpl. rewrite Hready, Hw.
  unfold handle_input. rewrite Hfds. simpl. by rewrite Hm.
Qed.
