(* ===== verification/ThalliumQueue.v ===== *)
(** * ThalliumQueue: [src/common/thallium_queue.hpp]

    The queue over Thallium remote procedure calls.  A waiting client polls the
    backend; the address of the backend is passed through a file.  The calls
    themselves are Thallium's. *)

From S2P Require Import Prelude Text Command FileSystem FileUtil Storage Queue IpcQueue.

Local Open Scope Z_scope.

(** ** C strings *)

(** The text that a [char *] denotes: up to the first null byte; without one the
    reader runs behind the buffer. *)
Fixpoint c_string (buff : list byte) : outcome (list byte) :=
  match buff with
  | [] => Undef
  | b :: buff => if decide (b = Byte.x00) then Val [] else (λ s, b :: s) <$> c_string buff
  end.

Module thallium_queue.

(** *** The channel file *)

(** The part of [start_engine] that publishes the address [url]. *)
Definition publish (CHANNEL : string) (url : list byte) : posix unit :=
  ok ← write_file CHANNEL url;
  if (ok : bool) then mret tt else stop FATAL.

(** The constructor of [comm_client_t], up to the lookup: the address that it
    looks up. *)
Definition make (CHANNEL : string) : posix (list byte) :=
  csize ← file_size CHANNEL;
  if csize =? -1 then stop FATAL else
  buff ← read_file CHANNEL csize;
  match buff with
  | None => stop FATAL
  | Some buff => stop (c_string buff)
  end.

Section queue.
Context {T : Type}.
Abbreviation queue := (client_queue_t T).

(** *** The backend *)

(** The handler of [enqueue], up to the notification. *)
Definition enqueue_rpc (e : T) (q : queue) : queue :=
  mk_queue q.(status) (q.(pending) ++ [e]) q.(progress) q.(next_ticket).

(** The handler of [poll]: the number of outstanding elements and the status; an
    [int] holds the number. *)
Definition poll_rpc (reset_status : bool) (q : queue) : (Z * Z) * queue :=
  ((i32 (Z.of_nat (length q.(pending) + length q.(progress))), q.(status)),
   if reset_status then mk_queue VELOC_SUCCESS q.(pending) q.(progress) q.(next_ticket) else q).

Definition dequeue (q : queue) : option (T * nat * queue) :=
  match q.(pending) with
  | [] => None
  | e :: rest =>
      Some (e, q.(next_ticket),
            mk_queue q.(status) rest (q.(progress) ++ [(q.(next_ticket), e)]) (S q.(next_ticket)))
  end.

Definition set_completion (it : nat) (s : Z) (q : queue) : option (T * queue) :=
  '(e, rest) ← erase it q.(progress);
  Some (e, mk_queue (merge_status q.(status) s) q.(pending) rest q.(next_ticket)).

(** *** The client *)

(** One round of [wait_completion]: the result, or another round later. *)
Definition wait_round (reset_status : bool) (q : queue) : option Z * queue :=
  let '(reply, q') := poll_rpc reset_status q in
  (if reply.1 =? 0 then Some reply.2 else None, q').

Definition check_completion : bool := false.

Inductive step : queue → option (label T) → queue → Prop :=
| step_enqueue q e : step q (Some (Enqueue e)) (enqueue_rpc e q)
| step_dequeue q e it q' : dequeue q = Some (e, it, q') → step q (Some (Deliver e)) q'
| step_complete q it s e q' :
    set_completion it s q = Some (e, q') → step q (Some (Complete e s)) q'
| step_poll q q' : wait_round true q = (None, q') → step q None q'
| step_wait q r q' : wait_round true q = (Some r, q') → step q (Some (Wait r)) q'.

End queue.
End thallium_queue.

Import thallium_queue.

(** ** The status of a wait *)

(** The queue over Thallium does not keep the contract: the poll of a wait
    resets the status although elements are outstanding.  Of two elements the
    first fails, the client polls, the second succeeds, and the wait returns
    success; no run of the contract does that. *)
Theorem thallium_loses_failure :
  ∃ (tr : list (label nat)) (q : client_queue_t nat),
    execution thallium_queue.step empty_queue (tr ++ [Wait VELOC_SUCCESS]) q ∧
    Exists (λ s, s < 0) (since_wait tr []) ∧
    ¬ ∃ k, contract_run no_elements (tr ++ [Wait VELOC_SUCCESS]) k.
Proof.
  set (q1 := mk_queue 0 [1%nat; 2%nat] ([] : list (nat * nat)) 0).
  set (q2 := mk_queue 0 [2%nat] [(0%nat, 1%nat)] 1).
  set (q3 := mk_queue (-1) [2%nat] ([] : list (nat * nat)) 1).
  set (q4 := mk_queue 0 [2%nat] ([] : list (nat * nat)) 1).
  set (q5 := mk_queue 0 [] [(1%nat, 2%nat)] 2).
  set (q6 := mk_queue 0 [] ([] : list (nat * nat)) 2).
  exists [Enqueue 1%nat; Enqueue 2%nat; Deliver 1%nat; Complete 1%nat VELOC_FAILURE; Deliver 2%nat;
    Complete 2%nat VELOC_SUCCESS], q6.
  split_and!.
  - eapply execution_visible; [apply (step_enqueue _ 1%nat)|].
    eapply execution_visible; [apply (step_enqueue _ 2%nat)|].
    eapply execution_visible; [by apply (step_dequeue q1 1%nat 0%nat q2)|].
    eapply execution_visible; [by apply (step_complete q2 0%nat (-1) 1%nat q3)|].
    eapply execution_silent; [by apply (step_poll q3 q4)|].
    eapply execution_visible; [by apply (step_dequeue q4 2%nat 1%nat q5)|].
    eapply execution_visible; [by apply (step_complete q5 1%nat 0 2%nat q6)|].
    eapply execution_visible; [by apply (step_wait q6 0 q6)|]. constructor.
  - apply Exists_exists. exists VELOC_FAILURE. split; [simpl; right; left|done].
  - intros [k Hk%wait_verdict]. destruct Hk as [_ Hk]. unfold VELOC_SUCCESS in Hk.
    enough (0 < 0) by lia. apply Hk, Exists_exists.
    exists VELOC_FAILURE. split; [simpl; right; left|done].
Qed.

(** ** The channel *)

Lemma c_string_no_null l : Byte.x00 ∉ l → c_string l = Undef.
Proof.
  induction l as [|b l IH]; [done|]. intros Hn. simpl. rewrite decide_False by set_solver.
  rewrite IH by set_solver. done.
Qed.

(** The address of the backend is written without the null byte that ends
    it, and the client reads it into a buffer of the same size: the lookup reads
    behind the buffer, for every address. *)
Theorem thallium_channel_overread (CHANNEL : string) (url : list byte) (f : gmap string node) (s' : sys) :
  Byte.x00 ∉ url → zlen url ≤ LONG_MAX → no_link f CHANNEL →
  publish CHANNEL url (mk_sys f []) = (Val tt, s') →
  (make CHANNEL (mk_sys (files s') [])).1 = Undef.
Proof.
  intros Hn HL Hl H. unfold publish in H. apply comp_bind_inv in H as (ok & s1 & Hw & H).
  destruct ok; [|done]. unfold mret, comp_ret in H. simplify_eq.
  apply write_file_true in Hw as (q & Hq & ->). rewrite resolve_file in Hq by done. simplify_eq.
  set (f' := <[q := Reg url]> f).
  assert (lookup_path f' q = Some (q, Reg url)) as Hlk by (apply lookup_path_reg, lookup_insert_eq).
  unfold make, file_size. rewrite comp_bind_unfold.
  rewrite (comp_bind_val _ _ _ _ _ (stat_size_free _ _ _ _ Hlk)). unfold mret, comp_ret.
  pose proof (zlen_nonneg url). destruct (Z.eqb_spec (zlen url) (-1)); [lia|].
  rewrite (comp_bind_val _ _ _ _ _ (read_file_free q (zlen url) f' q url ltac:(lia) Hlk)). cbn iota.
  rewrite ztake_all by done. unfold stop. simpl. by apply c_string_no_null.
Qed.

Lemma thallium_channel_overread_witness :
  let f := <["/dev/shm" := Dir]> ∅ in
  let s' := mk_sys (<["/dev/shm/c" := Reg [Byte.x6e; Byte.x61]]> f) [] in
  (make "/dev/shm/c" (mk_sys (files s') [])).1 = Undef.
Proof.
  intros f s'. apply (thallium_channel_overread "/dev/shm/c" [Byte.x6e; Byte.x61] f s').
  - intros H. repeat (apply elem_of_cons in H as [H|H]; [discriminate H|]). by apply elem_of_nil in H.
  - vm_compute. discriminate.
  - intros t. vm_compute. discriminate.
  - vm_compute. reflexivity.
Defined.
