(* ===== verification/ThalliumServer.v ===== *)
(** * ThalliumServer: the backend's end of [src/common/thallium_queue.hpp]

    The queues of all clients behind the remote procedures, with the calls of the
    clients and the main loop of the backend in any interleaving.  A remote
    procedure call is one step: Thallium runs its handler, which holds
    [map_mutex].  [ThalliumQueue] shows that a wait over this queue can miss a
    failure; here is what it does promise. *)

From S2P Require Import Prelude Text Command FileSystem FileUtil Queue IpcQueue ThalliumQueue.

Local Open Scope Z_scope.

Import command_t thallium_queue.

(** [client_map]. *)
Abbreviation server_t := (gmap Z (client_queue_t command_t.t)).

Module thallium_server.

(** [client_map[id]], which makes a queue where there is none. *)
Definition queue_of (id : Z) (m : server_t) : client_queue_t command_t.t := default empty_queue (m !! id).

(** *** The handlers of the remote procedures *)

Definition enqueue (e : command_t.t) (m : server_t) : server_t :=
  <[e.(unique_id) := enqueue_rpc e (queue_of e.(unique_id) m)]> m.

Definition poll (id : Z) (reset_status : bool) (m : server_t) : (Z * Z) * server_t :=
  let '(reply, q) := poll_rpc reset_status (queue_of id m) in (reply, <[id := q]> m).

(** *** The main loop *)

(** The order of an [unordered_map] is not specified: any client with a pending
    element may be found. *)
Definition find_non_empty_pending (m : server_t) (id : Z) : Prop :=
  ∃ q, m !! id = Some q ∧ q.(pending) ≠ [].

Definition dequeue_any (id : Z) (m : server_t) : option (command_t.t * nat * server_t) :=
  q ← m !! id;
  '(e, it, q') ← thallium_queue.dequeue q;
  Some (e, it, <[id := q']> m).

Definition set_completion (id : Z) (it : nat) (s : Z) (m : server_t) : option (command_t.t * server_t) :=
  q ← m !! id;
  '(e, q') ← thallium_queue.set_completion it s q;
  Some (e, <[id := q']> m).

(** *** All together *)

(** What happens at the queue of a client: a command comes in, it is taken up, it
    is completed; a poll of a wait that goes on, and one that ends it. *)
Inductive event :=
| Enqueued (e : command_t.t)
| Dequeued (e : command_t.t)
| Completed (e : command_t.t) (s : Z)
| Polled
| Waited (r : Z).

Inductive step (m : server_t) : Z * event → server_t → Prop :=
| step_enqueue e : step m (e.(unique_id), Enqueued e) (enqueue e m)
| step_dequeue id e it m' :
    find_non_empty_pending m id → dequeue_any id m = Some (e, it, m') → step m (id, Dequeued e) m'
| step_complete id it s e m' : set_completion id it s m = Some (e, m') → step m (id, Completed e s) m'
| step_poll id n s m' : poll id true m = ((n, s), m') → n ≠ 0 → step m (id, Polled) m'
| step_wait id r m' : poll id true m = ((0, r), m') → step m (id, Waited r) m'.

(** Runs from the start of the backend, the latest event last. *)
Inductive run : list (Z * event) → server_t → Prop :=
| run_start : run [] ∅
| run_step tr m l m' : run tr m → step m l m' → run (tr ++ [l]) m'.

End thallium_server.

Import thallium_server.

(** ** What a wait promises *)

(** The commands of a client that came in and that are completed. *)
Definition entered (id : Z) (l : Z * event) : list command_t.t :=
  match l with (i, Enqueued e) => if decide (i = id) then [e] else [] | _ => [] end.
Definition completed (id : Z) (l : Z * event) : list command_t.t :=
  match l with (i, Completed e _) => if decide (i = id) then [e] else [] | _ => [] end.

(** The statuses since the last poll, whether it ended a wait or not. *)
Definition unreported_step (id : Z) (acc : list Z) (l : Z * event) : list Z :=
  if decide (l.1 = id) then
    match l.2 with Completed _ s => s :: acc | Polled | Waited _ => [] | _ => acc end
  else acc.
Definition unreported (id : Z) (tr : list (Z * event)) : list Z := foldl (unreported_step id) [] tr.

Record queue_state (id : Z) (tr : list (Z * event)) (q : client_queue_t command_t.t) : Prop := {
  qs_status : status q = merge_all (unreported id tr);
  qs_commands : tr ≫= entered id ≡ₚ (tr ≫= completed id) ++ pending q ++ (progress q).*2
}.

Lemma queue_of_insert id id' q m :
  queue_of id (<[id' := q]> m) = if decide (id' = id) then q else queue_of id m.
Proof.
  unfold queue_of. destruct (decide (id' = id)) as [->|]; [by rewrite lookup_insert_eq|by rewrite lookup_insert_ne].
Qed.

Lemma dequeue_perm {T} (q : client_queue_t T) e it q' :
  thallium_queue.dequeue q = Some (e, it, q') →
  status q' = status q ∧ pending q' ++ (progress q').*2 ≡ₚ pending q ++ (progress q).*2.
Proof.
  unfold thallium_queue.dequeue. destruct (pending q) as [|x rest]; intros; simplify_eq/=. split; [done|].
  rewrite fmap_app. simpl. solve_Permutation.
Qed.

Lemma completion_perm {T} (q : client_queue_t T) it s e q' :
  thallium_queue.set_completion it s q = Some (e, q') →
  status q' = merge_status (status q) s ∧ pending q ++ (progress q).*2 ≡ₚ e :: pending q' ++ (progress q').*2.
Proof.
  unfold thallium_queue.set_completion. destruct (erase it (progress q)) as [[x rest]|] eqn:He; [|done].
  simpl. intros. simplify_eq/=. apply erase_perm in He. split; [done|]. rewrite He. simpl. solve_Permutation.
Qed.

Lemma step_other_queue id m l m' : step m l m' → l.1 ≠ id → queue_of id m' = queue_of id m.
Proof.
  intros Hs Hne. destruct Hs as [e|i e it m' _ Hd|i it s e m' Hc|i n s m' Hp _|i r m' Hp]; simpl in Hne.
  - unfold enqueue. by rewrite queue_of_insert, decide_False.
  - unfold dequeue_any in Hd. destruct (m !! i) as [q|]; [|done]. simpl in Hd.
    destruct (thallium_queue.dequeue q) as [[[? ?] q']|]; simplify_eq/=. by rewrite queue_of_insert, decide_False.
  - unfold set_completion in Hc. destruct (m !! i) as [q|]; [|done]. simpl in Hc.
    destruct (thallium_queue.set_completion it s q) as [[? q']|]; simplify_eq/=. by rewrite queue_of_insert, decide_False.
  - unfold poll, poll_rpc in Hp. simplify_eq. by rewrite queue_of_insert, decide_False.
  - unfold poll, poll_rpc in Hp. simplify_eq. by rewrite queue_of_insert, decide_False.
Qed.

Lemma queue_of_some id q m : m !! id = Some q → queue_of id m = q.
Proof. intros H. unfold queue_of. by rewrite H. Qed.

Lemma step_state id tr m l m' :
  queue_state id tr (queue_of id m) → step m l m' → queue_state id (tr ++ [l]) (queue_of id m').
Proof.
  intros [Hs Hc] Hstep. destruct (decide (l.1 = id)) as [<-|Hne].
  2:{ rewrite (step_other_queue id m l m' Hstep Hne). split.
      - unfold unreported. rewrite foldl_app. simpl. unfold unreported_step at 1. by rewrite decide_False.
      - rewrite !bind_app. destruct l as [i []]; simpl in *; by rewrite ?decide_False, ?app_nil_r. }
  assert (∀ f : Z * event → list command_t.t, (tr ++ [l]) ≫= f = (tr ≫= f) ++ f l) as Hb
    by (intros f; by rewrite bind_app; simpl; rewrite app_nil_r).
  assert (unreported l.1 (tr ++ [l]) = unreported_step l.1 (unreported l.1 tr) l) as Hu
    by (unfold unreported; by rewrite foldl_app).
  destruct Hstep as [e|i e it m' _ Hd|i it s e m' Hd|i n s m' Hp _|i r m' Hp]; cbn [fst] in *;
    unfold unreported_step in Hu; cbn [fst snd] in Hu; rewrite decide_True in Hu by done.
  - unfold enqueue. rewrite queue_of_insert, decide_True by done. split; simpl.
    + by rewrite Hu.
    + rewrite !Hb, Hc. simpl. rewrite decide_True by done. solve_Permutation.
  - unfold dequeue_any in Hd. destruct (m !! i) as [q|] eqn:Hq; [|done]. simpl in Hd.
    destruct (thallium_queue.dequeue q) as [[[? ?] q']|] eqn:Hdq; simplify_eq/=.
    rewrite (queue_of_some _ _ _ Hq) in *. rewrite queue_of_insert, decide_True by done.
    apply dequeue_perm in Hdq as [Hs' Hp']. split; [by rewrite Hs', Hu|]. rewrite !Hb, Hp', Hc. simpl.
    by rewrite !app_nil_r.
  - unfold set_completion in Hd. destruct (m !! i) as [q|] eqn:Hq; [|done]. simpl in Hd.
    destruct (thallium_queue.set_completion it s q) as [[? q']|] eqn:Hdq; simplify_eq/=.
    rewrite (queue_of_some _ _ _ Hq) in *. rewrite queue_of_insert, decide_True by done.
    apply completion_perm in Hdq as [Hs' Hp']. split.
    + rewrite Hs', Hu, Hs. simpl. apply merge_comm.
    + rewrite !Hb, Hc, Hp'. simpl. rewrite decide_True by done. rewrite app_nil_r. solve_Permutation.
  - unfold poll, poll_rpc in Hp. simplify_eq. rewrite queue_of_insert, decide_True by done.
    split; simpl; [by rewrite Hu|]. rewrite !Hb, Hc. simpl. by rewrite !app_nil_r.
  - unfold poll, poll_rpc in Hp. simplify_eq. rewrite queue_of_insert, decide_True by done.
    split; simpl; [by rewrite Hu|]. rewrite !Hb, Hc. simpl. by rewrite !app_nil_r.
Qed.

Lemma run_state id tr m : run tr m → queue_state id tr (queue_of id m).
Proof. induction 1 as [|tr m l m' _ IH Hs]; [done|by eapply step_state]. Qed.

Lemma entered_length id tr : (length (tr ≫= entered id) ≤ length tr)%nat.
Proof.
  induction tr as [|l tr IH]; [done|]. rewrite bind_cons, length_app.
  assert (length (entered id l) ≤ 1)%nat; [|cbn [length]; lia].
  destruct l as [i []]; simpl; try lia. destruct (decide (i = id)); simpl; lia.
Qed.

(** C18: what a wait over Thallium promises.  With any number of clients and in
    every interleaving, when the wait of a client ends, all its commands that the
    backend has received have been completed, each of them once; its result is the merged status of those that were
    completed since its last poll, so that it never reports a failure that did not
    happen.  (The number of commands has to fit an [int].) *)
Theorem thallium_wait_complete (tr : list (Z * event)) (id r : Z) (m m' : server_t) :
  run tr m → step m (id, Waited r) m' → Z.of_nat (length tr) ≤ INT_MAX →
  tr ≫= entered id ≡ₚ tr ≫= completed id ∧ r = merge_all (unreported id tr) ∧
  (r < 0 → ∃ e s, (id, Completed e s) ∈ tr ∧ s < 0).
Proof.
  intros Hrun Hstep Hlen. destruct (run_state id tr m Hrun) as [Hs Hc].
  inversion Hstep as [| | | |? ? ? Hp]; subst. unfold poll, poll_rpc in Hp.
  injection Hp as Hn Hr _.
  assert (length (pending (queue_of id m)) + length (progress (queue_of id m)) ≤ length tr)%nat as Hle.
  { pose proof (entered_length id tr) as He. apply Permutation_length in Hc.
    rewrite !length_app, length_fmap in Hc. lia. }
  rewrite i32_small in Hn by (unfold is_int, INT_MIN; lia).
  assert (pending (queue_of id m) = [] ∧ progress (queue_of id m) = []) as [Hp1 Hp2].
  { destruct (pending (queue_of id m)), (progress (queue_of id m)); simpl in Hn; split; (done || lia). }
  rewrite Hp1, Hp2, !app_nil_r in Hc. split; [done|]. rewrite <-Hr, Hs. split; [done|].
  intros (s & Hin & Hneg)%merge_all_negative%Exists_exists.
  assert (∀ acc, s ∈ foldl (unreported_step id) acc tr → s ∈ acc ∨ ∃ e, (id, Completed e s) ∈ tr) as Hfrom.
  { clear. induction tr as [|[i ev] tr IH]; simpl; intros acc H; [by left|]. apply IH in H as [H|[e H]]; [|set_solver].
    unfold unreported_step in H. simpl in H. destruct (decide (i = id)) as [->|]; [|by left].
    destruct ev; set_solver. }
  destruct (Hfrom [] Hin) as [H|[e H]]; [by apply elem_of_nil in H|]. eauto.
Qed.

Definition demo_cmd (id v : Z) : command_t.t := command_t.mk id CHECKPOINT v 0 "ck" "".

(** Two clients; the first one waits after its command has failed. *)
Lemma thallium_wait_complete_witness :
  let tr := [(1, Enqueued (demo_cmd 1 5)); (2, Enqueued (demo_cmd 2 5)); (1, Dequeued (demo_cmd 1 5));
    (1, Completed (demo_cmd 1 5) (-1))] in
  ∃ m m', run tr m ∧ step m (1, Waited (-1)) m' ∧ -1 = merge_all (unreported 1 tr).
Proof.
  intros tr.
  set (m1 := thallium_server.enqueue (demo_cmd 1 5) ∅). set (m2 := thallium_server.enqueue (demo_cmd 2 5) m1).
  set (m3 := default ∅ (snd <$> dequeue_any 1 m2)). set (m4 := default ∅ (snd <$> set_completion 1 0 (-1) m3)).
  assert (run tr m4) as Hrun.
  { apply (run_step [_; _; _] m3); [apply (run_step [_; _] m2); [apply (run_step [_] m1);
      [apply (run_step [] ∅); [apply run_start|]|]|]|].
    - apply (step_enqueue ∅ (demo_cmd 1 5)).
    - apply (step_enqueue m1 (demo_cmd 2 5)).
    - apply (step_dequeue m2 1 (demo_cmd 1 5) 0); [|vm_compute; reflexivity].
      exists (queue_of 1 m2). split; vm_compute; [reflexivity|discriminate].
    - apply (step_complete m3 1 0). vm_compute. reflexivity. }
  assert (step m4 (1, Waited (-1)) (poll 1 true m4).2) as Hw by (apply step_wait; vm_compute; reflexivity).
  exists m4, (poll 1 true m4).2. split; [exact Hrun|]. split; [exact Hw|].
  apply (thallium_wait_complete tr 1 (-1) m4 _ Hrun Hw). vm_compute. discriminate.
Defined.
