(* ===== verification/System.v ===== *)
(** * System: the parts together

    The main loop of the backend ([src/backend/work_queue.cpp]) between the queue
    and the modules, and a client that reaches it through the queue in shared
    memory, as in synchronous mode, where the backend is a thread of the
    application.  The main theorem says what VELOC is for: what an application
    checkpoints it gets back after a failure. *)

From S2P Require Import Prelude Text Command FileSystem Containers FileUtil Bytes Storage Streams Header.
From S2P Require Import Client Versioning Environment Transfer Chksum Ec Aggregator Manager Queue IpcQueue.

Local Open Scope Z_scope.

Import command_t module_manager_t.

Module work_queue.
Section work_queue.
Context {E : Type} (modules : list (method_t (E:=E))).

(** The backend and the queue of its client. *)
Abbreviation state := (backend_t E * client_queue_t command_t.t)%type.

(** A task: [f(modules.notify_command(c))].  An exception stays in the future of
    the task, which nobody asks for it: the completion is not called. *)
Definition run_task (c : command_t.t) (it : nat) : comp state unit := λ '(b, q),
  match notify_command modules c b with
  | (Val r, b') =>
      match ipc_queue.set_completion it r q with
      | Some (_, q') => (Val tt, (b', q'))
      | None => (Undef, (b', q))
      end
  | (Raise _, b') => (Val tt, (b', q))
  | (Exit n, b') => (Exit n, (b', q))
  | (Hang, b') => (Hang, (b', q))
  | (Undef, b') => (Undef, (b', q))
  end.

(** The main loop until no element is pending, the tasks one after the other. *)
Fixpoint main_loop (fuel : nat) : comp state unit := λ '(b, q),
  match fuel, ipc_queue.dequeue q with
  | _, None => (Val tt, (b, q))
  | O, Some _ => (Hang, (b, q))
  | S fuel, Some (c, it, q') => (run_task c it;; main_loop fuel) (b, q')
  end.

(** The loop takes one element per round. *)
Definition serve : comp state unit := λ '(b, q), main_loop (length q.(pending)) (b, q).

End work_queue.
End work_queue.

Import work_queue.

(** The backend works on the files of the client. *)
Definition with_env_sys {E} (b : backend_t E) (s : sys) : backend_t E :=
  mk_backend (with_sys (b_env b) s) (b_watchdog b) (b_er b) (b_ec_timestamp b) (b_aggregator b)
    (b_transfer b) (b_versioning b).

(** The client's end of the queue, when the backend is a thread of the same
    process: a wait lets it work. *)
Definition local_queue {E} (modules : list (method_t (E:=E))) :
    comm_client_t (backend_t E * client_queue_t command_t.t) := {|
  Client.enqueue c := λ '(s, (b, q)), (Val tt, (s, (b, ipc_queue.enqueue c q)));
  Client.wait_completion := λ '(s, (b, q)),
    let '(o, (b', q')) := serve modules (with_env_sys b s, q) in
    let s' := env_sys (b_env b') in
    match o with
    | Val _ => match ipc_queue.wait_completion true q' with
               | Some (r, q'') => (Val r, (s', (b', q'')))
               | None => (Hang, (s', (b', q')))
               end
    | Raise e => (Raise e, (s', (b', q')))
    | Exit n => (Exit n, (s', (b', q')))
    | Hang => (Hang, (s', (b', q')))
    | Undef => (Undef, (s', (b', q')))
    end;
  Client.check_completion := λ '(s, (b, q)), (Val (ipc_queue.check_completion q), (s, (b, q)))
|}.

(** ** Lemmas *)

(** A queue with nothing outstanding. *)
Definition idle (q : client_queue_t command_t.t) : Prop :=
  pending q = [] ∧ progress q = [] ∧ status q = VELOC_SUCCESS.

Section local_queue.
Context {E : Type} (ms : list (method_t (E:=E))).

Lemma wait_idle s b q :
  idle q → Client.wait_completion (local_queue ms) (s, (b, q)) = (Val VELOC_SUCCESS, (s, (with_env_sys b s, q))).
Proof. destruct q as [st pe pr n]. intros (Hp & Hg & Hs). simpl in *. by subst. Qed.

(** One command, from the queue through the modules and back: the result is merged
    with the status that is there. *)
Lemma command_status c s b st n r b' :
  notify_command ms c (with_env_sys b s) = (Val r, b') →
  ∃ q', Client.wait_completion (local_queue ms) (s, (b, ipc_queue.enqueue c (mk_queue st [] [] n)))
    = (Val (merge_status st r), (env_sys (b_env b'), (b', q'))) ∧ idle q'.
Proof.
  intros Hn. unfold serve, main_loop. simpl. unfold mbind, comp_bind. unfold run_task. rewrite Hn.
  unfold ipc_queue.set_completion. simpl. rewrite decide_True by done. simpl.
  eexists. split; [reflexivity|]. done.
Qed.

Lemma command_round c s b q r b' :
  idle q → notify_command ms c (with_env_sys b s) = (Val r, b') →
  ∃ q', Client.wait_completion (local_queue ms) (s, (b, ipc_queue.enqueue c q))
    = (Val (merge_status VELOC_SUCCESS r), (env_sys (b_env b'), (b', q'))) ∧ idle q'.
Proof.
  intros (Hp & Hg & Hs) Hn. destruct q as [st pe pr n]. simpl in *. subst. by apply command_status.
Qed.

(** A command that throws is never completed. *)
Lemma command_throws c s b q e b' :
  idle q → notify_command ms c (with_env_sys b s) = (Raise e, b') →
  ∃ st', Client.wait_completion (local_queue ms) (s, (b, ipc_queue.enqueue c q)) = (Hang, st').
Proof.
  intros (Hp & Hg & Hs) Hn. destruct q as [st pe pr n]. simpl in *. subst.
  unfold serve, main_loop. simpl. unfold mbind, comp_bind. unfold run_task. rewrite Hn.
  by eexists.
Qed.
End local_queue.

Lemma on_queue_run {Q A} (m : comp (sys * Q) A) (st : client_t Q) o s' q' :
  m (the_fs st, queue st) = (o, (s', q')) →
  on_queue m st = (o, mk_client s' (memory st) q' (mem_regions st) (observers st) (current_ckpt st)
                        (checkpoint_in_progress st) (region_info st) (header_size st)).
Proof. intros H. unfold on_queue. by rewrite H. Qed.

(** ** What is checkpointed comes back *)

(** A checkpoint file is never empty. *)
Lemma ckpt_file_cons l : ∃ x d, ckpt_file l = x :: d.
Proof.
  destruct (ckpt_file l) as [|x d] eqn:Hck; [|by eauto]. exfalso.
  assert (zlen (ckpt_file l) = 0) as Hz by by rewrite Hck.
  unfold ckpt_file in Hz. rewrite zlen_app, zlen_header_bytes in Hz.
  pose proof (zlen_nonneg (sizes_of l)). pose proof (zlen_nonneg (data_of l)). lia.
Qed.

(** Raw regions have a snapshot, and a bound on their sizes is one on its file. *)
Lemma snapshot_fits regions m :
  Forall (λ e, raw_region m e.2) regions →
  8 + 12 * zlen regions + sum_sizes (map (λ e, (e.1, e.2.(size))) regions) ≤ LONG_MAX →
  ∃ l, snapshot regions m = Some l ∧ zlen (ckpt_file l) ≤ LONG_MAX.
Proof.
  intros Hraw Hmax. destruct (snapshot_raw _ _ Hraw) as (l & Hl & _ & _). exists l. split; [done|].
  pose proof (snapshot_length _ _ _ Hl) as Hlen. pose proof (snapshot_sizes _ _ _ Hraw Hl) as Hsizes.
  unfold ckpt_file. rewrite zlen_app, zlen_header_bytes, zlen_sizes_of, <-sum_sizes_of. rewrite <-Hsizes. lia.
Qed.

(** A communicator with one process. *)
Definition alone (mpi : mpi_t) : Prop :=
  (∀ x, mpi.(MPI_Allreduce_max) x = x) ∧ (∀ x, mpi.(MPI_Allreduce_lor) x = if x =? 0 then 0 else 1).

(** Between two calls: nothing is outstanding and no fault ahead, with the files
    [f]. *)
Record quiet {E} (st : client_t (backend_t E * client_queue_t command_t.t)) (f : gmap string node) : Prop := {
  quiet_queue : idle (queue st).2;
  quiet_files : the_fs st = mk_sys f [];
  quiet_free : checkpoint_in_progress st = false
}.

(** The parts of the client that only the application changes. *)
Definition same_app {Q} (st st' : client_t Q) : Prop :=
  memory st' = memory st ∧ observers st' = observers st.

Section system.
Context {E : Type} (SHA256 : list byte → list byte).
Hypothesis SHA256_size : ∀ d, zlen (SHA256 d) = chksum_module_t.HASH_SIZE.
Variables (cfg : settings) (ccfg : client_cfg) (mpi : mpi_t) (bufsize : Z).
Variables (scratch_dir persistent meta_dir name : string) (version : Z).
Hypothesis Hcfg : plain_settings cfg scratch_dir persistent meta_dir.
Hypothesis Hccfg : ccfg.(scratch) = scratch_dir ∧ aggregated ccfg = false ∧ (comm_set ccfg = true → alone mpi).
Hypothesis Hdirs : scratch_dir ≠ persistent.
Hypothesis Hname : validate_name name = true ∧ Z.of_nat (String.length name) + 1 ≤ CKPT_NAME_MAX.
Hypothesis Hversion : 0 ≤ version ≤ INT_MAX.
Hypothesis Hrank : 0 ≤ rank ccfg ≤ INT_MAX.

Abbreviation ms := [watchdog_method cfg; transfer_method cfg; chksum_method SHA256 cfg true;
  versioning_method (E:=E) cfg].
Abbreviation qc := (local_queue ms).
Abbreviation Q := (backend_t E * client_queue_t command_t.t)%type.

Definition ckpt_cmd (k : Z) : command_t.t := command_t.mk (rank ccfg) k version 0 name "".

Lemma ckpt_wf k : wf (ckpt_cmd k) = true.
Proof using Hname Hversion Hrank.
  apply wf_spec. destruct Hname, Hversion, Hrank. by split_and!.
Qed.

(** A synchronous [checkpoint_end] runs the command. *)
Lemma checkpoint_end_run (st : client_t Q) c r b' :
  is_sync ccfg = true → idle (queue st).2 → current_ckpt st = Some c →
  map_find VELOC_OBSERVE_CKPT_END (observers st) = None →
  notify_command ms c (with_env_sys (queue st).1 (the_fs st)) = (Val r, b') →
  ∃ st', checkpoint_end qc ccfg mpi true st = (Val (merge_status VELOC_SUCCESS r =? VELOC_SUCCESS), st') ∧
    the_fs st' = env_sys (b_env b') ∧ idle (queue st').2 ∧ checkpoint_in_progress st' = false ∧
    same_app st st' ∧ mem_regions st' = mem_regions st.
Proof.
  intros Hsync Hi Hc Ho Hn. destruct Hccfg as (_ & Hagg & _). destruct (queue st) as [b q] eqn:Hq. simpl in Hi, Hn.
  unfold checkpoint_end. rewrite get_bind, Hc, Hagg. unfold submit. rewrite modify_bind.
  set (st1 := set_in_progress false st).
  erewrite comp_bind_val.
  2:{ apply (on_queue_run _ st1). unfold st1. simpl (queue _). rewrite Hq. reflexivity. }
  cbn beta. set (st2 := mk_client _ _ _ _ _ _ _ _ _).
  erewrite comp_bind_val by (unfold notify_observers; rewrite get_bind; simpl (observers _); by rewrite Ho).
  rewrite Hsync. destruct (command_round ms c (the_fs st) b q r b' Hi Hn) as (q' & Hw & Hi').
  rewrite (comp_bind_val _ _ _ _ _ (on_queue_run (Client.wait_completion qc) st2 _ _ _ Hw)).
  eexists. split; [reflexivity|]. done.
Qed.

Lemma is_dir_insert f d p x :
  is_dir f d = true → f !! p ≠ Some Dir → is_dir (<[p := Reg x]> f) d = true.
Proof.
  unfold is_dir. intros Hd Hp. destruct (decide (p = d)) as [->|]; [|by rewrite lookup_insert_ne].
  by destruct (f !! d) as [[| |]|].
Qed.

Lemma parent_dir f k d : is_dir f d = true → parent_ok f (filename (ckpt_cmd k) d) = true.
Proof. intros Hd. unfold parent_ok. by rewrite dirname_filename, Hd, orb_true_r by apply ckpt_wf. Qed.

(** The state of the files before a checkpoint: the directories are there, and
    nothing is where the copy and the record go. *)
Definition ready_files (f : gmap string node) : Prop :=
  is_dir f scratch_dir = true ∧ is_dir f persistent = true ∧ is_dir f meta_dir = true ∧
  f !! filename (ckpt_cmd CHECKPOINT) scratch_dir = None ∧
  f !! filename (ckpt_cmd CHECKPOINT) persistent = None ∧
  f !! meta_filename (ckpt_cmd CHECKPOINT) meta_dir = None.

Definition protected (st : client_t Q) (k : Z) : regions_t := current_regions (set_current (Some (ckpt_cmd k)) st).

(** A checkpoint up to its end, through any queue with nothing outstanding: the
    scratch file is written. *)
Lemma checkpoint_scratch (any : comm_client_t Q) (st : client_t Q) f l q' :
  the_fs st = mk_sys f [] → checkpoint_in_progress st = false →
  Client.wait_completion any (the_fs st, queue st) = (Val VELOC_SUCCESS, (the_fs st, q')) →
  ready_files f → protected st CHECKPOINT ≠ [] →
  Forall (λ e, 0 ≤ e.2.(size)) (protected st CHECKPOINT) →
  snapshot (protected st CHECKPOINT) (memory st) = Some l → zlen (ckpt_file l) ≤ LONG_MAX →
  ∃ st', checkpoint any ccfg mpi bufsize name version st = checkpoint_end any ccfg mpi true st' ∧
    queue st' = q' ∧
    the_fs st' = mk_sys (<[filename (ckpt_cmd CHECKPOINT) scratch_dir := Reg (ckpt_file l)]> f) [] ∧
    current_ckpt st' = Some (ckpt_cmd CHECKPOINT) ∧ same_app st st' ∧
    mem_regions st' = <[name := protected st CHECKPOINT]> (mem_regions st).
Proof.
  intros Hs Hp Hw (Hd1 & _ & _ & Hf1 & _ & _) Hne Hsz Hl Hmax.
  destruct Hname as [Hn Hlen]. destruct Hccfg as (Hsc & _).
  unfold checkpoint, and_then.
  rewrite (comp_bind_val _ _ _ _ _ (checkpoint_wait_idle any st _ _ _ Hp Hw)). rewrite Z.eqb_refl.
  set (st1 := mk_client _ _ _ _ _ _ _ _ _).
  rewrite (comp_bind_val _ _ _ _ _ (checkpoint_begin_run ccfg name version st1 eq_refl Hn Hlen ltac:(lia))).
  set (st2 := set_in_progress _ _).
  assert (current_regions st2 = protected st CHECKPOINT) as Hreg by done.
  assert (writable f (filename (ckpt_cmd CHECKPOINT) (scratch ccfg))) as Hwr.
  { right. rewrite Hsc. split; [done|]. by apply parent_dir. }
  rewrite (comp_bind_val _ _ _ _ _ (checkpoint_mem_run ccfg bufsize VELOC_CKPT_ALL [] st2 (ckpt_cmd CHECKPOINT) f
    (protected st CHECKPOINT) l eq_refl eq_refl Hs Hwr ltac:(by rewrite Hreg) Hne Hsz Hl Hmax)).
  eexists. split; [reflexivity|]. simpl. by rewrite Hsc.
Qed.

Lemma checkpoint_local (st : client_t Q) f l :
  quiet st f → ready_files f → protected st CHECKPOINT ≠ [] →
  Forall (λ e, 0 ≤ e.2.(size)) (protected st CHECKPOINT) →
  snapshot (protected st CHECKPOINT) (memory st) = Some l → zlen (ckpt_file l) ≤ LONG_MAX →
  ∃ st', checkpoint qc ccfg mpi bufsize name version st = checkpoint_end qc ccfg mpi true st' ∧
    queue st' = (with_env_sys (queue st).1 (the_fs st), (queue st).2) ∧
    the_fs st' = mk_sys (<[filename (ckpt_cmd CHECKPOINT) scratch_dir := Reg (ckpt_file l)]> f) [] ∧
    current_ckpt st' = Some (ckpt_cmd CHECKPOINT) ∧ same_app st st' ∧
    mem_regions st' = <[name := protected st CHECKPOINT]> (mem_regions st).
Proof.
  intros [Hi Hs Hp]. apply checkpoint_scratch; [done..|].
  destruct (queue st) as [b q]. by apply wait_idle.
Qed.

(** What the backend does with the command of a checkpoint. *)
Lemma backend_checkpoint (b : backend_t E) f l :
  ready_files f → zlen (ckpt_file l) ≤ LONG_MAX →
  env_sys (b_env b) = mk_sys (<[filename (ckpt_cmd CHECKPOINT) scratch_dir := Reg (ckpt_file l)]> f) [] →
  ∃ b', notify_command ms (ckpt_cmd CHECKPOINT) b = (Val VELOC_SUCCESS, b') ∧ env_sys (b_env b') =
    mk_sys (<[meta_filename (ckpt_cmd CHECKPOINT) meta_dir := Reg (SHA256 (ckpt_file l))]>
      (<[filename (ckpt_cmd CHECKPOINT) persistent := Reg (ckpt_file l)]>
      (<[filename (ckpt_cmd CHECKPOINT) scratch_dir := Reg (ckpt_file l)]> f))) [].
Proof.
  intros (Hd1 & Hd2 & Hd3 & Hf1 & Hf2 & Hf3) Hmax Hb. set (c := ckpt_cmd CHECKPOINT) in *.
  destruct (ckpt_file_cons l) as (x & d & Hxd). rewrite Hxd in *.
  assert (filename c scratch_dir ≠ filename c persistent) as Hne12 by (intros E'; by apply filename_prefix in E').
  assert (filename c scratch_dir ≠ meta_filename c meta_dir) as Hne13 by (apply not_eq_sym, record_not_file).
  eexists. split.
  { apply (chain_checkpoint SHA256 cfg scratch_dir persistent meta_dir Hcfg Hdirs c b x d); try done;
      unfold fault_free, backend_files; rewrite ?Hb; try done; simpl.
    - by rewrite lookup_insert_eq.
    - by rewrite lookup_insert_ne.
    - apply parent_dir. apply is_dir_insert; [done|]. by rewrite Hf1.
    - intros t. by rewrite lookup_insert_ne, Hf3.
    - by rewrite lookup_insert_ne, Hf3.
    - apply is_dir_insert; [done|]. by rewrite Hf1.
    - apply ckpt_wf. }
  unfold with_files, backend_files. rewrite Hb. done.
Qed.

Lemma system_checkpoint (st : client_t Q) f l :
  is_sync ccfg = true → quiet st f → ready_files f → map_find VELOC_OBSERVE_CKPT_END (observers st) = None →
  protected st CHECKPOINT ≠ [] → Forall (λ e, 0 ≤ e.2.(size)) (protected st CHECKPOINT) →
  snapshot (protected st CHECKPOINT) (memory st) = Some l → zlen (ckpt_file l) ≤ LONG_MAX →
  ∃ st', checkpoint qc ccfg mpi bufsize name version st = (Val true, st') ∧
    quiet st' (<[meta_filename (ckpt_cmd CHECKPOINT) meta_dir := Reg (SHA256 (ckpt_file l))]>
      (<[filename (ckpt_cmd CHECKPOINT) persistent := Reg (ckpt_file l)]>
      (<[filename (ckpt_cmd CHECKPOINT) scratch_dir := Reg (ckpt_file l)]> f))) ∧
    same_app st st' ∧ mem_regions st' = <[name := protected st CHECKPOINT]> (mem_regions st).
Proof.
  intros Hsync Hq Hready Hobs Hne Hsz Hl Hmax. pose proof Hq as [Hi _ _].
  destruct (checkpoint_local st f l) as (st3 & Hck & Hq3 & Hs3 & Hc3 & [Hm3 Ho3] & Hr3); try done.
  destruct (backend_checkpoint (with_env_sys (queue st3).1 (the_fs st3)) f l) as (b' & Hn & Hb'); try done.
  destruct (checkpoint_end_run st3 (ckpt_cmd CHECKPOINT) VELOC_SUCCESS b')
    as (st4 & Hend & Hfs & Hi4 & Hp4 & [Hm4 Ho4] & Hr4); try done; [by rewrite Hq3|by rewrite Ho3|].
  exists st4. split; [by rewrite Hck|]. split; [split; [done|by rewrite Hfs|done]|].
  split; [split; congruence|congruence].
Qed.

(** A command that the client waits for: its result is merged with the status of
    the commands before it that nobody has waited for. *)
Lemma run_blocking_status (st : client_t Q) c status n r b' :
  (queue st).2 = mk_queue status [] [] n →
  notify_command ms c (with_env_sys (queue st).1 (the_fs st)) = (Val r, b') →
  ∃ q', idle q' ∧ run_blocking qc c st
    = (Val (merge_status status r), mk_client (env_sys (b_env b')) (memory st) (b', q') (mem_regions st)
        (observers st) (current_ckpt st) (checkpoint_in_progress st) (region_info st) (header_size st)).
Proof.
  intros Hi Hn. destruct (queue st) as [b q] eqn:Hq. simpl in Hi, Hn. subst q.
  destruct (command_status ms c (the_fs st) b status n r b' Hn) as (q' & Hw & Hi'). exists q'. split; [done|].
  unfold run_blocking. erewrite comp_bind_val.
  2:{ apply (on_queue_run _ st). rewrite Hq. reflexivity. }
  cbn beta. apply (on_queue_run (Client.wait_completion qc) (mk_client (the_fs st) (memory st)
    (b, ipc_queue.enqueue c (mk_queue status [] [] n)) (mem_regions st) (observers st) (current_ckpt st)
    (checkpoint_in_progress st) (region_info st) (header_size st)) _ _ _ Hw).
Qed.

Lemma run_blocking_run (st : client_t Q) c r b' :
  idle (queue st).2 → notify_command ms c (with_env_sys (queue st).1 (the_fs st)) = (Val r, b') →
  ∃ q', idle q' ∧ run_blocking qc c st
    = (Val (merge_status VELOC_SUCCESS r), mk_client (env_sys (b_env b')) (memory st) (b', q') (mem_regions st)
        (observers st) (current_ckpt st) (checkpoint_in_progress st) (region_info st) (header_size st)).
Proof.
  intros (Hp & Hg & Hs) Hn. destruct (queue st).2 as [s pe pr n] eqn:Hq. simpl in *. subst.
  by apply run_blocking_status with n.
Qed.

Lemma make_cmd k : command_t.make (check_rank ccfg (-1)) k version name = Val (ckpt_cmd k).
Proof.
  destruct Hname as [_ Hlen]. unfold command_t.make, check_rank. simpl.
  by destruct (Z.ltb_spec CKPT_NAME_MAX (Z.of_nat (String.length name) + 1)); [lia|].
Qed.

Lemma restart_begin_run (st : client_t Q) r b' :
  idle (queue st).2 → checkpoint_in_progress st = false →
  notify_command ms (ckpt_cmd RESTART) (with_env_sys (queue st).1 (the_fs st)) = (Val r, b') →
  ∃ st', restart_begin qc ccfg mpi name version (-1) st
      = (Val (merge_status VELOC_SUCCESS r =? VELOC_SUCCESS), st') ∧
    the_fs st' = env_sys (b_env b') ∧ idle (queue st').2 ∧ checkpoint_in_progress st' = false ∧
    same_app st st' ∧ mem_regions st' = mem_regions st ∧ current_ckpt st' = Some (ckpt_cmd RESTART) ∧
    (merge_status VELOC_SUCCESS r = VELOC_SUCCESS → header_size st' = 0).
Proof.
  intros Hi Hp Hn. destruct Hname as [Hv _]. destruct Hccfg as (_ & _ & Hcomm).
  unfold restart_begin. rewrite get_bind, Hp, Hv. destruct (Z.ltb_spec version 0); [lia|]. cbn [negb orb].
  rewrite make_cmd, stop_bind, modify_bind.
  destruct (run_blocking_run (set_current (Some (ckpt_cmd RESTART)) st) (ckpt_cmd RESTART) r b' Hi Hn)
    as (q' & Hi' & Hrun).
  rewrite (comp_bind_val _ _ _ _ _ Hrun). cbn zeta beta.
  set (m := merge_status VELOC_SUCCESS r).
  assert (((if comm_set ccfg then MPI_Allreduce_lor mpi m else m) =? VELOC_SUCCESS) = (m =? VELOC_SUCCESS)) as ->.
  { destruct (comm_set ccfg); [|done]. destruct (Hcomm eq_refl) as [_ ->]. unfold VELOC_SUCCESS.
    by destruct (m =? 0). }
  destruct (Z.eqb_spec m VELOC_SUCCESS); [rewrite modify_bind|]; eexists; (split; [reflexivity|]); done.
Qed.

(** A test: the greatest version that is stored or in the scratch directory. *)
Lemma system_test (st : client_t Q) f :
  quiet st f → dir_scannable f persistent name = true → dir_scannable f scratch_dir name = true →
  (∀ x, found scratch_dir persistent f (ckpt_cmd TEST) x → 0 ≤ x) →
  ∃ r st', restart_test qc ccfg mpi name version (-1) st = (Val r, st') ∧ quiet st' f ∧ same_app st st' ∧
    mem_regions st' = mem_regions st ∧
    ((r = VELOC_IGNORED ∧ ∀ x, found scratch_dir persistent f (ckpt_cmd TEST) x → version ≠ 0 ∧ version < x) ∨
     (found scratch_dir persistent f (ckpt_cmd TEST) r ∧ (version ≠ 0 → r ≤ version) ∧
      ∀ x, found scratch_dir persistent f (ckpt_cmd TEST) x → version = 0 ∨ x ≤ version → x ≤ r)).
Proof.
  intros [Hi Hs Hp] Hsp Hss Hpos. destruct Hname as [Hv _]. destruct Hccfg as (_ & _ & Hcomm).
  unfold restart_test. rewrite Hv. destruct (Z.ltb_spec version 0); [lia|]. cbn [negb orb].
  rewrite make_cmd, stop_bind.
  destruct (chain_test SHA256 cfg scratch_dir persistent meta_dir Hcfg (ckpt_cmd TEST)
    (with_env_sys (queue st).1 (the_fs st))) as (r & b' & Hn & Hff & Hf & Hr);
    unfold backend_files, fault_free in *; simpl in *; rewrite ?Hs in *; try done.
  destruct (run_blocking_run st (ckpt_cmd TEST) r b' Hi) as (q' & Hi' & Hrun); [by rewrite Hs|].
  rewrite (comp_bind_val _ _ _ _ _ Hrun). unfold mret, comp_ret.
  assert (merge_status VELOC_SUCCESS r = r) as ->.
  { destruct Hr as [[-> _]|[Hr _]]; [done|]. apply Hpos in Hr. unfold merge_status, VELOC_SUCCESS.
    destruct (Z.ltb_spec r 0); [lia|]. simpl. lia. }
  assert ((if comm_set ccfg && (-1 <? 0) then MPI_Allreduce_max mpi r else r) = r) as ->.
  { destruct (comm_set ccfg); [|done]. destruct (Hcomm eq_refl) as [-> _]. done. }
  exists r. eexists. split; [reflexivity|split; [|split; [done|split; [done|exact Hr]]]].
  split; [done| |done]. simpl. destruct (env_sys (b_env b')). simpl in *. by subst.
Qed.

(** A restart that the backend answers with success, over the file of [l]. *)
Lemma system_restart (st : client_t Q) f l :
  quiet st f →
  f !! filename (ckpt_cmd CHECKPOINT) persistent = Some (Reg (ckpt_file l)) →
  f !! meta_filename (ckpt_cmd CHECKPOINT) meta_dir = Some (Reg (SHA256 (ckpt_file l))) →
  f !! filename (ckpt_cmd CHECKPOINT) scratch_dir = None ∨
    f !! filename (ckpt_cmd CHECKPOINT) scratch_dir = Some (Reg (ckpt_file l)) → is_dir f scratch_dir = true →
  zlen (ckpt_file l) ≤ LONG_MAX →
  ∃ st', restart_begin qc ccfg mpi name version (-1) st = (Val true, st') ∧
    quiet st' (<[filename (ckpt_cmd CHECKPOINT) scratch_dir := Reg (ckpt_file l)]> f) ∧
    same_app st st' ∧ mem_regions st' = mem_regions st ∧ current_ckpt st' = Some (ckpt_cmd RESTART) ∧
    header_size st' = 0.
Proof.
  intros [Hi Hs Hp] Hf1 Hf2 Hf3 Hd Hmax. destruct (ckpt_file_cons l) as (x & d & Hck). rewrite Hck in *.
  destruct (chain_restart SHA256 SHA256_size cfg scratch_dir persistent meta_dir Hcfg Hdirs
    (ckpt_cmd RESTART) (with_env_sys (queue st).1 (the_fs st)) x d) as (b' & Hn & Hff & Hf'); try done;
    rewrite ?Hs; try done.
  { destruct Hf3; [left; split; [done|by apply parent_dir]|by right]. }
  destruct (restart_begin_run st VELOC_SUCCESS b' Hi Hp Hn)
    as (st1 & Hbegin & Hfs & Hi1 & Hp1 & Happ & Hreg & Hcur & Hh).
  exists st1. split; [exact Hbegin|]. split; [|by auto]. split; [done| |done].
  rewrite Hfs. unfold backend_files, fault_free in *. rewrite Hs in Hf'. simpl in Hf'.
  destruct (env_sys (b_env b')) as [f' sc]. simpl in *. by subst.
Qed.

Lemma system_recover (st : client_t Q) f l :
  the_fs st = mk_sys f [] → current_ckpt st = Some (ckpt_cmd RESTART) → header_size st = 0 →
  f !! filename (ckpt_cmd CHECKPOINT) scratch_dir = Some (Reg (ckpt_file l)) →
  zlen (ckpt_file l) ≤ LONG_MAX → zlen l < 2 ^ 32 → Forall is_int l.*1 → sorted l.*1 →
  can_hold VELOC_RECOVER_ALL [] (current_regions st) (memory st) l →
  recover_mem ccfg VELOC_RECOVER_ALL [] st
  = (Val true, recovered l (restore_regions VELOC_RECOVER_ALL [] (current_regions st) l (memory st)) st).
Proof.
  intros Hs Hc Hh Hf Hmax Hl32 Hint Hsorted Hhold. destruct Hccfg as (Hsc & _).
  apply (recover_mem_run ccfg _ _ st (ckpt_cmd RESTART) f l); try done. by rewrite Hsc.
Qed.

Lemma protected_current (st st' : client_t Q) k :
  mem_regions st' = mem_regions st → current_ckpt st' = Some (ckpt_cmd k) → current_regions st' = protected st k.
Proof.
  intros Hreg Hcur. unfold protected, current_regions, current_name, regions_of. simpl. by rewrite Hreg, Hcur.
Qed.

(** A restart over the file of a snapshot of [regions] puts them back. *)
Lemma restart_snapshot (st : client_t Q) f regions m l :
  snapshot regions m = Some l → zlen (ckpt_file l) ≤ LONG_MAX →
  zlen regions < 2 ^ 32 → ids_ok regions → disjoint_regions regions → Forall (λ e, raw_region m e.2) regions →
  quiet st f →
  f !! filename (ckpt_cmd CHECKPOINT) persistent = Some (Reg (ckpt_file l)) →
  f !! meta_filename (ckpt_cmd CHECKPOINT) meta_dir = Some (Reg (SHA256 (ckpt_file l))) →
  f !! filename (ckpt_cmd CHECKPOINT) scratch_dir = None ∨
    f !! filename (ckpt_cmd CHECKPOINT) scratch_dir = Some (Reg (ckpt_file l)) → is_dir f scratch_dir = true →
  protected st RESTART = regions → Forall (λ e, raw_region (memory st) e.2) regions →
  ∃ st', restart qc ccfg mpi name version (-1) st = (Val true, st') ∧
    (∀ id r, (id, r) ∈ regions → load r.(ptr) r.(size) (memory st') = load r.(ptr) r.(size) m) ∧
    (∀ a, (∀ id r, (id, r) ∈ regions → ¬ (r.(ptr) ≤ a < r.(ptr) + r.(size))) →
      memory st' !! a = memory st !! a).
Proof.
  intros Hl Hmax Hl32 [Hsorted Hids] Hdis Hraw Hq Hf1 Hf2 Hf3 Hd Hreg Hraw'.
  destruct (snapshot_raw _ _ Hraw) as (l' & Hl' & Hkeys & Hall). rewrite Hl in Hl'. simplify_eq.
  pose proof (snapshot_length _ _ _ Hl) as Hlen.
  destruct (system_restart st f l') as (st3 & Hbegin & [_ Hs3 _] & [Hm3 _] & Hr3 & Hc3 & Hh3); try done.
  assert (current_regions st3 = protected st RESTART) as Hcur3 by (by rewrite (protected_current st st3 RESTART)).
  assert (can_hold VELOC_RECOVER_ALL [] (current_regions st3) (memory st3) l') as Hhold
    by (rewrite Hcur3, Hm3; by eapply (snapshot_can_hold _ _ _ m)).
  eexists. split.
  { unfold restart, and_then. rewrite (comp_bind_val _ _ _ _ _ Hbegin). cbn iota.
    rewrite (comp_bind_val _ _ _ _ _ (system_recover st3 _ l' Hs3 Hc3 Hh3 ltac:(by rewrite lookup_insert_eq) Hmax
      ltac:(lia) ltac:(by rewrite Hkeys) ltac:(by rewrite Hkeys) Hhold)). reflexivity. }
  cbn [memory recovered set_memory]. rewrite Hcur3, Hm3. by apply restore_snapshot.
Qed.

(** C1: an application gets back what it has checkpointed.  A process protects
    regions of memory that do not overlap and calls [checkpoint]: the call
    succeeds.  Later, in a process that protects the same regions, after the loss
    of the scratch file and of the memory, with any other changes to the files as
    long as the persistent copy and its checksum are there, [restart] succeeds,
    every region has the bytes it had at the checkpoint, and no other byte of
    memory has changed. *)
Theorem system_roundtrip (st0 : client_t Q) (b0 : backend_t E) (q0 : client_queue_t command_t.t)
    (f0 : gmap string node) (regions : regions_t) :
  is_sync ccfg = true → queue st0 = (b0, q0) → idle q0 → the_fs st0 = mk_sys f0 [] → ready_files f0 →
  checkpoint_in_progress st0 = false → map_find VELOC_OBSERVE_CKPT_END (observers st0) = None →
  protected st0 CHECKPOINT = regions → regions ≠ [] → zlen regions < 2 ^ 32 →
  ids_ok regions → disjoint_regions regions → Forall (λ e, raw_region (memory st0) e.2) regions →
  8 + 12 * zlen regions + sum_sizes (map (λ e, (e.1, e.2.(size))) regions) ≤ LONG_MAX →
  ∃ st1, checkpoint qc ccfg mpi bufsize name version st0 = (Val true, st1) ∧
  ∀ (st2 : client_t Q) b2 q2 f2,
    queue st2 = (b2, q2) → idle q2 → the_fs st2 = mk_sys f2 [] → checkpoint_in_progress st2 = false →
    f2 !! filename (ckpt_cmd CHECKPOINT) persistent
      = files (the_fs st1) !! filename (ckpt_cmd CHECKPOINT) persistent →
    f2 !! meta_filename (ckpt_cmd CHECKPOINT) meta_dir
      = files (the_fs st1) !! meta_filename (ckpt_cmd CHECKPOINT) meta_dir →
    f2 !! filename (ckpt_cmd CHECKPOINT) scratch_dir = None → is_dir f2 scratch_dir = true →
    protected st2 RESTART = regions → Forall (λ e, raw_region (memory st2) e.2) regions →
    ∃ st3, restart qc ccfg mpi name version (-1) st2 = (Val true, st3) ∧
      (∀ id r, (id, r) ∈ regions →
        load r.(ptr) r.(size) (memory st3) = load r.(ptr) r.(size) (memory st0)) ∧
      (∀ a, (∀ id r, (id, r) ∈ regions → ¬ (r.(ptr) ≤ a < r.(ptr) + r.(size))) →
        memory st3 !! a = memory st2 !! a).
Proof.
  intros Hsync Hq Hi Hs Hready Hp Hobs Hreg Hne Hl32 Hids Hdis Hraw Hmax.
  destruct (snapshot_fits _ _ Hraw Hmax) as (l & Hl & Hmax').
  destruct (system_checkpoint st0 f0 l) as (st1 & Hck & [_ Hf1 _] & _); rewrite ?Hreg; try done.
  { by split; [rewrite Hq| |]. }
  { eapply Forall_impl; [exact Hraw|]. by intros e (_ & [? _] & _). }
  exists st1. split; [done|].
  intros st2 b2 q2 f2 Hq2 Hi2 Hs2 Hp2 Hfp Hfm Hfs Hd Hreg2 Hraw2. rewrite Hf1 in Hfp, Hfm. simpl in Hfp, Hfm.
  rewrite lookup_insert_ne, lookup_insert_eq in Hfp by apply record_not_file.
  rewrite lookup_insert_eq in Hfm.
  apply (restart_snapshot st2 f2 regions (memory st0) l); try done; [by split; [rewrite Hq2| |]|by left].
Qed.
End system.

(** Two processes with the same two protected regions and different memory. *)
Definition demo_system (b : byte) (f : gmap string node) : client_t (backend_t unit * client_queue_t command_t.t) :=
  mk_client (mk_sys f []) (demo_memory b) (demo_backend ∅ ∅ (mk_versioning ∅ ∅), empty_queue)
    {["default" := demo_protected]} [] None false [] 0.
Definition demo_dirs : gmap string node := <["/s" := Dir]> (<["/p" := Dir]> (<["/m" := Dir]> ∅)).

Lemma system_roundtrip_witness :
  let cfg := demo_settings None None true in
  let qc := local_queue [watchdog_method cfg; transfer_method cfg; chksum_method demo_hash cfg true;
    versioning_method (E:=unit) cfg] in
  ∃ st1 st3,
    checkpoint qc demo_cfg single_mpi 4 "ck" 3 (demo_system Byte.x01 demo_dirs) = (Val true, st1) ∧
    restart qc demo_cfg single_mpi "ck" 3 (-1)
      (demo_system Byte.xff (delete "/s/ck-0-3.dat" (files (the_fs st1)))) = (Val true, st3) ∧
    load 100 3 (memory st3) = load 100 3 (demo_memory Byte.x01).
Proof.
  intros cfg qc.
  destruct (system_roundtrip demo_hash demo_hash_size cfg demo_cfg single_mpi 4 "/s" "/p" "/m" "ck" 3
    ltac:(repeat split) ltac:(repeat split; discriminate) ltac:(discriminate)
    ltac:(split; [vm_compute; reflexivity|vm_compute; discriminate])
    ltac:(split; vm_compute; discriminate) ltac:(split; vm_compute; discriminate)
    (demo_system Byte.x01 demo_dirs) (demo_backend ∅ ∅ (mk_versioning ∅ ∅)) empty_queue demo_dirs demo_protected)
    as (st1 & Hck & Hrs);
    [reflexivity|reflexivity|repeat split|reflexivity|repeat split; vm_compute; reflexivity|reflexivity|reflexivity
    |reflexivity|discriminate|reflexivity|apply demo_ids|apply demo_disjoint|apply demo_raw
    |vm_compute; discriminate|].
  assert (files (the_fs (checkpoint qc demo_cfg single_mpi 4 "ck" 3 (demo_system Byte.x01 demo_dirs)).2) !! "/s"
    = Some Dir) as Hd by (vm_compute; reflexivity).
  change (local_queue _) with qc in Hck. rewrite Hck in Hd. cbn [snd] in Hd.
  destruct (Hrs (demo_system Byte.xff (delete "/s/ck-0-3.dat" (files (the_fs st1))))
    (demo_backend ∅ ∅ (mk_versioning ∅ ∅)) empty_queue (delete "/s/ck-0-3.dat" (files (the_fs st1))))
    as (st3 & Hrun & Hload & _);
    [reflexivity|repeat split|reflexivity|reflexivity
    |apply lookup_delete_ne; vm_compute; discriminate|apply lookup_delete_ne; vm_compute; discriminate
    |apply lookup_delete_eq| |reflexivity|apply demo_raw|].
  - unfold is_dir. rewrite lookup_delete_ne by (vm_compute; discriminate). rewrite Hd. reflexivity.
  - exists st1, st3. split; [exact Hck|]. split; [exact Hrun|].
    apply (Hload 1 (mk_region 100 3 None None)). left.
Defined.

(** ** A file that stops the scans *)

Lemma notify_throws {E} ret (f : method_t (E:=E)) ms c b e b' :
  f c b = (Raise e, b') → notify ret (f :: ms) c b = (Raise e, b').
Proof. intros Hf. cbn [notify]. by rewrite (comp_bind_raise _ _ _ _ _ Hf). Qed.

Lemma versioning_test_throws (scratch_dir persistent meta : string) (mv sv : Z) c (e : env) v f n nd re :
  c.(command) = TEST → env_sys e = mk_sys f [] → command_t.regex c.(command_t.name) = Some re →
  is_dir f persistent = true → (n, nd) ∈ entries f persistent → nd ≠ Dir →
  match_ n re = Raise out_of_range →
  ∃ x st', versioning_module_t.process_command (Some (posix_module_t.storage scratch_dir persistent))
    scratch_dir meta mv sv c (e, v) = (Raise x, st').
Proof.
  intros Hc He Hre Hdir Hin Hnd Hm.
  destruct (scan_throws (λ id, id =? unique_id c) persistent (command_t.name c) e f [] n nd re)
    as (x & [e' vs] & Hs); [done..|].
  eexists x, _. unfold versioning_module_t.process_command. rewrite Hc. simpl (TEST =? TEST). cbn iota.
  unfold versioning_module_t.test. erewrite comp_bind_val by done. cbn beta iota.
  apply comp_bind_raise. apply on_ph_run. rewrite entry_set_persistent. exact Hs.
Qed.

(** One file in the persistent directory whose name has a number that does
    not fit an [int] makes every [restart_test] of its checkpoint name hang.  The
    scan throws, the exception ends up in the future of the task, the command is
    never completed, and the client waits for it forever. *)
Theorem system_test_hangs {E : Type} (SHA256 : list byte → list byte) (cfg : settings) (ccfg : client_cfg)
    (mpi : mpi_t) (scratch_dir persistent meta_dir name n : string) (needed_version : Z) (nd : node)
    (re : Regex.regex) (st : client_t (backend_t E * client_queue_t command_t.t)) (b : backend_t E)
    (q : client_queue_t command_t.t) (f : gmap string node) :
  plain_settings cfg scratch_dir persistent meta_dir → validate_name name = true →
  Z.of_nat (String.length name) + 1 ≤ CKPT_NAME_MAX → 0 ≤ needed_version →
  queue st = (b, q) → idle q → the_fs st = mk_sys f [] → is_dir f persistent = true →
  command_t.regex name = Some re → (n, nd) ∈ entries f persistent → nd ≠ Dir →
  match_ n re = Raise out_of_range →
  ∃ st', restart_test (local_queue [watchdog_method cfg; transfer_method cfg;
      chksum_method SHA256 cfg true; versioning_method (E:=E) cfg]) ccfg mpi name needed_version (-1) st
    = (Hang, st').
Proof.
  intros Hcfg Hn Hlen Hv Hq Hi Hs Hdir Hre Hin Hnd Hm. set (qc := local_queue _).
  unfold restart_test. rewrite Hn. destruct (Z.ltb_spec needed_version 0); [lia|]. cbn [negb orb].
  unfold command_t.make.
  destruct (Z.ltb_spec CKPT_NAME_MAX (Z.of_nat (String.length name) + 1)); [lia|]. rewrite stop_bind.
  set (c := command_t.mk _ _ _ _ _ _).
  pose proof (watchdog_off (E:=E) cfg scratch_dir persistent meta_dir Hcfg) as Hw.
  assert (∃ x b', notify_command [watchdog_method cfg; transfer_method cfg; chksum_method SHA256 cfg true;
    versioning_method cfg] c (with_env_sys b (the_fs st)) = (Raise x, b')) as (x & b' & Hnot).
  { unfold notify_command. set (b1 := with_env_sys b (the_fs st)).
    destruct Hcfg as (Hst & Hsc & Hme & _ & Hpi & _).
    destruct (versioning_test_throws scratch_dir persistent (default "" (s_meta cfg))
      (default 0 (s_max_versions cfg)) (default 0 (s_scratch_versions cfg)) c (b_env b1) (b_versioning b1)
      f n nd re) as (x & [e' v'] & Hvt); [done..|].
    rewrite (notify_next _ _ _ _ _ VELOC_IGNORED b1 (Hw c b1)) by done.
    rewrite (notify_next _ _ _ _ _ VELOC_IGNORED b1);
      [|unfold transfer_method; rewrite Hst, Hpi; by destruct b1|done].
    rewrite (notify_next _ _ _ _ _ VELOC_IGNORED b1);
      [|unfold chksum_method, get_meta; rewrite Hme, ret_bind; by destruct b1|done].
    eexists x, _. apply notify_throws. unfold versioning_method. rewrite Hst, Hsc.
    by apply (on_versioning_run _ b1). }
  destruct (command_throws _ c (the_fs st) b q x b' Hi Hnot) as ([s' q'] & Hwait). fold qc in Hwait.
  assert (∃ st', run_blocking qc c st = (Hang, st')) as [st' Hrun].
  { unfold run_blocking. erewrite comp_bind_val.
    2:{ apply (on_queue_run _ st). rewrite Hq. reflexivity. }
    cbn beta. eexists. eapply (on_queue_run (Client.wait_completion qc)). exact Hwait. }
  exists st'. unfold mbind, comp_bind. by rewrite Hrun.
Qed.

Lemma system_test_hangs_witness :
  let cfg := demo_settings None None true in
  let f := <["/p/ck-0-4294967296.dat" := Reg demo_data]> demo_dirs in
  ∃ st', restart_test (local_queue [watchdog_method cfg; transfer_method cfg;
      chksum_method demo_hash cfg true; versioning_method (E:=unit) cfg]) demo_cfg single_mpi "ck" 5 (-1)
      (demo_system Byte.x01 f) = (Hang, st').
Proof.
  intros cfg f. destruct (command_t.regex "ck") as [re|] eqn:Hre; [|vm_compute in Hre; discriminate Hre].
  apply (system_test_hangs demo_hash cfg demo_cfg single_mpi "/s" "/p" "/m" "ck" "ck-0-4294967296.dat" 5
    (Reg demo_data) re (demo_system Byte.x01 f) (demo_backend ∅ ∅ (mk_versioning ∅ ∅)) empty_queue f);
    [repeat split|vm_compute; reflexivity|vm_compute; discriminate|vm_compute; discriminate
    |reflexivity|repeat split|reflexivity|vm_compute; reflexivity|exact Hre| |discriminate|].
  - apply entries_elem. split; vm_compute; reflexivity.
  - vm_compute in Hre. injection Hre as <-. vm_compute. reflexivity.
Defined.
