(* ===== verification/Async.v ===== *)
(** * Async: asynchronous mode

    The client with a backend that is another process: [checkpoint] returns once
    the scratch file is written and the command is in the queue, the application
    goes on, and the backend executes the command in the meantime
    ([src/backend/work_queue.cpp]).  The steps of the two are interleaved; the work
    of a task on the files is one step.  The main loop sleeps on [pending_cond] when
    it finds no element ([dequeue_any] of [src/common/ipc_queue.hpp]), and
    [enqueue] notifies it after the change of the queue.  While a client waits, only
    the backend takes steps; the sleep of the client itself is that of [IpcQueue],
    the bound on the tasks that of [WorkQueue]. *)

From stdpp Require Import relations.
From S2P Require Import Prelude Text Command FileSystem Containers FileUtil Bytes Storage Streams Header.
From S2P Require Import Client Versioning Environment Transfer Chksum Manager Queue IpcQueue WorkQueue System.

Local Open Scope Z_scope.

Import command_t module_manager_t work_queue.

(** The client's end of the queue, the backend at work somewhere else: a wait
    returns when nothing is outstanding, and is blocked ([Hang]) until then. *)
Definition shared_queue {E} : comm_client_t (backend_t E * client_queue_t command_t.t) := {|
  Client.enqueue c := λ '(s, (b, q)), (Val tt, (s, (b, ipc_queue.enqueue c q)));
  Client.wait_completion := λ '(s, (b, q)),
    match ipc_queue.wait_completion true q with
    | Some (r, q') => (Val r, (s, (b, q')))
    | None => (Hang, (s, (b, q)))
    end;
  Client.check_completion := λ '(s, (b, q)), (Val (ipc_queue.check_completion q), (s, (b, q)))
|}.

(** The application with its queue, the position of the main loop, and whether
    the last [enqueue] has notified it. *)
Record async_t (E : Type) := mk_async {
  app : client_t (backend_t E * client_queue_t command_t.t);
  position : loop_pc;
  announced : bool
}.
Arguments mk_async {E} _ _ _.
Arguments app {E} _.
Arguments position {E} _.
Arguments announced {E} _.

Section steps.
Context {E : Type} (modules : list (method_t (E:=E))) (ccfg : client_cfg).
Abbreviation Q := (backend_t E * client_queue_t command_t.t)%type.
Abbreviation client := (client_t Q).

Definition set_backend (s : sys) (q : Q) (st : client) : client :=
  mk_client s (memory st) q (mem_regions st) (observers st) (current_ckpt st) (checkpoint_in_progress st)
    (region_info st) (header_size st).

(** The backend: the main loop takes a command and gives it a task, or finds none
    and goes to sleep; a task calls the modules and the completion.  (A task that
    throws has no step: its command is never completed.) *)
Inductive main_loop_step (x : async_t E) : async_t E → Prop :=
| task_starts c it q' :
    position x = Scanning → ipc_queue.dequeue (queue (app x)).2 = Some (c, it, q') →
    main_loop_step x
      (mk_async (set_backend (the_fs (app x)) ((queue (app x)).1, q') (app x)) (position x) (announced x))
| loop_sleeps y :
    task_loop.fall_asleep (mk_loop [(queue (app x)).2] [] (position x) 0) = Some y →
    main_loop_step x (mk_async (app x) (at_ y) (announced x))
| task_ends c it r b' q' :
    (it, c) ∈ progress (queue (app x)).2 →
    notify_command modules c (with_env_sys (queue (app x)).1 (the_fs (app x))) = (Val r, b') →
    ipc_queue.set_completion it r (queue (app x)).2 = Some (c, q') →
    main_loop_step x (mk_async (set_backend (env_sys (b_env b')) (b', q') (app x)) (position x) (announced x)).

(** The application: [enqueue] notifies the backend; then the application
    computes, protects other memory, and asks whether its checkpoint is finished. *)
Inductive app_step (x : async_t E) : async_t E → Prop :=
| app_notifies :
    announced x = false → app_step x (mk_async (app x) (task_loop.wake_up (position x)) true)
| app_works m regs :
    announced x = true →
    app_step x (mk_async (set_regions regs (set_memory m (app x))) (position x) true)
| app_polls b st' :
    announced x = true → checkpoint_finished shared_queue ccfg (app x) = (Val b, st') →
    app_step x (mk_async st' (position x) true).

Definition async_step (x y : async_t E) : Prop := app_step x y ∨ main_loop_step x y.

(** The notification does not come between a test that finds no element and the
    sleep. *)
Definition timely_step (x y : async_t E) : Prop :=
  async_step x y ∧ (position x = Missed → announced y = announced x).

(** [checkpoint_wait] while the backend works, with its result. *)
Definition async_wait (x : async_t E) (b : bool) (st' : client) : Prop :=
  announced x = true ∧
  ∃ y, rtc main_loop_step x y ∧ checkpoint_wait shared_queue (app y) = (Val b, st').

(** *** The backend comes to rest *)

Definition backlog (x : async_t E) : nat :=
  2 * length (pending (queue (app x)).2) + length (progress (queue (app x)).2) +
  match position x with Scanning => 2 | Missed => 1 | _ => 0 end.

Lemma backlog_decreases x y : main_loop_step x y → (backlog y < backlog x)%nat.
Proof.
  intros [c it q' Hpos Hd|y' Hs|c it r b' q' Hin Hn Hc]; unfold backlog; simpl.
  - unfold ipc_queue.dequeue in Hd. destruct (pending (queue (app x)).2) as [|e rest]; simplify_eq/=.
    rewrite length_app. simpl. lia.
  - apply fall_asleep_some in Hs as (_ & _ & _ & [(H1 & H2 & _)|(H1 & H2)]); simpl in H1; rewrite H1, H2; lia.
  - unfold ipc_queue.set_completion in Hc.
    destruct (erase it (progress (queue (app x)).2)) as [[e rest]|] eqn:He; [|done].
    simpl in Hc. simplify_eq/=. apply erase_perm, Permutation_length in He. simpl in He. lia.
Qed.

Lemma backend_rests x : sn main_loop_step x.
Proof. apply (sn_measure _ backlog), backlog_decreases. Qed.

End steps.

(** ** A checkpoint in the background *)

Section async.
Context {E : Type} (SHA256 : list byte → list byte).
Hypothesis SHA256_size : ∀ d, zlen (SHA256 d) = chksum_module_t.HASH_SIZE.
Variables (cfg : settings) (ccfg : client_cfg) (mpi : mpi_t) (bufsize : Z).
Variables (scratch_dir persistent meta_dir name : string) (version : Z).
Hypothesis Hcfg : plain_settings cfg scratch_dir persistent meta_dir.
Hypothesis Hccfg : ccfg.(scratch) = scratch_dir ∧ aggregated ccfg = false ∧ (comm_set ccfg = true → alone mpi).
Hypothesis Hasync : is_sync ccfg = false.
Hypothesis Hdirs : scratch_dir ≠ persistent.
Hypothesis Hname : validate_name name = true ∧ Z.of_nat (String.length name) + 1 ≤ CKPT_NAME_MAX.
Hypothesis Hversion : 0 ≤ version ≤ INT_MAX.
Hypothesis Hrank : 0 ≤ rank ccfg ≤ INT_MAX.

Abbreviation ms := [watchdog_method cfg; transfer_method cfg; chksum_method SHA256 cfg true;
  versioning_method (E:=E) cfg].
Abbreviation qc := (local_queue ms).
Abbreviation client := (client_t (backend_t E * client_queue_t command_t.t)).
Abbreviation cmd := (ckpt_cmd ccfg name version).

Lemma checkpoint_end_async (st : client) c :
  current_ckpt st = Some c → map_find VELOC_OBSERVE_CKPT_END (observers st) = None →
  ∃ st', checkpoint_end shared_queue ccfg mpi true st = (Val true, st') ∧ the_fs st' = the_fs st ∧
    queue st' = ((queue st).1, ipc_queue.enqueue c (queue st).2) ∧ checkpoint_in_progress st' = false ∧
    same_app st st' ∧ mem_regions st' = mem_regions st.
Proof.
  intros Hc Ho. destruct Hccfg as (_ & Hagg & _). destruct (queue st) as [b q] eqn:Hq.
  unfold checkpoint_end. rewrite get_bind, Hc, Hagg. unfold submit. rewrite modify_bind.
  erewrite comp_bind_val.
  2:{ apply (on_queue_run _ (set_in_progress false st)). simpl (queue _). rewrite Hq. reflexivity. }
  cbn beta. erewrite comp_bind_val by (unfold notify_observers; rewrite get_bind; simpl (observers _); by rewrite Ho).
  rewrite Hasync. eexists. split; [reflexivity|]. done.
Qed.

(** The files with the scratch file of [l], and with what the backend adds. *)
Definition written (f : gmap string node) (l : list (Z * list byte)) : gmap string node :=
  <[filename (cmd CHECKPOINT) scratch_dir := Reg (ckpt_file l)]> f.
Definition persisted (f : gmap string node) (l : list (Z * list byte)) : gmap string node :=
  <[meta_filename (cmd CHECKPOINT) meta_dir := Reg (SHA256 (ckpt_file l))]>
    (<[filename (cmd CHECKPOINT) persistent := Reg (ckpt_file l)]> (written f l)).

(** How far the checkpoint is. *)
Inductive phase := Queued | Running | Finished.
#[export] Instance phase_eq_dec : EqDecision phase.
Proof. solve_decision. Defined.

Record at_phase (f : gmap string node) (l : list (Z * list byte)) (p : phase) (st : client) : Prop := {
  phase_files : the_fs st = mk_sys (match p with Finished => persisted f l | _ => written f l end) [];
  phase_queue : match p with
    | Queued => ∃ n, (queue st).2 = mk_queue VELOC_SUCCESS [cmd CHECKPOINT] [] n
    | Running => ∃ n, (queue st).2 = mk_queue VELOC_SUCCESS [] [(n, cmd CHECKPOINT)] (S n)
    | Finished => idle (queue st).2
    end;
  phase_free : checkpoint_in_progress st = false
}.

Lemma finished_iff f l p st :
  at_phase f l p st →
  checkpoint_finished shared_queue ccfg st = (Val (match p with Finished => true | _ => false end), st).
Proof.
  intros [_ Hq Hf]. unfold checkpoint_finished. rewrite get_bind, Hasync, Hf.
  destruct (queue st) as [b q] eqn:Hqs. simpl in Hq.
  assert (ipc_queue.check_completion q = match p with Finished => true | _ => false end) as Hc.
  { destruct p; [destruct Hq as [n ->]|destruct Hq as [n ->]|destruct Hq as (H1 & H2 & _)]; [done..|].
    unfold ipc_queue.check_completion. by rewrite H1, H2. }
  rewrite (on_queue_run _ st (Val (ipc_queue.check_completion q)) (the_fs st) (b, q)) by (by rewrite Hqs).
  rewrite Hc. by destruct st; simpl in *; subst.
Qed.

Lemma app_phase f l p x y : at_phase f l p (app x) → app_step ccfg x y → at_phase f l p (app y).
Proof.
  intros Hp [Ha|m regs Ha|b st1 Ha Hr]; [done|by destruct Hp; split|].
  rewrite (finished_iff _ _ _ _ Hp) in Hr. by simplify_eq.
Qed.

(** A step of the backend: the main loop goes to sleep, which it does not do when
    the command is there to be found, or the checkpoint comes to its next phase. *)
Lemma backend_phase f l p x y :
  ready_files ccfg scratch_dir persistent meta_dir name version f → zlen (ckpt_file l) ≤ LONG_MAX →
  at_phase f l p (app x) → main_loop_step ms x y →
  announced y = announced x ∧
  ((app y = app x ∧ (p = Queued → position x ≠ Scanning) ∧ position y ≠ Waiting_front) ∨
   (position y = position x ∧ same_app (app x) (app y) ∧
    match p with
    | Queued => at_phase f l Running (app y)
    | Running => at_phase f l Finished (app y)
    | Finished => False
    end)).
Proof.
  intros Hr Hmax [Hs Hq Hf] Hstep. destruct (queue (app x)) as [b q] eqn:Hqs. simpl in Hq.
  destruct Hstep as [c it q' Hpos Hd|z Hz|c it r b' q' Hin Hn Hc]; rewrite Hqs in *; simpl in *; (split; [done|]).
  - right. do 2 (split; [done|]). unfold ipc_queue.dequeue in Hd.
    destruct p; [destruct Hq as [n ->]|destruct Hq as [n ->]|destruct Hq as (Hq1 & _)]; simplify_eq/=.
    + split; simpl; [done|by eexists|done].
    + by rewrite Hq1 in Hd.
  - left. split; [done|]. apply fall_asleep_some in Hz as (_ & _ & _ & [(Hx & Hy & Hall)|(Hx & Hy)]);
      simpl in *; rewrite Hx, Hy; (split; [|done]); [|done].
    intros ->. destruct Hq as [n ->]. by apply Forall_cons in Hall as [? _].
  - right. do 2 (split; [done|]).
    destruct p; [destruct Hq as [n ->]|destruct Hq as [n ->]|destruct Hq as (_ & Hq2 & _)]; simpl in *.
    + by apply elem_of_nil in Hin.
    + apply list_elem_of_singleton in Hin as [= -> ->].
      destruct (backend_checkpoint SHA256 cfg ccfg scratch_dir persistent meta_dir name version Hcfg Hdirs Hname
        Hversion Hrank (with_env_sys b (the_fs (app x))) f l Hr Hmax Hs) as (b2 & Hn2 & Hb2).
      rewrite Hn2 in Hn. simplify_eq. unfold ipc_queue.set_completion in Hc. simpl in Hc.
      rewrite decide_True in Hc by done. simplify_eq/=. split; simpl; [exact Hb2|done|done].
    + rewrite Hq2 in Hin. by apply elem_of_nil in Hin.
Qed.

(** Whatever happens, the checkpoint is in one of its phases. *)
Definition underway (f : gmap string node) (l : list (Z * list byte)) (x : async_t E) : Prop :=
  ∃ p, at_phase f l p (app x).

Lemma backend_underway f l x y :
  ready_files ccfg scratch_dir persistent meta_dir name version f → zlen (ckpt_file l) ≤ LONG_MAX →
  underway f l x → main_loop_step ms x y → underway f l y ∧ same_app (app x) (app y).
Proof.
  intros Hr Hmax [p Hp] Hs.
  destruct (backend_phase f l p x y Hr Hmax Hp Hs) as (_ & [(Happ & _)|(_ & Hsame & Hy)]).
  - unfold underway. rewrite Happ. split; [by eauto|done].
  - split; [|done]. destruct p; [by eexists..|done].
Qed.

Lemma backend_reaches f l x y :
  ready_files ccfg scratch_dir persistent meta_dir name version f → zlen (ckpt_file l) ≤ LONG_MAX →
  underway f l x → rtc (main_loop_step ms) x y → underway f l y ∧ same_app (app x) (app y).
Proof.
  intros Hr Hmax Hu Hxy. induction Hxy as [x|x y z H1 _ IH]; [done|].
  destruct (backend_underway f l x y Hr Hmax Hu H1) as [Hy [Hm Ho]].
  destruct (IH Hy) as [? [Hm' Ho']]. split; [done|]. split; congruence.
Qed.

Lemma async_underway f l x y :
  ready_files ccfg scratch_dir persistent meta_dir name version f → zlen (ckpt_file l) ≤ LONG_MAX →
  underway f l x → rtc (async_step ms ccfg) x y → underway f l y.
Proof.
  intros Hr Hmax Hu Hxy. induction Hxy as [x|x y z [Hs|Hs] _ IH]; [done|apply IH..].
  - destruct Hu as [p Hp]. exists p. by eapply app_phase.
  - by eapply backend_underway.
Qed.

(** With timely notifications, the main loop does not sleep over the command. *)
Definition attended (f : gmap string node) (l : list (Z * list byte)) (x : async_t E) : Prop :=
  position x ≠ Waiting_front ∧
  ∃ p, at_phase f l p (app x) ∧ (p = Queued → announced x = true → position x = Scanning).

Lemma backend_attended f l x y :
  ready_files ccfg scratch_dir persistent meta_dir name version f → zlen (ckpt_file l) ≤ LONG_MAX →
  attended f l x → main_loop_step ms x y → attended f l y.
Proof.
  intros Hr Hmax (Hw & p & Hp & Hatt) Hs.
  destruct (backend_phase f l p x y Hr Hmax Hp Hs) as (Ha & [(Happ & Hsc & Hw')|(Hpos & _ & Hy)]).
  - split; [done|]. exists p. rewrite Happ, Ha. split; [done|]. intros -> Han.
    by destruct (Hsc eq_refl (Hatt eq_refl Han)).
  - split; [by rewrite Hpos|]. destruct p; [by exists Running|by exists Finished|done].
Qed.

Lemma timely_attended f l x y :
  ready_files ccfg scratch_dir persistent meta_dir name version f → zlen (ckpt_file l) ≤ LONG_MAX →
  attended f l x → rtc (timely_step ms ccfg) x y → attended f l y.
Proof.
  intros Hr Hmax Hatt Hxy. induction Hxy as [x|x y z [[Hs|Hs] Htime] _ IH]; [done|apply IH..].
  - destruct Hatt as (Hw & p & Hp & Hatt). pose proof (app_phase _ _ _ _ _ Hp Hs) as Hp'.
    destruct Hs as [Ha|m regs Ha|b st1 Ha Hr']; simpl in *.
    + assert (task_loop.wake_up (position x) = Scanning) as Hwake.
      { destruct (position x); [done| |done..]. specialize (Htime eq_refl). by rewrite Ha in Htime. }
      split; simpl; rewrite Hwake; [done|]. by exists p.
    + split; [done|]. exists p. split; [done|]. intros Hq _. by apply Hatt.
    + split; [done|]. exists p. split; [done|]. intros Hq _. by apply Hatt.
  - by eapply backend_attended.
Qed.

(** The backend then comes to the end of the checkpoint. *)
Lemma phase_advances f l x :
  ready_files ccfg scratch_dir persistent meta_dir name version f → zlen (ckpt_file l) ≤ LONG_MAX →
  attended f l x → announced x = true → ¬ at_phase f l Finished (app x) → ∃ y, main_loop_step ms x y.
Proof.
  intros Hr Hmax (_ & p & Hp & Hatt) Ha Hn. pose proof Hp as [Hs Hq Hf].
  destruct p; [..|done]; destruct Hq as [n Hq].
  - eexists. eapply task_starts; [by apply Hatt|]. rewrite Hq. reflexivity.
  - destruct (backend_checkpoint SHA256 cfg ccfg scratch_dir persistent meta_dir name version Hcfg Hdirs Hname
      Hversion Hrank (with_env_sys (queue (app x)).1 (the_fs (app x))) f l Hr Hmax Hs) as (b2 & Hn2 & _).
    eexists. eapply task_ends; [|exact Hn2|]; rewrite Hq; [by left|].
    unfold ipc_queue.set_completion. simpl. by rewrite decide_True.
Qed.

(** A wait returns exactly at the end. *)
Lemma wait_phase f l p st b st' :
  at_phase f l p st → checkpoint_wait shared_queue st = (Val b, st') →
  p = Finished ∧ b = true ∧ the_fs st' = mk_sys (persisted f l) [] ∧ same_app st st'.
Proof.
  intros [Hs Hq Hf] Hw. unfold checkpoint_wait in Hw. rewrite get_bind, Hf, comp_bind_unfold in Hw.
  unfold on_queue in Hw. destruct (queue st) as [b0 q] eqn:Hqs. simpl in Hq, Hw.
  destruct p; [destruct Hq as [n ->]|destruct Hq as [n ->]|destruct Hq as (H1 & H2 & H3)]; [done..|].
  unfold ipc_queue.wait_completion in Hw. rewrite H1, H2, H3 in Hw. simpl in Hw. injection Hw as <- <-. done.
Qed.

Lemma finished_wait f l st :
  at_phase f l Finished st → ∃ st', checkpoint_wait shared_queue st = (Val true, st').
Proof.
  intros [Hs (H1 & H2 & H3) Hf]. unfold checkpoint_wait. rewrite get_bind, Hf, comp_bind_unfold.
  unfold on_queue. destruct (queue st) as [b q]. simpl in *.
  unfold ipc_queue.wait_completion. rewrite H1, H2, H3. simpl. by eexists.
Qed.

Lemma backend_finishes f l x :
  ready_files ccfg scratch_dir persistent meta_dir name version f → zlen (ckpt_file l) ≤ LONG_MAX →
  attended f l x → announced x = true →
  ∃ y, rtc (main_loop_step ms) x y ∧ ∃ st', checkpoint_wait shared_queue (app y) = (Val true, st').
Proof.
  intros Hr Hmax. induction (backend_rests ms x) as [x _ IH]. intros Hatt Ha.
  pose proof Hatt as (_ & p & Hp & _). destruct (decide (p = Finished)) as [->|Hn].
  - exists x. split; [apply rtc_refl|]. by eapply finished_wait.
  - destruct (phase_advances f l x Hr Hmax Hatt Ha) as [y Hs].
    { intros Hfin. destruct Hp as [_ Hq _], Hfin as [_ (H1 & H2 & _) _].
      destruct p; [..|done]; destruct Hq as [n Hq]; by rewrite Hq in *. }
    destruct (IH y Hs) as (z & Hz & Hw); [by eapply backend_attended|
      by destruct (backend_phase f l p x y Hr Hmax Hp Hs) as (-> & _)|].
    exists z. split; [by eapply rtc_l|done].
Qed.

(** A checkpoint puts its command into the queue. *)
Lemma checkpoint_queued (st0 : client) f l :
  quiet st0 f → ready_files ccfg scratch_dir persistent meta_dir name version f →
  map_find VELOC_OBSERVE_CKPT_END (observers st0) = None →
  System.protected ccfg name version st0 CHECKPOINT ≠ [] →
  Forall (λ e, 0 ≤ e.2.(size)) (System.protected ccfg name version st0 CHECKPOINT) →
  snapshot (System.protected ccfg name version st0 CHECKPOINT) (memory st0) = Some l →
  zlen (ckpt_file l) ≤ LONG_MAX →
  ∃ st1, checkpoint shared_queue ccfg mpi bufsize name version st0 = (Val true, st1) ∧ at_phase f l Queued st1.
Proof.
  intros [Hi Hs Hp] Hready Hobs Hne Hsz Hl Hmax.
  destruct (checkpoint_scratch ccfg mpi bufsize scratch_dir persistent meta_dir name version Hccfg
    Hname Hversion Hrank shared_queue st0 f l (queue st0)) as (st3 & Hck & Hq3 & Hs3 & Hc3 & [_ Ho3] & _); try done.
  { destruct (queue st0) as [b [qs qp qr qn]]. destruct Hi as (E1 & E2 & E3). simpl in *. by subst. }
  destruct (checkpoint_end_async st3 _ Hc3) as (st1 & Hend & Hs1 & Hq1 & Hp1 & _); [by rewrite Ho3|].
  exists st1. split; [by rewrite Hck|]. split; [by rewrite Hs1|rewrite Hq1, Hq3; simpl|done].
  destruct (queue st0).2 as [qs qp qr qn]. destruct Hi as (E1 & E2 & E3). simpl in *. subst. by eexists.
Qed.

(** C3: a checkpoint in the background.  In asynchronous mode [checkpoint] returns
    with success as soon as the scratch file is written and the command is in the
    queue, wherever the main loop of the backend is.  From there on the application
    may compute, overwrite the protected memory and protect other memory, and ask
    whether the checkpoint is finished, in every interleaving with the backend.  The
    backend does not run forever; [checkpoint_finished] says true only when a wait
    returns at once; a wait that returns does so with success, and afterwards, in
    another process and after the loss of the scratch file, a restart gives the
    regions the bytes that they had at the time of the checkpoint.  A wait can
    return at every moment provided that the notification of [enqueue] does not
    come between a test of the main loop that finds no command and its sleep (it
    would be lost, and the command with it). *)
Theorem async_roundtrip (st0 : client) (f0 : gmap string node) (regions : regions_t) :
  quiet st0 f0 → ready_files ccfg scratch_dir persistent meta_dir name version f0 →
  map_find VELOC_OBSERVE_CKPT_END (observers st0) = None →
  System.protected ccfg name version st0 CHECKPOINT = regions → regions ≠ [] → zlen regions < 2 ^ 32 →
  ids_ok regions → disjoint_regions regions → Forall (λ e, raw_region (memory st0) e.2) regions →
  8 + 12 * zlen regions + sum_sizes (map (λ e, (e.1, e.2.(size))) regions) ≤ LONG_MAX →
  ∃ st1, checkpoint shared_queue ccfg mpi bufsize name version st0 = (Val true, st1) ∧
  ∀ pc x, pc ≠ Waiting_front → rtc (async_step ms ccfg) (mk_async st1 pc false) x →
    sn (main_loop_step ms) x ∧
    (rtc (timely_step ms ccfg) (mk_async st1 pc false) x → announced x = true →
      ∃ st3, async_wait ms x true st3) ∧
    (∃ b, checkpoint_finished shared_queue ccfg (app x) = (Val b, app x) ∧
      (b = true → ∃ st3, checkpoint_wait shared_queue (app x) = (Val true, st3))) ∧
    ∀ b st3, async_wait ms x b st3 → b = true ∧ memory st3 = memory (app x) ∧
    ∀ (st4 : client) f4,
      quiet st4 f4 →
      f4 !! filename (cmd CHECKPOINT) persistent = files (the_fs st3) !! filename (cmd CHECKPOINT) persistent →
      f4 !! meta_filename (cmd CHECKPOINT) meta_dir
        = files (the_fs st3) !! meta_filename (cmd CHECKPOINT) meta_dir →
      f4 !! filename (cmd CHECKPOINT) scratch_dir = None → is_dir f4 scratch_dir = true →
      System.protected ccfg name version st4 RESTART = regions →
      Forall (λ e, raw_region (memory st4) e.2) regions →
      ∃ st5, restart qc ccfg mpi name version (-1) st4 = (Val true, st5) ∧
        (∀ id r, (id, r) ∈ regions →
          load r.(ptr) r.(size) (memory st5) = load r.(ptr) r.(size) (memory st0)) ∧
        (∀ a, (∀ id r, (id, r) ∈ regions → ¬ (r.(ptr) ≤ a < r.(ptr) + r.(size))) →
          memory st5 !! a = memory st4 !! a).
Proof.
  intros Hq0 Hready Hobs Hreg Hne Hl32 Hids Hdis Hraw Hsize. pose proof Hq0 as [Hi0 Hs0 Hp0].
  destruct (snapshot_fits _ _ Hraw Hsize) as (l & Hl & Hmax).
  destruct (checkpoint_queued st0 f0 l) as (st1 & Hck & Hph1); rewrite ?Hreg; try done.
  { eapply Forall_impl; [exact Hraw|]. by intros e (_ & [? _] & _). }
  exists st1. split; [done|]. intros pc x Hpc Hx.
  assert (underway f0 l x) as Hu by (apply (async_underway f0 l (mk_async st1 pc false) x); [done|done|by exists Queued|exact Hx]).
  split; [apply backend_rests|]. split; [|split].
  - intros Ht Ha. destruct (backend_finishes f0 l x Hready Hmax) as (y & Hxy & st3 & Hw); [|done|].
    + apply (timely_attended f0 l (mk_async st1 pc false) x); [done|done| |exact Ht].
      split; [done|]. by exists Queued.
    + exists st3. by split; [|exists y].
  - destruct Hu as [p Hp]. exists (match p with Finished => true | _ => false end).
    split; [by eapply finished_iff|]. destruct p; [done..|]. intros _. by eapply finished_wait.
  - intros b st3 (_ & y & Hxy & Hw). destruct (backend_reaches f0 l x y Hready Hmax Hu Hxy) as [[p' Hp'] [Hm _]].
    destruct (wait_phase _ _ _ _ _ _ Hp' Hw) as (_ & -> & Hf & [Hm' _]).
    split; [done|]. split; [congruence|]. intros st4 f4 Hq4 Hfp Hfm Hfs Hd Hreg4 Hraw4.
    rewrite Hf in Hfp, Hfm. unfold persisted in Hfp, Hfm. simpl in Hfp, Hfm.
    rewrite lookup_insert_ne, lookup_insert_eq in Hfp by apply record_not_file. rewrite lookup_insert_eq in Hfm.
    apply (restart_snapshot SHA256 SHA256_size cfg ccfg mpi scratch_dir persistent meta_dir name version Hcfg Hccfg
      Hdirs Hname Hversion Hrank st4 f4 regions (memory st0) l); try done. by left.
Qed.

(** The condition is needed: a notification that comes between the test and the
    sleep is lost, and the command of the checkpoint stays in the queue; a wait
    never returns. *)
Theorem async_notification_lost f l (st : client) :
  at_phase f l Queued st →
  rtc (async_step ms ccfg) (mk_async st Missed false) (mk_async st Sleeping true) ∧
  (∀ y, ¬ main_loop_step ms (mk_async st Sleeping true) y) ∧
  ∀ b st', ¬ async_wait ms (mk_async st Sleeping true) b st'.
Proof.
  intros Hp. pose proof Hp as [_ [n Hq] _].
  assert (∀ y, ¬ main_loop_step ms (mk_async st Sleeping true) y) as Hstuck.
  { intros y [c it q' Hpos _|z Hz|c it r b' q' Hin _ _]; simpl in *; [done| |].
    - by apply fall_asleep_some in Hz as (_ & _ & _ & [(Hx & _)|(Hx & _)]).
    - rewrite Hq in Hin. by apply elem_of_nil in Hin. }
  split; [|split; [exact Hstuck|]].
  - eapply rtc_l; [left; by apply app_notifies|]. apply rtc_once. right.
    apply (loop_sleeps ms (mk_async st Missed true) (mk_loop [(queue st).2] [] Sleeping 0)). simpl.
    by destruct (pending (queue st).2).
  - intros b st' (_ & y & Hy & Hw). inversion Hy as [|? ? ? Hs]; subst; [|by eapply Hstuck].
    by apply (wait_phase _ _ _ _ _ _ Hp) in Hw as [? _].
Qed.

(** *** A failure that is reported too late *)

(** The status of a checkpoint that failed in the background, and for which nobody
    has waited, becomes the answer to the next command that the client waits for:
    [restart_test] reports a failure although there is a version, and
    [restart_begin] fails although the backend has made the file available. *)
Theorem async_failure_leaks (st : client) (n : nat) (r1 r2 : Z) (b1 b2 : backend_t E) :
  (queue st).2 = mk_queue VELOC_FAILURE [] [] n → checkpoint_in_progress st = false →
  notify_command ms (cmd TEST) (with_env_sys (queue st).1 (the_fs st)) = (Val r1, b1) → 0 ≤ r1 →
  notify_command ms (cmd RESTART) (with_env_sys (queue st).1 (the_fs st)) = (Val r2, b2) → r2 = VELOC_SUCCESS →
  (∃ st', restart_test qc ccfg mpi name version (-1) st = (Val VELOC_FAILURE, st')) ∧
  (∃ st', restart_begin qc ccfg mpi name version (-1) st = (Val false, st')).
Proof.
  intros Hq Hp Hn1 Hr1 Hn2 ->. destruct Hname as [Hv _]. destruct Hccfg as (_ & _ & Hcomm).
  pose proof (make_cmd ccfg name version Hname) as Hmake. split.
  - unfold restart_test. rewrite Hv. destruct (Z.ltb_spec version 0); [lia|]. cbn [negb orb].
    rewrite Hmake, stop_bind.
    destruct (run_blocking_status SHA256 cfg st (cmd TEST) VELOC_FAILURE n r1 b1 Hq Hn1) as (q' & _ & Hrun).
    rewrite (comp_bind_val _ _ _ _ _ Hrun).
    assert (merge_status VELOC_FAILURE r1 = VELOC_FAILURE) as ->
      by (unfold merge_status, VELOC_FAILURE; cbn; lia).
    unfold mret, comp_ret. destruct (comm_set ccfg); [|by eexists]. destruct (Hcomm eq_refl) as [-> _]. by eexists.
  - unfold restart_begin. rewrite get_bind, Hp, Hv. destruct (Z.ltb_spec version 0); [lia|]. cbn [negb orb].
    rewrite Hmake, stop_bind, modify_bind.
    destruct (run_blocking_status SHA256 cfg (set_current (Some (cmd RESTART)) st) (cmd RESTART) VELOC_FAILURE n
      VELOC_SUCCESS b2 Hq Hn2) as (q' & _ & Hrun).
    rewrite (comp_bind_val _ _ _ _ _ Hrun). cbn zeta beta.
    assert ((if comm_set ccfg then MPI_Allreduce_lor mpi (merge_status VELOC_FAILURE VELOC_SUCCESS)
      else merge_status VELOC_FAILURE VELOC_SUCCESS) =? VELOC_SUCCESS = false) as ->.
    { destruct (comm_set ccfg); [|done]. destruct (Hcomm eq_refl) as [_ ->]. done. }
    by eexists.
Qed.

End async.

(** ** Instances *)

Definition demo_async : client_cfg := {|
  scratch := "/s"; meta := Some "/m"; is_sync := false; aggregated := false; comm_set := false;
  rank := 0; no_ranks := 1
|}.

Lemma demo_plain : plain_settings (demo_settings None None true) "/s" "/p" "/m".
Proof. repeat split. Qed.
Lemma demo_async_cfg : scratch demo_async = "/s" ∧ aggregated demo_async = false ∧
  (comm_set demo_async = true → alone single_mpi).
Proof. repeat split; discriminate. Qed.
Lemma demo_name : validate_name "ck" = true ∧ Z.of_nat (String.length "ck") + 1 ≤ CKPT_NAME_MAX.
Proof. split; vm_compute; [reflexivity|discriminate]. Qed.
Lemma demo_int z : 0 ≤ z ≤ 7 → 0 ≤ z ≤ INT_MAX.
Proof. unfold INT_MAX. lia. Qed.

Abbreviation demo_modules := [watchdog_method (demo_settings None None true);
  transfer_method (demo_settings None None true); chksum_method demo_hash (demo_settings None None true) true;
  versioning_method (E:=unit) (demo_settings None None true)].

(** The application is notified to a sleeping backend, then overwrites the
    memory. *)
Lemma demo_overwrites (st1 : client_t (backend_t unit * client_queue_t command_t.t)) :
  rtc (timely_step demo_modules demo_async) (mk_async st1 Sleeping false)
    (mk_async (set_regions (mem_regions st1) (set_memory (demo_memory Byte.xff) st1)) Scanning true).
Proof.
  apply rtc_l with (mk_async st1 Scanning true);
    [split; [left; by apply app_notifies|done]|apply rtc_once; split; [left; by apply app_works|done]].
Qed.

Lemma async_roundtrip_witness :
  ∃ st1 st3 st5, checkpoint shared_queue demo_async single_mpi 4 "ck" 3 (demo_system Byte.x01 demo_dirs)
      = (Val true, st1) ∧
    async_wait demo_modules (mk_async (set_regions (mem_regions st1) (set_memory (demo_memory Byte.xff) st1))
      Scanning true) true st3 ∧
    restart (local_queue demo_modules) demo_async single_mpi "ck" 3 (-1)
      (demo_system Byte.xff (<["/s" := Dir]> (delete "/s/ck-0-3.dat" (files (the_fs st3))))) = (Val true, st5) ∧
    load 100 3 (memory st5) = load 100 3 (demo_memory Byte.x01).
Proof.
  destruct (async_roundtrip demo_hash demo_hash_size (demo_settings None None true) demo_async single_mpi 4
    "/s" "/p" "/m" "ck" 3 demo_plain demo_async_cfg eq_refl ltac:(discriminate) demo_name
    (demo_int 3 ltac:(lia)) (demo_int 0 ltac:(lia)) (demo_system Byte.x01 demo_dirs) demo_dirs demo_protected)
    as (st1 & Hck & Hrest);
    [by repeat split|repeat split; vm_compute; reflexivity|reflexivity|reflexivity|discriminate|reflexivity
    |apply demo_ids|apply demo_disjoint|apply demo_raw|vm_compute; discriminate|].
  destruct (Hrest Sleeping _ ltac:(discriminate)
    (rtc_subrel _ _ _ _ (λ x y (H : timely_step demo_modules demo_async x y), proj1 H) (demo_overwrites st1)))
    as (_ & Hlive & _ & Hall).
  destruct (Hlive (demo_overwrites st1) eq_refl) as [st3 Hw].
  destruct (Hall true st3 Hw) as (_ & _ & Hrs).
  destruct (Hrs (demo_system Byte.xff (<["/s" := Dir]> (delete "/s/ck-0-3.dat" (files (the_fs st3)))))
    (<["/s" := Dir]> (delete "/s/ck-0-3.dat" (files (the_fs st3))))) as (st5 & Hrun & Hload & _);
    [by repeat split| | | |unfold is_dir; by rewrite lookup_insert_eq|reflexivity|apply demo_raw|].
  - rewrite lookup_insert_ne by (vm_compute; discriminate). apply lookup_delete_ne. vm_compute. discriminate.
  - rewrite lookup_insert_ne by (vm_compute; discriminate). apply lookup_delete_ne. vm_compute. discriminate.
  - rewrite lookup_insert_ne by (vm_compute; discriminate). apply lookup_delete_eq.
  - exists st1, st3, st5. split; [exact Hck|]. split; [exact Hw|]. split; [exact Hrun|].
    apply (Hload 1 (mk_region 100 3 None None)). left.
Defined.

(** Version 3 is complete; that of version 4 fails in the background, because
    there is a directory in the place of its file. *)
Definition demo_background (v : Z) (st : client_t (backend_t unit * client_queue_t command_t.t)) :
    client_t (backend_t unit * client_queue_t command_t.t) :=
  let st := (checkpoint (local_queue demo_modules) demo_async single_mpi 4 "ck" v st).2 in
  let '(_, (b, q)) := serve demo_modules (with_env_sys (queue st).1 (the_fs st), (queue st).2) in
  set_backend (env_sys (b_env b)) (b, q) st.
Definition demo_failed : client_t (backend_t unit * client_queue_t command_t.t) :=
  demo_background 4 (demo_background 3 (demo_system Byte.x01 (<["/p/ck-0-4.dat" := Dir]> demo_dirs))).

Lemma async_failure_leaks_witness :
  let qc := local_queue demo_modules in
  (∃ st', restart_test qc demo_async single_mpi "ck" 3 (-1) demo_failed = (Val VELOC_FAILURE, st')) ∧
  (∃ st', restart_begin qc demo_async single_mpi "ck" 3 (-1) demo_failed = (Val false, st')).
Proof.
  intros qc.
  apply (async_failure_leaks demo_hash (demo_settings None None true) demo_async single_mpi "/s" "ck" 3 demo_async_cfg
    demo_name (demo_int 3 ltac:(lia)) demo_failed 2 3 0
    (notify_command demo_modules (ckpt_cmd demo_async "ck" 3 TEST)
      (with_env_sys (queue demo_failed).1 (the_fs demo_failed))).2
    (notify_command demo_modules (ckpt_cmd demo_async "ck" 3 RESTART)
      (with_env_sys (queue demo_failed).1 (the_fs demo_failed))).2);
    [vm_compute; reflexivity|vm_compute; reflexivity|vm_compute; reflexivity|lia|vm_compute; reflexivity|reflexivity].
Defined.
