(* ===== verification/FileMode.v ===== *)
(** * FileMode: checkpoints that the application writes itself

    With the file-based interface an application asks where to write
    ([VELOC_Route_file]), writes its own file there, and ends the checkpoint; the
    backend stores the file under its original name, and leaves a link that a
    restart finds.  The two sequences of calls are those of [test/heatdis_file.c],
    whose macro compares the results of the C interface ([CApi]) with success; the
    application's own reading and writing is [fopen], [fread] and [fwrite] of the
    whole file. *)

From S2P Require Import Prelude Text Command FileSystem Containers FileUtil Bytes Storage Streams Header.
From S2P Require Import Client Versioning Environment Transfer Chksum Manager Queue IpcQueue System.

Local Open Scope Z_scope.

Import command_t module_manager_t.

(** ** The application *)

Section app.
Context {Q : Type} (qc : comm_client_t Q) (ccfg : client_cfg) (mpi : mpi_t) (cwd : option string).

Abbreviation app := (comp (client_t Q)).

Definition check_result (m : app bool) : app unit :=
  ok ← m;
  if (ok : bool) then mret tt else stop (Exit 2).

(** [check_result(VELOC_Route_file(original, veloc_file))], where [veloc_file] is an
    array of [VELOC_MAX_NAME] characters. *)
Definition VELOC_MAX_NAME : Z := 1024.
Definition route (original : string) : app string :=
  cname ← route_file ccfg cwd original;
  if VELOC_MAX_NAME <? Z.of_nat (String.length cname) + 1 then stop Undef else
  if String.eqb cname "" then stop (Exit 2) else mret cname.

(** A checkpoint of [data], which is the counter and the arrays in memory. *)
Definition file_checkpoint (name : string) (version : Z) (original : string) (data : list byte) : app unit :=
  check_result (checkpoint_wait qc);;
  check_result (checkpoint_begin ccfg name version);;
  veloc_file ← route original;
  valid ← on_sys (write_file veloc_file data);
  check_result (checkpoint_end qc ccfg mpi valid).

(** A restart; [size] bytes are read, [None] where they cannot be. *)
Definition file_restart (name : string) (version : Z) (original : string) (size : Z) :
    app (option (list byte)) :=
  check_result (restart_begin qc ccfg mpi name version (-1));;
  veloc_file ← route original;
  data ← on_sys (read_file veloc_file size);
  check_result (restart_end (bool_decide (is_Some data)));;
  mret data.

End app.

(** ** Lemmas *)

Lemma check_result_run {Q} (m : comp (client_t Q) bool) st st' :
  m st = (Val true, st') → check_result m st = (Val tt, st').
Proof. intros H. unfold check_result. by rewrite (comp_bind_val _ _ _ _ _ H). Qed.

(** The path that [route_file] assigns. *)
Definition routed (cwd : option string) (original : string) : string :=
  match original, cwd with
  | String "/" _, _ => original
  | _, Some dir => dir +:+ "/" +:+ original
  | _, None => original
  end.

Lemma route_file_run {Q} ccfg cwd o (st : client_t Q) c :
  current_ckpt st = Some c → Z.of_nat (String.length (routed cwd o)) + 1 ≤ PATH_MAX →
  route_file ccfg cwd o st = (Val (filename c (scratch ccfg)),
    set_current (Some (command_t.mk c.(unique_id) c.(command) c.(version) c.(offset) c.(command_t.name) (routed cwd o))) st).
Proof.
  intros Hc Hl. unfold route_file. rewrite get_bind, Hc. fold (routed cwd o). unfold assign_path.
  destruct (Z.ltb_spec PATH_MAX (Z.of_nat (String.length (routed cwd o)) + 1)); [lia|]. done.
Qed.

Lemma route_run {Q} ccfg cwd o (st : client_t Q) c :
  current_ckpt st = Some c → Z.of_nat (String.length (routed cwd o)) + 1 ≤ PATH_MAX →
  Z.of_nat (String.length (filename c (scratch ccfg))) + 1 ≤ VELOC_MAX_NAME →
  route ccfg cwd o st = (Val (filename c (scratch ccfg)),
    set_current (Some (command_t.mk c.(unique_id) c.(command) c.(version) c.(offset) c.(command_t.name) (routed cwd o))) st).
Proof.
  intros Hc Hl Hroom. unfold route. rewrite (comp_bind_val _ _ _ _ _ (route_file_run ccfg cwd o st c Hc Hl)).
  destruct (Z.ltb_spec VELOC_MAX_NAME (Z.of_nat (String.length (filename c (scratch ccfg))) + 1)); [lia|].
  unfold filename. by destruct (scratch ccfg).
Qed.

Lemma flush_routed_free {S} `{HasSys S} scratch persistent c f d (s : S) :
  the_sys s = mk_sys f [] →
  c.(original) ≠ "" → wf c = true → is_dir f persistent = true →
  f !! filename c scratch = Some (Reg d) → zlen d ≤ LONG_MAX → f !! filename c persistent ≠ Some Dir →
  f !! c.(original) = None → parent_ok f c.(original) = true → c.(original) ≠ filename c persistent →
  posix_module_t.flush scratch persistent c s
  = (Val true, with_sys s (mk_sys (<[filename c persistent := Sym c.(original)]> (<[c.(original) := Reg d]> f)) [])).
Proof.
  intros Hs Ho Hwf Hd Hf HL Hp Hn Hpar Hne. unfold posix_module_t.flush. rewrite decide_False by done.
  apply on_sys_run. rewrite Hs.
  assert (c.(original) ≠ filename c scratch) as Hso by congruence.
  rewrite (comp_bind_val _ _ _ _ _ (copy_free (filename c scratch) (original c) f (filename c scratch) d
    ltac:(by apply lookup_path_reg) ltac:(intros t; by rewrite Hn) ltac:(done) ltac:(by rewrite Hn) ltac:(done) HL)).
  unfold contents. rewrite Hn, zdrop_all, app_nil_r by apply zlen_nonneg. cbn [negb].
  destruct (unlink_free (<[original c := Reg d]> f) (filename c persistent)) as [b Hb];
    [by rewrite lookup_insert_ne|].
  rewrite (comp_bind_val _ _ _ _ _ Hb). unfold symlink. free_run. rewrite lookup_delete_eq.
  assert (parent_ok (delete (filename c persistent) (<[original c := Reg d]> f)) (filename c persistent) = true) as ->.
  { unfold parent_ok. rewrite dirname_filename by done. apply orb_true_iff. right.
    unfold is_dir in *. destruct (decide (persistent = original c)) as [E|]; [by rewrite E, Hn in Hd|].
    assert (filename c persistent ≠ persistent) as Hpp.
    { intros E. rewrite E in Hp. by destruct (f !! persistent) as [[| |]|]. }
    by rewrite lookup_delete_ne, lookup_insert_ne. }
  cbn. by rewrite insert_delete_eq.
Qed.

Section file_mode.
Context {E : Type} (SHA256 : list byte → list byte).
Hypothesis SHA256_size : ∀ d, zlen (SHA256 d) = chksum_module_t.HASH_SIZE.
Variables (cfg : settings) (ccfg : client_cfg) (mpi : mpi_t).
Variables (scratch_dir persistent meta_dir name : string) (version : Z) (cwd : option string).
Hypothesis Hcfg : plain_settings cfg scratch_dir persistent meta_dir.
Hypothesis Hccfg : ccfg.(scratch) = scratch_dir ∧ aggregated ccfg = false ∧ (comm_set ccfg = true → alone mpi).
Hypothesis Hsync : is_sync ccfg = true.
Hypothesis Hdirs : scratch_dir ≠ persistent.
Hypothesis Hname : validate_name name = true ∧ Z.of_nat (String.length name) + 1 ≤ CKPT_NAME_MAX.
Hypothesis Hversion : 0 ≤ version ≤ INT_MAX.
Hypothesis Hrank : 0 ≤ rank ccfg ≤ INT_MAX.
Hypothesis Hroom :
  Z.of_nat (String.length (filename (ckpt_cmd ccfg name version CHECKPOINT) scratch_dir)) + 1 ≤ VELOC_MAX_NAME.

Abbreviation ms := [watchdog_method cfg; transfer_method cfg; chksum_method SHA256 cfg true;
  versioning_method (E:=E) cfg].
Abbreviation qc := (local_queue ms).
Abbreviation client := (client_t (backend_t E * client_queue_t command_t.t)).
Abbreviation cmd := (ckpt_cmd ccfg name version).

(** The command of a checkpoint whose file has the path [o]. *)
Definition file_cmd (o : string) : command_t.t := command_t.mk (rank ccfg) CHECKPOINT version 0 name o.

Lemma file_cmd_names o d :
  filename (file_cmd o) d = filename (cmd CHECKPOINT) d ∧ meta_filename (file_cmd o) d = meta_filename (cmd CHECKPOINT) d.
Proof. done. Qed.

(** Nothing is in the way of the file of the application. *)
Record file_ready (f : gmap string node) (o : string) : Prop := {
  fr_files : ready_files ccfg scratch_dir persistent meta_dir name version f;
  fr_path : o ≠ "" ∧ Z.of_nat (String.length o) + 1 ≤ PATH_MAX;
  fr_free : f !! o = None ∧ parent_ok f o = true;
  fr_apart : o ≠ filename (cmd CHECKPOINT) scratch_dir ∧ o ≠ filename (cmd CHECKPOINT) persistent ∧
    o ≠ meta_filename (cmd CHECKPOINT) meta_dir
}.

(** The files after the checkpoint. *)
Definition stored (f : gmap string node) (o : string) (d : list byte) : gmap string node :=
  <[meta_filename (cmd CHECKPOINT) meta_dir := Reg (SHA256 d)]>
    (<[filename (cmd CHECKPOINT) persistent := Sym o]>
    (<[o := Reg d]> (<[filename (cmd CHECKPOINT) scratch_dir := Reg d]> f))).

Lemma transfer_routed (b : backend_t E) f o d :
  file_ready f o → zlen d ≤ LONG_MAX →
  env_sys (b_env b) = mk_sys (<[filename (cmd CHECKPOINT) scratch_dir := Reg d]> f) [] →
  transfer_method cfg (file_cmd o) b = (Val VELOC_SUCCESS, with_files b
    (<[filename (cmd CHECKPOINT) persistent := Sym o]>
    (<[o := Reg d]> (<[filename (cmd CHECKPOINT) scratch_dir := Reg d]> f)))).
Proof.
  intros [(Hd1 & Hd2 & Hd3 & Hf1 & Hf2 & Hf3) [Ho _] [Hn Hpar] (Ha1 & Ha2 & Ha3)] HL Hb.
  destruct Hcfg as (Hst & Hs & _ & _ & Hi & _). unfold transfer_method. rewrite Hst, Hs, Hi.
  destruct b as [[s k n] w x t a ts v]. simpl in Hb. subst s. set (f1 := <[_ := Reg d]> f).
  apply (on_transfer_run _ (mk_backend (mk_env (mk_sys f1 []) k n) w x t a ts v)).
  apply checkpoint_every with (ok := true); [done|].
  assert (∀ dir, is_dir f dir = true → is_dir f1 dir = true) as Hdir1
    by (intros dir H; by apply is_dir_insert; [|rewrite Hf1]).
  apply (flush_routed_free scratch_dir persistent (file_cmd o) f1 d (mk_env (mk_sys f1 []) k n)); try done;
    simpl; unfold f1.
  - by apply (ckpt_wf ccfg name version Hname Hversion Hrank CHECKPOINT).
  - by apply Hdir1.
  - by rewrite lookup_insert_eq.
  - change (filename (file_cmd o) persistent) with (filename (cmd CHECKPOINT) persistent).
    rewrite lookup_insert_ne; [by rewrite Hf2|]. intros E'. by apply filename_prefix in E'.
  - by rewrite lookup_insert_ne.
  - unfold parent_ok in *. destruct (dirname o) as [dir|]; [|done]. apply orb_true_iff in Hpar as [H|H]; [by rewrite H|].
    apply Hdir1 in H. unfold f1 in H. by rewrite H, orb_true_r.
Qed.

Lemma backend_routed (b : backend_t E) f o x d :
  file_ready f o → zlen (x :: d) ≤ LONG_MAX →
  env_sys (b_env b) = mk_sys (<[filename (cmd CHECKPOINT) scratch_dir := Reg (x :: d)]> f) [] →
  ∃ b', notify_command ms (file_cmd o) b = (Val VELOC_SUCCESS, b') ∧
    env_sys (b_env b') = mk_sys (stored f o (x :: d)) [].
Proof.
  intros Hr HL Hb. pose proof (transfer_routed b f o (x :: d) Hr HL Hb) as Ht.
  destruct Hr as [(Hd1 & Hd2 & Hd3 & Hf1 & Hf2 & Hf3) _ [Hn _] (Ha1 & Ha2 & Ha3)].
  set (c := cmd CHECKPOINT) in *.
  assert (filename c scratch_dir ≠ filename c persistent) as Hne by (intros E'; by apply filename_prefix in E').
  pose proof (record_not_file c c meta_dir persistent) as Hr1. pose proof (record_not_file c c meta_dir scratch_dir) as Hr2.
  eexists. split.
  - apply (chain_checkpoint_via SHA256 cfg scratch_dir persistent meta_dir Hcfg (file_cmd o) b _ x d eq_refl Ht);
      unfold backend_files; simpl; try done.
    + change (filename (file_cmd o) scratch_dir) with (filename c scratch_dir). by simplify_map_eq.
    + intros t. change (meta_filename (file_cmd o) meta_dir) with (meta_filename c meta_dir).
      by rewrite !lookup_insert_ne, Hf3.
    + change (meta_filename (file_cmd o) meta_dir) with (meta_filename c meta_dir).
      by rewrite !lookup_insert_ne, Hf3.
    + unfold is_dir in *. rewrite !lookup_insert_ne; [done|intros E'; rewrite <-E' in Hd3..].
      * by rewrite Hf1 in Hd3.
      * by rewrite Hn in Hd3.
      * by rewrite Hf2 in Hd3.
    + by apply (ckpt_wf ccfg name version Hname Hversion Hrank CHECKPOINT).
  - done.
Qed.

Lemma file_checkpoint_run (st : client) f original x d :
  quiet st f → file_ready f (routed cwd original) → zlen (x :: d) ≤ LONG_MAX →
  map_find VELOC_OBSERVE_CKPT_END (observers st) = None →
  ∃ st', file_checkpoint qc ccfg mpi cwd name version original (x :: d) st = (Val tt, st') ∧
    quiet st' (stored f (routed cwd original) (x :: d)) ∧ same_app st st' ∧ mem_regions st' = mem_regions st.
Proof.
  intros [Hi Hs Hp] Hr HL Hobs. pose proof Hr as [(Hd1 & _ & _ & Hf1 & _ & _) [_ Hlen] _ _].
  destruct Hname as [Hn Hnl]. destruct Hccfg as (Hsc & _). destruct (queue st) as [b q] eqn:Hq. simpl in Hi.
  assert (wait_completion qc (the_fs st, queue st)
    = (Val VELOC_SUCCESS, (the_fs st, (with_env_sys b (the_fs st), q)))) as Hw by (rewrite Hq; by apply wait_idle).
  unfold file_checkpoint.
  rewrite (comp_bind_val _ _ _ _ _ (check_result_run _ _ _ (checkpoint_wait_idle qc st _ _ _ Hp Hw))).
  set (st1 := mk_client _ _ _ _ _ _ _ _ _).
  rewrite (comp_bind_val _ _ _ _ _ (check_result_run _ _ _
    (checkpoint_begin_run ccfg name version st1 eq_refl Hn Hnl ltac:(lia)))).
  set (st2 := set_in_progress _ _).
  rewrite (comp_bind_val _ _ _ _ _ (route_run ccfg cwd original st2 (cmd CHECKPOINT) eq_refl Hlen ltac:(by rewrite Hsc))).
  set (st3 := set_current _ _). rewrite Hsc.
  assert (write_file (filename (cmd CHECKPOINT) scratch_dir) (x :: d) (mk_sys f [])
    = (Val true, mk_sys (<[filename (cmd CHECKPOINT) scratch_dir := Reg (x :: d)]> f) [])) as Hwr.
  { apply write_file_free; [intros t; by rewrite Hf1|by rewrite Hf1|]. intros _. by apply parent_dir. }
  rewrite <-Hs in Hwr. rewrite (comp_bind_val _ _ _ _ _ (on_sys_run _ st3 _ _ Hwr)).
  set (st4 := with_sys _ _).
  destruct (backend_routed (with_env_sys (queue st4).1 (the_fs st4)) f (routed cwd original) x d Hr HL eq_refl)
    as (b' & Hnot & Hb').
  destruct (checkpoint_end_run SHA256 cfg ccfg mpi scratch_dir Hccfg st4 (file_cmd (routed cwd original)) VELOC_SUCCESS b')
    as (st5 & Hend & Hfs & Hi5 & Hp5 & Happ & Hreg); try done.
  exists st5. split; [by apply check_result_run|]. split; [|by auto].
  split; [done|by rewrite Hfs|done].
Qed.

Lemma file_restart_run (st : client) f original o x d :
  quiet st f → Z.of_nat (String.length (routed cwd original)) + 1 ≤ PATH_MAX → zlen (x :: d) ≤ LONG_MAX →
  f !! filename (cmd CHECKPOINT) persistent = Some (Sym o) → f !! o = Some (Reg (x :: d)) →
  o ≠ filename (cmd CHECKPOINT) scratch_dir →
  f !! meta_filename (cmd CHECKPOINT) meta_dir = Some (Reg (SHA256 (x :: d))) →
  f !! filename (cmd CHECKPOINT) scratch_dir = None ∨
    f !! filename (cmd CHECKPOINT) scratch_dir = Some (Reg (x :: d)) → is_dir f scratch_dir = true →
  ∃ st', file_restart qc ccfg mpi cwd name version original (zlen (x :: d)) st = (Val (Some (x :: d)), st') ∧
    same_app st st' ∧ mem_regions st' = mem_regions st.
Proof.
  intros [Hi Hs Hp] Hlen HL Hlink Ho Hne Hrec Hloc Hd.
  destruct (chain_restart_via SHA256 SHA256_size cfg scratch_dir persistent meta_dir Hcfg
    (cmd RESTART) (with_env_sys (queue st).1 (the_fs st)) o x d) as (b' & Hn & Hff & Hf'); try done;
    rewrite ?Hs; try done.
  { unfold lookup_path, resolve, SYMLOOP_MAX, backend_files. simpl.
    change (filename (cmd RESTART) persistent) with (filename (cmd CHECKPOINT) persistent).
    by rewrite Hlink, Ho, Ho. }
  { destruct Hloc; [left; split; [done|by apply parent_dir]|by right]. }
  destruct (restart_begin_run SHA256 cfg ccfg mpi scratch_dir name version Hccfg Hname Hversion st VELOC_SUCCESS b' Hi Hp Hn)
    as (st1 & Hbegin & Hfs & _ & _ & Happ & Hreg & Hcur & _).
  unfold file_restart. rewrite (comp_bind_val _ _ _ _ _ (check_result_run _ _ _ Hbegin)).
  destruct Hccfg as (Hsc & _).
  rewrite (comp_bind_val _ _ _ _ _ (route_run ccfg cwd original st1 (cmd RESTART) Hcur Hlen ltac:(by rewrite Hsc))).
  set (st2 := set_current _ _). rewrite Hsc.
  assert (the_fs st1 = mk_sys (<[filename (cmd RESTART) scratch_dir := Reg (x :: d)]> f) []) as Hs1.
  { rewrite Hfs. unfold backend_files, fault_free in *. rewrite Hs in Hf'. simpl in Hf'.
    destruct (env_sys (b_env b')). simpl in *. by subst. }
  assert (read_file (filename (cmd RESTART) scratch_dir) (zlen (x :: d)) (the_fs st1)
    = (Val (Some (x :: d)), the_fs st1)) as Hrd.
  { rewrite Hs1. erewrite read_file_free; [by rewrite ztake_all| |by apply lookup_path_reg, lookup_insert_eq].
    pose proof (zlen_nonneg (x :: d)). lia. }
  assert (the_sys st2 = the_fs st1) as Hs2 by reflexivity.
  rewrite (comp_bind_val _ _ _ _ _ (on_sys_same _ st2 _ _ Hs2 Hrd)).
  rewrite (comp_bind_val _ _ _ _ _ (check_result_run _ st2 st2 eq_refl)). by exists st2.
Qed.

(** C5: files of the application come back.  With the file-based interface a
    checkpoint of a non-empty file succeeds and leaves the file under the name that
    the application gave it.  Later, in another process, with or without the scratch
    file, as long as the file, the link to it and the record of its checksum are
    there, a restart gives the application a path, at which it reads the bytes that
    it has written.  (The path has to fit into the array of the application.) *)
Theorem file_roundtrip (st0 : client) (f0 : gmap string node) (original : string) (data : list byte) :
  quiet st0 f0 → file_ready f0 (routed cwd original) → data ≠ [] → zlen data ≤ LONG_MAX →
  map_find VELOC_OBSERVE_CKPT_END (observers st0) = None →
  ∃ st1, file_checkpoint qc ccfg mpi cwd name version original data st0 = (Val tt, st1) ∧
    files (the_fs st1) !! routed cwd original = Some (Reg data) ∧ memory st1 = memory st0 ∧
  ∀ (st2 : client) f2 original2,
    quiet st2 f2 → Z.of_nat (String.length (routed cwd original2)) + 1 ≤ PATH_MAX →
    f2 !! filename (cmd CHECKPOINT) persistent = files (the_fs st1) !! filename (cmd CHECKPOINT) persistent →
    f2 !! routed cwd original = files (the_fs st1) !! routed cwd original →
    f2 !! meta_filename (cmd CHECKPOINT) meta_dir = files (the_fs st1) !! meta_filename (cmd CHECKPOINT) meta_dir →
    f2 !! filename (cmd CHECKPOINT) scratch_dir = None ∨
      f2 !! filename (cmd CHECKPOINT) scratch_dir = files (the_fs st1) !! filename (cmd CHECKPOINT) scratch_dir →
    is_dir f2 scratch_dir = true →
    ∃ st3, file_restart qc ccfg mpi cwd name version original2 (zlen data) st2 = (Val (Some data), st3) ∧
      memory st3 = memory st2.
Proof.
  intros Hq Hr Hdata HL Hobs. destruct data as [|x d]; [done|].
  destruct (file_checkpoint_run st0 f0 original x d Hq Hr HL Hobs) as (st1 & Hck & [_ Hf1 _] & [Hm1 _] & _).
  destruct Hr as [_ _ _ (Ha1 & Ha2 & Ha3)].
  set (o := routed cwd original) in *. set (c := cmd CHECKPOINT) in *.
  assert (filename c scratch_dir ≠ filename c persistent) as Hne by (intros E'; by apply filename_prefix in E').
  pose proof (record_not_file c c meta_dir persistent) as Hr1. pose proof (record_not_file c c meta_dir scratch_dir) as Hr2.
  exists st1. rewrite Hf1. unfold stored. fold c. cbn [files].
  split; [done|]. split; [rewrite !lookup_insert_ne by done; apply lookup_insert_eq|]. split; [done|].
  intros st2 f2 original2 Hq2 Hlen Hp2 Ho2 Hrec2 Hs2 Hd2.
  rewrite lookup_insert_ne, lookup_insert_eq in Hp2 by done.
  rewrite !lookup_insert_ne, lookup_insert_eq in Ho2 by done. rewrite lookup_insert_eq in Hrec2.
  rewrite !lookup_insert_ne, lookup_insert_eq in Hs2 by done.
  destruct (file_restart_run st2 f2 original2 o x d Hq2 Hlen HL Hp2 Ho2 Ha1 Hrec2 Hs2 Hd2) as (st3 & Hrun & [Hm _] & _).
  by exists st3.
Qed.

End file_mode.

(** [checkpoint_end] and [restart_end] do not look at their argument: a checkpoint
    whose file could not be written, or only in part, is submitted like any other,
    and a failed restart ends with success. *)
Lemma end_ignores_success {Q} (qc : comm_client_t Q) ccfg mpi (b b' : bool) (st : client_t Q) :
  checkpoint_end qc ccfg mpi b st = checkpoint_end qc ccfg mpi b' st ∧ restart_end b st = restart_end b' st.
Proof. done. Qed.

(** ** Instances *)

Definition demo_process (f : gmap string node) : client_t (backend_t unit * client_queue_t command_t.t) :=
  mk_client (mk_sys f []) ∅ (demo_backend ∅ ∅ (mk_versioning ∅ ∅), empty_queue) ∅ [] None false [] 0.

Lemma demo_file_ready : file_ready demo_cfg "/s" "/p" "/m" "ck" 3 demo_dirs "/p/out.dat".
Proof.
  split; [repeat split; vm_compute; reflexivity|split; vm_compute; discriminate|split; vm_compute; reflexivity|].
  split_and!; vm_compute; discriminate.
Qed.

Lemma file_roundtrip_witness :
  let cfg := demo_settings None None true in
  let qc := local_queue [watchdog_method cfg; transfer_method cfg; chksum_method demo_hash cfg true;
    versioning_method (E:=unit) cfg] in
  ∃ st1 st3, file_checkpoint qc demo_cfg single_mpi (Some "/p") "ck" 3 "out.dat" [Byte.x05; Byte.x06]
      (demo_process demo_dirs) = (Val tt, st1) ∧
    file_restart qc demo_cfg single_mpi (Some "/p") "ck" 3 "other" 2
      (demo_process (<["/s" := Dir]> (delete "/s/ck-0-3.dat" (files (the_fs st1)))))
    = (Val (Some [Byte.x05; Byte.x06]), st3).
Proof.
  intros cfg qc.
  destruct (file_roundtrip demo_hash demo_hash_size cfg demo_cfg single_mpi "/s" "/p" "/m" "ck" 3 (Some "/p")
    ltac:(repeat split) ltac:(repeat split; discriminate) eq_refl ltac:(discriminate)
    ltac:(split; [vm_compute; reflexivity|vm_compute; discriminate])
    ltac:(split; vm_compute; discriminate) ltac:(split; vm_compute; discriminate) ltac:(vm_compute; discriminate)
    (demo_process demo_dirs) demo_dirs "out.dat" [Byte.x05; Byte.x06])
    as (st1 & Hck & _ & _ & Hrs);
    [by repeat split|apply demo_file_ready|discriminate|vm_compute; discriminate|reflexivity|].
  set (f2 := <["/s" := Dir]> (delete "/s/ck-0-3.dat" (files (the_fs st1)))).
  assert (∀ p, p ≠ "/s" → p ≠ "/s/ck-0-3.dat" → f2 !! p = files (the_fs st1) !! p) as Hf2
    by (intros p H1 H2; unfold f2; by rewrite lookup_insert_ne, lookup_delete_ne).
  destruct (Hrs (demo_process f2) f2 "other") as (st3 & Hrun & _);
    [by repeat split|vm_compute; discriminate|apply Hf2; vm_compute; discriminate|apply Hf2; vm_compute; discriminate
    |apply Hf2; vm_compute; discriminate| |unfold is_dir, f2; by rewrite lookup_insert_eq|].
  - left. unfold f2. rewrite lookup_insert_ne by (vm_compute; discriminate). apply lookup_delete_eq.
  - exists st1, st3. split; [exact Hck|exact Hrun].
Defined.
