(* ===== verification/Aggregation.v ===== *)
(** * Aggregation: what the clients and the aggregated storage module agree on

    In aggregated mode the ranks agree through MPI on where the checkpoint of each
    of them goes in the common file: [checkpoint_end] ([src/lib/client.cpp]) computes
    the offsets, rank 0 writes them to the metadata directory, and every rank
    passes its own to the backend.  The storage module ([AggStorage]) is proved
    correct for the command [rank_cmd] and the table [header]; this file shows that
    these are what the clients produce. *)

From S2P Require Import Prelude Text Command FileSystem Containers FileUtil Bytes Storage AggStorage.
From S2P Require Import Streams Header Client.

Local Open Scope Z_scope.

Import command_t.

(** What MPI promises to [n] ranks of which rank [q] sends [scanned q] and
    [gathered q]: the exclusive prefix sum, in which rank 0 keeps the 0 that
    [offset] is initialised with, and to rank 0 all that was sent, in order of
    rank. *)
Record communicator (n : nat) (mpi : nat → mpi_t) (scanned gathered : nat → Z) : Prop := {
  exscan_sum r : (r < n)%nat →
    (mpi r).(MPI_Exscan_sum) (scanned r) = foldr Z.add 0 (map scanned (seq 0 r));
  gather_root : (mpi 0%nat).(MPI_Gather) (gathered 0%nat) = map gathered (seq 0 n)
}.

Lemma file_size_free f p q d :
  lookup_path f p = Some (q, Reg d) → file_size p (mk_sys f []) = (Val (zlen d), mk_sys f []).
Proof. intros Hl. unfold file_size. by erewrite comp_bind_val by by eapply stat_size_free. Qed.

Lemma header_records_of datas :
  concat (map long_bytes (Z.of_nat (length datas) :: map (start datas) (seq 0 (length datas)))) =
  header datas.
Proof. unfold header. cbn [map]. by rewrite map_map. Qed.

Section ranks.
Context {Q : Type} (qc : comm_client_t Q).
Variables (cfg : nat → client_cfg) (mpi : nat → mpi_t) (st : nat → client_t Q) (current : nat → command_t.t).
Variables (c : command_t.t) (datas : list (list byte)) (meta_dir : string) (f : nat → gmap string node).

(** Rank [r] at the end of an aggregated checkpoint: its local file holds [d]. *)
Record ending (r : nat) (d : list byte) : Prop := {
  ending_mode : (cfg r).(aggregated) = true ∧ (cfg r).(meta) = Some meta_dir;
  ending_rank : (cfg r).(rank) = Z.of_nat r ∧ (cfg r).(no_ranks) = Z.of_nat (length datas);
  ending_command : (st r).(current_ckpt) = Some (current r) ∧
    set_offset (current r) (start datas r) = rank_cmd c datas r;
  ending_files : (st r).(the_fs) = mk_sys (f r) [] ∧
    ∃ q, lookup_path (f r) (filename (current r) (cfg r).(scratch)) = Some (q, Reg d);
  ending_meta : no_link (f r) (agg_filename c meta_dir) ∧ f r !! agg_filename c meta_dir ≠ Some Dir ∧
    (f r !! agg_filename c meta_dir = None → parent_ok (f r) (agg_filename c meta_dir) = true)
}.

(** What the ranks send. *)
Definition scan_sent (r : nat) : Z :=
  match (exscan_send (cfg r) (current r) (st r)).1 with Val x => x | _ => 0 end.
Definition gather_sent (r : nat) : Z :=
  gather_send (cfg r) (scan_sent r) ((mpi r).(MPI_Exscan_sum) (scan_sent r)).

Lemma exscan_send_run r d :
  ending r d → exscan_send (cfg r) (current r) (st r) = (Val (zlen d), st r).
Proof.
  intros [_ _ _ [Hfs [q Hq]] _]. unfold exscan_send. eapply on_sys_same; [exact Hfs|by eapply file_size_free].
Qed.

Lemma scan_sent_size r d : ending r d → scan_sent r = zlen d.
Proof. intros Hr. unfold scan_sent. by rewrite (exscan_send_run _ _ Hr). Qed.

(** The sum of the sizes is the offset. *)
Lemma scan_start :
  (∀ q d, datas !! q = Some d → ending q d) →
  ∀ r, (r ≤ length datas)%nat → foldr Z.add 0 (map scan_sent (seq 0 r)) = start datas r.
Proof.
  intros Hall. induction r as [|r IH]; intros Hr; [done|].
  destruct (lookup_lt_is_Some_2 datas r) as [d Hd]; [lia|].
  rewrite seq_S, map_app, foldr_app. simpl. rewrite (start_step _ _ _ Hd), <-IH by lia.
  rewrite (scan_sent_size r d) by auto. clear. induction (map scan_sent (seq 0 r)); simpl; lia.
Qed.

Lemma gather_sent_start :
  (∀ q d, datas !! q = Some d → ending q d) → communicator (length datas) mpi scan_sent gather_sent →
  ∀ r, (r < length datas)%nat → gather_sent r = start datas r.
Proof.
  intros Hall [Hscan _] r Hr. unfold gather_sent, gather_send. rewrite Hscan, scan_start by auto with lia.
  by destruct (_ =? _).
Qed.

(** C9: the metadata of an aggregated checkpoint.  All ranks end the checkpoint,
    each with its local file; MPI combines what they send.  Then each rank passes
    to the backend the command for which the storage module is correct, with the
    offset of this rank, and rank 0 has written the table from which a restore finds
    the parts; no other file has changed. *)
Theorem aggregation_metadata :
  zlen (concat datas) ≤ LONG_MAX → (∀ r d, datas !! r = Some d → ending r d) →
  communicator (length datas) mpi scan_sent gather_sent →
  ∀ r, (r < length datas)%nat →
  ∃ st1, checkpoint_end qc (cfg r) (mpi r) true (st r) = submit qc (cfg r) (rank_cmd c datas r) st1 ∧
    st1.(current_ckpt) = Some (rank_cmd c datas r) ∧
    files st1.(the_fs)
    = (if decide (r = 0%nat) then <[agg_filename c meta_dir := Reg (header datas)]> (f r) else f r).
Proof.
  intros Htot Hall Hmpi r Hr. pose proof (gather_sent_start Hall Hmpi) as Hsent. destruct Hmpi as [Hscan Hgather].
  destruct (lookup_lt_is_Some_2 datas r Hr) as [d Hd]. pose proof (Hall r d Hd) as Hend.
  pose proof Hend as [[Hagg Hmeta] [Hrank Hn] [Hc Hcmd] [Hfs _] (Hnl & Hdir & Hpar)].
  assert (agg_filename (current r) meta_dir = agg_filename c meta_dir) as Hname.
  { change (agg_filename (set_offset (current r) (start datas r)) meta_dir = agg_filename c meta_dir).
    by rewrite Hcmd. }
  assert (u64 (start datas r) = start datas r) as Hu.
  { apply u64_small. pose proof (start_total datas r). unfold is_size, start, SIZE_MAX, LONG_MAX in *.
    pose proof (zlen_nonneg (concat (take r datas))). lia. }
  assert (∃ s1, aggregate (cfg r) (mpi r) (current r) (st r) = (Val (Some (start datas r)), with_sys (st r) s1) ∧
    files s1 = (if decide (r = 0%nat) then <[agg_filename c meta_dir := Reg (header datas)]> (f r) else f r))
    as (s1 & Hrun & Hf1).
  { unfold aggregate. rewrite (comp_bind_val _ _ _ _ _ (exscan_send_run _ _ Hend)).
    specialize (Hscan r Hr). rewrite scan_start in Hscan by auto with lia.
    rewrite (scan_sent_size _ _ Hend) in Hscan. rewrite Hscan, Hrank.
    destruct (decide (r = 0%nat)) as [->|Hr0].
    - assert (gather_send (cfg 0) (zlen d) (start datas 0) = gather_sent 0) as ->.
      { unfold gather_sent. by rewrite (scan_sent_size _ _ Hend), Hscan. }
      rewrite Hgather, Hn, Hmeta. simpl (_ =? 0). cbn iota. simpl from_option.
      rewrite (map_ext_in gather_sent (start datas)) by (intros q Hq%in_seq; apply Hsent; lia).
      rewrite stop_bind, header_records_of, Hname.
      exists (mk_sys (<[agg_filename c meta_dir := Reg (header datas)]> (f 0%nat)) []). split; [|reflexivity].
      erewrite comp_bind_val by (eapply on_sys_run; simpl; rewrite Hfs; by apply write_file_free). done.
    - destruct (Z.eqb_spec (Z.of_nat r) 0); [lia|]. exists (mk_sys (f r) []). split; [|done].
      rewrite <-Hfs. change (the_fs (st r)) with (the_sys (st r)). by rewrite with_the_sys. }
  eexists (set_current (Some (rank_cmd c datas r)) (with_sys (st r) s1)).
  split; [|done]. unfold checkpoint_end. rewrite get_bind, Hc, Hagg.
  rewrite (comp_bind_val _ _ _ _ _ Hrun), modify_bind, Hu, Hcmd. done.
Qed.
End ranks.

(** Two ranks with three bytes and one byte. *)
Definition demo_datas : list (list byte) := [[Byte.x05; Byte.x06; Byte.x07]; [Byte.x08]].
Definition demo_agg_cfg (r : nat) : client_cfg :=
  {| scratch := "/s"; meta := Some "/m"; is_sync := false; aggregated := true;
     comm_set := true; rank := Z.of_nat r; no_ranks := 2 |}.
Definition demo_agg_cmd (r : nat) : command_t.t :=
  {| unique_id := Z.of_nat r; command := CHECKPOINT; version := 3; offset := 0; name := "ck"; original := "" |}.
Definition demo_agg_files (r : nat) : gmap string node :=
  <[filename (demo_agg_cmd r) "/s" := Reg (default [] (demo_datas !! r))]> (<["/m" := Dir]> ∅).
Definition demo_agg_client (r : nat) : client_t unit :=
  mk_client (mk_sys (demo_agg_files r) []) ∅ tt ∅ [] (Some (demo_agg_cmd r)) true [] 0.
Definition demo_agg_mpi (r : nat) : mpi_t :=
  {| MPI_Exscan_sum _ := if decide (r = 0%nat) then 0 else 3; MPI_Gather x := [x; 3];
     MPI_Allreduce_max x := x; MPI_Allreduce_lor x := x |}.

Lemma aggregation_metadata_witness :
  ∃ st1, checkpoint_end instant_queue (demo_agg_cfg 1) (demo_agg_mpi 1) true (demo_agg_client 1)
      = submit instant_queue (demo_agg_cfg 1) (rank_cmd (demo_agg_cmd 0) demo_datas 1) st1 ∧
    st1.(current_ckpt) = Some (rank_cmd (demo_agg_cmd 0) demo_datas 1) ∧
    files st1.(the_fs) = demo_agg_files 1.
Proof.
  apply (aggregation_metadata instant_queue demo_agg_cfg demo_agg_mpi demo_agg_client demo_agg_cmd
    (demo_agg_cmd 0) demo_datas "/m" demo_agg_files).
  - vm_compute. discriminate.
  - intros [|[|r]] d Hd; [| |done]; injection Hd as <-; split; try (by split);
      try (by split; [done|eexists; vm_compute; reflexivity]);
      (split; [vm_compute; reflexivity|split; [vm_compute; discriminate|by intros _; vm_compute]]).
  - split; [|vm_compute; reflexivity].
    intros [|[|r]] Hr; [vm_compute; reflexivity..|simpl in Hr; lia].
  - simpl. lia.
Defined.
