(* ===== verification/CApi.v ===== *)
(** * CApi: [src/lib/veloc.cpp], and the constructors of [src/lib/client.cpp]

    The C interface: a global pointer to the client, the functions that create and
    destroy it, and the wrappers that turn the results of the client into the
    status codes of the interface.

    The state is the pointer, which [VELOC_Finalize] leaves dangling, and what it
    points to.  The object holds the memory of the application, the files and the
    queue also while there is no client.  Starting the backend, [system] and the
    barriers of MPI are arguments: what they do to the files and the queue. *)

From S2P Require Import Prelude Text Command FileSystem Containers FileUtil Bytes Streams Header.
From S2P Require Import Client ClientInvariant Ini Storage AggStorage Config.
From Stdlib Require Import Strings.String.

Local Open Scope Z_scope.

Import command_t.

Inductive pointer := Null | Live | Freed.
Global Instance pointer_eq_dec : EqDecision pointer.
Proof. solve_decision. Defined.

(** [local] is whether the client has a communicator of the node. *)
Record capi_t (Q : Type) := mk_capi {
  veloc_client : pointer;
  the_cfg : client_cfg;
  local : bool;
  object : client_t Q
}.
Arguments mk_capi {Q} _ _ _ _.
Arguments veloc_client {Q} _.
Arguments the_cfg {Q} _.
Arguments local {Q} _.
Arguments object {Q} _.

(** ** The constructors of [client_impl_t] *)

(** What surrounds the process. *)
Record process_t (Q : Type) := {
  getenv : string → option string;
  host_name : string;
  uid : Z;
  daos_module : option (storage_make (client_t Q));
  axl_module : option (storage_make (client_t Q));
  start_main_loop : comp (sys * Q) unit;
  system : string → comp (sys * Q) Z;
  MPI_Query_thread : Z;
  MPI_THREAD_MULTIPLE : Z;
  MPI_Barrier : comp (sys * Q) unit;
  MPI_Comm_rank : Z;
  MPI_Comm_size : Z;
  local_rank : Z
}.
Arguments getenv {Q} _ _.
Arguments host_name {Q} _.
Arguments uid {Q} _.
Arguments daos_module {Q} _.
Arguments axl_module {Q} _.
Arguments start_main_loop {Q} _.
Arguments system {Q} _ _.
Arguments MPI_Query_thread {Q} _.
Arguments MPI_THREAD_MULTIPLE {Q} _.
Arguments MPI_Barrier {Q} _.
Arguments MPI_Comm_rank {Q} _.
Arguments MPI_Comm_size {Q} _.
Arguments local_rank {Q} _.

Section construct.
Context {Q : Type} (qc : comm_client_t Q) (P : process_t Q).
Abbreviation client := (comp (client_t Q)).

Definition launch_backend (cfg_file : string) : client unit :=
  let path := match P.(getenv) "VELOC_BIN" with Some p => p +:+ "/" | None => "" end in
  r ← on_queue (P.(system) (path +:+ "veloc-backend " +:+ cfg_file +:+ " --disable-ec > /dev/null"));
  if negb (r =? 0) then stop FATAL else mret tt.

Definition check_threaded (cfg : config_t (client_t Q)) : client bool :=
  let threaded := get_bool P.(getenv) cfg.(reader) "threaded" false in
  if threaded && negb (P.(MPI_Query_thread) =? P.(MPI_THREAD_MULTIPLE)) then stop FATAL
  else mret threaded.

(** [cfg.is_sync() || check_threaded()] *)
Definition in_process (cfg : config_t (client_t Q)) : client bool :=
  if cfg.(sync_mode) then mret true else check_threaded cfg.

(** The members before the body of the constructor runs. *)
Definition fresh (st : client_t Q) : client_t Q :=
  mk_client st.(the_fs) st.(memory) st.(queue) ∅ [] None false [] 0.

(** What the client reads of its configuration. *)
Definition settings_of (cfg : config_t (client_t Q)) (scratch : string)
    (aggregated comm_set : bool) (rank no_ranks : Z) : client_cfg := {|
  Client.scratch := scratch;
  Client.meta := match get_string P.(getenv) cfg.(reader) "meta" "" with
                 | (true, m) => Some m | (false, _) => None end;
  Client.is_sync := cfg.(sync_mode);
  Client.aggregated := aggregated;
  Client.comm_set := comm_set;
  Client.rank := rank;
  Client.no_ranks := no_ranks
|}.

Definition open_config (cfg_file : string) : client (config_t (client_t Q)) :=
  modify fresh;;
  config.make P.(getenv) P.(host_name) P.(uid) P.(daos_module) P.(axl_module) cfg_file false.

Definition announce (rank : Z) : client unit :=
  cmd ← stop (command_t.make rank INIT 0 "");
  run_blocking qc cmd;;
  mret tt.

(** [rank] is an [int], the argument an [unsigned int]. *)
Definition client_impl_single (id_ : Z) (cfg_file : string) : client (client_cfg * bool) :=
  cfg ← open_config cfg_file;
  let rank := i32 id_ in
  here ← in_process cfg;
  (if (here : bool) then on_queue P.(start_main_loop) else launch_backend cfg_file);;
  announce rank;;
  scratch ← stop (Config.get P.(getenv) cfg.(reader) "scratch");
  mret (settings_of cfg scratch false false rank 0, false).

Definition client_impl_comm (cfg_file : string) : client (client_cfg * bool) :=
  cfg ← open_config cfg_file;
  here ← in_process cfg;
  (if (here : bool) then
     (if P.(local_rank) =? 0 then on_queue P.(start_main_loop) else mret tt);;
     on_queue P.(MPI_Barrier)
   else launch_backend cfg_file);;
  let aggregated := get_bool P.(getenv) cfg.(reader) "aggregated" false in
  announce P.(MPI_Comm_rank);;
  (if (here : bool) then on_queue P.(MPI_Barrier) else mret tt);;
  scratch ← stop (Config.get P.(getenv) cfg.(reader) "scratch");
  mret (settings_of cfg scratch aggregated true P.(MPI_Comm_rank) P.(MPI_Comm_size), here).

End construct.

(** ** The interface *)

Section capi.
Context {Q : Type} (qc : comm_client_t Q) (P : process_t Q) (mpi : mpi_t) (bufsize : Z).
Abbreviation capi := (comp (capi_t Q)).
Abbreviation client := (comp (client_t Q)).

(** [veloc_client->m]: the client has to be there. *)
Definition through {A} (m : client_cfg → client A) : capi A := λ w,
  match w.(veloc_client) with
  | Live => let '(o, st) := m w.(the_cfg) w.(object) in (o, mk_capi Live w.(the_cfg) w.(local) st)
  | _ => (Undef, w)
  end.

Definition not_null : capi bool := gets (λ w, bool_decide (w.(veloc_client) ≠ Null)).

Definition BOOL_CALL (m : client_cfg → client bool) : capi Z :=
  c ← not_null;
  if negb c then mret VELOC_FAILURE else
  b ← through m; mret (if (b : bool) then VELOC_SUCCESS else VELOC_FAILURE).

Definition VOID_CALL (m : client_cfg → client unit) : capi Z :=
  c ← not_null;
  if negb c then mret VELOC_FAILURE else through m;; mret VELOC_SUCCESS.

(** The result is converted to [int]. *)
Definition INT_CALL (m : client_cfg → client Z) : capi Z :=
  c ← not_null;
  if negb c then mret VELOC_FAILURE else
  n ← through m; mret (i32 n).

Definition get_client (new : client (client_cfg * bool)) : capi unit := λ w,
  match w.(veloc_client) with
  | Null =>
      match new w.(object) with
      | (Val (cfg, local), st) => (Val tt, mk_capi Live cfg local st)
      | (Raise e, st) => (Raise e, mk_capi Null w.(the_cfg) w.(local) st)
      | (Exit n, st) => (Exit n, mk_capi Null w.(the_cfg) w.(local) st)
      | (Hang, st) => (Hang, mk_capi Null w.(the_cfg) w.(local) st)
      | (Undef, st) => (Undef, mk_capi Null w.(the_cfg) w.(local) st)
      end
  | _ => (Val tt, w)
  end.

Definition init (new : client (client_cfg * bool)) : capi Z := λ w,
  match get_client new w with
  | (Val _, w') => (Val VELOC_SUCCESS, w')
  | (Raise _, w') => (Val VELOC_FAILURE, w')
  | (Exit n, w') => (Exit n, w')
  | (Hang, w') => (Hang, w')
  | (Undef, w') => (Undef, w')
  end.

Definition VELOC_Init (cfg_file : string) : capi Z := init (client_impl_comm qc P cfg_file).
Definition VELOC_Init_single (id_ : Z) (cfg_file : string) : capi Z :=
  init (client_impl_single qc P id_ cfg_file).

Definition VELOC_Mem_protect (id p count base_size : Z) : capi Z :=
  BOOL_CALL (λ _, mem_protect id p count base_size default_mem_group).
Definition VELOC_Region_protect (id p count base_size : Z) (name : string) : capi Z :=
  BOOL_CALL (λ _, mem_protect id p count base_size name).
Definition VELOC_Mem_unprotect (id : Z) : capi Z := BOOL_CALL (λ _, mem_unprotect id default_mem_group).
Definition VELOC_Region_unprotect (id : Z) (name : string) : capi Z :=
  BOOL_CALL (λ _, mem_unprotect id name).
Definition VELOC_Mem_clear : capi Z := VOID_CALL (λ _, mem_clear default_mem_group).
Definition VELOC_Region_clear (name : string) : capi Z := VOID_CALL (λ _, mem_clear name).
Definition VELOC_Checkpoint_begin (name : string) (version : Z) : capi Z :=
  BOOL_CALL (λ cfg, checkpoint_begin cfg name version).
Definition VELOC_Checkpoint_mem : capi Z :=
  BOOL_CALL (λ cfg, checkpoint_mem cfg bufsize VELOC_CKPT_ALL []).

(** The set of the first [no_ids] elements; reading past the array is undefined. *)
Definition id_set (ids : list Z) (no_ids : Z) : outcome zset :=
  if zlen ids <? no_ids then Undef else Val (foldl (λ s i, set_insert i s) [] (ztake no_ids ids)).

Definition VELOC_Checkpoint_selective (mode : Z) (ids : list Z) (no_ids : Z) : capi Z :=
  s ← stop (id_set ids no_ids);
  BOOL_CALL (λ cfg, checkpoint_mem cfg bufsize mode s).
Definition VELOC_Checkpoint_end (success : Z) : capi Z :=
  BOOL_CALL (λ cfg, checkpoint_end qc cfg mpi (negb (success =? 0))).
Definition VELOC_Checkpoint_wait : capi Z := BOOL_CALL (λ _, checkpoint_wait qc).
Definition VELOC_Checkpoint_finished : capi Z := BOOL_CALL (λ cfg, checkpoint_finished qc cfg).
Definition VELOC_Restart_test (name : string) (version : Z) : capi Z :=
  INT_CALL (λ cfg, restart_test qc cfg mpi name version (-1)).

(** [routed] has room for [room] bytes; [cwd] is what [getcwd] returns.  The text
    copied is returned with the status. *)
Definition VELOC_Route_file (cwd : option string) (original : string) (room : Z) : capi (Z * string) :=
  cname ← through (λ cfg, route_file cfg cwd original);
  if room <? Z.of_nat (String.length cname) + 1 then stop Undef else
  mret (if String.eqb cname "" then VELOC_FAILURE else VELOC_SUCCESS, cname).

Definition VELOC_Cleanup (name : string) : capi Z := BOOL_CALL (λ cfg, cleanup cfg name).
Definition VELOC_Restart_begin (name : string) (version : Z) : capi Z :=
  BOOL_CALL (λ cfg, restart_begin qc cfg mpi name version (-1)).
Definition VELOC_Recover_mem : capi Z := BOOL_CALL (λ cfg, recover_mem cfg VELOC_RECOVER_ALL []).
Definition VELOC_Recover_selective (mode : Z) (ids : list Z) (no_ids : Z) : capi Z :=
  s ← stop (id_set ids no_ids);
  BOOL_CALL (λ cfg, recover_mem cfg mode s).
Definition VELOC_Recover_size (id : Z) : capi Z := INT_CALL (λ cfg, recover_size cfg id).
Definition VELOC_Restart_end (success : Z) : capi Z := BOOL_CALL (λ _, restart_end (negb (success =? 0))).
Definition VELOC_Restart (name : string) (version : Z) : capi Z :=
  BOOL_CALL (λ cfg, restart qc cfg mpi name version (-1)).
Definition VELOC_Checkpoint (name : string) (version : Z) : capi Z :=
  BOOL_CALL (λ cfg, checkpoint qc cfg mpi bufsize name version).

(** [delete veloc_client]: the destructor, after which the pointer dangles. *)
Definition delete_client : capi unit :=
  b ← gets local;
  through (λ _, if (b : bool) then on_queue P.(MPI_Barrier) else mret tt);;
  modify (λ w, mk_capi Freed w.(the_cfg) w.(local) w.(object)).

Definition VELOC_Finalize (drain : Z) : capi Z :=
  c ← not_null;
  if negb c then mret VELOC_FAILURE else
  ret ← (if drain =? 0 then mret VELOC_SUCCESS else VELOC_Checkpoint_wait);
  delete_client;;
  mret ret.

End capi.

(** The wrappers, while the client is there. *)
Section live.
Context {Q : Type}.
Implicit Types w : capi_t Q.

Definition with_object w (st : client_t Q) : capi_t Q := mk_capi Live w.(the_cfg) w.(local) st.

Lemma through_run {A} (m : client_cfg → comp (client_t Q) A) w o st :
  veloc_client w = Live → m (the_cfg w) (object w) = (o, st) → through m w = (o, with_object w st).
Proof. intros Hl Hm. unfold through. by rewrite Hl, Hm. Qed.

Lemma BOOL_CALL_run (m : client_cfg → comp (client_t Q) bool) w b st :
  veloc_client w = Live → m (the_cfg w) (object w) = (Val b, st) →
  BOOL_CALL m w = (Val (if b then VELOC_SUCCESS else VELOC_FAILURE), with_object w st).
Proof.
  intros Hl Hm. unfold BOOL_CALL, not_null. rewrite gets_bind, Hl, bool_decide_true by done. cbn [negb].
  by rewrite (comp_bind_val _ _ _ _ _ (through_run m w _ _ Hl Hm)).
Qed.

Lemma BOOL_CALL_undef (m : client_cfg → comp (client_t Q) bool) w st :
  veloc_client w = Live → m (the_cfg w) (object w) = (Undef, st) → BOOL_CALL m w = (Undef, with_object w st).
Proof.
  intros Hl Hm. unfold BOOL_CALL, not_null. rewrite gets_bind, Hl, bool_decide_true by done. cbn [negb].
  unfold mbind, comp_bind. by rewrite (through_run m w _ _ Hl Hm).
Qed.

Lemma INT_CALL_run (m : client_cfg → comp (client_t Q) Z) w n st :
  veloc_client w = Live → m (the_cfg w) (object w) = (Val n, st) →
  INT_CALL m w = (Val (i32 n), with_object w st).
Proof.
  intros Hl Hm. unfold INT_CALL, not_null. rewrite gets_bind, Hl, bool_decide_true by done. cbn [negb].
  by rewrite (comp_bind_val _ _ _ _ _ (through_run m w _ _ Hl Hm)).
Qed.
End live.

(** ** The invariant, through the interface *)

Inductive capi_call :=
| C_Init (cfg_file : string)
| C_Init_single (id : Z) (cfg_file : string)
| C_Mem_protect (id p count base_size : Z)
| C_Region_protect (id p count base_size : Z) (name : string)
| C_Mem_unprotect (id : Z)
| C_Region_unprotect (id : Z) (name : string)
| C_Mem_clear
| C_Region_clear (name : string)
| C_Checkpoint_begin (name : string) (version : Z)
| C_Checkpoint_mem
| C_Checkpoint_selective (mode : Z) (ids : list Z) (no_ids : Z)
| C_Checkpoint_end (success : Z)
| C_Checkpoint_wait
| C_Checkpoint_finished
| C_Restart_test (name : string) (version : Z)
| C_Route_file (cwd : option string) (original : string) (room : Z)
| C_Cleanup (name : string)
| C_Restart_begin (name : string) (version : Z)
| C_Recover_mem
| C_Recover_selective (mode : Z) (ids : list Z) (no_ids : Z)
| C_Recover_size (id : Z)
| C_Restart_end (success : Z)
| C_Restart (name : string) (version : Z)
| C_Checkpoint (name : string) (version : Z)
| C_Finalize (drain : Z).

(** Identifiers are [int]s. *)
Definition capi_call_ok (k : capi_call) : Prop :=
  match k with
  | C_Mem_protect id _ _ _ | C_Region_protect id _ _ _ _ => is_int id
  | _ => True
  end.

Section invariant.
Context {Q : Type} (qc : comm_client_t Q) (P : process_t Q) (mpi : mpi_t) (bufsize : Z).
Abbreviation capi := (comp (capi_t Q)).

Definition run_capi (k : capi_call) : capi Z :=
  match k with
  | C_Init f => VELOC_Init qc P f
  | C_Init_single id f => VELOC_Init_single qc P id f
  | C_Mem_protect id p c b => VELOC_Mem_protect id p c b
  | C_Region_protect id p c b n => VELOC_Region_protect id p c b n
  | C_Mem_unprotect id => VELOC_Mem_unprotect id
  | C_Region_unprotect id n => VELOC_Region_unprotect id n
  | C_Mem_clear => VELOC_Mem_clear
  | C_Region_clear n => VELOC_Region_clear n
  | C_Checkpoint_begin n v => VELOC_Checkpoint_begin n v
  | C_Checkpoint_mem => VELOC_Checkpoint_mem bufsize
  | C_Checkpoint_selective m ids n => VELOC_Checkpoint_selective bufsize m ids n
  | C_Checkpoint_end s => VELOC_Checkpoint_end qc mpi s
  | C_Checkpoint_wait => VELOC_Checkpoint_wait qc
  | C_Checkpoint_finished => VELOC_Checkpoint_finished qc
  | C_Restart_test n v => VELOC_Restart_test qc mpi n v
  | C_Route_file cwd o room => r ← VELOC_Route_file cwd o room; mret r.1
  | C_Cleanup n => VELOC_Cleanup n
  | C_Restart_begin n v => VELOC_Restart_begin qc mpi n v
  | C_Recover_mem => VELOC_Recover_mem
  | C_Recover_selective m ids n => VELOC_Recover_selective m ids n
  | C_Recover_size id => VELOC_Recover_size id
  | C_Restart_end s => VELOC_Restart_end s
  | C_Restart n v => VELOC_Restart qc mpi n v
  | C_Checkpoint n v => VELOC_Checkpoint qc mpi bufsize n v
  | C_Finalize d => VELOC_Finalize qc P d
  end.

(** A client that is there is well-formed. *)
Definition capi_inv (w : capi_t Q) : Prop :=
  w.(veloc_client) = Live → client_inv w.(the_cfg) w.(object).

Lemma through_preserves {A} (m : client_cfg → comp (client_t Q) A) :
  (∀ cfg, preserves (client_inv cfg) (m cfg)) → preserves capi_inv (through m).
Proof.
  intros Hm w o w' H Hi. unfold through in H.
  destruct (veloc_client w) eqn:Hc; try by simplify_eq.
  destruct (m (the_cfg w) (object w)) as [o1 st] eqn:E. simplify_eq. intros _.
  by apply (Hm _ _ _ _ E), Hi.
Qed.

Lemma call_preserves {A} (m : client_cfg → comp (client_t Q) A) (f : A → Z) :
  (∀ cfg, preserves (client_inv cfg) (m cfg)) →
  preserves capi_inv (c ← not_null; if negb c then mret VELOC_FAILURE else n ← through m; mret (f n)).
Proof.
  intros Hm. apply preserves_bind; [apply preserves_gets|]. intros c.
  destruct (negb c); [apply preserves_ret|].
  apply preserves_bind; [by apply through_preserves|]. intros n. apply preserves_ret.
Qed.

(** The constructors of the optional storage modules leave the client alone. *)
Definition library_frame (make : option (storage_make (client_t Q))) : Prop :=
  ∀ m cfg s p v, make = Some m → preserves (client_inv cfg) (m s p v).

Hypothesis daos_frame : library_frame P.(daos_module).
Hypothesis axl_frame : library_frame P.(axl_module).

Lemma on_sys_preserves {A} cfg (m : posix A) : preserves (client_inv (Q:=Q) cfg) (on_sys m).
Proof. apply preserves_on_sys. intros st s. apply inv_with_sys. Qed.

Lemma linked_preserves cfg make s p v :
  library_frame make → preserves (client_inv cfg) (config.linked (S:=client_t Q) make s p v).
Proof.
  intros Hm. unfold config.linked. destruct make as [make|]; [|apply preserves_stop].
  apply preserves_bind; [by apply Hm|]. intros; apply preserves_ret.
Qed.

Lemma open_storage_preserves cfg r s :
  preserves (client_inv cfg) (config.open_storage P.(getenv) P.(daos_module) P.(axl_module) r s).
Proof.
  unfold config.open_storage, posix_agg_module_t.make, posix_module_t.make.
  repeat first [ apply preserves_ret | apply preserves_stop | apply on_sys_preserves
    | by apply linked_preserves | apply preserves_bind; [|intros ?] | case_match ].
Qed.

Lemma make_preserves cfg f b :
  preserves (client_inv cfg) (config.make (S:=client_t Q) P.(getenv) P.(host_name) P.(uid)
    P.(daos_module) P.(axl_module) f b).
Proof.
  unfold config.make, config.open_reader, config.open_log.
  repeat first [ apply preserves_ret | apply preserves_stop | apply on_sys_preserves
    | apply open_storage_preserves | apply preserves_bind; [|intros ?] | case_match ].
Qed.

Lemma fresh_inv cfg st : client_inv cfg (fresh (Q:=Q) st).
Proof. split; [|done]. intros n r Hn. simpl in Hn. by rewrite lookup_empty in Hn. Qed.

(** A constructor leaves a well-formed client, whatever state it starts from. *)
Lemma construct_inv {A} (m : config_t (client_t Q) → comp (client_t Q) A) f st o st' cfg :
  (∀ c, preserves (client_inv cfg) (m c)) →
  (c ← open_config P f; m c) st = (o, st') → client_inv cfg st'.
Proof.
  intros Hm. unfold open_config. rewrite !comp_bind_unfold. unfold modify at 1. cbn beta iota.
  destruct (config.make _ _ _ _ _ _ _ (fresh st)) as [o1 st1] eqn:E.
  pose proof (make_preserves cfg _ _ _ _ _ E (fresh_inv cfg st)) as Hi.
  destruct o1; intros H; try by simplify_eq. by eapply (Hm _ _ _ _ H).
Qed.

Lemma init_preserves (new : comp (client_t Q) (client_cfg * bool)) :
  (∀ st o st' cfg, new st = (o, st') → client_inv cfg st') → preserves capi_inv (init new).
Proof.
  intros Hnew w o w' H Hi. unfold init, get_client in H.
  destruct (veloc_client w) eqn:Hc; [|by simplify_eq|by simplify_eq].
  destruct (new (object w)) as [[[cfg b]| | | |] st] eqn:E; simplify_eq;
    intros Hl; try discriminate Hl. by eapply Hnew.
Qed.

Lemma launch_preserves cfg f : preserves (client_inv cfg) (launch_backend P f).
Proof.
  unfold launch_backend. apply preserves_bind; [auto with preserve|]. intros r.
  destruct (negb _); auto with preserve.
Qed.

Lemma in_process_preserves cfg c : preserves (client_inv cfg) (in_process P c).
Proof.
  unfold in_process, check_threaded. destruct (sync_mode c); [auto with preserve|].
  destruct (_ && _); auto with preserve.
Qed.

Lemma announce_preserves cfg r : preserves (client_inv cfg) (announce qc r).
Proof.
  unfold announce. apply preserves_bind; [auto with preserve|]. intros c.
  apply preserves_bind; [apply blocking_preserves|]. auto with preserve.
Qed.

Lemma single_inv id f st o st' cfg :
  client_impl_single qc P id f st = (o, st') → client_inv cfg st'.
Proof.
  apply construct_inv. intros c. apply preserves_bind; [apply in_process_preserves|]. intros here.
  apply preserves_bind; [destruct here; auto using launch_preserves with preserve|]. intros _.
  apply preserves_bind; [apply announce_preserves|]. intros _.
  apply preserves_bind; auto with preserve.
Qed.

Lemma comm_inv f st o st' cfg :
  client_impl_comm qc P f st = (o, st') → client_inv cfg st'.
Proof.
  apply construct_inv. intros c. apply preserves_bind; [apply in_process_preserves|]. intros here.
  apply preserves_bind.
  { destruct here; [|apply launch_preserves]. apply preserves_bind; [|auto with preserve].
    destruct (_ =? _); auto with preserve. }
  intros _. apply preserves_bind; [apply announce_preserves|]. intros _.
  apply preserves_bind; [destruct here; auto with preserve|]. intros _.
  apply preserves_bind; auto with preserve.
Qed.

Lemma finalize_preserves d : preserves capi_inv (VELOC_Finalize qc P d).
Proof.
  unfold VELOC_Finalize, delete_client. apply preserves_bind; [apply preserves_gets|]. intros c.
  destruct (negb c); [apply preserves_ret|]. apply preserves_bind.
  { destruct (_ =? _); [apply preserves_ret|]. apply (call_preserves _ (λ b : bool, _)).
    auto with preserve. }
  intros r. apply preserves_bind; [|intros; apply preserves_ret].
  apply preserves_bind; [apply preserves_gets|]. intros b.
  apply preserves_bind; [apply through_preserves; destruct b; auto with preserve|].
  intros _. by apply preserves_modify.
Qed.

(** The states of the interface: those that calls reach, in any order and whatever
    their results, from a process without a client. *)
Inductive reachable : capi_t Q → Prop :=
| reach_start w : w.(veloc_client) = Null → reachable w
| reach_call k w o w' :
    reachable w → capi_call_ok k → run_capi k w = (o, w') → reachable w'.

Lemma run_capi_preserves k : capi_call_ok k → preserves capi_inv (run_capi k).
Proof.
  intros Hok. destruct k; cbn [run_capi];
    lazymatch goal with
    | |- preserves _ (VELOC_Init _ _ _) => apply init_preserves, comm_inv
    | |- preserves _ (VELOC_Init_single _ _ _ _) => apply init_preserves; intros; by eapply single_inv
    | |- preserves _ (VELOC_Finalize _ _ _) => apply finalize_preserves
    | |- _ => idtac
    end;
    try (apply preserves_bind; [apply preserves_stop|intros ids_]);
    try (apply call_preserves; intros cfg; eauto with preserve; apply protect_preserves;
         done || apply u64_range).
  - apply preserves_bind; [|intros; apply preserves_ret].
    apply preserves_bind; [apply through_preserves; auto with preserve|]. intros cname.
    destruct (_ <? _); [apply preserves_stop|apply preserves_ret].
Qed.
End invariant.

(** C10: the invariant of the client holds through the C interface: after any
    sequence of calls, in any order and whatever their results, from the start of
    the process on, a client that is there has ordered region maps with sizes in
    range, and a checkpoint in progress has a validated name, a non-negative version
    and the rank of the process. *)
Theorem capi_invariant {Q} (qc : comm_client_t Q) (P : process_t Q) (mpi : mpi_t) (bufsize : Z)
    (w : capi_t Q) :
  library_frame P.(daos_module) → library_frame P.(axl_module) →
  reachable qc P mpi bufsize w → w.(veloc_client) = Live → client_inv w.(the_cfg) w.(object).
Proof.
  intros Hd Ha Hr. change (capi_inv w).
  induction Hr as [w Hnull|k w o w' _ IH Hok Hrun]; [unfold capi_inv; congruence|].
  by eapply run_capi_preserves.
Qed.

(** A process with a backend that starts at once. *)
Definition demo_process : process_t unit := {|
  getenv _ := None; host_name := "host"; uid := 0;
  daos_module := None; axl_module := None;
  start_main_loop := mret tt; system _ := mret 0;
  MPI_Query_thread := 0; MPI_THREAD_MULTIPLE := 3; MPI_Barrier := mret tt;
  MPI_Comm_rank := 0; MPI_Comm_size := 1; local_rank := 0
|}.

Definition demo_start : capi_t unit :=
  mk_capi Null demo_cfg false
    (mk_client (mk_sys demo_install []) (demo_memory Byte.x01) tt ∅ [] None false [] 0).

Definition demo_initialised : capi_t unit :=
  (VELOC_Init_single instant_queue demo_process 0 "/cfg" demo_start).2.

Lemma capi_invariant_witness :
  let w := (VELOC_Checkpoint_begin "ck" 3 demo_initialised).2 in
  w.(object).(checkpoint_in_progress) = true ∧ client_inv w.(the_cfg) w.(object).
Proof.
  intros w. split; [vm_compute; reflexivity|].
  apply (capi_invariant instant_queue demo_process single_mpi 10 w);
    [by intros ? ? ? ? ? [=]|by intros ? ? ? ? ? [=]| |vm_compute; reflexivity].
  eapply (reach_call _ _ _ _ (C_Checkpoint_begin "ck" 3)); [|done|apply surjective_pairing].
  eapply (reach_call _ _ _ _ (C_Init_single 0 "/cfg")); [|done|apply surjective_pairing].
  by apply reach_start.
Defined.

(** [VELOC_Finalize] leaves the pointer dangling: a later [VELOC_Init] reports
    success without creating a client, and the calls after it, [VELOC_Finalize]
    included, use the destroyed one. *)
Theorem capi_finalize_dangling {Q} (qc : comm_client_t Q) (P : process_t Q) (mpi : mpi_t)
    (bufsize drain : Z) (w w1 : capi_t Q) (r : Z) :
  VELOC_Finalize qc P drain w = (Val r, w1) → w.(veloc_client) ≠ Null →
  (∀ f, VELOC_Init qc P f w1 = (Val VELOC_SUCCESS, w1)) ∧
  (∀ name version, VELOC_Checkpoint qc mpi bufsize name version w1 = (Undef, w1)) ∧
  (∀ name version, VELOC_Restart_test qc mpi name version w1 = (Undef, w1)) ∧
  VELOC_Finalize qc P 0 w1 = (Undef, w1).
Proof.
  intros Hfin Hnull.
  assert (veloc_client w1 = Freed) as Hfreed.
  { unfold VELOC_Finalize in Hfin. apply comp_bind_inv in Hfin as (c & s1 & Hc & Hfin).
    unfold not_null, gets in Hc. simplify_eq. rewrite bool_decide_true in Hfin by done.
    cbn [negb] in Hfin. apply comp_bind_inv in Hfin as (r1 & s2 & _ & Hfin).
    apply comp_bind_inv in Hfin as ([] & s3 & Hdel & Hfin). injection Hfin as <- <-.
    unfold delete_client in Hdel. apply comp_bind_inv in Hdel as (b & s4 & _ & Hdel).
    apply comp_bind_inv in Hdel as ([] & s5 & _ & Hdel). by injection Hdel as <-. }
  assert (not_null w1 = (Val true, w1)) as Hnn by (unfold not_null, gets; by rewrite Hfreed).
  assert (∀ A (m : client_cfg → comp (client_t Q) A), through m w1 = (Undef, w1)) as Hth
    by (intros A m; unfold through; by rewrite Hfreed).
  split_and!.
  - intros f. unfold VELOC_Init, init, get_client. by rewrite Hfreed.
  - intros name version. unfold VELOC_Checkpoint, BOOL_CALL.
    rewrite (comp_bind_val _ _ _ _ _ Hnn). cbn [negb]. rewrite comp_bind_unfold. by rewrite Hth.
  - intros name version. unfold VELOC_Restart_test, INT_CALL.
    rewrite (comp_bind_val _ _ _ _ _ Hnn). cbn [negb]. rewrite comp_bind_unfold. by rewrite Hth.
  - unfold VELOC_Finalize. rewrite (comp_bind_val _ _ _ _ _ Hnn). cbn [negb].
    rewrite (comp_bind_val _ _ _ VELOC_SUCCESS w1) by done. rewrite comp_bind_unfold.
    unfold delete_client. rewrite gets_bind, comp_bind_unfold. by rewrite Hth.
Qed.

Lemma capi_finalize_dangling_witness :
  let w1 := (VELOC_Finalize instant_queue demo_process 1 demo_initialised).2 in
  (∀ f, VELOC_Init instant_queue demo_process f w1 = (Val VELOC_SUCCESS, w1)) ∧
  (∀ name version, VELOC_Checkpoint instant_queue single_mpi 10 name version w1 = (Undef, w1)) ∧
  (∀ name version, VELOC_Restart_test instant_queue single_mpi name version w1 = (Undef, w1)) ∧
  VELOC_Finalize instant_queue demo_process 0 w1 = (Undef, w1).
Proof.
  intros w1.
  apply (capi_finalize_dangling instant_queue demo_process single_mpi 10 1 demo_initialised w1 VELOC_SUCCESS).
  - vm_compute. reflexivity.
  - vm_compute. discriminate.
Defined.

(** [VELOC_Recover_size] converts the [size_t] of the client to [int]: it
    reports the size of a region exactly when the size is below 2 GiB. *)
Theorem capi_recover_size {Q} (w w' : capi_t Q) (id r : Z) :
  VELOC_Recover_size id w = (Val r, w') → w.(veloc_client) = Live →
  ∃ n st', recover_size w.(the_cfg) id w.(object) = (Val n, st') ∧
    (is_size n → r = n ↔ n ≤ INT_MAX).
Proof.
  intros H Hl. unfold VELOC_Recover_size, INT_CALL in H.
  apply comp_bind_inv in H as (c & s1 & Hc & H). unfold not_null, gets in Hc. simplify_eq.
  rewrite bool_decide_true in H by congruence. cbn [negb] in H.
  apply comp_bind_inv in H as (n & s2 & Ht & H). injection H as <- <-.
  unfold through in Ht. rewrite Hl in Ht.
  destruct (recover_size _ _ _) as [o st'] eqn:E. injection Ht as -> _.
  exists n, st'. split; [done|]. intros [H0 H1]. split.
  - intros Hr. unfold i32 in Hr. unfold INT_MAX. pose proof (Z.mod_pos_bound (n + 2 ^ 31) (2 ^ 32)). lia.
  - intros Hn. apply i32_small. unfold is_int, INT_MIN. lia.
Qed.

(** A client that has read the header of a checkpoint with a region of 4 GiB and
    five bytes. *)
Definition demo_large : capi_t unit :=
  mk_capi Live demo_cfg false
    (mk_client (mk_sys ∅ []) ∅ tt ∅ [] (Some demo_cmd) false [(1, 2 ^ 32 + 5)] 20).

Lemma capi_recover_size_witness :
  VELOC_Recover_size 1 demo_large = (Val 5, demo_large) ∧
  ∃ n st', recover_size demo_cfg 1 demo_large.(object) = (Val n, st') ∧
    (is_size n → 5 = n ↔ n ≤ INT_MAX).
Proof.
  split; [vm_compute; reflexivity|].
  apply (capi_recover_size demo_large demo_large 1 5); vm_compute; reflexivity.
Defined.

(** ** Initialisation from a configuration file *)

Section init_file.
Context {Q : Type} (qc : comm_client_t Q) (P : process_t Q).
Variables (fs : gmap string node) (f p scratch persistent : string) (l : list (string * string)).
Hypothesis env_empty : ∀ v, P.(getenv) ("VELOC_" +:+ v) = None.
Hypothesis l_ok : Forall (λ e, Ini.entry_ok e = true) l.
Hypothesis l_names : NoDup ((λ e, INIReader.MakeKey "" e.1) <$> l).
Hypothesis l_special : ∀ m v, (m, v) ∈ l → tolower m ∉ special.
Hypothesis f_name : f ≠ "".
Hypothesis f_file : lookup_path fs f = Some (p, Reg (ini_file l)).
Hypothesis f_size : zlen (ini_file l) ≤ LONG_MAX.
Hypothesis l_mode : ("mode", "sync") ∈ l.
Hypothesis l_scratch : ("scratch", scratch) ∈ l ∧ word scratch = true ∧ is_dir fs scratch = true.
Hypothesis l_persistent :
  ("persistent", persistent) ∈ l ∧ word persistent = true ∧ is_dir fs persistent = true.

(** Initialisation.  With a configuration file of the synchronous mode, existing
    directories and a main loop that starts and answers, [VELOC_Init_single]
    succeeds.  The client then works in the scratch directory of the file under the
    given identifier, has nothing protected and no checkpoint in progress, and the
    memory of the application is untouched. *)
Theorem capi_init_file id w s1 q1 s2 q2 s3 q3 r :
  w.(veloc_client) = Null → w.(object).(the_fs) = mk_sys fs [] → is_int id →
  P.(start_main_loop) (mk_sys fs [], w.(object).(queue)) = (Val tt, (s1, q1)) →
  (∀ c, command_t.make id INIT 0 "" = Val c → qc.(enqueue) c (s1, q1) = (Val tt, (s2, q2))) →
  qc.(wait_completion) (s2, q2) = (Val r, (s3, q3)) →
  ∃ w', VELOC_Init_single qc P id f w = (Val VELOC_SUCCESS, w') ∧
    w'.(veloc_client) = Live ∧ w'.(the_cfg).(Client.scratch) = scratch ∧
    w'.(the_cfg).(is_sync) = true ∧ w'.(the_cfg).(rank) = id ∧
    w'.(object) = mk_client s3 w.(object).(memory) q3 ∅ [] None false [] 0.
Proof.
  intros Hnull Hfs Hid Hstart Henq Hwait.
  destruct l_scratch as (Hs & Hsw & Hsd), l_persistent as (Hp & Hpw & Hpd).
  destruct (make_file P.(getenv) P.(host_name) P.(uid) P.(daos_module) P.(axl_module) fs f p l
    env_empty l_ok l_names f_name f_file f_size (fresh w.(object)) "sync" scratch persistent)
    as (rd & Hmake & Hin & _); try done; [by left|].
  assert (Config.get P.(getenv) (Some rd) "scratch" = Val scratch) as Hget.
  { unfold Config.get. rewrite (Hin _ _ _ Hs). unfold extract_word. by rewrite extract_string_word. }
  unfold VELOC_Init_single, init, get_client. rewrite Hnull.
  unfold client_impl_single, open_config.
  erewrite comp_bind_val by (rewrite modify_bind; exact Hmake).
  unfold in_process at 1. cbn [sync_mode String.eqb Ascii.eqb Bool.eqb]. rewrite ret_bind.
  assert (on_queue (start_main_loop P) (fresh w.(object)) =
    (Val tt, mk_client s1 w.(object).(memory) q1 ∅ [] None false [] 0)) as Hq
    by (unfold on_queue; simpl; by rewrite Hfs, Hstart).
  cbn beta iota. rewrite (comp_bind_val _ _ _ _ _ Hq).
  assert (announce qc (i32 id) (mk_client s1 w.(object).(memory) q1 ∅ [] None false [] 0) =
    (Val tt, mk_client s3 w.(object).(memory) q3 ∅ [] None false [] 0)) as Ha.
  { unfold announce. rewrite i32_small by done.
    unfold command_t.make in *. cbn [String.length] in *. change (CKPT_NAME_MAX <? Z.of_nat 0 + 1) with false in *.
    cbn iota in *. rewrite stop_bind. unfold run_blocking. rewrite !comp_bind_unfold.
    unfold on_queue at 1. cbn [the_fs queue]. rewrite (Henq _ eq_refl). unfold on_queue.
    cbn [the_fs queue memory mem_regions observers current_ckpt checkpoint_in_progress region_info header_size].
    by rewrite Hwait. }
  rewrite (comp_bind_val _ _ _ _ _ Ha). cbn [reader]. rewrite Hget, stop_bind.
  eexists. split; [reflexivity|]. cbn. by rewrite i32_small.
Qed.
End init_file.

Definition demo_sync : list (string * string) :=
  [("mode", "sync"); ("scratch", "/s"); ("persistent", "/p")].

Definition demo_sync_fs : gmap string node :=
  <["/cfg" := Reg (ini_file demo_sync)]> (<["/s" := Dir]> (<["/p" := Dir]> ∅)).

Lemma capi_init_file_witness :
  let w := mk_capi Null demo_cfg false
    (mk_client (mk_sys demo_sync_fs []) (demo_memory Byte.x01) tt ∅ [] None true [] 0) in
  ∃ w', VELOC_Init_single instant_queue demo_process 7 "/cfg" w = (Val VELOC_SUCCESS, w') ∧
    w'.(veloc_client) = Live ∧ w'.(the_cfg).(Client.scratch) = "/s" ∧
    w'.(the_cfg).(is_sync) = true ∧ w'.(the_cfg).(rank) = 7 ∧
    w'.(object) = mk_client (mk_sys demo_sync_fs []) (demo_memory Byte.x01) tt ∅ [] None false [] 0.
Proof.
  intros w.
  apply (capi_init_file instant_queue demo_process demo_sync_fs "/cfg" "/cfg" "/s" "/p" demo_sync)
    with (s1 := mk_sys demo_sync_fs []) (q1 := tt) (s2 := mk_sys demo_sync_fs []) (q2 := tt)
      (r := VELOC_SUCCESS) (w := w).
  - reflexivity.
  - repeat constructor.
  - apply (bool_decide_unpack _). vm_compute. exact I.
  - intros m v Hm. repeat (apply elem_of_cons in Hm as [[= -> ->]|Hm];
      [apply (bool_decide_unpack _); vm_compute; exact I|]). by apply elem_of_nil in Hm.
  - discriminate.
  - vm_compute. reflexivity.
  - vm_compute. discriminate.
  - left.
  - split; [right; left|]. split; vm_compute; reflexivity.
  - split; [right; right; left|]. split; vm_compute; reflexivity.
  - reflexivity.
  - reflexivity.
  - split; vm_compute; discriminate.
  - reflexivity.
  - reflexivity.
  - reflexivity.
Defined.
