(* ===== verification/Python.v ===== *)
(** * Python: [src/bindings/python/veloc/__init__.py]

    The class [Ckpt] of the Python bindings: it pickles an object into a buffer,
    protects the buffer as the only region and calls the C interface.

    [pickle] and the allocator of Python are parameters.  A buffer is mapped while
    the variable that refers to it lives, that is until the method returns.  ctypes
    passes a Python integer as an [int]; a call with one that is not is undefined. *)

From S2P Require Import Prelude Text Command FileSystem Containers FileUtil Bytes Storage Streams Header.
From S2P Require Import Client Versioning Environment Transfer Chksum Manager Queue IpcQueue System CApi.

Local Open Scope Z_scope.

Import command_t module_manager_t.

Inductive py_error := RuntimeError | ValueError | UnpicklingError.

(** An instance: the library with its state, and the attribute [protected], where
    [None] is Python's. *)
Record Ckpt (Q object : Type) := mk_ckpt {
  lib : capi_t Q;
  protected : option object
}.
Arguments mk_ckpt {Q object} _ _.
Arguments lib {Q object} _.
Arguments protected {Q object} _.

(** Bytes that are not mapped any more. *)
Definition unmap (p n : Z) (m : mem) : mem := foldr delete m (addresses p n).

Section bindings.
Context {Q object : Type} (qc : comm_client_t Q) (P : process_t Q) (mpi : mpi_t) (bufsize : Z).

(** [pickle.dumps] and [pickle.loads]; [None] is an exception. *)
Variables (dumps : object → list byte) (loads : list byte → option object).

(** The address of a new buffer of the size. *)
Variable malloc : mem → Z → Z.

(** Whether [ctypes.util.find_library] finds the library, and what a call that
    misses its argument passes. *)
Variables (find_library : bool) (register : Z).

Abbreviation ckpt := (comp (Ckpt Q object)).

Definition on_lib {A} (m : comp (capi_t Q) A) : ckpt A := λ k,
  let '(o, w) := m k.(lib) in (o, mk_ckpt w k.(protected)).

(** An argument without a declared type. *)
Definition c_int (z : Z) : ckpt Z := if bool_decide (is_int z) then mret z else stop Undef.

Definition on_memory (g : mem → mem) : ckpt unit :=
  on_lib (modify (λ w, mk_capi w.(veloc_client) w.(the_cfg) w.(local) (set_memory (g w.(CApi.object).(memory)) w.(CApi.object)))).

Definition alloc (bs : list byte) : ckpt Z :=
  m ← gets (λ k, k.(lib).(CApi.object).(memory));
  let p := malloc m (zlen bs) in
  on_memory (store_bytes p bs);;
  mret p.

Definition free (p n : Z) : ckpt unit := on_memory (unmap p n).

(** ** The class *)

Definition __init__ (id : Z) (cfg : string) : ckpt (py_error + unit) :=
  if negb find_library then mret (inl RuntimeError) else
  modify (λ k, mk_ckpt k.(lib) None);;
  id ← c_int id;
  r ← on_lib (VELOC_Init_single qc P (u32 id) cfg);
  mret (if r =? 0 then inr tt else inl RuntimeError).

Definition checkpoint (name : string) (version : Z) : ckpt (py_error + unit) :=
  k ← get;
  match k.(protected) with
  | None => mret (inl RuntimeError)
  | Some o =>
      let pickled := dumps o in
      p ← alloc pickled;
      len ← c_int (zlen pickled);
      on_lib (VELOC_Mem_protect 0 p len 1);;
      version ← c_int version;
      r ← on_lib (VELOC_Checkpoint qc mpi bufsize name version);
      free p (zlen pickled);;
      mret (if r =? 0 then inr tt else inl RuntimeError)
  end.

Definition restart_test (name : string) (version : Z) : ckpt (py_error + Z) :=
  version ← c_int version;
  r ← on_lib (VELOC_Restart_test qc mpi name version);
  mret (inr r).

Definition restart (name : string) (version : Z) : ckpt (py_error + unit) :=
  version ← c_int version;
  r ← on_lib (VELOC_Restart_begin qc mpi name version);
  if negb (r =? 0) then mret (inl RuntimeError) else
  psize ← on_lib (VELOC_Recover_size 0);
  if psize <? 0 then mret (inl ValueError) else
  p ← alloc (replicate (Z.to_nat psize) Byte.x00);
  on_lib (VELOC_Mem_protect 0 p psize 1);;
  r ← on_lib VELOC_Recover_mem;
  if negb (r =? 0) then free p psize;; mret (inl RuntimeError) else
  on_lib (VELOC_Restart_end register);;
  m ← gets (λ k, k.(lib).(CApi.object).(memory));
  raw ← stop (from_option Val Undef (load p psize m));
  free p psize;;
  match loads raw with
  | None => mret (inl UnpicklingError)
  | Some o => modify (λ k, mk_ckpt k.(lib) (Some o));; mret (inr tt)
  end.

Definition __del__ : ckpt unit := on_lib (VELOC_Finalize qc P 0);; mret tt.

End bindings.

(** ** Lemmas *)

Lemma unmap_lookup p n m a : unmap p n m !! a = if (p <=? a) && (a <? p + n) then None else m !! a.
Proof.
  unfold unmap. assert (∀ l, foldr delete m l !! a = if decide (a ∈ l) then None else m !! a) as Hl.
  { intros l. induction l as [|x l IH]; [done|]. simpl. destruct (decide (x = a)) as [->|Hne].
    - rewrite lookup_delete_eq, decide_True by set_solver. done.
    - rewrite lookup_delete_ne, IH by done. by destruct (decide (a ∈ l)), (decide (a ∈ x :: l)); try set_solver. }
  rewrite Hl. destruct (decide (a ∈ addresses p n)) as [H|H]; rewrite addresses_elem in H;
    destruct (Z.leb_spec p a), (Z.ltb_spec a (p + n)); done || lia.
Qed.

(** A buffer that goes away leaves the memory as it was. *)
Lemma unmap_store p bs m : (∀ a, p ≤ a < p + zlen bs → m !! a = None) → unmap p (zlen bs) (store_bytes p bs m) = m.
Proof.
  intros Hm. apply map_eq. intros a. rewrite unmap_lookup, store_bytes_lookup.
  destruct (Z.leb_spec p a), (Z.ltb_spec a (p + zlen bs)); try done. simpl. symmetry. by apply Hm.
Qed.

Lemma store_again p bs bs' m : zlen bs = zlen bs' → store_bytes p bs (store_bytes p bs' m) = store_bytes p bs m.
Proof.
  intros Hlen. apply map_eq. intros a. rewrite !store_bytes_lookup, Hlen. by destruct (_ && _).
Qed.

Lemma load_unmapped p n m : 0 < n → m !! p = None → load p n m = None.
Proof.
  intros Hn Hp. unfold load, addresses. rewrite seqZ_cons by done. csimpl. by rewrite Hp.
Qed.

Section roundtrip.
Context {E object : Type} (SHA256 : list byte → list byte).
Hypothesis SHA256_size : ∀ d, zlen (SHA256 d) = chksum_module_t.HASH_SIZE.
Variables (cfg : settings) (ccfg : client_cfg) (mpi : mpi_t) (bufsize : Z).
Variables (scratch_dir persistent meta_dir name : string).
Hypothesis Hcfg : plain_settings cfg scratch_dir persistent meta_dir.
Hypothesis Hccfg : ccfg.(scratch) = scratch_dir ∧ aggregated ccfg = false ∧ (comm_set ccfg = true → alone mpi).
Hypothesis Hsync : is_sync ccfg = true.
Hypothesis Hdirs : scratch_dir ≠ persistent.
Hypothesis Hname : validate_name name = true ∧ Z.of_nat (String.length name) + 1 ≤ CKPT_NAME_MAX.
Hypothesis Hrank : 0 ≤ rank ccfg ≤ INT_MAX.

Variables (dumps : object → list byte) (loads : list byte → option object) (malloc : mem → Z → Z) (register : Z).
Hypothesis pickle_loads : ∀ o, loads (dumps o) = Some o.
Hypothesis malloc_null : ∀ m n, malloc m n ≠ 0.
Hypothesis malloc_new : ∀ m n a, malloc m n ≤ a < malloc m n + n → m !! a = None.

Abbreviation qc := (local_queue [watchdog_method cfg; transfer_method cfg; chksum_method SHA256 cfg true;
  versioning_method (E:=E) cfg]).
Abbreviation client := (client_t (backend_t E * client_queue_t command_t.t)).
Abbreviation cmd v := (ckpt_cmd ccfg name v CHECKPOINT).

(** An instance over the state [st] of the client. *)
Definition instance (st : client) (local : bool) (o : option object) : Ckpt _ object :=
  mk_ckpt (mk_capi Live ccfg local st) o.

(** The region of a buffer. *)
Definition buffer (p : Z) (bs : list byte) : regions_t := [(0, mk_region p (zlen bs) None None)].

(** The state with a new buffer that is protected. *)
Definition with_buffer (p : Z) (bs : list byte) (st : client) : client :=
  set_regions (<[default_mem_group := buffer p bs]> (mem_regions st)) (set_memory (store_bytes p bs (memory st)) st).

Lemma alloc_run bs st local o :
  alloc malloc bs (instance st local o)
  = (Val (malloc (memory st) (zlen bs)),
     instance (set_memory (store_bytes (malloc (memory st) (zlen bs)) bs (memory st)) st) local o).
Proof. done. Qed.

Lemma free_run p n st local o :
  free p n (instance st local o) = (Val tt, instance (set_memory (unmap p n (memory st)) st) local o).
Proof. done. Qed.

Lemma on_lib_instance {A} (m : comp (capi_t _) A) st st' local o r :
  m (mk_capi Live ccfg local st) = (r, mk_capi Live ccfg local st') →
  on_lib m (instance st local o) = (r, instance st' local o).
Proof. intros H. unfold on_lib. simpl. by rewrite H. Qed.

Lemma c_int_run z (k : Ckpt (backend_t E * client_queue_t command_t.t) object) :
  is_int z → c_int z k = (Val z, k).
Proof. intros Hz. unfold c_int. by rewrite bool_decide_true. Qed.

(** The new buffer becomes the region 0 of the default group. *)
Lemma protect_run p bs st local o :
  is_int (zlen bs) → regions_of default_mem_group st = [] ∨ (∃ r, regions_of default_mem_group st = [(0, r)]) →
  memory st = store_bytes p bs (memory st) →
  ∃ r, on_lib (VELOC_Mem_protect 0 p (zlen bs) 1) (instance st local o)
    = (Val r, instance (with_buffer p bs st) local o).
Proof.
  intros Hint Hreg Hm. pose proof (zlen_nonneg bs).
  assert (u64 (zlen bs * 1) = zlen bs) as Hu.
  { rewrite Z.mul_1_r. apply u64_small. unfold is_int, INT_MAX, is_size, SIZE_MAX in *. lia. }
  assert (∃ b, mem_protect 0 p (zlen bs) 1 default_mem_group st = (Val b, with_buffer p bs st)) as [b Hb].
  { unfold mem_protect, protect. rewrite Hu. unfold with_buffer. rewrite <-Hm.
    destruct Hreg as [->|[r ->]]; (eexists; by destruct st). }
  eexists. apply on_lib_instance. by apply (BOOL_CALL_run _ (mk_capi Live ccfg local st) b).
Qed.

Lemma buffer_current p bs (st : client) c :
  regions_of c.(command_t.name) st = [] → current_ckpt st = Some c →
  current_regions (with_buffer p bs st) = buffer p bs.
Proof.
  intros Hr Hc. unfold current_regions, current_name. cbn [current_ckpt with_buffer set_regions set_memory].
  rewrite Hc. assert (regions_of default_mem_group (with_buffer p bs st) = buffer p bs) as Hdef.
  { unfold regions_of. simpl. by rewrite lookup_insert_eq. }
  destruct (decide (default_mem_group = c.(command_t.name))) as [<-|Hne]; [by rewrite Hdef|].
  assert (regions_of c.(command_t.name) (with_buffer p bs st) = []) as ->; [|by rewrite Hdef].
  rewrite <-Hr. unfold regions_of. simpl. by rewrite lookup_insert_ne.
Qed.

Lemma buffer_snapshot p bs m : p ≠ 0 → snapshot (buffer p bs) (store_bytes p bs m) = Some [(0, bs)].
Proof.
  intros Hp. unfold buffer, snapshot, region_bytes. simpl. rewrite (proj2 (Z.eqb_neq _ _) Hp). cbn [negb].
  by rewrite load_store_same.
Qed.

Lemma small_file bs : is_int (zlen bs) → zlen (ckpt_file [(0, bs)]) ≤ LONG_MAX.
Proof.
  intros Hb. unfold ckpt_file. rewrite zlen_app, zlen_header_bytes, zlen_sizes_of, <-sum_sizes_of.
  unfold sum_sizes. simpl. change (zlen [(0, bs)]) with 1. unfold is_int, INT_MAX, LONG_MAX in *. lia.
Qed.

(** The checkpoint file of a pickled object. *)
Definition pickle_file (o : object) : list byte := ckpt_file [(0, dumps o)].

Lemma checkpoint_run version (st : client) f local o :
  0 ≤ version ≤ INT_MAX → quiet st f → ready_files ccfg scratch_dir persistent meta_dir name version f →
  map_find VELOC_OBSERVE_CKPT_END (observers st) = None → mem_regions st = ∅ → is_int (zlen (dumps o)) →
  let p := malloc (memory st) (zlen (dumps o)) in
  ∃ st', checkpoint qc mpi bufsize dumps malloc name version (instance st local (Some o))
      = (Val (inr tt), instance st' local (Some o)) ∧
    quiet st' (<[meta_filename (cmd version) meta_dir := Reg (SHA256 (pickle_file o))]>
      (<[filename (cmd version) persistent := Reg (pickle_file o)]>
      (<[filename (cmd version) scratch_dir := Reg (pickle_file o)]> f))) ∧
    same_app st st' ∧
    mem_regions st' = <[name := buffer p (dumps o)]> (<[default_mem_group := buffer p (dumps o)]> ∅).
Proof.
  intros Hv Hquiet Hready Hobs Hreg Hint p. set (bs := dumps o) in *.
  set (st1 := set_memory (store_bytes p bs (memory st)) st). set (st2 := with_buffer p bs st).
  assert (System.protected ccfg name version st2 CHECKPOINT = buffer p bs) as Hprot.
  { apply (buffer_current p bs (set_current (Some (cmd version)) st) (cmd version)); [|done].
    unfold regions_of. simpl. by rewrite Hreg. }
  assert (p ≠ 0) as Hp by apply malloc_null.
  destruct (system_checkpoint SHA256 cfg ccfg mpi bufsize scratch_dir persistent meta_dir name version Hcfg Hccfg
    Hdirs Hname Hv Hrank st2 f [(0, bs)]) as (st3 & Hck & [Hi3 Hf3 Hp3] & [Hm3 Ho3] & Hr3); rewrite ?Hprot;
    [done|by destruct Hquiet|done|done|done|repeat constructor; apply zlen_nonneg|by apply buffer_snapshot
    |by apply small_file|].
  destruct (protect_run p bs st1 local (Some o)) as [r Hpr]; [done|left; unfold regions_of; simpl; by rewrite Hreg
    |simpl; by rewrite store_again|].
  assert (with_buffer p bs st1 = st2) as E2.
  { unfold with_buffer, st1, st2, with_buffer. simpl. by rewrite store_again. }
  rewrite E2 in Hpr.
  assert (on_lib (VELOC_Checkpoint qc mpi bufsize name version) (instance st2 local (Some o))
    = (Val VELOC_SUCCESS, instance st3 local (Some o))) as Hcall.
  { apply on_lib_instance. by apply (BOOL_CALL_run _ (mk_capi Live ccfg local st2) true st3). }
  exists (set_memory (unmap p (zlen bs) (memory st3)) st3). split.
  { unfold checkpoint. rewrite get_bind. cbn [protected instance]. fold bs.
    rewrite (comp_bind_val _ _ _ _ _ (alloc_run bs st local (Some o))). fold p st1.
    rewrite (comp_bind_val _ _ _ _ _ (c_int_run (zlen bs) _ Hint)).
    rewrite (comp_bind_val _ _ _ _ _ Hpr).
    rewrite (comp_bind_val _ _ _ _ _ (c_int_run version (instance st2 local (Some o)) ltac:(unfold is_int, INT_MIN; lia))).
    rewrite (comp_bind_val _ _ _ _ _ Hcall).
    by rewrite (comp_bind_val _ _ _ _ _ (free_run p (zlen bs) st3 local (Some o))). }
  split; [done|]. split; [split; [|done]|].
  - cbn [memory set_memory]. rewrite Hm3. apply unmap_store. intros a Ha. by apply (malloc_new (memory st) (zlen bs)).
  - cbn [mem_regions set_memory]. rewrite Hr3, Hprot. unfold st2, with_buffer. simpl. by rewrite Hreg.
Qed.

(** The regions of the buffer after a recovery into it. *)
Lemma buffer_restored p bs zeros m :
  zlen zeros = zlen bs →
  restore_regions VELOC_RECOVER_ALL [] (buffer p zeros) [(0, bs)] (store_bytes p zeros m) = store_bytes p bs m.
Proof. intros Hlen. unfold restore_regions. simpl. by apply store_again. Qed.

Lemma buffer_holds p bs zeros m :
  p ≠ 0 → zlen zeros = zlen bs →
  can_hold VELOC_RECOVER_ALL [] (buffer p zeros) (store_bytes p zeros m) [(0, bs)].
Proof.
  intros Hp Hlen. constructor; [|constructor]. right. exists (mk_region p (zlen zeros) None None).
  split_and!; [done|done|simpl; lia|]. intros a Ha. rewrite store_bytes_lookup. simpl in Ha.
  destruct (Z.leb_spec p a), (Z.ltb_spec a (p + zlen zeros)); try lia. simpl.
  apply lookup_lt_is_Some. unfold zlen in *. lia.
Qed.

Lemma zlen_zeros n : 0 ≤ n → zlen (replicate (Z.to_nat n) Byte.x00) = n.
Proof. intros Hn. unfold zlen. rewrite length_replicate. lia. Qed.

(** The calls of a restart once it has begun: the size, the protection of the
    new buffer, and the recovery into it. *)
Lemma recover_calls version (st1 : client) f1 local old o :
  the_fs st1 = mk_sys f1 [] → current_ckpt st1 = Some (ckpt_cmd ccfg name version RESTART) →
  header_size st1 = 0 → mem_regions st1 = ∅ → is_int (zlen (dumps o)) →
  f1 !! filename (cmd version) scratch_dir = Some (Reg (pickle_file o)) →
  let zeros := replicate (Z.to_nat (zlen (dumps o))) Byte.x00 in
  let p := malloc (memory st1) (zlen (dumps o)) in
  ∃ st2 st4 st5 r,
    on_lib (VELOC_Recover_size 0) (instance st1 local old) = (Val (zlen (dumps o)), instance st2 local old) ∧
    memory st2 = memory st1 ∧
    on_lib (VELOC_Mem_protect 0 p (zlen (dumps o)) 1)
      (instance (set_memory (store_bytes p zeros (memory st2)) st2) local old) = (Val r, instance st4 local old) ∧
    on_lib VELOC_Recover_mem (instance st4 local old) = (Val VELOC_SUCCESS, instance st5 local old) ∧
    memory st5 = store_bytes p (dumps o) (memory st1) ∧ observers st5 = observers st1.
Proof.
  intros Hs1 Hc1 Hh1 Hr1 Hint Hf1 zeros p. set (bs := dumps o) in *. pose proof (zlen_nonneg bs) as Hn.
  set (l := [(0, bs)]). assert (zlen (ckpt_file l) ≤ LONG_MAX) as Hmax by by apply small_file.
  assert (zlen zeros = zlen bs) as Hz by by apply zlen_zeros.
  assert (f1 !! filename (ckpt_cmd ccfg name version RESTART) (scratch ccfg) = Some (Reg (ckpt_file l))) as Hf1'
    by (by destruct Hccfg as (-> & _)).
  pose proof (recover_size_run ccfg 0 st1 _ f1 l Hc1 Hh1 Hs1 Hf1' Hmax ltac:(done) ltac:(repeat constructor; done)
    ltac:(repeat constructor)) as Hsize. change (default 0 (map_find 0 (sizes_of l))) with (zlen bs) in Hsize.
  set (st2 := set_header _ _ st1) in Hsize. set (st3 := set_memory (store_bytes p zeros (memory st2)) st2).
  destruct (protect_run p zeros st3 local old) as [r Hpr];
    [by rewrite Hz|left; unfold regions_of; simpl; by rewrite Hr1|simpl; by rewrite store_again|].
  set (st4 := with_buffer p zeros st3) in Hpr. rewrite Hz in Hpr.
  assert (current_regions st4 = buffer p zeros) as Hcur.
  { apply (buffer_current p zeros st3 (ckpt_cmd ccfg name version RESTART)); [|done].
    unfold regions_of. simpl. by rewrite Hr1. }
  assert (memory st4 = store_bytes p zeros (memory st1)) as Hm4 by (simpl; by rewrite store_again).
  pose proof (recover_mem_again ccfg VELOC_RECOVER_ALL [] st4 _ f1 l Hc1 eq_refl eq_refl Hs1 Hf1' Hmax) as Hrec.
  rewrite Hcur, Hm4 in Hrec.
  rewrite (buffer_restored p bs zeros (memory st1) Hz : restore_regions _ _ _ l _ = _) in Hrec.
  specialize (Hrec (buffer_holds p bs zeros _ (malloc_null _ _) Hz)).
  exists st2, st4, (recovered l (store_bytes p bs (memory st1)) st4), r. split_and!; try done.
  - rewrite <-(i32_small (zlen bs)) by (unfold is_int in *; lia). apply on_lib_instance.
    by apply (INT_CALL_run _ (mk_capi Live ccfg local st1) (zlen bs) st2).
  - apply on_lib_instance. by apply (BOOL_CALL_run _ (mk_capi Live ccfg local st4) true).
Qed.

Lemma restart_run version (st : client) f local old o :
  0 ≤ version ≤ INT_MAX → quiet st f → mem_regions st = ∅ → is_int (zlen (dumps o)) →
  f !! filename (cmd version) persistent = Some (Reg (pickle_file o)) →
  f !! meta_filename (cmd version) meta_dir = Some (Reg (SHA256 (pickle_file o))) →
  f !! filename (cmd version) scratch_dir = None ∨
    f !! filename (cmd version) scratch_dir = Some (Reg (pickle_file o)) → is_dir f scratch_dir = true →
  ∃ st', restart qc mpi loads malloc register name version (instance st local old)
      = (Val (inr tt), instance st' local (Some o)) ∧ same_app st st'.
Proof.
  intros Hv Hquiet Hreg Hint Hf1 Hf2 Hf3 Hd. pose proof (zlen_nonneg (dumps o)) as Hn.
  destruct (system_restart SHA256 SHA256_size cfg ccfg mpi scratch_dir persistent meta_dir name version Hcfg
    Hccfg Hdirs Hname Hv Hrank st f [(0, dumps o)]) as (st1 & Hbegin & [_ Hs1 _] & [Hm1 Ho1] & Hr1 & Hc1 & Hh1);
    [done..|by apply small_file|].
  destruct (recover_calls version st1 _ local old o Hs1 Hc1 Hh1 ltac:(by rewrite Hr1) Hint (lookup_insert_eq _ _ _))
    as (st2 & st4 & st5 & r & Hsize & Hm2 & Hpr & Hrec & Hm5 & Ho5).
  set (p := malloc (memory st1) (zlen (dumps o))) in *. set (zeros := replicate _ _) in Hpr.
  exists (set_memory (unmap p (zlen (dumps o)) (memory st5)) st5). split.
  - unfold restart. rewrite (comp_bind_val _ _ _ _ _ (c_int_run version (instance st local old)
      ltac:(unfold is_int, INT_MIN; lia))).
    rewrite (comp_bind_val _ _ _ _ _ (on_lib_instance (VELOC_Restart_begin qc mpi name version) st st1 local old _
      (BOOL_CALL_run _ (mk_capi Live ccfg local st) true st1 eq_refl Hbegin))). cbn [negb Z.eqb VELOC_SUCCESS].
    rewrite (comp_bind_val _ _ _ _ _ Hsize). destruct (Z.ltb_spec (zlen (dumps o)) 0); [lia|].
    rewrite (comp_bind_val _ _ _ _ _ (alloc_run zeros st2 local old)).
    replace (zlen zeros) with (zlen (dumps o)) by (symmetry; by apply zlen_zeros). rewrite Hm2 in Hpr |- *. fold p.
    rewrite (comp_bind_val _ _ _ _ _ Hpr), (comp_bind_val _ _ _ _ _ Hrec). cbn [negb Z.eqb VELOC_SUCCESS].
    rewrite (comp_bind_val _ _ _ _ _ (on_lib_instance (VELOC_Restart_end register) st5 st5 local old _
      (BOOL_CALL_run _ (mk_capi Live ccfg local st5) true st5 eq_refl eq_refl))).
    rewrite gets_bind. cbn [CApi.object lib instance]. rewrite Hm5, load_store_same. cbn [from_option].
    rewrite stop_bind, (comp_bind_val _ _ _ _ _ (free_run p (zlen (dumps o)) st5 local old)), Hm5.
    by rewrite pickle_loads.
  - split; [|by rewrite <-Ho1, <-Ho5]. cbn [memory set_memory]. rewrite Hm5, <-Hm1. apply unmap_store.
    intros a Ha. by apply (malloc_new (memory st1) (zlen (dumps o))).
Qed.

(** ** Theorems *)

(** C34: an object survives the process.  [checkpoint] of a new instance succeeds
    and leaves the memory as it was.  A new instance in another process, after the
    loss of memory and with or without the scratch file, restarts from that
    version: [protected] is the object again.  That [loads] inverts [dumps] is
    what pickle documents; the allocator returns unused memory. *)
Theorem python_roundtrip (version : Z) (st0 : client) (f0 : gmap string node) (local : bool) (o : object) :
  0 ≤ version ≤ INT_MAX → quiet st0 f0 → ready_files ccfg scratch_dir persistent meta_dir name version f0 →
  map_find VELOC_OBSERVE_CKPT_END (observers st0) = None → mem_regions st0 = ∅ → is_int (zlen (dumps o)) →
  ∃ st1, checkpoint qc mpi bufsize dumps malloc name version (instance st0 local (Some o))
      = (Val (inr tt), instance st1 local (Some o)) ∧ memory st1 = memory st0 ∧
  ∀ (st2 : client) f2 local2 old,
    quiet st2 f2 → mem_regions st2 = ∅ → is_dir f2 scratch_dir = true →
    f2 !! filename (cmd version) persistent = files (the_fs st1) !! filename (cmd version) persistent →
    f2 !! meta_filename (cmd version) meta_dir = files (the_fs st1) !! meta_filename (cmd version) meta_dir →
    f2 !! filename (cmd version) scratch_dir = None ∨
      f2 !! filename (cmd version) scratch_dir = files (the_fs st1) !! filename (cmd version) scratch_dir →
    ∃ st3, restart qc mpi loads malloc register name version (instance st2 local2 old)
        = (Val (inr tt), instance st3 local2 (Some o)) ∧ memory st3 = memory st2.
Proof.
  intros Hv Hquiet Hready Hobs Hreg Hint.
  destruct (checkpoint_run version st0 f0 local o Hv Hquiet Hready Hobs Hreg Hint)
    as (st1 & Hck & [_ Hf1 _] & [Hm1 _] & _).
  exists st1. split; [done|]. split; [done|].
  intros st2 f2 local2 old Hq2 Hr2 Hd2 Hfp Hfm Hfs. rewrite Hf1 in Hfp, Hfm, Hfs. simpl in Hfp, Hfm, Hfs.
  assert (filename (cmd version) persistent ≠ filename (cmd version) scratch_dir) as Hne
    by (intros E'; by apply filename_prefix in E').
  rewrite lookup_insert_ne, lookup_insert_eq in Hfp by apply record_not_file. rewrite lookup_insert_eq in Hfm.
  rewrite !lookup_insert_ne, lookup_insert_eq in Hfs by (done || apply record_not_file).
  destruct (restart_run version st2 f2 local2 old o) as (st3 & Hrs & [Hm3 _]); [done..|]. by exists st3.
Qed.

(** A checkpoint whose region is not mapped. *)
Lemma checkpoint_unmapped version (st : client) f c r :
  quiet st f → 0 ≤ version → c = cmd version → regions_of name st = [(0, r)] → r.(ptr) ≠ 0 →
  load r.(ptr) r.(size) (memory st) = None → writable f (filename c scratch_dir) →
  ∃ st', Client.checkpoint qc ccfg mpi bufsize name version st = (Undef, st').
Proof.
  intros [Hi Hs Hp] Hv -> Hr Hptr Hload Hw. destruct Hname as [Hn Hlen]. destruct Hccfg as (Hsc & _).
  unfold Client.checkpoint, and_then. destruct (queue st) as [b q] eqn:Hq. simpl in Hi.
  assert (Client.wait_completion qc (the_fs st, queue st)
    = (Val VELOC_SUCCESS, (the_fs st, (with_env_sys b (the_fs st), q)))) as Hwt by (rewrite Hq; by apply wait_idle).
  rewrite (comp_bind_val _ _ _ _ _ (checkpoint_wait_idle qc st _ _ _ Hp Hwt)). rewrite Z.eqb_refl.
  set (st1 := mk_client _ _ _ _ _ _ _ _ _).
  rewrite (comp_bind_val _ _ _ _ _ (checkpoint_begin_run ccfg name version st1 eq_refl Hn Hlen Hv)).
  set (st2 := set_in_progress _ _).
  assert (current_regions st2 = [(0, r)]) as Hcur.
  { unfold current_regions, current_name. simpl (current_ckpt _). cbn [command_t.name].
    change (regions_of name st2) with (regions_of name st). by rewrite Hr. }
  assert (∃ st', checkpoint_mem ccfg bufsize VELOC_CKPT_ALL [] st2 = (Undef, st')) as [st' Hmem];
    [|exists st'; unfold mbind, comp_bind at 1; by rewrite Hmem].
  unfold checkpoint_mem. rewrite get_bind. cbn [checkpoint_in_progress st2 set_in_progress negb].
  unfold get_current_ckpt_regions. erewrite comp_bind_val by done. cbn beta. rewrite Hcur.
  unfold select. simpl (_ =? _). cbn iota. rewrite stop_bind, bool_decide_false by done.
  cbn [current_ckpt st2 set_in_progress set_current]. rewrite Hsc. set (st3 := set_regions _ st2).
  assert (st3 = on_files st3 f) as -> by (unfold on_files, st3, st2, st1; simpl; by rewrite <-Hs).
  set (fname := filename _ scratch_dir). unfold try_ios, write_checkpoint.
  assert (∃ d, f !! fname = Some (Reg d) ∨ f !! fname = None ∧ parent_ok f fname = true ∧ d = []) as [d Hd]
    by (destruct Hw as [[d Hd]|[? ?]]; eauto).
  rewrite (comp_bind_val _ _ _ _ _ (on_sys_files _ _ _ _ _ (f_open_out_free f fname d Hd))). cbn beta zeta.
  rewrite (comp_bind_val _ _ _ _ _ (on_sys_files _ _ _ _ _ (f_seekp_free _ _ _ _ _ (lookup_insert_eq _ _ _)))).
  cbn [write_regions]. rewrite comp_bind_unfold, gets_bind. unfold region_bytes at 1.
  rewrite (proj2 (Z.eqb_neq _ _) Hptr). cbn [negb].
  change (memory (on_files st3 (<[fname:=_]> (<[fname:=Reg []]> f)))) with (memory st). rewrite Hload. by eexists.
Qed.

(** The second checkpoint of a name reads freed memory.  The first one fixes
    the regions of the name to its own buffer, which is gone when it returns; the
    buffer of the second one is only protected in the default group, which is not
    used any more.  Unless the allocator happens to put the new buffer over the
    old one, [checkpoint] is undefined. *)
Theorem python_second_checkpoint (version version' : Z) (st0 : client) (f0 : gmap string node) (local : bool)
    (o o' : object) :
  name ≠ default_mem_group → 0 ≤ version ≤ INT_MAX → quiet st0 f0 →
  ready_files ccfg scratch_dir persistent meta_dir name version f0 →
  map_find VELOC_OBSERVE_CKPT_END (observers st0) = None → mem_regions st0 = ∅ →
  is_int (zlen (dumps o)) → is_int (zlen (dumps o')) → 0 < zlen (dumps o) → 0 ≤ version' ≤ INT_MAX →
  (let p := malloc (memory st0) (zlen (dumps o)) in let p' := malloc (memory st0) (zlen (dumps o')) in
   p < p' ∨ p' + zlen (dumps o') ≤ p) →
  ∃ st1, checkpoint qc mpi bufsize dumps malloc name version (instance st0 local (Some o))
      = (Val (inr tt), instance st1 local (Some o)) ∧
    (writable (files (the_fs st1)) (filename (cmd version') scratch_dir) →
     (checkpoint qc mpi bufsize dumps malloc name version' (instance st1 local (Some o'))).1 = Undef).
Proof.
  intros Hdef Hv Hquiet Hready Hobs Hreg Hint Hint' Hlen Hv' Hapart.
  destruct (checkpoint_run version st0 f0 local o Hv Hquiet Hready Hobs Hreg Hint)
    as (st1 & Hck & [Hi1 Hf1 Hp1] & [Hm1 _] & Hr1).
  exists st1. split; [done|]. intros Hw. cbv zeta in Hapart. set (bs := dumps o') in *.
  set (p := malloc (memory st0) (zlen (dumps o))) in *. set (p' := malloc (memory st0) (zlen bs)) in *.
  set (st2 := set_memory (store_bytes p' bs (memory st1)) st1).
  destruct (protect_run p' bs st2 local (Some o')) as [r Hpr]; [done| |simpl; by rewrite store_again|].
  { right. unfold regions_of. simpl. rewrite Hr1. exists (mk_region p (zlen (dumps o)) None None).
    by rewrite lookup_insert_ne, lookup_insert_eq. }
  set (st3 := with_buffer p' bs st2) in Hpr.
  assert (quiet st3 (files (the_fs st1))) as Hq3 by (split; [exact Hi1|simpl; by rewrite Hf1|exact Hp1]).
  destruct (checkpoint_unmapped version' st3 _ _ (mk_region p (zlen (dumps o)) None None) Hq3 ltac:(lia) eq_refl)
    as [st4 Hun]; [|apply malloc_null| |exact Hw|].
  - unfold regions_of. simpl. rewrite lookup_insert_ne, Hr1, lookup_insert_eq by done. done.
  - apply load_unmapped; [done|]. simpl. rewrite store_again, store_bytes_lookup, Hm1 by done.
    destruct (Z.leb_spec p' p), (Z.ltb_spec p (p' + zlen bs)); try lia;
      apply (malloc_new (memory st0) (zlen (dumps o))); fold p; lia.
  - unfold checkpoint. rewrite get_bind. cbn [protected instance]. fold bs.
    rewrite (comp_bind_val _ _ _ _ _ (alloc_run bs st1 local (Some o'))). rewrite Hm1. fold p'.
    rewrite <-Hm1 at 1. fold st2.
    rewrite (comp_bind_val _ _ _ _ _ (c_int_run (zlen bs) _ Hint')), (comp_bind_val _ _ _ _ _ Hpr).
    rewrite (comp_bind_val _ _ _ _ _ (c_int_run version' (instance st3 local (Some o')) ltac:(unfold is_int, INT_MIN; lia))).
    unfold mbind, comp_bind at 1.
    by rewrite (on_lib_instance (VELOC_Checkpoint qc mpi bufsize name version') st3 st4 local (Some o') Undef
      (BOOL_CALL_undef _ (mk_capi Live ccfg local st3) st4 eq_refl Hun)).
Qed.
End roundtrip.

(** ** Instances *)

(** Objects are their own pickles; a new buffer is above everything that is mapped. *)
Definition demo_malloc (m : mem) (n : Z) : Z := 1 + map_fold (λ a _ x, Z.max a x) 0 m + Z.max 0 n.

Lemma demo_malloc_above (m : mem) a : is_Some (m !! a) → a ≤ map_fold (λ a _ x, Z.max a x) 0 m.
Proof.
  revert a. apply (map_fold_weak_ind (λ x (m : mem), ∀ a, is_Some (m !! a) → a ≤ x)).
  - intros a [b Hb]. by rewrite lookup_empty in Hb.
  - intros i b m' x _ IH a Ha. destruct (decide (a = i)) as [->|]; [lia|].
    rewrite lookup_insert_ne in Ha by done. apply IH in Ha. lia.
Qed.

Lemma demo_malloc_positive m n : 0 < demo_malloc m n.
Proof.
  unfold demo_malloc. enough (0 ≤ map_fold (λ a _ x, Z.max a x) 0 m) by lia.
  apply (map_fold_weak_ind (λ x _, 0 ≤ x)); [done|]. intros; lia.
Qed.

Lemma demo_malloc_null m n : demo_malloc m n ≠ 0.
Proof. pose proof (demo_malloc_positive m n). lia. Qed.

Lemma demo_malloc_new m n a : demo_malloc m n ≤ a < demo_malloc m n + n → m !! a = None.
Proof.
  intros Ha. destruct (m !! a) eqn:E; [|done]. exfalso.
  assert (a ≤ map_fold (λ a _ x, Z.max a x) 0 m) by (apply demo_malloc_above; by eexists).
  unfold demo_malloc in Ha. lia.
Qed.

Definition demo_new (f : gmap string node) : client_t (backend_t unit * client_queue_t command_t.t) :=
  mk_client (mk_sys f []) ∅ (demo_backend ∅ ∅ (mk_versioning ∅ ∅), empty_queue) ∅ [] None false [] 0.
Definition demo_pickle : list byte := [Byte.x80; Byte.x04; Byte.x2e].

Lemma demo_quiet f : quiet (demo_new f) f.
Proof. by repeat split. Qed.

Lemma demo_ready : ready_files demo_cfg "/s" "/p" "/m" "ck" 3 System.demo_dirs.
Proof. repeat split; vm_compute; reflexivity. Qed.

Lemma python_roundtrip_witness :
  let cfg := demo_settings None None true in
  let qc := local_queue [watchdog_method cfg; transfer_method cfg; chksum_method demo_hash cfg true;
    versioning_method (E:=unit) cfg] in
  ∃ st1 st3,
    checkpoint qc single_mpi 4 (λ o, o) demo_malloc "ck" 3 (instance demo_cfg (demo_new System.demo_dirs) false
      (Some demo_pickle)) = (Val (inr tt), instance demo_cfg st1 false (Some demo_pickle)) ∧
    restart qc single_mpi Some demo_malloc 7 "ck" 3
      (instance demo_cfg (demo_new (files (the_fs st1))) false None)
    = (Val (inr tt), instance demo_cfg st3 false (Some demo_pickle)).
Proof.
  intros cfg qc.
  destruct (python_roundtrip demo_hash demo_hash_size cfg demo_cfg single_mpi 4 "/s" "/p" "/m" "ck"
    ltac:(repeat split) ltac:(repeat split; discriminate) eq_refl ltac:(discriminate)
    ltac:(split; [vm_compute; reflexivity|vm_compute; discriminate]) ltac:(split; vm_compute; discriminate)
    (λ o, o) Some demo_malloc 7 (λ _, eq_refl) demo_malloc_null demo_malloc_new
    3 (demo_new System.demo_dirs) System.demo_dirs false demo_pickle)
    as (st1 & Hck & _ & Hrs);
    [split; vm_compute; discriminate|apply demo_quiet|apply demo_ready|reflexivity|reflexivity
    |split; vm_compute; discriminate|].
  assert (files (the_fs (CApi.object (lib (checkpoint qc single_mpi 4 (λ o, o) demo_malloc "ck" 3
    (instance demo_cfg (demo_new System.demo_dirs) false (Some demo_pickle))).2))) !! "/s" = Some Dir) as Hd
    by (vm_compute; reflexivity).
  change (local_queue _) with qc in Hck. rewrite Hck in Hd. cbn [snd] in Hd.
  destruct (Hrs (demo_new (files (the_fs st1))) (files (the_fs st1)) false None) as (st3 & Hrun & _);
    [apply demo_quiet|reflexivity| |reflexivity|reflexivity|right; reflexivity|].
  - unfold is_dir. simpl in Hd. rewrite Hd. reflexivity.
  - exists st1, st3. split; [exact Hck|exact Hrun].
Defined.

Lemma python_second_checkpoint_witness :
  let cfg := demo_settings None None true in
  let qc := local_queue [watchdog_method cfg; transfer_method cfg; chksum_method demo_hash cfg true;
    versioning_method (E:=unit) cfg] in
  ∃ st1,
    checkpoint qc single_mpi 4 (λ o, o) demo_malloc "ck" 3 (instance demo_cfg (demo_new System.demo_dirs) false
      (Some demo_pickle)) = (Val (inr tt), instance demo_cfg st1 false (Some demo_pickle)) ∧
    (writable (files (the_fs st1)) "/s/ck-0-4.dat" →
     (checkpoint qc single_mpi 4 (λ o, o) demo_malloc "ck" 4
       (instance demo_cfg st1 false (Some (Byte.x80 :: demo_pickle)))).1 = Undef).
Proof.
  intros cfg qc.
  apply (python_second_checkpoint demo_hash cfg demo_cfg single_mpi 4 "/s" "/p" "/m" "ck"
    ltac:(repeat split) ltac:(repeat split; discriminate) eq_refl ltac:(discriminate)
    ltac:(split; [vm_compute; reflexivity|vm_compute; discriminate]) ltac:(split; vm_compute; discriminate)
    (λ o, o) demo_malloc demo_malloc_null demo_malloc_new
    3 4 (demo_new System.demo_dirs) System.demo_dirs false demo_pickle (Byte.x80 :: demo_pickle));
    [discriminate|split; vm_compute; discriminate|apply demo_quiet|apply demo_ready|reflexivity|reflexivity
    |split; vm_compute; discriminate|split; vm_compute; discriminate|reflexivity|split; vm_compute; discriminate|].
  left. reflexivity.
Defined.

(** The name of the test that comes with the bindings is not a valid one: it fails
    at its first call. *)
Lemma python_test_name : validate_name "python-test" = false.
Proof. by vm_compute. Qed.
