(* ===== verification/Heatdis.v ===== *)
(** * Heatdis: [test/heatdis_mem.c]

    The sample application: an iterative solver that protects its iteration counter
    and its two arrays, restarts from the latest checkpoint if there is one, and
    makes a checkpoint every [CKPT_FREQ] iterations.

    The application runs as one process, which exchanges no halos and whose
    reduction of the error is the identity.  The arithmetic of [double] is a
    parameter.  The output on the terminal is left out. *)

From S2P Require Import Prelude Text Command FileSystem Containers FileUtil Bytes Storage Streams Header.
From S2P Require Import Client Versioning Environment Transfer Chksum Manager Queue IpcQueue System CApi.

Local Open Scope Z_scope.

Import command_t module_manager_t.

Definition ITER_TIMES : Z := 600.
Definition CKPT_FREQ : Z := ITER_TIMES / 3.
Definition heatdis : string := "heatdis".

(** ** An iteration *)

(** The type [double] with its representation in memory, its operations and the
    constants of the program. *)
Record arith_t := {
  double : Type;
  of_bytes : list byte → double;
  to_bytes : double → list byte;
  zero : double;
  quarter : double;
  PRECISION : double;
  add : double → double → double;
  sub : double → double → double;
  mul : double → double → double;
  fabs : double → double;
  lt : double → double → bool;
  to_bytes_size x : zlen (to_bytes x) = 8
}.

Section doWork.
Variables (A : arith_t) (M : nat).
Abbreviation double := (double A).

Definition nbLines : nat := M + 3.

(** The elements of an array. *)
Definition array_size : Z := Z.of_nat (M * nbLines).

(** An element of an array; [reads_in_bounds] shows that the default is not used. *)
Definition elem (l : list double) (k : nat) : double := default A.(zero) (l !! k).

(** The body of the loops over the lines and columns, at the index [k]. *)
Definition relax (h : list double) (s : list double * double) (k : nat) : list double * double :=
  let v := A.(mul) A.(quarter)
             (A.(add) (A.(add) (A.(add) (elem h (k - M)) (elem h (k + M))) (elem h (k - 1))) (elem h (k + 1))) in
  let d := A.(fabs) (A.(sub) v (elem h k)) in
  (<[k := v]> s.1, if A.(lt) s.2 d then d else s.2).

(** [doWork] of the only process: [h], [g] and the error. *)
Definition doWork (g : list double) : list double * list double * double :=
  let h := g in
  let '(g, localerror) := foldl (relax h) (g, A.(zero)) (seq M ((nbLines - 2) * M)) in
  let g := foldl (λ g j, <[((nbLines - 1) * M + j)%nat := elem g ((nbLines - 2) * M + j)]> g) g (seq 0 M) in
  (h, g, localerror).

(** Arrays in memory. *)
Fixpoint array_of (n : nat) (bs : list byte) : list double :=
  match n with
  | O => []
  | S n => A.(of_bytes) (take 8 bs) :: array_of n (drop 8 bs)
  end.
Definition array_bytes (l : list double) : list byte := concat (A.(to_bytes) <$> l).

(** An iteration on the memory: [h], [g], and whether the precision is reached.
    [REDUCE] is 1, so that the global error is new in every iteration. *)
Definition update (g : list byte) : (list byte * list byte) * bool :=
  let '(h, g, localerror) := doWork (array_of (M * nbLines) g) in
  let globalerror := localerror in
  ((array_bytes h, array_bytes g), A.(lt) globalerror A.(PRECISION)).

End doWork.

Section heatdis.
Context {Q : Type} (qc : comm_client_t Q) (mpi : mpi_t) (bufsize : Z).

(** The addresses of [i], [h] and [g], and [M * nbLines]. *)
Variables (addr_i addr_h addr_g cells : Z).
Variable update : list byte → (list byte * list byte) * bool.

Abbreviation capi := (comp (capi_t Q)).

(** ** Memory *)

Definition load_at (p n : Z) : capi (list byte) :=
  m ← gets (λ w, w.(CApi.object).(memory));
  stop (from_option Val Undef (load p n m)).

Definition store_at (p : Z) (bs : list byte) : capi unit :=
  m ← gets (λ w, w.(CApi.object).(memory));
  m' ← stop (from_option Val Undef (store p bs m));
  modify (λ w, mk_capi w.(veloc_client) w.(the_cfg) w.(local) (set_memory m' w.(CApi.object))).

(** ** [main], from the protection of the memory to the end of the loop *)

Definition protect_memory : capi unit :=
  VELOC_Mem_protect 0 addr_i 1 4;;
  VELOC_Mem_protect 1 addr_h cells 8;;
  VELOC_Mem_protect 2 addr_g cells 8;;
  mret tt.

Definition begin : capi unit :=
  v ← VELOC_Restart_test qc mpi heatdis 0;
  if 0 <? v then
    r ← VELOC_Restart qc mpi heatdis v;
    if negb (r =? VELOC_SUCCESS) then stop (Exit 2) else mret tt
  else store_at addr_i (int_bytes 0).

Definition work : capi bool :=
  g ← load_at addr_g (cells * 8);
  let '((h, g), precise) := update g in
  store_at addr_h h;;
  store_at addr_g g;;
  mret precise.

(** One round of the loop; whether it was the last. *)
Definition iteration : capi bool :=
  bs ← load_at addr_i 4;
  let i := int_of bs in
  if negb (i <? ITER_TIMES) then mret true else
  precise ← work;
  if (precise : bool) then mret true else
  let i := i + 1 in
  store_at addr_i (int_bytes i);;
  if i mod CKPT_FREQ =? 0 then
    r ← VELOC_Checkpoint qc mpi bufsize heatdis i;
    if negb (r =? VELOC_SUCCESS) then stop (Exit 2) else mret false
  else mret false.

(** The loop; [false] is a process that still runs after [fuel] rounds. *)
Fixpoint loop (fuel : nat) : capi bool :=
  match fuel with
  | O => mret false
  | S fuel => last ← iteration; if (last : bool) then mret true else loop fuel
  end.

Definition run (fuel : nat) : capi bool :=
  protect_memory;;
  begin;;
  loop fuel.

(** ** What the application computes without failures *)

(** From iteration [k] with the arrays [h] and [g]. *)
Fixpoint finish (fuel : nat) (k : Z) (h g : list byte) : Z * (list byte * list byte) :=
  match fuel with
  | O => (k, (h, g))
  | S fuel =>
      if negb (k <? ITER_TIMES) then (k, (h, g)) else
      let '((h', g'), precise) := update g in
      if (precise : bool) then (k, (h', g')) else finish fuel (k + 1) h' g'
  end.

(** The arrays after [k] iterations from [g0], unless the loop ends before. *)
Fixpoint after (g0 : list byte) (k : nat) : option (list byte * list byte) :=
  match k with
  | O => Some ([], g0)
  | S k =>
      match after g0 k with
      | Some (_, g) =>
          if negb (Z.of_nat k <? ITER_TIMES) then None else
          let '((h', g'), precise) := update g in if (precise : bool) then None else Some (h', g')
      | None => None
      end
  end.

(** The result: the counter and the arrays at the end of the loop. *)
Definition result (g0 : list byte) : Z * (list byte * list byte) :=
  finish (S (Z.to_nat ITER_TIMES)) 0 [] g0.

End heatdis.

(** ** Lemmas: the names in a directory *)

Lemma dir_scannable_spec f dir cname :
  validate_name cname = true →
  dir_scannable f dir cname = true ↔
  ∀ e n nd, command_t.regex cname = Some e → (n, nd) ∈ entries f dir → nd ≠ Dir → ∃ m, match_ n e = Val m.
Proof.
  intros Hn. pose proof (regex_valid _ Hn). unfold dir_scannable. rewrite bool_decide_true by done. split.
  - intros Hfit e n nd. by apply numerals_fit_spec.
  - apply numerals_fit_intro.
Qed.

(** What inserting the file of a checkpoint adds to a directory. *)
Lemma entries_insert_ckpt f dir dir' c d n nd :
  wf c = true → (n, nd) ∈ entries (<[filename c dir' := Reg d]> f) dir →
  n = stem c ∧ dir = dir' ∨ (n, nd) ∈ entries f dir.
Proof.
  intros Hwf [Hl Hd]%entries_elem. destruct (decide (filename c dir' = dir +:+ "/" +:+ n)) as [Heq|Hne].
  - left. rewrite <-Heq, dirname_filename in Hd by done. injection Hd as ->. split; [|done].
    unfold filename in Heq. by simplify_eq.
  - right. apply entries_elem. by rewrite lookup_insert_ne in Hl.
Qed.

Lemma entries_insert_other f dir p nd' n nd :
  dirname p ≠ Some dir → (n, nd) ∈ entries (<[p := nd']> f) dir → (n, nd) ∈ entries f dir.
Proof.
  intros Hp [Hl Hd]%entries_elem. apply entries_elem. split; [|done].
  rewrite lookup_insert_ne in Hl; [done|]. by intros ->.
Qed.

(** A file system with fewer files. *)
Definition fewer (f' f : gmap string node) : Prop := ∀ p, f' !! p = f !! p ∨ f' !! p = None.

Lemma entries_fewer f' f dir n nd : fewer f' f → (n, nd) ∈ entries f' dir → (n, nd) ∈ entries f dir.
Proof.
  intros Hf [Hl Hd]%entries_elem. apply entries_elem. split; [|done].
  destruct (Hf (dir +:+ "/" +:+ n)); congruence.
Qed.

(** What is known of a directory that has entries of [f] and files of [c]. *)
Section scan.
Variables (f' f : gmap string node) (dir : string) (c : command_t.t).
Hypothesis Hwf : wf c = true.
Hypothesis Hsub : ∀ n nd, (n, nd) ∈ entries f' dir → n = stem c ∨ (n, nd) ∈ entries f dir.

Lemma scan_listed sel v : listed f' dir c.(name) sel v → v = c.(version) ∨ listed f dir c.(name) sel v.
Proof using Hwf Hsub.
  intros (e & n & nd & id & He & Hin & Hnd & Hm & Hs). destruct (Hsub n nd Hin) as [->|Hin']; [|right; by exists e, n, nd, id].
  left. rewrite (match_stem_aux (name c)) in Hm by done. rewrite name_accepts_refl in Hm by by apply wf_name.
  by simplify_eq.
Qed.

Lemma scan_scannable : dir_scannable f dir c.(name) = true → dir_scannable f' dir c.(name) = true.
Proof using Hwf Hsub.
  assert (validate_name (name c) = true) as Hn by by apply wf_spec in Hwf as [? _].
  rewrite !dir_scannable_spec by done. intros H e n nd He Hin Hnd.
  destruct (Hsub n nd Hin) as [->|Hin']; [|by eapply H].
  rewrite (match_stem_aux (name c)) by done. by destruct (name_accepts _ _); eexists.
Qed.
End scan.

(** ** Lemmas: the memory of the application *)

Lemma load_mapped_inv p n m bs : load p n m = Some bs → mapped p n m.
Proof.
  intros H a Ha. assert (is_Some (load p n m)) as Hs by by eexists.
  apply mapM_is_Some in Hs. rewrite Forall_forall in Hs. apply (Hs a). by apply addresses_elem.
Qed.

Section memory.
Context {Q : Type} (ccfg : client_cfg) (local : bool).
Variables (addr_i addr_h addr_g cells : Z) (update : list byte → (list byte * list byte) * bool).
Abbreviation n := (cells * 8).

(** The regions that [main] protects. *)
Definition regions : regions_t :=
  [(0, mk_region addr_i 4 None None); (1, mk_region addr_h n None None); (2, mk_region addr_g n None None)].

Hypothesis Hcells : 0 ≤ cells ∧ 8 + 12 * 3 + 4 + n + n ≤ LONG_MAX.
Hypothesis Hptrs : addr_i ≠ 0 ∧ addr_h ≠ 0 ∧ addr_g ≠ 0.
Hypothesis Hdis : disjoint_regions regions.
Hypothesis update_size : ∀ g h' g' b, zlen g = n → update g = ((h', g'), b) → zlen h' = n ∧ zlen g' = n.

Lemma apart_pointers :
  (addr_i + 4 ≤ addr_h ∨ addr_h + n ≤ addr_i) ∧ (addr_i + 4 ≤ addr_g ∨ addr_g + n ≤ addr_i) ∧
  (addr_h + n ≤ addr_g ∨ addr_g + n ≤ addr_h).
Proof using Hdis.
  assert (∀ i j r s, regions !! i = Some r → regions !! j = Some s → r.1 ≠ s.1 →
    r.2.(ptr) + r.2.(size) ≤ s.2.(ptr) ∨ s.2.(ptr) + s.2.(size) ≤ r.2.(ptr)) as H.
  { intros i j [] [] Hi Hj Hne. eapply (Hdis _ _ _ _); [by eapply list_elem_of_lookup_2|by eapply list_elem_of_lookup_2|done]. }
  split_and!; [by apply (H 0%nat 1%nat _ _ eq_refl eq_refl)|by apply (H 0%nat 2%nat _ _ eq_refl eq_refl)
    |by apply (H 1%nat 2%nat _ _ eq_refl eq_refl)].
Qed.

(** The memory has the counter [k] and the arrays [h] and [g]. *)
Definition holds (m : mem) (k : Z) (h g : list byte) : Prop :=
  load addr_i 4 m = Some (int_bytes k) ∧ load addr_h n m = Some h ∧ load addr_g n m = Some g.

Lemma holds_sizes m k h g : holds m k h g → zlen h = n ∧ zlen g = n.
Proof using Hcells. intros (_ & Hh & Hg). apply load_length in Hh, Hg; [done|lia|lia]. Qed.

Abbreviation inst st := (mk_capi (Q:=Q) Live ccfg local st).

Lemma load_at_run p k st bs : load p k (memory st) = Some bs → load_at p k (inst st) = (Val bs, inst st).
Proof. intros H. unfold load_at. rewrite gets_bind. simpl. by rewrite H. Qed.

Lemma store_at_run p bs (st : client_t Q) :
  mapped p (zlen bs) (memory st) →
  store_at p bs (inst st) = (Val tt, inst (set_memory (store_bytes p bs (memory st)) st)).
Proof. intros H. unfold store_at. rewrite gets_bind. simpl. by rewrite store_mapped. Qed.

Lemma holds_counter m k k' h g : holds m k h g → holds (store_bytes addr_i (int_bytes k') m) k' h g.
Proof using Hdis.
  intros (Hi & Hh & Hg). destruct apart_pointers as (H1 & H2 & _).
  assert (zlen (int_bytes k') = 4) as H4 by apply zlen_int_bytes. unfold holds. split_and!.
  - rewrite <-H4. apply load_store_same.
  - rewrite load_store_other; [done|]. rewrite H4. lia.
  - rewrite load_store_other; [done|]. rewrite H4. lia.
Qed.

Lemma holds_arrays m k h g h' g' :
  holds m k h g → zlen h' = n → zlen g' = n →
  holds (store_bytes addr_g g' (store_bytes addr_h h' m)) k h' g'.
Proof using Hdis Hcells.
  intros (Hi & Hh & Hg) Lh Lg. destruct apart_pointers as (H1 & H2 & H3). unfold holds. split_and!.
  - rewrite !load_store_other; [done|rewrite Lh; lia|rewrite Lg; lia].
  - rewrite load_store_other by (rewrite Lg; lia). rewrite <-Lh. apply load_store_same.
  - rewrite <-Lg. apply load_store_same.
Qed.

Lemma work_run (st : client_t Q) k h g h' g' b :
  holds (memory st) k h g → update g = ((h', g'), b) →
  ∃ m', work addr_h addr_g cells update (inst st) = (Val b, inst (set_memory m' st)) ∧ holds m' k h' g'.
Proof using Hdis Hcells update_size.
  intros Hm Hw. pose proof (holds_sizes _ _ _ _ Hm) as [_ Lg0]. pose proof Hm as (Hi & Hh & Hg).
  destruct (update_size g h' g' b Lg0 Hw) as [Lh Lg].
  set (m1 := store_bytes addr_h h' (memory st)). exists (store_bytes addr_g g' m1). split.
  - unfold work. rewrite (comp_bind_val _ _ _ _ _ (load_at_run _ _ _ _ Hg)). rewrite Hw.
    rewrite (comp_bind_val _ _ _ _ _ (store_at_run addr_h h' st ltac:(rewrite Lh; by eapply load_mapped_inv))).
    rewrite (comp_bind_val _ _ _ _ _ (store_at_run addr_g g' (set_memory m1 st)
      ltac:(simpl; apply store_bytes_mapped; rewrite Lg; by eapply load_mapped_inv))). done.
  - by apply holds_arrays with h g.
Qed.

(** *** Snapshots *)

Definition contents_of (k : Z) (h g : list byte) : list (Z * list byte) := [(0, int_bytes k); (1, h); (2, g)].

Lemma holds_snapshot m k h g : holds m k h g → snapshot regions m = Some (contents_of k h g).
Proof using Hptrs.
  intros (Hi & Hh & Hg). destruct Hptrs as (P1 & P2 & P3). unfold snapshot, regions, region_bytes. simpl.
  by rewrite !(proj2 (Z.eqb_neq _ _)), Hi, Hh, Hg by done.
Qed.

Lemma contents_file k h g : zlen h = n → zlen g = n → zlen (ckpt_file (contents_of k h g)) ≤ LONG_MAX.
Proof using Hcells.
  intros Lh Lg. unfold ckpt_file. rewrite zlen_app, zlen_header_bytes, zlen_sizes_of, <-sum_sizes_of.
  change (zlen (contents_of k h g)) with 3. unfold sum_sizes. simpl. rewrite zlen_int_bytes. lia.
Qed.

Lemma regions_mapped m k h g : holds m k h g → Forall (λ e, raw_region m e.2) regions.
Proof using Hptrs Hcells.
  intros (Hi & Hh & Hg). destruct Hptrs as (P1 & P2 & P3). unfold LONG_MAX in *.
  repeat constructor; simpl; try done; try lia; unfold SIZE_MAX; try lia; by eapply load_mapped_inv.
Qed.

(** The contents of one state restored over the memory of another. *)
Lemma holds_restored m k0 h0 g0 k h g :
  holds m k0 h0 g0 → zlen h = n → zlen g = n →
  can_hold VELOC_RECOVER_ALL [] regions m (contents_of k h g) ∧
  holds (restore_regions VELOC_RECOVER_ALL [] regions (contents_of k h g) m) k h g.
Proof using Hptrs Hcells Hdis.
  intros Hm Lh Lg. pose proof (regions_mapped _ _ _ _ Hm) as Hraw. rewrite Forall_forall in Hraw.
  assert (can_hold VELOC_RECOVER_ALL [] regions m (contents_of k h g)) as Hhold.
  { unfold can_hold, contents_of. repeat (apply Forall_cons; split); [..|constructor]; right; simpl;
      (eexists; split; [reflexivity|]); simpl.
    - destruct (Hraw (0, mk_region addr_i 4 None None)) as (? & _ & ?); [left|]. by rewrite zlen_int_bytes.
    - destruct (Hraw (1, mk_region addr_h n None None)) as (? & _ & ?); [right; left|]. simpl in *. split_and!; [done|lia|done].
    - destruct (Hraw (2, mk_region addr_g n None None)) as (? & _ & ?); [right; right; left|]. simpl in *.
      split_and!; [done|lia|done]. }
  split; [done|]. assert (NoDup (contents_of k h g).*1) as Hnd.
  { apply (bool_decide_unpack _). by vm_compute. }
  assert (∀ id r bs, (id, bs) ∈ contents_of k h g → map_find id regions = Some r →
    load r.(ptr) (zlen bs) (restore_regions VELOC_RECOVER_ALL [] regions (contents_of k h g) m) = Some bs) as Hload.
  { intros id r bs Hin Hf. by eapply restore_regions_load. }
  split_and!.
  - rewrite <-(zlen_int_bytes k). apply (Hload 0 (mk_region addr_i 4 None None)); [left|done].
  - rewrite <-Lh. apply (Hload 1 (mk_region addr_h n None None)); [right; left|done].
  - rewrite <-Lg. apply (Hload 2 (mk_region addr_g n None None)); [right; right; left|done].
Qed.
End memory.

(** ** Lemmas: the computation *)

Section computation.
Variables (update : list byte → (list byte * list byte) * bool) (g0 : list byte).

Lemma after_range k h g : after update g0 k = Some (h, g) → Z.of_nat k ≤ ITER_TIMES.
Proof.
  destruct k as [|k]; [done|]. simpl. destruct (after update g0 k) as [[h1 g1]|]; [|done].
  destruct (Z.ltb_spec (Z.of_nat k) ITER_TIMES); [|done]. lia.
Qed.

Lemma after_sizes n k h g :
  zlen g0 = n → (∀ g h' g' b, zlen g = n → update g = ((h', g'), b) → zlen h' = n ∧ zlen g' = n) →
  after update g0 k = Some (h, g) → (k = 0%nat ∨ zlen h = n) ∧ zlen g = n.
Proof.
  intros H0 Hw. revert h g. induction k as [|k IH]; intros h g H; [simpl in H; simplify_eq; by split; [left|]|].
  simpl in H. destruct (after update g0 k) as [[h1 g1]|] eqn:E; [|done].
  destruct (negb (Z.of_nat k <? ITER_TIMES)); [done|].
  destruct (update g1) as [[h' g'] b] eqn:Hg. destruct b; simplify_eq.
  destruct (IH _ _ eq_refl) as [_ L1]. destruct (Hw _ _ _ _ L1 Hg). by split; [right|].
Qed.

Lemma finish_after k fuel h g :
  after update g0 k = Some (h, g) → finish update (k + fuel) 0 [] g0 = finish update fuel (Z.of_nat k) h g.
Proof.
  revert fuel h g. induction k as [|k IH]; intros fuel h g H; [simpl in H; by simplify_eq|].
  simpl in H. destruct (after update g0 k) as [[h1 g1]|] eqn:E; [|done].
  replace (S k + fuel)%nat with (k + S fuel)%nat by lia. rewrite (IH (S fuel) _ _ eq_refl). cbn [finish].
  destruct (negb (Z.of_nat k <? ITER_TIMES)); [done|].
  destruct (update g1) as [[h' g'] []]; [done|]. simplify_eq. f_equal. lia.
Qed.

(** More rounds than iterations are left make no difference. *)
Lemma finish_enough fuel fuel' k h g :
  ITER_TIMES - k < Z.of_nat fuel → ITER_TIMES - k < Z.of_nat fuel' →
  finish update fuel k h g = finish update fuel' k h g.
Proof.
  revert fuel' k h g. induction fuel as [|fuel IH]; intros fuel' k h g H1 H2.
  - destruct fuel' as [|fuel']; [done|]. cbn [finish]. destruct (Z.ltb_spec k ITER_TIMES); [lia|done].
  - cbn [finish]. destruct (Z.ltb_spec k ITER_TIMES) as [Hk|Hk]; cbn [negb].
    + destruct fuel' as [|fuel']; [lia|]. cbn [finish]. destruct (Z.ltb_spec k ITER_TIMES); [|lia]. cbn [negb].
      destruct (update g) as [[h' g'] []]; [done|]. apply IH; lia.
    + destruct fuel' as [|fuel']; [done|]. cbn [finish]. destruct (Z.ltb_spec k ITER_TIMES); [lia|done].
Qed.

Lemma result_after k h g fuel :
  after update g0 k = Some (h, g) → ITER_TIMES - Z.of_nat k < Z.of_nat fuel →
  finish update fuel (Z.of_nat k) h g = result update g0.
Proof.
  intros H Hf. pose proof (after_range _ _ _ H). unfold result, ITER_TIMES in *.
  replace (S (Z.to_nat 600)) with (k + (601 - k))%nat by lia. rewrite (finish_after _ _ _ _ H).
  apply finish_enough; unfold ITER_TIMES; lia.
Qed.
End computation.

(** ** Lemmas: an iteration of the program *)

Section update.
Variables (A : arith_t) (M : nat).

(** The loops stay within the arrays. *)
Lemma reads_in_bounds k :
  (0 < M)%nat → k ∈ seq M ((nbLines M - 2) * M) →
  (M ≤ k)%nat ∧ (1 ≤ k)%nat ∧ (k + M < M * nbLines M)%nat ∧ (k + 1 < M * nbLines M)%nat.
Proof. intros HM [H1 H2]%elem_of_seq. unfold nbLines in *. nia. Qed.

Lemma relax_length h s ks : length (foldl (relax A M h) s ks).1 = length s.1.
Proof. revert s. induction ks as [|k ks IH]; intros s; simpl; [done|]. rewrite IH. simpl. apply length_insert. Qed.

Lemma foldl_insert_length {X} (f : nat → nat) (e : list X → nat → X) (l : list X) ks :
  length (foldl (λ g j, <[f j := e g j]> g) l ks) = length l.
Proof. revert l. induction ks as [|k ks IH]; intros l; simpl; [done|]. rewrite IH. apply length_insert. Qed.

Lemma doWork_length g h g' e : doWork A M g = (h, g', e) → length h = length g ∧ length g' = length g.
Proof.
  unfold doWork. pose proof (relax_length g (g, zero A) (seq M ((nbLines M - 2) * M))) as Hl.
  destruct (foldl (relax A M g) _ _) as [g1 e1]. intros [= <- <- _]. split; [done|].
  rewrite (foldl_insert_length (λ j, ((nbLines M - 1) * M + j)%nat)). exact Hl.
Qed.

Lemma array_of_length n bs : length (array_of A n bs) = n.
Proof. revert bs. induction n as [|n IH]; intros bs; simpl; [done|]. by rewrite IH. Qed.

Lemma array_bytes_length l : zlen (array_bytes A l) = Z.of_nat (length l) * 8.
Proof.
  induction l as [|x l IH]; [done|].
  change (array_bytes A (x :: l)) with (to_bytes A x ++ array_bytes A l). rewrite zlen_app, to_bytes_size, IH.
  simpl length. lia.
Qed.

Lemma update_size g h' g' b :
  zlen g = array_size M * 8 → update A M g = ((h', g'), b) → zlen h' = array_size M * 8 ∧ zlen g' = array_size M * 8.
Proof.
  intros _. unfold update. destruct (doWork A M _) as [[h1 g1] e] eqn:Hw. intros [= <- <- _].
  apply doWork_length in Hw as [Hh Hg]. rewrite array_of_length in *. by rewrite !array_bytes_length, Hh, Hg.
Qed.

End update.

(** ** Lemmas: the files between runs *)

Section survive.
Context {E : Type} (SHA256 : list byte → list byte).
Hypothesis SHA256_size : ∀ d, zlen (SHA256 d) = chksum_module_t.HASH_SIZE.
Variables (cfg : settings) (ccfg : client_cfg) (mpi : mpi_t) (bufsize : Z) (local : bool).
Variables (scratch_dir persistent meta_dir : string).
Hypothesis Hcfg : plain_settings cfg scratch_dir persistent meta_dir.
Hypothesis Hccfg : ccfg.(scratch) = scratch_dir ∧ aggregated ccfg = false ∧ (comm_set ccfg = true → alone mpi).
Hypothesis Hsync : is_sync ccfg = true.
Hypothesis Hdirs : scratch_dir ≠ persistent ∧ scratch_dir ≠ meta_dir ∧ persistent ≠ meta_dir.
Hypothesis Hrank : 0 ≤ rank ccfg ≤ INT_MAX.

Variables (addr_i addr_h addr_g : Z) (A : arith_t) (M : nat) (g0 : list byte).
Abbreviation cells := (array_size M).
Abbreviation update := (update A M).
Abbreviation n := (cells * 8).
Abbreviation regions := (regions addr_i addr_h addr_g cells).
Hypothesis Hcells : 0 ≤ cells ∧ 8 + 12 * 3 + 4 + n + n ≤ LONG_MAX.
Hypothesis Hptrs : addr_i ≠ 0 ∧ addr_h ≠ 0 ∧ addr_g ≠ 0.
Hypothesis Hdis : disjoint_regions regions.
Hypothesis g0_size : zlen g0 = n.

Abbreviation cmd v := (ckpt_cmd ccfg heatdis (Z.of_nat v) CHECKPOINT).
Abbreviation file k h g := (ckpt_file (contents_of (Z.of_nat k) h g)).
Abbreviation versions F := (found scratch_dir persistent F (ckpt_cmd ccfg heatdis 0 TEST)).

(** The files of a history of runs: the latest checkpoint is that of iteration
    [last], complete, and nothing is there of later ones. *)
Record saved (F : gmap string node) (last : nat) : Prop := {
  saved_dirs : is_dir F scratch_dir = true ∧ is_dir F persistent = true ∧ is_dir F meta_dir = true;
  saved_scan : dir_scannable F persistent heatdis = true ∧ dir_scannable F scratch_dir heatdis = true;
  saved_found v : versions F v → 0 < v ≤ Z.of_nat last;
  saved_last : last = 0%nat ∨ ∃ h g, after update g0 last = Some (h, g) ∧
    F !! filename (cmd last) persistent = Some (Reg (file last h g)) ∧
    F !! meta_filename (cmd last) meta_dir = Some (Reg (SHA256 (file last h g))) ∧
    (F !! filename (cmd last) scratch_dir = None ∨ F !! filename (cmd last) scratch_dir = Some (Reg (file last h g)));
  saved_new v : (last < v)%nat → Z.of_nat v ≤ INT_MAX →
    F !! filename (cmd v) scratch_dir = None ∧ F !! filename (cmd v) persistent = None ∧
    F !! meta_filename (cmd v) meta_dir = None
}.

Lemma heatdis_name : validate_name heatdis = true ∧ Z.of_nat (String.length heatdis) + 1 ≤ CKPT_NAME_MAX.
Proof. split; vm_compute; [done|discriminate]. Qed.

Lemma cmd_wf v : Z.of_nat v ≤ INT_MAX → wf (cmd v) = true.
Proof using Hrank. intros Hv. apply ckpt_wf; [apply heatdis_name|lia|done]. Qed.

Lemma cmd_differ v v' d d' :
  Z.of_nat v ≤ INT_MAX → Z.of_nat v' ≤ INT_MAX → v ≠ v' → filename (cmd v) d ≠ filename (cmd v') d'.
Proof using Hrank.
  intros Hv Hv' Hne Heq. pose proof (f_equal dirname Heq) as Hd.
  rewrite !dirname_filename in Hd by by apply cmd_wf. simplify_eq.
  apply (path_inj d' (cmd 0) (Z.of_nat v) (Z.of_nat v')) in Heq; [lia|by apply cmd_wf|lia|lia].
Qed.

Lemma record_differ v v' d d' :
  Z.of_nat v ≤ INT_MAX → Z.of_nat v' ≤ INT_MAX → v ≠ v' → meta_filename (cmd v) d ≠ meta_filename (cmd v') d'.
Proof using Hrank.
  intros Hv Hv' Hne Heq. apply sapp_inj_r in Heq. exact (cmd_differ v v' d d' Hv Hv' Hne Heq).
Qed.

Lemma dir_differ v d d' : d ≠ d' → filename (cmd v) d ≠ filename (cmd v) d'.
Proof. intros Hne Heq. by apply filename_prefix in Heq. Qed.

Lemma record_dirname v : Z.of_nat v ≤ INT_MAX → dirname (meta_filename (cmd v) meta_dir) = Some meta_dir.
Proof using Hrank. intros Hv. by apply dirname_record, cmd_wf. Qed.

(** The directories of [F'] have the entries of [F], and perhaps the file of
    iteration [k]. *)
Definition adds (F' F : gmap string node) (k : nat) : Prop :=
  ∀ dir nm nd, dir = scratch_dir ∨ dir = persistent →
    (nm, nd) ∈ entries F' dir → nm = stem (cmd k) ∨ (nm, nd) ∈ entries F dir.

Lemma adds_found F' F last k v :
  saved F last → Z.of_nat k ≤ INT_MAX → adds F' F k → versions F' v → v = Z.of_nat k ∨ versions F v.
Proof using Hrank.
  intros [(Hd1 & Hd2 & _) _ _ _ _] Hk Hadd [[_ Hl]|[_ Hl]].
  - apply (scan_listed F' F persistent (cmd k) (cmd_wf k Hk)) in Hl as [->|Hl]; [by left| |].
    + right. left. by split.
    + intros nm nd. apply Hadd. by right.
  - apply (scan_listed F' F scratch_dir (cmd k) (cmd_wf k Hk)) in Hl as [->|Hl]; [by left| |].
    + right. right. by split.
    + intros nm nd. apply Hadd. by left.
Qed.

Lemma adds_scan F' F last k :
  saved F last → Z.of_nat k ≤ INT_MAX → adds F' F k →
  dir_scannable F' persistent heatdis = true ∧ dir_scannable F' scratch_dir heatdis = true.
Proof using Hrank.
  intros [_ [Hs1 Hs2] _ _ _] Hk Hadd. split.
  - apply (scan_scannable F' F persistent (cmd k) (cmd_wf k Hk)); [|done]. intros nm nd. apply Hadd. by right.
  - apply (scan_scannable F' F scratch_dir (cmd k) (cmd_wf k Hk)); [|done]. intros nm nd. apply Hadd. by left.
Qed.

Lemma adds_file F' F k d x :
  Z.of_nat k ≤ INT_MAX → adds F' F k → adds (<[filename (cmd k) d := Reg x]> F') F k.
Proof using Hrank.
  intros Hk Hadd dir nm nd Hdir Hin.
  apply entries_insert_ckpt in Hin as [[-> _]|Hin]; [by left|by eapply Hadd|by apply cmd_wf].
Qed.

Lemma adds_record F' F k x :
  Z.of_nat k ≤ INT_MAX → adds F' F k → adds (<[meta_filename (cmd k) meta_dir := x]> F') F k.
Proof using Hrank Hdirs.
  intros Hk Hadd dir nm nd Hdir Hin. eapply Hadd; [done|]. eapply entries_insert_other; [|exact Hin].
  rewrite record_dirname by done. destruct Hdirs as (_ & ? & ?). destruct Hdir; subst; congruence.
Qed.

Lemma adds_refl F k : adds F F k.
Proof. intros dir nm nd _ H. by right. Qed.

Lemma insert_reg_dir (F : gmap string node) p q x : F !! q ≠ Some Dir → <[p := Reg x]> F !! q ≠ Some Dir.
Proof. intros H. destruct (decide (p = q)) as [->|]; by simplify_map_eq. Qed.

(** The files after the checkpoint of iteration [k]. *)
Definition with_ckpt (F : gmap string node) (k : nat) (x : list byte) : gmap string node :=
  <[meta_filename (cmd k) meta_dir := Reg (SHA256 x)]> (<[filename (cmd k) persistent := Reg x]>
  (<[filename (cmd k) scratch_dir := Reg x]> F)).

Lemma saved_checkpoint F last k h g :
  saved F last → (last < k)%nat → after update g0 k = Some (h, g) → saved (with_ckpt F k (file k h g)) k.
Proof using Hrank Hdirs.
  intros Hsaved Hk Hat. pose proof (after_range _ _ _ _ _ Hat) as Hmax. unfold ITER_TIMES in Hmax.
  assert (Z.of_nat k ≤ INT_MAX) as Hint by (unfold INT_MAX; lia).
  destruct (saved_new _ _ Hsaved k Hk Hint) as (N1 & N2 & N3).
  assert (adds (with_ckpt F k (file k h g)) F k) as Hadd
    by (apply adds_record, adds_file, adds_file, adds_refl; done).
  destruct Hdirs as (D1 & D2 & D3). split.
  - destruct (saved_dirs _ _ Hsaved) as (H1 & H2 & H3). unfold with_ckpt.
    split_and!; repeat (apply is_dir_insert; [|repeat apply insert_reg_dir; congruence]); done.
  - by eapply adds_scan.
  - intros v Hv. destruct (adds_found _ _ _ _ _ Hsaved Hint Hadd Hv) as [->|Hv']; [lia|].
    apply (saved_found _ _ Hsaved) in Hv'. lia.
  - right. exists h, g. unfold with_ckpt. split_and!; [done| | |right].
    + by rewrite lookup_insert_ne, lookup_insert_eq by apply record_not_file.
    + by rewrite lookup_insert_eq.
    + rewrite lookup_insert_ne by apply record_not_file.
      by rewrite lookup_insert_ne, lookup_insert_eq by (by apply dir_differ, not_eq_sym).
  - intros v Hv Hv'. destruct (saved_new _ _ Hsaved v ltac:(lia) Hv') as (M1 & M2 & M3). unfold with_ckpt.
    rewrite !lookup_insert_ne; try done;
      first [apply cmd_differ; lia | apply record_differ; lia | apply record_not_file | apply not_eq_sym, record_not_file].
Qed.

(** The file that a restart puts back. *)
Lemma saved_restored F last h g :
  saved F last → (0 < last)%nat → after update g0 last = Some (h, g) →
  F !! filename (cmd last) persistent = Some (Reg (file last h g)) →
  F !! meta_filename (cmd last) meta_dir = Some (Reg (SHA256 (file last h g))) →
  F !! filename (cmd last) scratch_dir ≠ Some Dir →
  saved (<[filename (cmd last) scratch_dir := Reg (file last h g)]> F) last.
Proof using Hrank Hdirs.
  intros Hsaved Hl Hat Hp Hm Hs. pose proof (after_range _ _ _ _ _ Hat) as Hmax. unfold ITER_TIMES in Hmax.
  assert (Z.of_nat last ≤ INT_MAX) as Hint by (unfold INT_MAX; lia). destruct Hdirs as (D1 & D2 & D3).
  assert (adds (<[filename (cmd last) scratch_dir := Reg (file last h g)]> F) F last) as Hadd
    by (apply adds_file, adds_refl; done). split.
  - destruct (saved_dirs _ _ Hsaved) as (H1 & H2 & H3). split_and!; by apply is_dir_insert.
  - by eapply adds_scan.
  - intros v Hv. destruct (adds_found _ _ _ _ _ Hsaved Hint Hadd Hv) as [->|Hv']; [lia|].
    by apply (saved_found _ _ Hsaved) in Hv'.
  - right. exists h, g. split_and!; [done| | |right; by rewrite lookup_insert_eq].
    + by rewrite lookup_insert_ne by by apply dir_differ.
    + by rewrite lookup_insert_ne by apply not_eq_sym, record_not_file.
  - intros v Hv Hv'. destruct (saved_new _ _ Hsaved v ltac:(lia) Hv') as (M1 & M2 & M3).
    rewrite !lookup_insert_ne; try done; first [apply cmd_differ; lia | apply not_eq_sym, record_not_file].
Qed.

(** Files of the scratch directory are lost, as with the node that had them. *)
Definition lost (F' F : gmap string node) : Prop :=
  fewer F' F ∧ (∀ p, dirname p ≠ Some scratch_dir → F' !! p = F !! p) ∧
  is_dir F' scratch_dir = true ∧ is_dir F' persistent = true ∧ is_dir F' meta_dir = true.

Lemma saved_lost F' F last : saved F last → lost F' F → saved F' last.
Proof using Hrank Hdirs.
  intros Hsaved (Hfew & Hwhere & D1 & D2 & D3). destruct Hdirs as (N1 & N2 & N3).
  assert (adds F' F 0) as Hadd by (intros dir nm nd _ Hin; right; by eapply entries_fewer).
  assert (∀ v, Z.of_nat v ≤ INT_MAX → F' !! filename (cmd v) persistent = F !! filename (cmd v) persistent ∧
    F' !! meta_filename (cmd v) meta_dir = F !! meta_filename (cmd v) meta_dir) as Hkeep.
  { intros v Hv. split; apply Hwhere; [rewrite dirname_filename by by apply cmd_wf|rewrite record_dirname by done];
      congruence. }
  split.
  - done.
  - by apply (adds_scan F' F last 0).
  - intros v Hv. apply (saved_found _ _ Hsaved). destruct Hv as [[_ (e & nm & nd & id & He & Hin & Hrest)]|
      [_ (e & nm & nd & id & He & Hin & Hrest)]]; [left|right]; (split; [by apply (saved_dirs _ _ Hsaved)|]);
      exists e, nm, nd, id; (split; [done|]); (split; [by eapply entries_fewer|done]).
  - destruct (saved_last _ _ Hsaved) as [->|(h & g & Hat & Hp & Hm & Hs)]; [by left|right].
    pose proof (after_range _ _ _ _ _ Hat) as Hmax. unfold ITER_TIMES in Hmax.
    destruct (Hkeep last ltac:(unfold INT_MAX; lia)) as [-> ->]. exists h, g. split_and!; [done..|].
    destruct (Hfew (filename (cmd last) scratch_dir)) as [->| ->]; [done|by left].
  - intros v Hv Hv'. destruct (saved_new _ _ Hsaved v Hv Hv') as (M1 & M2 & M3).
    destruct (Hkeep v Hv') as [-> ->]. split_and!; [|done|done].
    destruct (Hfew (filename (cmd v) scratch_dir)) as [->| ->]; done.
Qed.

(** ** Lemmas: a run *)

Abbreviation qc := (local_queue [watchdog_method cfg; transfer_method cfg; chksum_method SHA256 cfg true;
  versioning_method (E:=E) cfg]).
Abbreviation client := (client_t (backend_t E * client_queue_t command_t.t)).
Abbreviation inst st := (mk_capi Live ccfg local st).
Abbreviation holds := (holds addr_i addr_h addr_g cells).

(** A process about to test the counter [k] of the loop. *)
Record at_iteration (st : client) (F : gmap string node) (last k : nat) (h g : list byte) : Prop := {
  at_quiet : quiet st F;
  at_saved : saved F last;
  at_last : (last ≤ k)%nat;
  at_regions : System.protected ccfg heatdis 0 st CHECKPOINT = regions;
  at_observers : map_find VELOC_OBSERVE_CKPT_END (observers st) = None;
  at_memory : holds (memory st) (Z.of_nat k) h g;
  at_reached : ∃ h1, after update g0 k = Some (h1, g) ∧ (k = 0%nat ∨ h1 = h)
}.

(** The checkpoint of iteration [k]. *)
Lemma checkpoint_iteration st F last k h g :
  at_iteration st F last k h g → (last < k)%nat →
  ∃ st', VELOC_Checkpoint qc mpi bufsize heatdis (Z.of_nat k) (inst st) = (Val VELOC_SUCCESS, inst st') ∧
    at_iteration st' (with_ckpt F k (file k h g)) k k h g.
Proof using Hcfg Hccfg Hsync Hdirs Hrank Hptrs Hcells.
  intros [Hq Hsaved Hl Hreg Hobs Hm (h1 & Hat & Hh)] Hk. destruct Hh as [->| ->]; [lia|].
  pose proof (after_range _ _ _ _ _ Hat) as Hmax. unfold ITER_TIMES in Hmax.
  assert (Z.of_nat k ≤ INT_MAX) as Hint by (unfold INT_MAX; lia).
  destruct (saved_new _ _ Hsaved k Hk Hint) as (N1 & N2 & N3).
  destruct (saved_dirs _ _ Hsaved) as (D1 & D2 & D3).
  destruct (holds_sizes _ _ _ _ Hcells _ _ _ _ Hm) as [Lh Lg].
  assert (System.protected ccfg heatdis (Z.of_nat k) st CHECKPOINT = regions) as Hreg' by exact Hreg.
  destruct (system_checkpoint SHA256 cfg ccfg mpi bufsize scratch_dir persistent meta_dir heatdis (Z.of_nat k)
    Hcfg Hccfg (proj1 Hdirs) heatdis_name ltac:(lia) Hrank st F (contents_of (Z.of_nat k) h g))
    as (st' & Hck & Hq' & [Hm' Ho'] & Hr'); rewrite ?Hreg'; try done.
  { repeat constructor; simpl; lia. }
  { by apply holds_snapshot. }
  { by eapply contents_file. }
  exists st'. split; [by apply (BOOL_CALL_run _ (inst st) true)|]. split.
  - exact Hq'.
  - by apply saved_checkpoint with last.
  - done.
  - unfold System.protected, current_regions, current_name, regions_of in *. simpl. rewrite Hr'.
    cbn [command_t.name ckpt_cmd]. by rewrite lookup_insert_eq, Hreg'.
  - by rewrite Ho'.
  - by rewrite Hm'.
  - exists h. split; [done|by right].
Qed.

Lemma iteration_run st F last k h g :
  at_iteration st F last k h g →
  if negb (Z.of_nat k <? ITER_TIMES) then
    iteration qc mpi bufsize addr_i addr_h addr_g cells update (inst st) = (Val true, inst st)
  else ∃ h' g' b st', update g = ((h', g'), b) ∧
    iteration qc mpi bufsize addr_i addr_h addr_g cells update (inst st) = (Val b, inst st') ∧
    if b then holds (memory st') (Z.of_nat k) h' g' ∧ quiet st' F
    else ∃ F' last', at_iteration st' F' last' (S k) h' g'.
Proof using Hcfg Hccfg Hsync Hdirs Hrank Hptrs Hcells Hdis.
  intros Hst. pose proof Hst as [Hq Hsaved Hl Hreg Hobs Hm (h1 & Hat & Hh)].
  pose proof (after_range _ _ _ _ _ Hat) as Hmax. pose proof Hm as (Hi & _ & _). unfold ITER_TIMES in Hmax.
  unfold iteration. rewrite (comp_bind_val _ _ _ _ _ (load_at_run ccfg local _ _ _ _ Hi)). cbn zeta beta.
  rewrite int_of_bytes by (unfold is_int, INT_MIN, INT_MAX; lia).
  destruct (negb (Z.of_nat k <? ITER_TIMES)) eqn:Hlt; [done|].
  destruct (update g) as [[h' g'] b] eqn:Hw.
  destruct (work_run ccfg local addr_i addr_h addr_g cells update Hcells Hdis (update_size A M) st (Z.of_nat k) h g
    h' g' b Hm Hw) as (m1 & Hwork & Hm1).
  rewrite (comp_bind_val _ _ _ _ _ Hwork). destruct b.
  { eexists h', g', true, _. split; [done|]. split; [done|]. split; [done|by destruct Hq]. }
  set (st1 := set_memory m1 st). pose proof Hm1 as (Hi1 & _ & _).
  rewrite (comp_bind_val _ _ _ _ _ (store_at_run ccfg local addr_i (int_bytes (Z.of_nat k + 1)) st1
    ltac:(rewrite zlen_int_bytes; by eapply load_mapped_inv))).
  set (st2 := set_memory _ st1). replace (Z.of_nat k + 1) with (Z.of_nat (S k)) by lia.
  assert (at_iteration st2 F last (S k) h' g') as Hst2.
  { split; [by destruct Hq|done|lia|done|done| |].
    - simpl. replace (Z.of_nat k + 1) with (Z.of_nat (S k)) by lia. by eapply holds_counter.
    - exists h'. split; [|by right]. cbn [after]. by rewrite Hat, Hlt, Hw. }
  destruct (Z.of_nat (S k) mod CKPT_FREQ =? 0).
  - destruct (checkpoint_iteration st2 F last (S k) h' g' Hst2 ltac:(lia)) as (st3 & Hck & Hst3).
    rewrite (comp_bind_val _ _ _ _ _ Hck). cbn [negb Z.eqb VELOC_SUCCESS].
    exists h', g', false, st3. split; [done|]. split; [done|]. by eexists _, _.
  - exists h', g', false, st2. split; [done|]. split; [done|]. by exists F, last.
Qed.

Lemma loop_run fuel st F last k h g :
  at_iteration st F last k h g →
  ∃ b st' F' last', loop qc mpi bufsize addr_i addr_h addr_g cells update fuel (inst st) = (Val b, inst st') ∧
    quiet st' F' ∧ saved F' last' ∧
    (b = true → ∃ k' h' g', finish update fuel (Z.of_nat k) h g = (k', (h', g')) ∧ holds (memory st') k' h' g') ∧
    (ITER_TIMES - Z.of_nat k < Z.of_nat fuel → b = true).
Proof using Hcfg Hccfg Hsync Hdirs Hrank Hptrs Hcells Hdis.
  revert st F last k h g. induction fuel as [|fuel IH]; intros st F last k h g Hst; pose proof Hst as
    [Hq Hsaved Hl Hreg Hobs Hm (h1 & Hat & Hh)].
  { exists false, st, F, last. split_and!; [done|done|done|done|]. apply after_range in Hat. lia. }
  pose proof (iteration_run st F last k h g Hst) as Hit. cbn [loop finish].
  destruct (negb (Z.of_nat k <? ITER_TIMES)) eqn:Hlt.
  { rewrite (comp_bind_val _ _ _ _ _ Hit). exists true, st, F, last. split_and!; try done. intros _. by eexists _, _, _. }
  destruct Hit as (h' & g' & b & st' & Hw & Hit & Hb). rewrite (comp_bind_val _ _ _ _ _ Hit), Hw. destruct b.
  { destruct Hb as [Hm' Hq']. exists true, st', F, last. split_and!; try done. intros _. by eexists _, _, _. }
  destruct Hb as (F' & last' & Hst').
  destruct (IH st' F' last' (S k) h' g' Hst') as (b & st2 & F2 & last2 & Hrun & Hq2 & Hs2 & Hfin & Hmany).
  exists b, st2, F2, last2. replace (Z.of_nat (S k)) with (Z.of_nat k + 1) in * by lia.
  split_and!; try done. intros Hf. apply Hmany. lia.
Qed.

(** A process that has been started over the files [F]: it has initialised VELOC
    and [g], and allocated the rest. *)
Record starting (st : client) (F : gmap string node) : Prop := {
  start_quiet : quiet st F;
  start_regions : mem_regions st = ∅;
  start_observers : map_find VELOC_OBSERVE_CKPT_END (observers st) = None;
  start_i : mapped addr_i 4 (memory st);
  start_h : mapped addr_h n (memory st);
  start_g : load addr_g n (memory st) = Some g0
}.

Lemma protect_call id p count size (st : client) r b r' :
  default [] (mem_regions st !! default_mem_group) = r →
  map_assign id (mk_region p (u64 (count * size)) None None) r = (b, r') →
  VELOC_Mem_protect id p count size (inst st)
  = (Val (if b then VELOC_SUCCESS else VELOC_FAILURE),
     inst (set_regions (<[default_mem_group := r']> (mem_regions st)) st)).
Proof.
  intros Hr Hm. apply (BOOL_CALL_run _ (inst st) b); [done|]. unfold mem_protect, protect. simpl (CApi.object _).
  unfold regions_of. by rewrite Hr, Hm.
Qed.

Lemma protect_memory_run st F :
  starting st F →
  protect_memory addr_i addr_h addr_g cells (inst st)
  = (Val tt, inst (set_regions (<[default_mem_group := regions]> ∅) st)).
Proof using Hcells.
  intros [_ Hreg _ _ _ _].
  assert (u64 (cells * 8) = cells * 8) as Hu by (apply u64_small; unfold LONG_MAX, is_size, SIZE_MAX in *; lia).
  assert (∀ m (r : regions_t), default [] (<[default_mem_group := r]> m !! default_mem_group) = r) as Hdef
    by (intros; by rewrite lookup_insert_eq).
  unfold protect_memory.
  erewrite comp_bind_val by (eapply protect_call; [by rewrite Hreg, lookup_empty|reflexivity]).
  erewrite comp_bind_val by (eapply protect_call; [apply Hdef|reflexivity]).
  erewrite comp_bind_val by (eapply protect_call; [apply Hdef|reflexivity]).
  unfold mret, comp_ret. rewrite !Hu. simpl. rewrite !insert_insert_eq, Hreg. reflexivity.
Qed.

(** What [VELOC_Restart_test] tells the application: the greatest version that is
    found, and nothing positive when there is none. *)
Lemma restart_test_latest (st : client) F last :
  quiet st F → dir_scannable F persistent heatdis = true → dir_scannable F scratch_dir heatdis = true →
  (∀ v, versions F v → 0 < v ≤ Z.of_nat last) → last = 0%nat ∨ versions F (Z.of_nat last) →
  Z.of_nat last ≤ INT_MAX →
  ∃ v st', VELOC_Restart_test qc mpi heatdis 0 (inst st) = (Val v, inst st') ∧ quiet st' F ∧ same_app st st' ∧
    mem_regions st' = mem_regions st ∧ (if (0 <? last)%nat then v = Z.of_nat last else v ≤ 0).
Proof using Hcfg Hccfg.
  intros Hq Hs1 Hs2 Hfound Hlast Hmax.
  destruct (system_test SHA256 cfg ccfg mpi scratch_dir persistent meta_dir heatdis 0 Hcfg Hccfg heatdis_name
    ltac:(unfold INT_MAX; lia) st F Hq Hs1 Hs2) as (r & st' & Hrun & Hq' & Happ & Hreg & Hr).
  { intros x Hx. apply Hfound in Hx. lia. }
  assert (is_int r ∧ if (0 <? last)%nat then r = Z.of_nat last else r ≤ 0) as [Hint Hv].
  { destruct Hlast as [->|Hlast].
    - destruct Hr as [[-> _]|[Hr _]]; [done|]. apply Hfound in Hr. simpl in Hr. exfalso. lia.
    - apply Hfound in Hlast as Hpos. destruct (Nat.ltb_spec 0 last); [|lia].
      destruct Hr as [[_ Hno]|(Hr & _ & Hle)]; [by apply Hno in Hlast as [? _]|].
      apply Hfound in Hr. specialize (Hle _ Hlast (or_introl eq_refl)). unfold is_int, INT_MIN in *. lia. }
  exists r, st'. split; [|done]. rewrite <-(i32_small r) by exact Hint. by apply (INT_CALL_run _ (inst st)).
Qed.

Lemma restart_test_run (st : client) F last :
  quiet st F → saved F last →
  ∃ v st', VELOC_Restart_test qc mpi heatdis 0 (inst st) = (Val v, inst st') ∧ quiet st' F ∧ same_app st st' ∧
    mem_regions st' = mem_regions st ∧ (if (0 <? last)%nat then v = Z.of_nat last else v ≤ 0).
Proof using Hcfg Hccfg Hrank.
  intros Hq Hsaved. destruct (saved_scan _ _ Hsaved) as [Hs1 Hs2].
  apply restart_test_latest; [done..|apply (saved_found _ _ Hsaved)| |].
  - destruct (saved_last _ _ Hsaved) as [->|(h & g & Hat & Hp & _)]; [by left|right].
    pose proof (after_range _ _ _ _ _ Hat) as Hmax. unfold ITER_TIMES in Hmax.
    left. split; [by apply (saved_dirs _ _ Hsaved)|].
    by apply (listed_own F persistent (cmd last) _ (Reg (file last h g)));
      [apply cmd_wf; unfold INT_MAX; lia| | |apply Z.eqb_refl].
  - destruct (saved_last _ _ Hsaved) as [->|(h & g & Hat & _)]; [done|].
    apply after_range in Hat. unfold ITER_TIMES, INT_MAX in *. lia.
Qed.

(** A restart from the last iteration that has been saved. *)
Lemma restart_last (st : client) F last h0 g1 k0 :
  quiet st F → saved F last → (0 < last)%nat → map_find VELOC_OBSERVE_CKPT_END (observers st) = None →
  System.protected ccfg heatdis 0 st CHECKPOINT = regions → holds (memory st) k0 h0 g1 →
  ∃ st' F' h g, VELOC_Restart qc mpi heatdis (Z.of_nat last) (inst st) = (Val VELOC_SUCCESS, inst st') ∧
    at_iteration st' F' last last h g.
Proof using SHA256_size Hcfg Hccfg Hdirs Hrank Hptrs Hcells Hdis g0_size.
  intros Hq Hsaved Hpos Hobs Hreg Hm.
  destruct (saved_last _ _ Hsaved) as [->|(h & g & Hat & Hp & Hrec & Hs)]; [lia|].
  pose proof (after_range _ _ _ _ _ Hat) as Hmax. unfold ITER_TIMES in Hmax.
  destruct (after_sizes _ _ _ _ _ _ g0_size (update_size A M) Hat) as [[->|Lh] Lg]; [lia|].
  destruct (saved_dirs _ _ Hsaved) as (D1 & _ & _).
  pose proof (contents_file _ Hcells (Z.of_nat last) h g Lh Lg) as Hfile.
  destruct (holds_restored _ _ _ _ Hcells Hptrs Hdis _ _ _ _ (Z.of_nat last) h g Hm Lh Lg) as [Hhold Hm'].
  destruct (system_restart SHA256 SHA256_size cfg ccfg mpi scratch_dir persistent meta_dir heatdis (Z.of_nat last)
    Hcfg Hccfg (proj1 Hdirs) heatdis_name ltac:(unfold INT_MAX; lia) Hrank st F (contents_of (Z.of_nat last) h g)
    Hq Hp Hrec Hs D1 Hfile) as (st1 & Hbegin & Hq1 & [Hm1 Ho1] & Hr1 & Hc1 & Hh1).
  assert (current_regions st1 = regions) as Hcur
    by (rewrite (protected_current ccfg heatdis (Z.of_nat last) st st1 RESTART Hr1 Hc1); exact Hreg).
  pose proof (system_recover ccfg mpi scratch_dir heatdis (Z.of_nat last) Hccfg st1 _ (contents_of (Z.of_nat last) h g)
    (quiet_files _ _ Hq1) Hc1 Hh1 (lookup_insert_eq _ _ _) Hfile ltac:(done) ltac:(repeat constructor; done)
    ltac:(repeat constructor)) as Hrecover.
  rewrite Hcur, Hm1 in Hrecover. specialize (Hrecover Hhold). set (st2 := recovered _ _ st1) in Hrecover.
  eexists st2, _, h, g. split.
  - apply (BOOL_CALL_run _ (inst st) true); [done|]. cbn [the_cfg CApi.object]. unfold restart, and_then.
    rewrite (comp_bind_val _ _ _ _ _ Hbegin). cbn iota. by rewrite (comp_bind_val _ _ _ _ _ Hrecover).
  - split; [by destruct Hq1|apply (saved_restored F last h g); try done; by destruct Hs as [-> | ->]|done| | |done|].
    + unfold System.protected. unfold current_regions at 1, current_name, regions_of. simpl.
      unfold current_name. rewrite Hc1. cbn [command_t.name ckpt_cmd]. by rewrite lookup_insert_eq, Hcur.
    + simpl. by rewrite Ho1.
    + exists h. split; [done|by right].
Qed.

Lemma begin_run (st : client) F last k0 h0 :
  quiet st F → saved F last → map_find VELOC_OBSERVE_CKPT_END (observers st) = None →
  System.protected ccfg heatdis 0 st CHECKPOINT = regions → holds (memory st) k0 h0 g0 →
  ∃ st' F' h g, begin qc mpi addr_i (inst st) = (Val tt, inst st') ∧ at_iteration st' F' last last h g.
Proof using SHA256_size Hcfg Hccfg Hdirs Hrank Hptrs Hcells Hdis g0_size.
  intros Hq Hsaved Hobs Hreg Hm.
  destruct (restart_test_run st F last Hq Hsaved) as (v & st1 & Htest & Hq1 & [Hm1 Ho1] & Hr1 & Hv).
  assert (System.protected ccfg heatdis 0 st1 CHECKPOINT = regions) as Hreg1.
  { unfold System.protected, current_regions, current_name, regions_of in *. simpl in *. by rewrite Hr1. }
  unfold begin. rewrite (comp_bind_val _ _ _ _ _ Htest). destruct (Nat.ltb_spec 0 last) as [Hl|Hl].
  - subst v. destruct (Z.ltb_spec 0 (Z.of_nat last)); [|lia].
    destruct (restart_last st1 F last h0 g0 k0) as (st2 & F2 & h & g & Hrs & Hst2); [done..|by rewrite Ho1|done|by rewrite Hm1|].
    rewrite (comp_bind_val _ _ _ _ _ Hrs). by exists st2, F2, h, g.
  - destruct (Z.ltb_spec 0 v); [lia|]. assert (last = 0%nat) as -> by lia. pose proof Hm as (Hi & _ & _).
    rewrite <-Hm1 in Hi, Hm.
    eexists _, F, h0, g0. split.
    + apply store_at_run. rewrite zlen_int_bytes. by eapply load_mapped_inv.
    + split; [by destruct Hq1|done|done|exact Hreg1|simpl; by rewrite Ho1|by eapply holds_counter|].
      exists []. split; [done|by left].
Qed.

(** A run over the files of a history, to its end or for some rounds. *)
Lemma run_saved fuel (st : client) F last :
  starting st F → saved F last →
  ∃ b st' F' last', run qc mpi bufsize addr_i addr_h addr_g cells update fuel (inst st) = (Val b, inst st') ∧
    quiet st' F' ∧ saved F' last' ∧
    (ITER_TIMES < Z.of_nat fuel → b = true ∧
      let '(k, (h, g)) := result update g0 in holds (memory st') k h g).
Proof using SHA256_size Hcfg Hccfg Hsync Hdirs Hrank Hptrs Hcells Hdis g0_size.
  intros Hstart Hsaved. pose proof Hstart as [Hq Hreg Hobs Hmi Hmh Hmg].
  destruct (load_mapped _ _ _ Hmi) as [bs Hbs]. destruct (load_mapped _ _ _ Hmh) as [h0 Hh0].
  assert (zlen bs = 4) as Hlen by (by eapply load_length).
  assert (holds (memory st) (int_of bs) h0 g0) as Hm by (split_and!; [by rewrite int_bytes_of|done|done]).
  set (st1 := set_regions (<[default_mem_group := regions]> ∅) st).
  assert (System.protected ccfg heatdis 0 st1 CHECKPOINT = regions) as Hprot.
  { unfold System.protected, current_regions, current_name, regions_of. simpl.
    rewrite lookup_insert_ne, lookup_empty, lookup_insert_eq by done. done. }
  destruct (begin_run st1 F last (int_of bs) h0) as (st2 & F2 & h & g & Hbegin & Hst2); [by destruct Hq|done..|].
  destruct (loop_run fuel st2 F2 last last h g Hst2) as (b & st3 & F3 & last3 & Hloop & Hq3 & Hs3 & Hfin & Hmany).
  exists b, st3, F3, last3. split; [|split; [done|split; [done|]]].
  - unfold run. rewrite (comp_bind_val _ _ _ _ _ (protect_memory_run st F Hstart)).
    by rewrite (comp_bind_val _ _ _ _ _ Hbegin).
  - intros Hfuel. assert (b = true) as -> by (apply Hmany; lia). split; [done|].
    destruct (Hfin eq_refl) as (k' & h' & g' & Hf & Hm3).
    pose proof (at_reached _ _ _ _ _ _ Hst2) as (h1 & Hat & Hh).
    assert (result update g0 = (k', (h', g'))) as ->; [|done].
    rewrite <-Hf. rewrite <-(result_after update g0 last h1 g fuel Hat) by lia.
    destruct Hh as [->| ->]; [|done]. destruct fuel as [|fuel]; [unfold ITER_TIMES in Hfuel; lia|]. reflexivity.
Qed.

(** The files that runs leave behind, each of them stopped after some rounds, by
    a failure or by its end, with or without the scratch files of the node. *)
Inductive files_seen : gmap string node → Prop :=
| seen_new F : saved F 0 → files_seen F
| seen_run F st fuel b st' :
    files_seen F → starting st F →
    run qc mpi bufsize addr_i addr_h addr_g cells update fuel (inst st) = (Val b, inst st') →
    files_seen (files (the_fs st'))
| seen_lost F F' : files_seen F → lost F' F → files_seen F'.

Lemma files_seen_saved F : files_seen F → ∃ last, saved F last.
Proof using SHA256_size Hcfg Hccfg Hsync Hdirs Hrank Hptrs Hcells Hdis g0_size.
  induction 1 as [F HF|F st fuel b st' _ [last IH] Hst Hrun|F F' _ [last IH] Hl].
  - by exists 0%nat.
  - destruct (run_saved fuel st F last Hst IH) as (b' & st2 & F2 & last2 & Hrun' & [_ Hf2 _] & Hs2 & _).
    rewrite Hrun in Hrun'. simplify_eq. rewrite Hf2. by exists last2.
  - exists last. by eapply saved_lost.
Qed.

(** C2: failures do not change what the application computes.  Whatever runs
    there have been before, each one killed after any number of iterations, and
    whatever scratch files were lost between them, a run that is not disturbed
    ends, with the counter and the arrays that it would have without VELOC and
    without failures. *)
Theorem heatdis_survives (F : gmap string node) (st : client) :
  files_seen F → starting st F →
  ∃ st', run qc mpi bufsize addr_i addr_h addr_g cells update (S (Z.to_nat ITER_TIMES)) (inst st)
      = (Val true, inst st') ∧
    let '(k, (h, g)) := result update g0 in holds (memory st') k h g.
Proof using SHA256_size Hcfg Hccfg Hsync Hdirs Hrank Hptrs Hcells Hdis g0_size.
  intros [last Hs]%files_seen_saved Hst.
  destruct (run_saved (S (Z.to_nat ITER_TIMES)) st F last Hst Hs) as (b & st' & F' & last' & Hrun & _ & _ & Hend).
  destruct Hend as [-> Hm]; [unfold ITER_TIMES; lia|]. by exists st'.
Qed.

(** C40: an application that is killed while it writes a checkpoint cannot be
    restarted.  The scratch file of that checkpoint is there, complete or not, but
    no record of its checksum: [VELOC_Restart_test] reports the version, the restart
    from it fails, and the application gives up, in this run and in every later
    one, although an earlier checkpoint may be complete. *)
Theorem heatdis_torn (F : gmap string node) (last k fuel : nat) (x : list byte) (st : client) :
  saved F last → (last < k)%nat → Z.of_nat k ≤ INT_MAX →
  starting st (<[filename (cmd k) scratch_dir := Reg x]> F) →
  ∃ st', run qc mpi bufsize addr_i addr_h addr_g cells update fuel (inst st) = (Exit 2, inst st') ∧
    the_fs st' = the_fs st.
Proof using Hcfg Hccfg Hdirs Hrank Hcells.
  intros Hsaved Hk Hint Hstart. set (F' := <[_ := _]> F) in Hstart. pose proof Hstart as [Hq _ _ _ _ _].
  assert (adds F' F k) as Hadd by (apply adds_file, adds_refl; done).
  destruct (adds_scan _ _ _ _ Hsaved Hint Hadd) as [Hs1 Hs2].
  destruct (saved_new _ _ Hsaved k Hk Hint) as (N1 & _ & N3).
  set (st1 := set_regions (<[default_mem_group := regions]> ∅) st).
  destruct (restart_test_latest st1 F' k) as (v & st2 & Htest & Hq2 & _ & _ & Hv); [by destruct Hq|done|done| | |done|].
  { intros v Hv. destruct (adds_found _ _ _ _ _ Hsaved Hint Hadd Hv) as [->|Hv']; [lia|].
    apply (saved_found _ _ Hsaved) in Hv'. lia. }
  { right. right. split; [apply is_dir_insert; [by apply (saved_dirs _ _ Hsaved)|by rewrite N1]|].
    apply (listed_own F' scratch_dir (cmd k) _ (Reg x)); [by apply cmd_wf|apply lookup_insert_eq|done|].
    by rewrite Z.eqb_refl, orb_true_r. }
  destruct (Nat.ltb_spec 0 k); [subst v|lia]. destruct Hq2 as [Hi2 Hf2 Hp2].
  set (b := with_env_sys (queue st2).1 (the_fs st2)).
  assert (backend_files b = F' ∧ fault_free b) as [Hb1 Hb2]
    by (unfold backend_files, fault_free; simpl; by rewrite Hf2).
  assert (notify_command [watchdog_method cfg; transfer_method cfg; chksum_method SHA256 cfg true;
    versioning_method (E:=E) cfg] (ckpt_cmd ccfg heatdis (Z.of_nat k) RESTART) b = (Val VELOC_FAILURE, b)) as Hn.
  { apply (chain_restart_unrecorded SHA256 cfg scratch_dir persistent meta_dir Hcfg _ b x); rewrite ?Hb1; try done.
    - apply lookup_insert_eq.
    - unfold F'. rewrite lookup_insert_ne; [exact N3|]. apply not_eq_sym, record_not_file. }
  destruct (restart_begin_run SHA256 cfg ccfg mpi scratch_dir heatdis (Z.of_nat k) Hccfg heatdis_name
    ltac:(lia) st2 VELOC_FAILURE b Hi2 Hp2 Hn) as (st3 & Hbegin & Hfs & _).
  exists st3. split.
  - unfold run. rewrite (comp_bind_val _ _ _ _ _ (protect_memory_run st F' Hstart)). fold st1. unfold begin.
    rewrite comp_bind_unfold, (comp_bind_val _ _ _ _ _ Htest). destruct (Z.ltb_spec 0 (Z.of_nat k)); [|lia].
    rewrite (comp_bind_val _ _ _ _ _ (BOOL_CALL_run (λ cfg, restart qc cfg mpi heatdis (Z.of_nat k) (-1)) (inst st2)
      false st3 eq_refl ltac:(unfold restart, and_then; cbn [the_cfg CApi.object];
        by rewrite (comp_bind_val _ _ _ _ _ Hbegin)))). done.
  - rewrite Hfs. simpl. rewrite Hf2. symmetry. apply (quiet_files _ _ Hq).
Qed.
End survive.

(** ** Instances *)

(** Numbers with two binary places, in 64 bits. *)
Definition demo_arith : arith_t := {|
  double := Z; of_bytes := long_of; to_bytes := long_bytes; zero := 0; quarter := 1; PRECISION := 0;
  add := Z.add; sub := Z.sub; mul a b := a * b / 4; fabs := Z.abs; lt := Z.ltb; to_bytes_size := zlen_long_bytes
|}.

(** One column, of which the first line is hot. *)
Definition demo_g : list byte := array_bytes demo_arith [400; 0; 0; 0].
Definition demo_process (F : gmap string node) : client_t (backend_t unit * client_queue_t command_t.t) :=
  mk_client (mk_sys F []) (store_bytes 100 (replicate 4 Byte.xaa) (store_bytes 200 (replicate 32 Byte.xaa)
    (store_bytes 300 demo_g ∅))) (demo_backend ∅ ∅ (mk_versioning ∅ ∅), empty_queue) ∅ [] None false [] 0.

Lemma demo_regions_apart : disjoint_regions (regions 100 200 300 (array_size 1)).
Proof.
  intros id1 r1 id2 r2 E1 E2 Hne.
  repeat (apply elem_of_cons in E1 as [E1|E1]); [| | |by apply elem_of_nil in E1];
    (repeat (apply elem_of_cons in E2 as [E2|E2]); [| | |by apply elem_of_nil in E2]);
    simplify_eq; unfold array_size; simpl; lia.
Qed.

Lemma demo_starting F : starting 100 200 300 1 demo_g (demo_process F) F.
Proof.
  split; [by repeat split|done|done| | |vm_compute; reflexivity].
  - apply load_mapped_inv with (replicate 4 Byte.xaa). vm_compute. reflexivity.
  - apply load_mapped_inv with (replicate 32 Byte.xaa). vm_compute. reflexivity.
Qed.

Lemma demo_dirs_none p d : dirname p = Some d → d = "/s" ∨ d = "/p" ∨ d = "/m" → System.demo_dirs !! p = None.
Proof.
  intros Hp Hd. destruct (System.demo_dirs !! p) eqn:Hl; [|done]. exfalso.
  unfold System.demo_dirs in Hl. rewrite !lookup_insert_Some, lookup_empty in Hl.
  destruct Hl as [[<- _]|[_ [[<- _]|[_ [[<- _]|[_ [=]]]]]]]; vm_compute in Hp;
    destruct Hd as [->|[->| ->]]; discriminate Hp.
Qed.

Lemma demo_saved : saved demo_hash demo_cfg "/s" "/p" "/m" demo_arith 1 demo_g System.demo_dirs 0.
Proof.
  split; [repeat split; vm_compute; reflexivity|split; vm_compute; reflexivity| |by left|].
  - intros v [[_ (e & nm & nd & id & _ & Hin & _)]|[_ (e & nm & nd & id & _ & Hin & _)]];
      apply entries_elem in Hin as [Hl Hd]; rewrite (demo_dirs_none _ _ Hd) in Hl; done || auto.
  - intros v _ Hv.
    assert (wf (ckpt_cmd demo_cfg heatdis (Z.of_nat v) CHECKPOINT) = true) as Hwf
      by (apply cmd_wf; [split; vm_compute; discriminate|done]).
    split_and!; eapply demo_dirs_none; try (by apply dirname_filename); auto;
      apply record_dirname; [split; vm_compute; discriminate|done].
Qed.

Lemma demo_result : result (update demo_arith 1) demo_g =
  (600, (array_bytes demo_arith [400; 398; 397; 397], array_bytes demo_arith [400; 398; 397; 397])).
Proof. vm_compute. reflexivity. Qed.

Lemma heatdis_survives_witness :
  let cfg := demo_settings None None true in
  let qc := local_queue [watchdog_method cfg; transfer_method cfg; chksum_method demo_hash cfg true;
    versioning_method (E:=unit) cfg] in
  let run fuel F := run qc single_mpi 4 100 200 300 (array_size 1) (update demo_arith 1) fuel (mk_capi Live demo_cfg false (demo_process F)) in
  ∃ b st1 st', run 250%nat System.demo_dirs = (Val b, mk_capi Live demo_cfg false st1) ∧
    run 601%nat (files (the_fs st1)) = (Val true, mk_capi Live demo_cfg false st') ∧
    holds 100 200 300 (array_size 1) (memory st') 600 (array_bytes demo_arith [400; 398; 397; 397])
      (array_bytes demo_arith [400; 398; 397; 397]).
Proof.
  intros cfg qc run.
  assert (plain_settings cfg "/s" "/p" "/m") as H1 by repeat split.
  assert (scratch demo_cfg = "/s" ∧ aggregated demo_cfg = false ∧ (comm_set demo_cfg = true → alone single_mpi)) as H2 by (repeat split; discriminate).
  assert ("/s" ≠ "/p" ∧ "/s" ≠ "/m" ∧ "/p" ≠ "/m") as H3 by (split_and!; discriminate).
  assert (0 ≤ rank demo_cfg ≤ INT_MAX) as H4 by (split; vm_compute; discriminate).
  assert (0 ≤ array_size 1 ∧ 8 + 12 * 3 + 4 + array_size 1 * 8 + array_size 1 * 8 ≤ LONG_MAX) as H5 by (split; vm_compute; discriminate).
  assert (100 ≠ 0 ∧ 200 ≠ 0 ∧ 300 ≠ 0) as H6 by (split_and!; discriminate).
  destruct (run_saved demo_hash demo_hash_size cfg demo_cfg single_mpi 4 false "/s" "/p" "/m" H1 H2 eq_refl H3 H4
    100 200 300 demo_arith 1 demo_g H5 H6 demo_regions_apart eq_refl 250 (demo_process System.demo_dirs)
    System.demo_dirs 0 (demo_starting _) demo_saved) as (b & st1 & F1 & last1 & Hrun & _).
  destruct (heatdis_survives demo_hash demo_hash_size cfg demo_cfg single_mpi 4 false "/s" "/p" "/m" H1 H2 eq_refl H3 H4
    100 200 300 demo_arith 1 demo_g H5 H6 demo_regions_apart eq_refl (files (the_fs st1))
    (demo_process (files (the_fs st1)))) as (st' & Hrun' & Hm); [|apply demo_starting|].
  - eapply seen_run; [apply seen_new, demo_saved|apply demo_starting|exact Hrun].
  - rewrite demo_result in Hm. exists b, st1, st'. split; [exact Hrun|]. split; [exact Hrun'|exact Hm].
Defined.

(** Killed while it writes the checkpoint of iteration 200. *)
Lemma heatdis_torn_witness :
  let cfg := demo_settings None None true in
  let qc := local_queue [watchdog_method cfg; transfer_method cfg; chksum_method demo_hash cfg true;
    versioning_method (E:=unit) cfg] in
  let F := <["/s/heatdis-0-200.dat" := Reg [Byte.x03]]> System.demo_dirs in
  ∃ st', run qc single_mpi 4 100 200 300 (array_size 1) (update demo_arith 1) 601 (mk_capi Live demo_cfg false (demo_process F))
    = (Exit 2, mk_capi Live demo_cfg false st') ∧ the_fs st' = mk_sys F [].
Proof.
  intros cfg qc F.
  apply (heatdis_torn demo_hash cfg demo_cfg single_mpi 4 false "/s" "/p" "/m" ltac:(repeat split)
    ltac:(repeat split; discriminate) ltac:(split_and!; discriminate) ltac:(split; vm_compute; discriminate)
    100 200 300 demo_arith 1 demo_g ltac:(split; vm_compute; discriminate) System.demo_dirs 0 200 601 [Byte.x03]
    (demo_process F)); [apply demo_saved|lia|vm_compute; discriminate|apply demo_starting].
Defined.
