(* ===== verification/Inspect.v ===== *)
(** * Inspect: [src/tools/veloc-inspect.cpp]

    The tool that prints the header of a checkpoint file or extracts one of its
    regions.  Its input are the options in the order in which [getopt_long]
    delivers them, its result the exit code and what it writes to the standard
    output; messages on errors are not modelled. *)

From S2P Require Import Prelude Text Command FileSystem Containers FileUtil Bytes Streams Header Client.
From Stdlib Require Import Strings.String.

Local Open Scope Z_scope.

Import command_t.

(** What [getopt_long] returns; the others do nothing. *)
Inductive option_t :=
| opt_header
| opt_extract (optarg : string)
| opt_size (optarg : string)
| opt_ckpt (optarg : string)
| opt_other.

Record options := mk_options {
  header : bool;
  id : Z;
  size : Z;
  ckpt_name : string
}.

Definition exit_with_usage {A} : outcome A := Exit (-1).

(** [sscanf(optarg, "%d", &n)] and [sscanf(optarg, "%lu", &n)]: nothing when there
    is no numeral, and undefined when it is out of range. *)
Definition sscanf_d (s : string) : option (outcome Z) :=
  match scan_decimal s with
  | Some (v, _) => Some (if bool_decide (is_int v) then Val v else Undef)
  | None => None
  end.
Definition sscanf_lu (s : string) : option (outcome Z) :=
  match scan_decimal s with
  | Some (v, _) => Some (if bool_decide (- SIZE_MAX ≤ v ≤ SIZE_MAX) then Val (u64 v) else Undef)
  | None => None
  end.

Definition parse_option (o : options) (opt : option_t) : outcome options :=
  match opt with
  | opt_header => Val (mk_options true o.(id) o.(size) o.(ckpt_name))
  | opt_extract optarg =>
      match sscanf_d optarg with
      | None => exit_with_usage
      | Some v => v ← v; Val (mk_options o.(header) v o.(size) o.(ckpt_name))
      end
  | opt_size optarg =>
      match sscanf_lu optarg with
      | None => exit_with_usage
      | Some v => v ← v; Val (mk_options o.(header) o.(id) v o.(ckpt_name))
      end
  | opt_ckpt optarg => Val (mk_options o.(header) o.(id) o.(size) optarg)
  | opt_other => Val o
  end.

Fixpoint parse_options (o : options) (opts : list option_t) : outcome options :=
  match opts with
  | [] => Val o
  | opt :: opts => o ← parse_option o opt; parse_options o opts
  end.

Section inspect.
Context {S : Type} {HS : HasSys S}.

(** [endl] *)
Definition endl : string := String "010" "".

(** The text of [--header]. *)
Fixpoint header_lines (total : Z) (info : region_info_t) : string :=
  match info with
  | [] => "Total checkpoint size = " +:+ to_string total +:+ endl
  | (id, size) :: info =>
      "id = " +:+ to_string id +:+ ", size = " +:+ to_string size +:+ endl +:+
      header_lines (u64 (total + size)) info
  end.

Definition header_text (ckpt_name : string) (info : region_info_t) : string :=
  "Header for " +:+ ckpt_name +:+ ":" +:+ endl +:+ header_lines 0 info.

(** The loop that adds up the sizes before a region: where it starts, and its size. *)
Fixpoint find_region (id seek_offset : Z) (info : region_info_t) : option (Z * Z) :=
  match info with
  | [] => None
  | (id', size) :: info =>
      if id' =? id then Some (seek_offset, size)
      else find_region id (u64 (seek_offset + size)) info
  end.

(** The [try] block; [&region[0]] of an empty vector is undefined. *)
Definition extract (o : options) (header_size : Z) (info : region_info_t) : comp S (list byte) :=
  fd ← on_sys (f_open_in o.(ckpt_name));
  match find_region o.(id) header_size info with
  | None => stop (Raise ios_failure)
  | Some (seek_offset, region_size) =>
      if region_size <? o.(size) then stop (Raise ios_failure) else
      if LONG_MAX <? seek_offset then stop (Raise ios_failure) else
      let size := if o.(size) =? 0 then region_size else o.(size) in
      if size =? 0 then stop Undef else
      on_sys (f_read fd seek_offset size)
  end.

Definition main (opts : list option_t) : comp S (Z * list byte) :=
  o ← stop (parse_options (mk_options false (-1) 0 "") opts);
  if String.eqb o.(ckpt_name) "" || (negb o.(header) && (o.(id) <? 0)) then stop exit_with_usage else
  r ← (λ s, let '(r, (s', info)) := read_header o.(ckpt_name) (s, []) in
            ((λ h, (h, info)) <$> r, s'));
  let '(header_size, info) := r in
  if header_size =? 0 then mret (-1, []) else
  if o.(header) then mret (0, list_byte_of_string (header_text o.(ckpt_name) info)) else
  try_ios (bs ← extract o header_size info; mret (0, bs)) (mret (-1, [])).

End inspect.

(** ** Extraction *)

Lemma find_region_layout id off l bs :
  (id, bs) ∈ l → sorted l.*1 → 0 ≤ off → off + zlen (data_of l) ≤ SIZE_MAX →
  ∃ l1 l2, l = l1 ++ (id, bs) :: l2 ∧
    find_region id off (sizes_of l) = Some (off + zlen (data_of l1), zlen bs).
Proof.
  intros Hin. revert off. induction l as [|[id' bs'] l IH]; intros off Hs Hoff Hmax; [by apply elem_of_nil in Hin|].
  apply sorted_cons_inv in Hs as [Hs Hlt]. simpl.
  assert (zlen (data_of ((id', bs') :: l)) = zlen bs' + zlen (data_of l)) as Hlen
    by (unfold data_of; simpl; by rewrite zlen_app).
  pose proof (zlen_nonneg bs'). pose proof (zlen_nonneg (data_of l)).
  apply elem_of_cons in Hin as [[= <- <-]|Hin].
  - rewrite Z.eqb_refl. exists [], l. split; [done|]. by rewrite Z.add_0_r.
  - assert (id' < id) as Hid.
    { rewrite Forall_forall in Hlt. apply Hlt. by apply (list_elem_of_fmap_2' fst) with (x := (id, bs)). }
    destruct (Z.eqb_spec id' id); [lia|]. rewrite u64_small by (split; lia).
    destruct (IH Hin (off + zlen bs')) as (l1 & l2 & -> & Hf); [done|lia..|].
    exists ((id', bs') :: l1), l2. split; [done|]. etrans; [exact Hf|].
    unfold data_of. simpl. rewrite zlen_app. do 2 f_equal. lia.
Qed.

Lemma ckpt_file_region l1 id bs l2 n :
  0 ≤ n ≤ zlen bs →
  ztake n (zdrop (zlen (header_bytes (sizes_of (l1 ++ (id, bs) :: l2))) + zlen (data_of l1))
             (ckpt_file (l1 ++ (id, bs) :: l2))) = ztake n bs.
Proof.
  intros Hn. unfold ckpt_file. set (h := header_bytes _).
  assert (data_of (l1 ++ (id, bs) :: l2) = data_of l1 ++ bs ++ data_of l2) as ->
    by (unfold data_of; by rewrite map_app, concat_app).
  rewrite app_assoc, zdrop_app_ge by (rewrite zlen_app; lia).
  rewrite zlen_app, Z.sub_diag, zdrop_0 by done. by rewrite ztake_app_le by lia.
Qed.

Lemma parse_extract id_ n name :
  0 ≤ id_ ≤ INT_MAX → 0 ≤ n ≤ SIZE_MAX →
  parse_options (mk_options false (-1) 0 "")
    [opt_extract (to_string id_); opt_size (to_string n); opt_ckpt name] =
  Val (mk_options false id_ n name).
Proof.
  intros Hid Hn. simpl. unfold sscanf_d, sscanf_lu.
  pose proof (scan_decimal_to_string id_ "" ltac:(lia) eq_refl) as H1.
  pose proof (scan_decimal_to_string n "" ltac:(lia) eq_refl) as H2.
  rewrite sapp_nil_r in H1, H2. rewrite H1, H2. unfold is_int, INT_MIN, INT_MAX, SIZE_MAX in *.
  rewrite !bool_decide_true by lia. simpl. rewrite u64_small; [done|]. split; unfold SIZE_MAX; lia.
Qed.

Lemma extract_run l id bs n f name :
  f !! name = Some (Reg (ckpt_file l)) → zlen (ckpt_file l) ≤ LONG_MAX → sorted l.*1 →
  (id, bs) ∈ l → bs ≠ [] → 0 ≤ n ≤ zlen bs →
  extract (mk_options false id n name) (zlen (header_bytes (sizes_of l))) (sizes_of l) (mk_sys f []) =
    (Val (if n =? 0 then bs else ztake n bs), mk_sys f []).
Proof.
  intros Hf Hmax Hsorted Hin Hbs Hn.
  assert (0 < zlen bs) as Hpos by (destruct bs; [done|]; rewrite zlen_cons; pose proof (zlen_nonneg bs); lia).
  assert (zlen (ckpt_file l) = zlen (header_bytes (sizes_of l)) + zlen (data_of l)) as Hfile
    by (unfold ckpt_file; by rewrite zlen_app).
  pose proof (zlen_nonneg (header_bytes (sizes_of l))). pose proof (zlen_nonneg (data_of l)).
  destruct (find_region_layout id (zlen (header_bytes (sizes_of l))) l bs)
    as (l1 & l2 & Heq & Hfind); [done|done|lia|unfold SIZE_MAX, LONG_MAX in *; lia|].
  assert (zlen (data_of l) = zlen (data_of l1) + zlen bs + zlen (data_of l2)) as Hdata
    by (rewrite Heq; unfold data_of; rewrite map_app, concat_app; simpl; rewrite !zlen_app; lia).
  pose proof (zlen_nonneg (data_of l2)).
  unfold extract. cbn [ckpt_name Inspect.id Inspect.size].
  assert (f_open_in name (mk_sys f []) = (Val name, mk_sys f [])) as Hopen
    by (eapply f_open_in_free; by apply lookup_path_reg).
  erewrite comp_bind_val by (eapply (on_sys_same _ _ _ (mk_sys f [])); [done|exact Hopen]).
  rewrite Hfind. destruct (Z.ltb_spec (zlen bs) n); [lia|].
  destruct (Z.ltb_spec LONG_MAX (zlen (header_bytes (sizes_of l)) + zlen (data_of l1))); [lia|].
  set (m := if n =? 0 then zlen bs else n).
  assert (0 < m ≤ zlen bs) as Hm by (subst m; destruct (Z.eqb_spec n 0); lia).
  destruct (Z.eqb_spec m 0); [lia|].
  erewrite (on_sys_same _ _ _ (mk_sys f [])); [|done|eapply f_read_free; [exact Hf| |]].
  - subst m. destruct (n =? 0); [|done]. by rewrite ztake_all.
  - rewrite Heq. apply ckpt_file_region; lia.
  - rewrite zlen_ztake; lia.
Qed.

Lemma main_extract l id bs n f name :
  f !! name = Some (Reg (ckpt_file l)) → name ≠ "" →
  zlen (ckpt_file l) ≤ LONG_MAX → zlen l < 2 ^ 32 → Forall is_int l.*1 → sorted l.*1 →
  (id, bs) ∈ l → 0 ≤ id → bs ≠ [] → 0 ≤ n ≤ zlen bs →
  main [opt_extract (to_string id); opt_size (to_string n); opt_ckpt name] (mk_sys f []) =
    (Val (0, if n =? 0 then bs else ztake n bs), mk_sys f []).
Proof.
  intros Hf Hname Hmax Hl Hids Hsorted Hin Hid Hbs Hn.
  assert (header_of f name (sizes_of l)) as Hhd by by apply ckpt_file_header.
  assert (sorted (sizes_of l).*1) as Hsorted'
    by (unfold sizes_of; by rewrite <-list_fmap_compose).
  assert (is_int id) as [_ Hid']
    by (rewrite Forall_forall in Hids; apply Hids; by apply (list_elem_of_fmap_2' fst) with (x := (id, bs))).
  assert (zlen bs ≤ SIZE_MAX) as Hlen.
  { apply list_elem_of_split in Hin as (l1 & l2 & ->). unfold ckpt_file, data_of in Hmax.
    rewrite map_app, concat_app in Hmax. cbn [map List.concat snd] in Hmax. rewrite !zlen_app in Hmax.
    pose proof (zlen_nonneg (header_bytes (sizes_of (l1 ++ (id, bs) :: l2)))).
    pose proof (zlen_nonneg (List.concat (map snd l1))). pose proof (zlen_nonneg (List.concat (map snd l2))).
    unfold SIZE_MAX, LONG_MAX in *. lia. }
  unfold main. rewrite parse_extract by lia.
  rewrite stop_bind. cbn [ckpt_name header Inspect.id]. destruct (String.eqb_spec name ""); [done|].
  destruct (Z.ltb_spec id 0); [lia|]. cbn [orb andb negb].
  erewrite comp_bind_val by (unfold read_header; rewrite modify_bind; unfold try_ios;
    rewrite (validate_header_free name (mk_sys f []) f (sizes_of l)) by done; done).
  cbn beta iota. rewrite insert_all_sorted by done.
  destruct (Z.eqb_spec (zlen (header_bytes (sizes_of l))) 0) as [Hz|_].
  { rewrite zlen_header_bytes in Hz. pose proof (zlen_nonneg (sizes_of l)). lia. }
  unfold try_ios. erewrite comp_bind_val by (by eapply extract_run). done.
Qed.

(** C32: the tool extracts what the application checkpointed.  After a checkpoint
    of raw regions, [veloc-inspect --extract <id> --size <n>] on its file prints
    the first [n] bytes of the region, all of them when [n] is 0, and exits with 0. *)
Theorem inspect_extract {Q : Type} (cfg : client_cfg) (bufsize : Z) (st0 : client_t Q)
    (c : command_t.t) (f0 : gmap string node) (regions : regions_t) :
  checkpoint_in_progress st0 = true → current_ckpt st0 = Some c → the_fs st0 = mk_sys f0 [] →
  writable f0 (filename c cfg.(scratch)) →
  current_regions st0 = regions → regions ≠ [] → zlen regions < 2 ^ 32 → ids_ok regions →
  Forall (λ e, raw_region (memory st0) e.2) regions →
  8 + 12 * zlen regions + sum_sizes (map (λ e, (e.1, e.2.(Client.size))) regions) ≤ LONG_MAX →
  ∃ st1, checkpoint_mem cfg bufsize VELOC_CKPT_ALL [] st0 = (Val true, st1) ∧
    ∀ id r n, (id, r) ∈ regions → 0 ≤ id → 0 < r.(Client.size) → 0 ≤ n ≤ r.(Client.size) →
    ∃ bs, load r.(ptr) r.(Client.size) (memory st0) = Some bs ∧
      (main [opt_extract (to_string id); opt_size (to_string n);
             opt_ckpt (filename c cfg.(scratch))] (mk_sys (files (the_fs st1)) [])).1 =
        Val (0, if n =? 0 then bs else ztake n bs).
Proof.
  intros Hp Hc Hs Hw Hreg Hne Hl32 [Hsorted Hids] Hraw Hmax.
  destruct (snapshot_raw _ _ Hraw) as (l & Hl & Hkeys & Hall).
  pose proof (snapshot_length _ _ _ Hl) as Hlen.
  assert (map (λ e, (e.1, Client.size e.2)) regions = sizes_of l) as Hsizes by by eapply snapshot_sizes.
  assert (zlen (ckpt_file l) ≤ LONG_MAX) as Hmax'.
  { unfold ckpt_file. rewrite zlen_app, zlen_header_bytes, zlen_sizes_of, <-sum_sizes_of.
    rewrite <-Hsizes. lia. }
  eexists. split.
  { eapply (checkpoint_mem_run cfg bufsize VELOC_CKPT_ALL [] st0 c f0 regions l); try done.
    - by rewrite Hreg.
    - eapply Forall_impl; [exact Hraw|]. by intros e (_ & [? _] & _). }
  intros id r n Hin Hid Hr Hn. destruct (Hall id r Hin) as (bs & Hbs & Hload).
  exists bs. split; [exact Hload|]. apply load_length in Hload; [|lia].
  erewrite main_extract with (l := l) (bs := bs); [done|simpl; by simplify_map_eq| |done|lia| | |done|done| |lia].
  - unfold filename. by destruct (scratch cfg).
  - by rewrite Hkeys.
  - by rewrite Hkeys.
  - intros ->. change (zlen []) with 0 in Hload. lia.
Qed.

Lemma inspect_extract_witness :
  let f0 := <["/s" := Dir]> ∅ in
  ∃ st1, checkpoint_mem demo_cfg 4 VELOC_CKPT_ALL [] (demo_client Byte.x01 f0 true) = (Val true, st1) ∧
    (main [opt_extract (to_string 1); opt_size (to_string 2); opt_ckpt (filename demo_cmd "/s")]
       (mk_sys (files (the_fs st1)) [])).1 = Val (0, [Byte.x01; Byte.x02]).
Proof.
  intros f0.
  destruct (inspect_extract demo_cfg 4 (demo_client Byte.x01 f0 true) demo_cmd f0 demo_protected)
    as (st1 & H1 & H2);
    [done|done|done| |reflexivity|done|reflexivity|apply demo_ids|apply demo_raw
    |vm_compute; discriminate|].
  - right. split; vm_compute; reflexivity.
  - exists st1. split; [exact H1|].
    destruct (H2 1 (mk_region 100 3 None None) 2) as (bs & Hbs & Hmain); [left|simpl; lia..|].
    vm_compute in Hbs. injection Hbs as <-. exact Hmain.
Defined.
