(* ===== verification/Backend.v ===== *)
(** * Backend: [src/backend/main.cpp] and the start of [src/backend/work_queue.cpp]

    The process of the active backend.  Every process of the application that runs
    in asynchronous mode launches one, and the ready file, which is locked while a
    backend starts and holds the process identifier of the one that runs, has to
    make sure that only one of them stays.  [main] becomes a step relation over the
    backends of a node, with the ready file, its inodes and their locks.

    A backend is the process that ends up serving: the fork into the background,
    by which the daemon inherits the open file and the lock, belongs to the step
    that starts it.  The wait of the parent for the signal of the daemon and the
    wait of [start_main_loop] for its thread are modelled at the end.  What the
    backend does once it runs is the subject of [Manager] and [System]. *)

From S2P Require Import Prelude Text.

Local Open Scope nat_scope.

(** ** The ready file *)

(** Where a backend is in [main]; the argument is the inode of [ready_fd]. *)
Inductive pc :=
| Launched
| Opened (i : nat)
| Locked (i : nat)
| Starting (i : nat)      (* past the check: configuration, fork, [start_main_loop] *)
| Written (i : nat)       (* the process identifier is in the file *)
| Running                 (* unlocked, in [pause] *)
| Terminating             (* in [exit_handler], past [remove] *)
| Gone.
Global Instance pc_eq_dec : EqDecision pc.
Proof. solve_decision. Defined.

(** The node: the inode that the path of the ready file names, the process
    identifier that an inode holds, the backend that has locked an inode, and the
    backends by their process identifiers.  [next_inode] has not been used. *)
Record node := mk_node {
  ready_file : option nat;
  pid_in : gmap nat nat;
  lock_of : gmap nat nat;
  backends : gmap nat pc;
  next_inode : nat
}.

Definition set_pc (p : nat) (s : pc) (n : node) : node :=
  mk_node n.(ready_file) n.(pid_in) n.(lock_of) (<[p := s]> n.(backends)) n.(next_inode).

(** [kill(q, 0) == 0] *)
Definition alive (n : node) (q : nat) : bool :=
  match n.(backends) !! q with Some Gone | None => false | Some _ => true end.

(** The locks that are left when the descriptors of [p] are closed. *)
Definition unlock (p : nat) (n : node) : node :=
  mk_node n.(ready_file) n.(pid_in) (filter (λ e, e.2 ≠ p) n.(lock_of)) n.(backends) n.(next_inode).

Inductive action := Launch | Open | Lock | Check | Write | Unlock | Sigterm | Exit_ | Die.

(** One step of backend [p]; [None] when it cannot take it. *)
Definition act (p : nat) (a : action) (n : node) : option node :=
  match a, n.(backends) !! p with
  | Launch, None => Some (set_pc p Launched n)
  | Open, Some Launched =>
      match n.(ready_file) with
      | Some i => Some (set_pc p (Opened i) n)
      | None =>
          let i := n.(next_inode) in
          Some (mk_node (Some i) n.(pid_in) n.(lock_of) (<[p := Opened i]> n.(backends)) (S i))
      end
  | Lock, Some (Opened i) =>
      match n.(lock_of) !! i with
      | Some _ => None
      | None => Some (mk_node n.(ready_file) n.(pid_in) (<[i := p]> n.(lock_of))
                        (<[p := Locked i]> n.(backends)) n.(next_inode))
      end
  | Check, Some (Locked i) =>
      match n.(pid_in) !! i with
      | Some q => if alive n q then Some (unlock p (set_pc p Gone n)) else Some (set_pc p (Starting i) n)
      | None => Some (set_pc p (Starting i) n)
      end
  | Write, Some (Starting i) =>
      Some (mk_node n.(ready_file) (<[i := p]> n.(pid_in)) n.(lock_of)
              (<[p := Written i]> n.(backends)) n.(next_inode))
  | Unlock, Some (Written i) => Some (unlock p (set_pc p Running n))
  | Sigterm, Some (Starting _ | Written _ | Running) =>
      Some (mk_node None n.(pid_in) n.(lock_of) (<[p := Terminating]> n.(backends)) n.(next_inode))
  | Exit_, Some Terminating => Some (unlock p (set_pc p Gone n))
  | Die, Some Gone => None
  | Die, Some _ => Some (unlock p (set_pc p Gone n))
  | _, _ => None
  end.

Definition start : node := mk_node None ∅ ∅ ∅ 0.

(** The states that backends reach, where [acts] are the steps that happen. *)
Inductive reached (acts : action → Prop) : node → Prop :=
| reached_start : reached acts start
| reached_act p a n n' : reached acts n → acts a → act p a n = Some n' → reached acts n'.

(** A backend that serves or is about to. *)
Definition active (s : pc) : bool :=
  match s with Starting _ | Written _ | Running => true | _ => false end.

(** ** One backend per node *)

(** The inode a backend has open. *)
Definition has_open (s : pc) : option nat :=
  match s with Opened i | Locked i | Starting i | Written i => Some i | _ => None end.

(** The inode a backend has locked. *)
Definition has_locked (s : pc) : option nat :=
  match s with Locked i | Starting i | Written i => Some i | _ => None end.

Record node_inv (n : node) : Prop := {
  inv_open p s i : n.(backends) !! p = Some s → has_open s = Some i → n.(ready_file) = Some i;
  inv_lock p s i : n.(backends) !! p = Some s → has_locked s = Some i → n.(lock_of) !! i = Some p;
  inv_written p i : n.(backends) !! p = Some (Written i) → n.(pid_in) !! i = Some p;
  inv_running p : n.(backends) !! p = Some Running →
    ∃ i, n.(ready_file) = Some i ∧ n.(pid_in) !! i = Some p;
  inv_starting p q i : n.(backends) !! p = Some (Starting i) → n.(backends) !! q ≠ Some Running;
  inv_terminating p : n.(backends) !! p ≠ Some Terminating
}.

Lemma start_inv : node_inv start.
Proof. split; simpl; intros *; rewrite ?lookup_empty; naive_solver. Qed.

Lemma lookup_set_pc p s n q :
  (set_pc p s n).(backends) !! q = if decide (p = q) then Some s else n.(backends) !! q.
Proof. simpl. apply lookup_insert. Qed.

(** Locks of others stay when [p] closes its descriptors. *)
Lemma unlock_other p n q i :
  p ≠ q → n.(lock_of) !! i = Some q → (unlock p n).(lock_of) !! i = Some q.
Proof. intros Hne Hl. simpl. apply map_lookup_filter_Some. by split; [|apply not_eq_sym]. Qed.

(** A step of [p] that only moves it: what its new place asks for is enough. *)
Lemma inv_move p s n :
  node_inv n →
  (∀ i, has_open s = Some i → n.(ready_file) = Some i) →
  (∀ i, has_locked s = Some i → n.(lock_of) !! i = Some p) →
  (∀ i, s = Written i → n.(pid_in) !! i = Some p) →
  (s = Running → ∃ i, n.(ready_file) = Some i ∧ n.(pid_in) !! i = Some p) →
  (∀ q i, s = Starting i → q ≠ p → n.(backends) !! q ≠ Some Running) →
  (∀ q i, s = Running → q ≠ p → n.(backends) !! q ≠ Some (Starting i)) →
  s ≠ Terminating → node_inv (set_pc p s n).
Proof.
  intros [Ho Hl Hw Hr Hs Ht] H1 H2 H3 H4 H5 H6 H7.
  split; intros *; rewrite ?lookup_set_pc; repeat case_decide; intros; simplify_eq; eauto.
  - intros [= ->]. by eapply H6.
  - by intros [= ->].
Qed.

(** The locks of a backend that holds none are gone already. *)
Lemma inv_unlock p n :
  node_inv n → (∀ s, n.(backends) !! p = Some s → has_locked s = None) → node_inv (unlock p n).
Proof.
  intros [Ho Hl Hw Hr Hs Ht] Hp. split; simpl; try done.
  intros q s i Hq Hi. apply unlock_other; [|by eapply Hl]. intros ->. by rewrite (Hp _ Hq) in Hi.
Qed.

Lemma inv_gone p n : node_inv n → node_inv (unlock p (set_pc p Gone n)).
Proof.
  intros Hn. apply inv_unlock; [by apply inv_move|].
  intros s. rewrite lookup_set_pc, decide_True by done. by intros [= <-].
Qed.

(** The lock of the ready file has one holder. *)
Lemma lock_holder n p q s t i j :
  node_inv n → n.(backends) !! p = Some s → n.(backends) !! q = Some t →
  has_locked s = Some i → has_locked t = Some j → p = q.
Proof.
  intros Hn Hp Hq Hi Hj. assert (∀ u k, has_locked u = Some k → has_open u = Some k) as Hlo
    by (intros [] k; simpl; congruence).
  pose proof (inv_open _ Hn _ _ _ Hp (Hlo _ _ Hi)) as H1.
  pose proof (inv_open _ Hn _ _ _ Hq (Hlo _ _ Hj)) as H2. simplify_eq.
  pose proof (inv_lock _ Hn _ _ _ Hp Hi). pose proof (inv_lock _ Hn _ _ _ Hq Hj). by simplify_eq.
Qed.

(** The first backend creates the file. *)
Lemma inv_create p n :
  node_inv n → n.(ready_file) = None →
  node_inv (mk_node (Some n.(next_inode)) n.(pid_in) n.(lock_of)
    (<[p := Opened n.(next_inode)]> n.(backends)) (S n.(next_inode))).
Proof.
  intros [Ho Hl Hw Hr Hs Ht] Hrf.
  assert (∀ q s i, backends n !! q = Some s → has_open s = Some i → False) as Hno.
  { intros q s i Hq Hi. pose proof (Ho _ _ _ Hq Hi). congruence. }
  split; simpl; intros *; rewrite ?lookup_insert; repeat case_decide; intros; simplify_eq; eauto;
    try (by exfalso; eapply Hno).
  by destruct (Hr _ ltac:(eassumption)) as (? & ? & _); simplify_eq.
Qed.

Lemma inv_take_lock p n i :
  node_inv n → n.(backends) !! p = Some (Opened i) → n.(lock_of) !! i = None →
  node_inv (mk_node n.(ready_file) n.(pid_in) (<[i := p]> n.(lock_of))
    (<[p := Locked i]> n.(backends)) n.(next_inode)).
Proof.
  intros [Ho Hl Hw Hr Hs Ht] Hp Hfree.
  split; simpl; intros *; rewrite ?lookup_insert; repeat case_decide; intros; simplify_eq; eauto.
  - simpl in *. congruence.
  - exfalso. by erewrite Hl in Hfree.
Qed.

Lemma inv_write p n i :
  node_inv n → n.(backends) !! p = Some (Starting i) →
  node_inv (mk_node n.(ready_file) (<[i := p]> n.(pid_in)) n.(lock_of)
    (<[p := Written i]> n.(backends)) n.(next_inode)).
Proof.
  intros Hn Hp. pose proof Hn as [Ho Hl Hw Hr Hs Ht].
  split; simpl; intros *; rewrite ?lookup_insert; repeat case_decide; intros; simplify_eq; eauto.
  - exfalso. assert (p = p0); [|done]. by eapply (lock_holder n).
  - exfalso. by eapply Hs.
Qed.

Lemma act_inv p a n n' : a ≠ Sigterm → node_inv n → act p a n = Some n' → node_inv n'.
Proof.
  intros Ha Hn. pose proof Hn as [Ho Hl Hw Hr Hs Ht].
  destruct a; try done; unfold act; destruct (backends n !! p) as [s|] eqn:Hp; try done;
    try destruct s as [|i|i|i|i| | |]; try done; try (intros [= <-]; by apply inv_gone).
  - intros [= <-]. by apply inv_move.
  - destruct (ready_file n) as [i|] eqn:Hrf; intros [= <-]; [|by apply inv_create].
    apply inv_move; simpl; congruence.
  - destruct (lock_of n !! i) eqn:Hlock; intros [= <-]. by apply inv_take_lock.
  - assert (ready_file n = Some i) as Hrf by by eapply Ho.
    assert ((∀ q, backends n !! q ≠ Some Running) → node_inv (set_pc p (Starting i) n)) as Hgo.
    { intros Hno. apply inv_move; simpl; try congruence; try done.
      intros j [= <-]. by eapply Hl. }
    destruct (pid_in n !! i) as [q|] eqn:Hpid.
    + destruct (alive n q) eqn:Hal; intros [= <-]; [by apply inv_gone|]. apply Hgo.
      intros r Hrun. destruct (Hr _ Hrun) as (j & Hj & Hpj). simplify_eq.
      unfold alive in Hal. by rewrite Hrun in Hal.
    + intros [= <-]. apply Hgo. intros r Hrun. destruct (Hr _ Hrun) as (j & Hj & Hpj). by simplify_eq.
  - intros [= <-]. by apply inv_write.
  - intros [= <-]. apply inv_unlock.
    + apply inv_move; try done.
      * intros _. exists i. split; [by eapply Ho|by apply Hw].
      * intros q j _ Hne Hq. apply Hne. by eapply (lock_holder n).
    + intros s. rewrite lookup_set_pc, decide_True by done. by intros [= <-].
Qed.

Lemma active_unique n p q s t :
  node_inv n → n.(backends) !! p = Some s → active s = true →
  n.(backends) !! q = Some t → active t = true → p = q.
Proof.
  intros Hn Hp Hs Hq Ht.
  destruct s as [| | |i|i| | |], t as [| | |j|j| | |]; try done;
    try (by eapply (lock_holder n)); try (by exfalso; eapply (inv_starting n)).
  - destruct (inv_running _ Hn _ Hq) as (k & Hk & Hpid).
    pose proof (inv_open _ Hn _ _ i Hp eq_refl). pose proof (inv_written _ Hn _ _ Hp). by simplify_eq.
  - destruct (inv_running _ Hn _ Hp) as (k & Hk & Hpid).
    pose proof (inv_open _ Hn _ _ j Hq eq_refl). pose proof (inv_written _ Hn _ _ Hq). by simplify_eq.
  - destruct (inv_running _ Hn _ Hp) as (k & Hk & Hpk), (inv_running _ Hn _ Hq) as (m & Hm & Hpm).
    by simplify_eq.
Qed.

(** C22: the ready file admits one backend per node.  However many backends are
    launched, however their steps interleave and whenever they die, as long as
    none is told to terminate there is at most one that serves or is about to. *)
Theorem backend_single_instance (n : node) (p q : nat) (s t : pc) :
  reached (λ a, a ≠ Sigterm) n →
  n.(backends) !! p = Some s → active s = true →
  n.(backends) !! q = Some t → active t = true → p = q.
Proof.
  intros Hr. apply active_unique.
  induction Hr as [|p' a n n' _ IH Ha Hact]; [apply start_inv|by eapply act_inv].
Qed.

(** Runs a schedule of steps. *)
Definition run_steps (l : list (nat * action)) (n : node) : option node :=
  foldl (λ n e, n ≫= act e.1 e.2) (Some n) l.

Lemma run_steps_reached acts l n n' :
  reached acts n → Forall (λ e, acts e.2) l → run_steps l n = Some n' → reached acts n'.
Proof.
  revert n. induction l as [|[p a] l IH]; intros n Hn Hl; unfold run_steps; simpl.
  - by intros [= <-].
  - apply Forall_cons in Hl as [Ha Hl]. destruct (act p a n) as [n1|] eqn:E.
    + apply IH; [|done]. by eapply reached_act.
    + assert (∀ k, foldl (λ n e, n ≫= act e.1 e.2) (None : option node) k = None) as -> by (by induction k).
      done.
Qed.

(** Backend [p] from its launch on. *)
Definition steps (p : nat) (l : list action) : list (nat * action) := (λ a, (p, a)) <$> l.
Definition boot : list action := [Launch; Open; Lock; Check; Write; Unlock].

Lemma backend_single_instance_witness :
  ∃ n, run_steps (steps 1 boot ++ steps 2 [Launch; Open; Lock; Check] ++ steps 1 [Die] ++ steps 3 boot) start
    = Some n ∧ n.(backends) !! 3 = Some Running ∧
    ∀ q t, n.(backends) !! q = Some t → active t = true → 3 = q.
Proof.
  eexists. split; [vm_compute; reflexivity|]. split; [reflexivity|]. intros q t Hq Ht.
  refine (backend_single_instance _ 3 q Running t _ _ _ Hq Ht); [|reflexivity|reflexivity].
  eapply (run_steps_reached _ (steps 1 boot ++ steps 2 [Launch; Open; Lock; Check] ++
    steps 1 [Die] ++ steps 3 boot) start);
    [apply reached_start|repeat (constructor; [discriminate|]); constructor|vm_compute; reflexivity].
Defined.

(** A backend that terminates removes the ready file while another one has it
    open already.  That one then works with the removed file, the next one creates
    a new file, and both end up serving. *)
Theorem backend_sigterm_two :
  ∃ n, reached (λ _, True) n ∧ n.(ready_file) = Some 1 ∧
    n.(backends) !! 2 = Some Running ∧ n.(backends) !! 3 = Some Running.
Proof.
  eexists. split.
  - eapply (run_steps_reached _ (steps 1 boot ++ steps 2 [Launch; Open] ++ steps 1 [Sigterm; Exit_] ++
      steps 2 [Lock; Check; Write; Unlock] ++ steps 3 boot) start);
      [apply reached_start|by apply Forall_true|vm_compute; reflexivity].
  - vm_compute. done.
Qed.

(** ** The wait of [start_main_loop] for its thread *)

Module start_main_loop.

(** The caller: at the test of [init_finished], past it, in [wait], returned. *)
Inductive caller := Testing | Entering | Waiting | Returned.

(** The thread: before, between and after the two statements that tell the caller. *)
Inductive worker := Initialising | Finished | Notified.

Global Instance caller_eq_dec : EqDecision caller.
Proof. solve_decision. Defined.
Global Instance worker_eq_dec : EqDecision worker.
Proof. solve_decision. Defined.

Record t := mk {
  init_finished : bool;
  the_caller : caller;
  the_worker : worker
}.

Inductive who := Caller | Worker.

(** [thread_lock] is a local mutex of the caller, which the thread never takes.
    [notify_all] wakes a caller in [wait]; after the caller has returned the
    condition variable no longer exists. *)
Definition step (w : who) (s : t) : outcome t :=
  match w, s.(the_caller), s.(the_worker) with
  | Caller, Testing, _ =>
      Val (mk s.(init_finished) (if s.(init_finished) then Returned else Entering) s.(the_worker))
  | Caller, Entering, _ => Val (mk s.(init_finished) Waiting s.(the_worker))
  | Caller, Waiting, _ => Hang
  | Caller, Returned, _ => Val s
  | Worker, c, Initialising => Val (mk true c Finished)
  | Worker, Waiting, Finished => Val (mk s.(init_finished) Testing Notified)
  | Worker, Returned, Finished => Undef
  | Worker, c, Finished => Val (mk s.(init_finished) c Notified)
  | Worker, _, Notified => Val s
  end.

Definition start : t := mk false Testing Initialising.

Fixpoint run (l : list who) (s : t) : outcome t :=
  match l with
  | [] => Val s
  | w :: l => s ← step w s; run l s
  end.

End start_main_loop.

(** [start_main_loop] returns when its thread is slow, but the thread does not
    take the lock of the caller.  If it finishes between the test and the wait of
    the caller, the caller waits for a notification that has passed, whatever
    happens next; and if the caller tests between the two statements of the thread,
    it returns, and the thread notifies a condition variable that is gone. *)
Theorem start_main_loop_races :
  let run l := start_main_loop.run l start_main_loop.start in
  run [start_main_loop.Caller; start_main_loop.Caller; start_main_loop.Worker;
       start_main_loop.Worker; start_main_loop.Caller] =
    Val (start_main_loop.mk true start_main_loop.Returned start_main_loop.Notified) ∧
  (∃ s, run [start_main_loop.Caller; start_main_loop.Worker; start_main_loop.Worker;
             start_main_loop.Caller] = Val s ∧
     ∀ n, start_main_loop.run (replicate n start_main_loop.Worker ++ [start_main_loop.Caller]) s = Hang) ∧
  run [start_main_loop.Worker; start_main_loop.Caller; start_main_loop.Worker] = Undef.
Proof.
  split; [reflexivity|]. split; [|reflexivity]. eexists. split; [reflexivity|].
  intros n. by induction n as [|n IH].
Qed.
