(* ===== verification/Daemon.v ===== *)
(** * Daemon: the start of [src/backend/main.cpp]

    The arguments and the configuration of the backend, and its fork into the
    background: the parent stays until the daemon signals that it has started, so
    that whoever launched the backend, [launch_backend] of the client, goes on only
    when there is a queue to talk to.  The daemon calls [start_main_loop], whose
    wait for its thread is that of [Backend], race included.  Both processes hold
    the lock on the ready file, which [Backend] treats as one process. *)

From S2P Require Import Prelude Text FileSystem Storage Config Backend.
From stdpp Require Import relations.

Local Open Scope Z_scope.

(** ** Arguments and configuration *)

Definition disable_ec : string := "--disable-ec".

(** [argv] without the program: the configuration file and [ec_active]; [None] for
    the usage message and -1. *)
Definition parse_args (args : list string) : option (string * bool) :=
  if (2 <? length args)%nat then None else
  Some (match args with
        | a :: _ => if decide (a = disable_ec) then "" else a
        | [] => ""
        end, negb (existsb (String.eqb disable_ec) args)).

Section configure.
Context {S : Type} `{HasSys S}.
Variables (getenv : string → option string) (host_name : string) (uid : Z).
Variables (daos_module axl_module : option (storage_make S)).

(** From the arguments to the start of the main loop. *)
Definition configure (args : list string) : comp S (config_t S * bool) :=
  match parse_args args with
  | None => stop (Exit (-1))
  | Some (file, ec_active) =>
      cfg ← config.make getenv host_name uid daos_module axl_module file true;
      if cfg.(sync_mode) then stop FATAL else mret (cfg, ec_active)
  end.
End configure.

(** ** The fork *)

(** The parent: after [fork], with its handler installed, in [pause]; it has left
    with a status, or a signal has ended it. *)
Inductive parent_pc := Forked | Armed | Paused | Left (status : Z) | Killed.

(** The daemon: in [start_main_loop], before and after its own handler, after the
    signal to the parent, after [pwrite], after [flock] and [close]. *)
Inductive daemon_pc := Initialising | Initialised | Handling | Signalled | Stored | Serving | Dead.

Global Instance parent_pc_eq_dec : EqDecision parent_pc.
Proof. solve_decision. Defined.
Global Instance daemon_pc_eq_dec : EqDecision daemon_pc.
Proof. solve_decision. Defined.

(** [main_loop]: the call of [start_main_loop] and its thread; [unlocked]:
    [flock(LOCK_UN)] has been called. *)
Record pair_t := mk_pair {
  parent : parent_pc;
  daemon : daemon_pc;
  main_loop : start_main_loop.t;
  unlocked : bool
}.

(** The thread has constructed its end of the queue and the modules. *)
Definition queue_up (x : pair_t) : bool :=
  match x.(main_loop).(start_main_loop.the_worker) with start_main_loop.Initialising => false | _ => true end.

(** The lock belongs to the open file, which both have: it is there until one of
    them releases it or both have closed the descriptor. *)
Definition alive_parent (p : parent_pc) : bool := match p with Left _ | Killed => false | _ => true end.
Definition has_descriptor (d : daemon_pc) : bool := match d with Serving | Dead => false | _ => true end.
Definition locked (x : pair_t) : bool :=
  negb x.(unlocked) && (alive_parent x.(parent) || has_descriptor x.(daemon)).

(** [kill(parent_id, SIGUSR1)]: without a handler the signal ends the process,
    with it [_exit(0)]; a process that has left is not affected. *)
Definition sigusr1 (p : parent_pc) : parent_pc :=
  match p with Forked => Killed | Armed | Paused => Left 0 | p => p end.

(** The parent, the daemon and its thread.  The steps of [start_main_loop] are those
    of its two sides that change something; the daemon goes on when the call has
    returned, the thread goes on by itself. *)
Inductive step : pair_t → pair_t → Prop :=
| parent_arms d q u : step (mk_pair Forked d q u) (mk_pair Armed d q u)
| parent_pauses d q u : step (mk_pair Armed d q u) (mk_pair Paused d q u)
| main_loop_starts w p d q q' u :
    d ≠ Dead → start_main_loop.step w q = Val q' → q' ≠ q → step (mk_pair p d q u) (mk_pair p d q' u)
| daemon_initialised p q u :
    q.(start_main_loop.the_caller) = start_main_loop.Returned →
    step (mk_pair p Initialising q u) (mk_pair p Initialised q u)
| daemon_handles p q u : step (mk_pair p Initialised q u) (mk_pair p Handling q u)
| daemon_signals p q u : step (mk_pair p Handling q u) (mk_pair (sigusr1 p) Signalled q u)
| daemon_stores p q u : step (mk_pair p Signalled q u) (mk_pair p Stored q u)
| daemon_unlocks p q u : step (mk_pair p Stored q u) (mk_pair p Serving q true).

(** The thread finishes only while the caller waits for it. *)
Definition timely_step (x y : pair_t) : Prop :=
  step x y ∧
  (y.(main_loop).(start_main_loop.the_worker) ≠ x.(main_loop).(start_main_loop.the_worker) →
   x.(main_loop).(start_main_loop.the_caller) = start_main_loop.Waiting).

(** The daemon ends: [FATAL] in the configuration of a module or when the process
    identifier cannot be written, an exception, a signal. *)
Inductive dies : pair_t → pair_t → Prop :=
| daemon_dies p d q u : d ≠ Dead → dies (mk_pair p d q u) (mk_pair p Dead q u).

Definition forked : pair_t := mk_pair Forked Initialising start_main_loop.start false.

(** ** Lemmas *)

Definition started (d : daemon_pc) : bool :=
  match d with Initialising | Initialised | Handling => false | _ => true end.

(** What is left to do. *)
Definition parent_work (p : parent_pc) : nat := match p with Forked => 2 | Armed => 1 | _ => 0 end.
Definition daemon_work (d : daemon_pc) : nat :=
  match d with Initialising => 6 | Initialised => 5 | Handling => 4 | Signalled => 2 | Stored => 1 | _ => 0 end.
Definition loop_work (q : start_main_loop.t) : nat :=
  match q.(start_main_loop.the_worker) with
  | start_main_loop.Initialising => 8 | start_main_loop.Finished => 4 | start_main_loop.Notified => 0
  end +
  match q.(start_main_loop.the_caller) with
  | start_main_loop.Testing => 3 | start_main_loop.Entering => 2 | start_main_loop.Waiting => 1
  | start_main_loop.Returned => 0
  end.
Definition work (x : pair_t) : nat := parent_work (parent x) + daemon_work (daemon x) + loop_work (main_loop x).

Lemma loop_work_less w q q' : start_main_loop.step w q = Val q' → q' ≠ q → (loop_work q' < loop_work q)%nat.
Proof.
  destruct q as [i [] []], w, i; simpl; intros Hs Hne; simplify_eq/=; unfold loop_work; simpl; lia.
Qed.

Lemma work_less x y : step x y → (work y < work x)%nat.
Proof.
  intros Hs. unfold work. destruct Hs as [| |w p d q q' u Hd Hs Hne| | |p q u| |]; simpl; try lia.
  - pose proof (loop_work_less _ _ _ Hs Hne). lia.
  - destruct p; simpl; lia.
Qed.

Lemma start_terminates x : sn step x.
Proof. apply (sn_measure _ work), work_less. Qed.

(** [start_main_loop] returns only after its thread is initialised. *)
Record loop_inv (q : start_main_loop.t) : Prop := {
  inv_finished : q.(start_main_loop.init_finished) = true ↔
    q.(start_main_loop.the_worker) ≠ start_main_loop.Initialising;
  inv_returned : q.(start_main_loop.the_caller) = start_main_loop.Returned →
    q.(start_main_loop.the_worker) ≠ start_main_loop.Initialising
}.

Lemma main_loop_inv_step w q q' : loop_inv q → start_main_loop.step w q = Val q' → loop_inv q'.
Proof.
  intros [[H1 H1'] H2] Hs. destruct q as [i [] []], w, i; simplify_eq/=; try (by destruct H1);
    try (by discriminate H1'); split; simpl; intros; split || idtac; intros; simplify_eq; auto; try done;
    try (by apply H2).
Qed.

Lemma returned_stays w q q' :
  start_main_loop.step w q = Val q' → q.(start_main_loop.the_caller) = start_main_loop.Returned →
  q'.(start_main_loop.the_caller) = start_main_loop.Returned.
Proof. destruct q as [i [] []], w; intros; by simplify_eq/=. Qed.

(** The parent stays until the signal, which comes after the queue. *)
Record pair_inv (x : pair_t) : Prop := {
  inv_left : alive_parent (parent x) = false → started (daemon x) = true ∧
    (main_loop x).(start_main_loop.the_caller) = start_main_loop.Returned;
  inv_alive : alive_parent (parent x) = true → started (daemon x) = true → daemon x = Dead;
  inv_queue : daemon x ≠ Initialising → daemon x ≠ Dead →
    (main_loop x).(start_main_loop.the_caller) = start_main_loop.Returned;
  inv_status n : parent x = Left n → n = 0;
  inv_serving : unlocked x = true → daemon x = Serving ∨ daemon x = Dead;
  inv_unlocked : daemon x = Serving → unlocked x = true;
  inv_loop : loop_inv (main_loop x)
}.

Lemma forked_inv : pair_inv forked.
Proof. by split; simpl; intros; simplify_eq; [..|split; simpl; [split|]]. Qed.

Lemma pair_inv_step x y : pair_inv x → step x y ∨ dies x y → pair_inv y.
Proof.
  intros Hinv Hs. revert Hinv.
  destruct Hs as [[d q u|d q u|w p d q q' u Hd Hs Hne|p q u Hret|p q u|p q u|p q u|p q u]|[p d q u Hd]];
    try destruct p; intros [H1 H2 H3 H4 H5 H6 H7]; simpl in *;
    try pose proof (main_loop_inv_step _ _ _ H7 Hs); try pose proof (returned_stays _ _ _ Hs);
    split; simpl; intros; simplify_eq; try (by apply H4); intuition congruence.
Qed.

Lemma pair_inv_reachable x : rtc (λ x y, step x y ∨ dies x y) forked x → pair_inv x.
Proof.
  intros Hr. assert (∀ y, rtc (λ x y, step x y ∨ dies x y) y x → pair_inv y → pair_inv x) as H.
  { clear. intros y Hr. induction Hr; eauto using pair_inv_step. }
  eapply H; [done|apply forked_inv].
Qed.

Lemma pair_inv_queue x : pair_inv x → alive_parent (parent x) = false → queue_up x = true.
Proof.
  intros Hx Ha. destruct (inv_left x Hx Ha) as [_ Hret]. apply (inv_returned _ (inv_loop x Hx)) in Hret.
  unfold queue_up. by destruct (start_main_loop.the_worker (main_loop x)).
Qed.

(** The daemon waits in [start_main_loop] for a notification that has passed; the
    parent waits for the daemon, and the lock is taken. *)
Definition stalled (x : pair_t) : Prop :=
  (main_loop x).(start_main_loop.the_caller) = start_main_loop.Waiting ∧
  (main_loop x).(start_main_loop.the_worker) = start_main_loop.Notified ∧
  alive_parent (parent x) = true ∧ locked x = true.

Lemma rest_cases y :
  pair_inv y → nf step y → daemon y ≠ Dead →
  (daemon y = Serving ∧ alive_parent (parent y) = false ∧ locked y = false) ∨ stalled y.
Proof.
  intros Hinv Hnf Hd. destruct y as [p d q u]; simpl in *. destruct (decide (d = Serving)) as [->|Hserv].
  - left. split; [done|]. split.
    + destruct (alive_parent p) eqn:E; [|done]. by pose proof (inv_alive _ Hinv E eq_refl).
    + unfold locked. by rewrite (inv_unlocked _ Hinv eq_refl).
  - right. assert (d = Initialising) as -> by (destruct d; try done; exfalso; apply Hnf; eexists; constructor).
    assert (alive_parent p = true) as Hp.
    { destruct (alive_parent p) eqn:E; [done|]. by destruct (inv_left _ Hinv E) as [? _]. }
    assert (u = false) as -> by (destruct u; [by destruct (inv_serving _ Hinv eq_refl)|done]).
    assert (∀ w q', start_main_loop.step w q = Val q' → q' = q) as Hstuck.
    { intros w q' Hs. destruct (decide (start_main_loop.the_caller q' = start_main_loop.the_caller q ∧
        start_main_loop.the_worker q' = start_main_loop.the_worker q)) as [?|Hne];
        [by destruct q as [[] [] []], w; simplify_eq/=; try naive_solver|].
      exfalso. apply Hnf. eexists. eapply main_loop_starts; [done|exact Hs|]. intros ->. by apply Hne. }
    pose proof (Hstuck start_main_loop.Caller) as Hc. pose proof (Hstuck start_main_loop.Worker) as Hw.
    destruct q as [i [] []]; simpl in *;
      try (by destruct i; discriminate (Hc _ eq_refl)); try (by discriminate (Hw _ eq_refl));
      try (exfalso; apply Hnf; eexists; by apply daemon_initialised).
    split; [done|]. split; [done|]. split; [done|]. unfold locked. simpl. by rewrite Hp.
Qed.

(** In time, the caller has tested before the thread finishes, and is told. *)
Definition in_time (q : start_main_loop.t) : Prop :=
  match q.(start_main_loop.the_worker) with
  | start_main_loop.Initialising => q.(start_main_loop.init_finished) = false
  | start_main_loop.Finished =>
      q.(start_main_loop.init_finished) = true ∧ q.(start_main_loop.the_caller) = start_main_loop.Waiting
  | start_main_loop.Notified =>
      q.(start_main_loop.init_finished) = true ∧
      (q.(start_main_loop.the_caller) = start_main_loop.Testing ∨
       q.(start_main_loop.the_caller) = start_main_loop.Returned)
  end.

Lemma timely_in_time x y : in_time (main_loop x) → timely_step x y → in_time (main_loop y).
Proof.
  intros Hx [Hs Ht]. destruct Hs as [| |w p d q q' u Hd Hs Hne| | | | |]; try done. simpl in *.
  destruct q as [[] [] []], w; simplify_eq/=; unfold in_time in *; simpl in *; naive_solver.
Qed.

Lemma timely_reachable x :
  rtc timely_step forked x → pair_inv x ∧ in_time (main_loop x) ∧ daemon x ≠ Dead.
Proof.
  intros Hr. assert (rtc step forked x) as Hr' by (eapply rtc_subrel; [|exact Hr]; by intros ? ? [? _]).
  split; [|split].
  - apply pair_inv_reachable. eapply rtc_subrel; [|exact Hr']. by left.
  - assert (∀ y, rtc timely_step y x → in_time (main_loop y) → in_time (main_loop x)) as H.
    { clear. intros y Hr. induction Hr; eauto using timely_in_time. }
    by apply (H forked).
  - assert (∀ y, rtc step y x → daemon y ≠ Dead → daemon x ≠ Dead) as H.
    { clear. intros y Hr. induction Hr as [|y y' z Hs _ IH]; [done|]. intros Hd. apply IH. by destruct Hs. }
    by apply (H forked).
Qed.

(** ** Theorems *)

(** C24: who launches a backend waits for it.  In every interleaving of the two
    processes and of the thread of the main loop, also when the daemon dies: once
    the parent is gone the queue is there, and a parent that leaves on its own
    leaves with success.  The start always comes to rest; when the daemon has not
    died, it then serves, with the parent gone and the lock free for the next
    backend, or it waits in [start_main_loop] for a notification that has passed.
    The latter does not happen, and the thread never notifies a caller that has
    returned, when the thread finishes only while the caller waits. *)
Theorem daemon_starts (x : pair_t) :
  rtc (λ x y, step x y ∨ dies x y) forked x →
  (alive_parent x.(parent) = false → queue_up x = true) ∧ (∀ n, x.(parent) = Left n → n = 0) ∧
  sn step x ∧
  (nf step x → x.(daemon) ≠ Dead →
    (x.(daemon) = Serving ∧ alive_parent x.(parent) = false ∧ locked x = false) ∨ stalled x) ∧
  (rtc timely_step forked x →
    start_main_loop.step start_main_loop.Worker x.(main_loop) ≠ Undef ∧
    (nf step x → x.(daemon) = Serving ∧ alive_parent x.(parent) = false ∧ locked x = false)).
Proof.
  intros Hr. pose proof (pair_inv_reachable x Hr) as Hx.
  split; [by apply pair_inv_queue|]. split; [by apply inv_status|]. split; [apply start_terminates|].
  split; [by apply rest_cases|]. intros (_ & Ht & Hd)%timely_reachable. split.
  - destruct (main_loop x) as [i [] []]; simpl in *; try done. by destruct Ht as [_ ?].
  - intros Hnf. destruct (rest_cases x Hx Hnf Hd) as [H|(Hw & Hn & _)]; [done|].
    unfold in_time in Ht. rewrite Hn, Hw in Ht. naive_solver.
Qed.

(** The caller waits, the thread finishes and notifies, the caller returns. *)
Definition loop_done : start_main_loop.t :=
  start_main_loop.mk true start_main_loop.Returned start_main_loop.Notified.

Lemma loop_runs p u :
  rtc timely_step (mk_pair p Initialising start_main_loop.start u) (mk_pair p Initialising loop_done u).
Proof.
  assert (∀ w q q' r, start_main_loop.step w q = Val q' → q' ≠ q →
    (start_main_loop.the_worker q' ≠ start_main_loop.the_worker q →
     start_main_loop.the_caller q = start_main_loop.Waiting) →
    rtc timely_step (mk_pair p Initialising q' u) r → rtc timely_step (mk_pair p Initialising q u) r) as H.
  { intros w q q' r Hs Hne Ht Hr. eapply rtc_l; [|exact Hr]. split; [by eapply main_loop_starts|done]. }
  eapply (H start_main_loop.Caller); [reflexivity|done|done|].
  eapply (H start_main_loop.Caller); [reflexivity|done|done|].
  eapply (H start_main_loop.Worker); [reflexivity|done|done|].
  eapply (H start_main_loop.Worker); [reflexivity|done|done|].
  eapply (H start_main_loop.Caller); [reflexivity|done|done|]. apply rtc_refl.
Qed.

Lemma daemon_serves p :
  rtc timely_step (mk_pair p Initialising loop_done false) (mk_pair (sigusr1 p) Serving loop_done true).
Proof.
  eapply rtc_l; [split; [by apply daemon_initialised|done]|].
  eapply rtc_l; [split; [apply daemon_handles|done]|].
  eapply rtc_l; [split; [apply daemon_signals|done]|].
  eapply rtc_l; [split; [apply daemon_stores|done]|].
  eapply rtc_l; [split; [apply daemon_unlocks|done]|]. apply rtc_refl.
Qed.

Lemma daemon_launched : rtc timely_step forked (mk_pair (Left 0) Serving loop_done true).
Proof.
  eapply rtc_l; [split; [apply parent_arms|done]|].
  etrans; [apply loop_runs|]. apply (daemon_serves Armed).
Qed.

Lemma daemon_starts_witness :
  let x := mk_pair (Left 0) Serving loop_done true in
  queue_up x = true ∧ sn step x ∧ alive_parent x.(parent) = false ∧ locked x = false.
Proof.
  intros x. destruct (daemon_starts x) as (Hq & _ & Hsn & _ & Ht).
  - eapply rtc_subrel; [|exact daemon_launched]. intros y z [Hs _]. by left.
  - destruct (Ht daemon_launched) as [_ Hend]. destruct Hend as (_ & Hp & Hl).
    + intros [z Hz]. inversion Hz as [| |w p d q q' u Hd Hs Hne| | | | |]; subst. destruct w; by simplify_eq/=.
    + split; [by apply Hq|]. split; [exact Hsn|]. split; [exact Hp|exact Hl].
Defined.

(** The race of [start_main_loop] stalls the start: the launch never returns. *)
Theorem daemon_start_stalls :
  ∃ x, rtc step forked x ∧ nf step x ∧ stalled x.
Proof.
  exists (mk_pair Paused Initialising
    (start_main_loop.mk true start_main_loop.Waiting start_main_loop.Notified) false).
  split; [|split; [|done]].
  - eapply rtc_l; [apply parent_arms|]. eapply rtc_l; [apply parent_pauses|].
    eapply rtc_l; [by eapply (main_loop_starts start_main_loop.Caller)|].
    eapply rtc_l; [by eapply (main_loop_starts start_main_loop.Worker)|].
    eapply rtc_l; [by eapply (main_loop_starts start_main_loop.Worker)|].
    eapply rtc_l; [by eapply (main_loop_starts start_main_loop.Caller)|]. apply rtc_refl.
  - intros [z Hz]. inversion Hz as [| |w p d q q' u Hd Hs Hne|p q u Hret| | | |]; subst; [|done].
    destruct w; by simplify_eq/=.
Qed.

(** A daemon that dies before its signal, for instance because a module refuses its
    configuration, leaves its parent in [pause] for good: the launch never returns,
    and the lock of the ready file, which the parent has inherited too, is never
    released, so that every later backend waits in [flock]. *)
Theorem daemon_start_hangs (x y : pair_t) :
  rtc step forked x → started x.(daemon) = false → dies x y →
  ∀ z, rtc step y z → alive_parent z.(parent) = true ∧ locked z = true.
Proof.
  intros Hx Hs Hd z Hz. assert (pair_inv x) as Hinv.
  { apply pair_inv_reachable. eapply rtc_subrel; [|exact Hx]. by left. }
  assert (alive_parent (parent y) = true ∧ daemon y = Dead ∧ unlocked y = false) as Hy.
  { destruct Hd as [p d q u Hne]. simpl in *. split_and!; [|done|].
    - destruct (alive_parent p) eqn:E; [done|]. destruct (inv_left _ Hinv E) as [Hst _]. simpl in Hst. congruence.
    - destruct u; [|done]. destruct (inv_serving _ Hinv eq_refl) as [Hu|Hu]; simpl in Hu; by subst. }
  clear -Hz Hy. unfold locked. induction Hz as [y|y y' z Hst _ IH].
  - destruct Hy as (-> & _ & ->). done.
  - apply IH. destruct Hst; simpl in *; naive_solver.
Qed.

Lemma daemon_start_hangs_witness :
  ∀ z, rtc step (mk_pair Armed Dead start_main_loop.start false) z →
    alive_parent z.(parent) = true ∧ locked z = true.
Proof.
  apply (daemon_start_hangs (mk_pair Armed Initialising start_main_loop.start false)); [|reflexivity|by constructor].
  eapply rtc_l; [apply parent_arms|apply rtc_refl].
Defined.

(** A daemon that is faster than its parent ends it by its signal, because the
    handler is not installed yet: the launch fails although the backend serves. *)
Lemma daemon_signal_early :
  rtc step forked (mk_pair Killed Serving loop_done true).
Proof.
  eapply (rtc_subrel timely_step); [by intros ? ? [? _]|].
  etrans; [apply loop_runs|apply (daemon_serves Forked)].
Qed.

(** A path with a blank, which [launch_backend] passes to the shell unquoted,
    becomes two arguments, and the backend only shows its usage. *)
Lemma configure_blank {S} `{HasSys S} getenv host uid daos axl a b (s : S) :
  configure getenv host uid daos axl [a; b; disable_ec] s = (Exit (-1), s).
Proof. done. Qed.
