(* ===== verification/Attach.v ===== *)
(** * Attach: how clients and backends find each other

    The objects that [src/common/ipc_queue.hpp] shares between processes have names:
    [backend_cleanup] removes the names, and the constructors of both sides open
    the object that has the name or create one.  [src/backend/work_queue.cpp] calls
    the one and then the other, in a process that [src/lib/client.cpp] launches, or
    in the process of the client itself.  Each of these calls is a step here, on
    top of the steps of [Backend]. *)

From S2P Require Import Prelude Text Command FileSystem FileUtil Backend.

Local Open Scope nat_scope.

(** ** The shared objects of a node *)

(** The object that a name stands for; [next_object] has not been used.  An object
    whose name is gone stays with those that have it open. *)
Record objects := mk_objects {
  named : gmap string nat;
  next_object : nat
}.

Inductive op := Remove (n : string) | OpenOrCreate (n : string).

(** A sequence of calls: those to come, and the objects that it has got. *)
Record thread := mk_thread {
  todo : list op;
  handle : gmap string nat
}.

(** The next call. *)
Definition exec (o : objects) (t : thread) : option (objects * thread) :=
  match t.(todo) with
  | [] => None
  | Remove n :: l => Some (mk_objects (delete n o.(named)) o.(next_object), mk_thread l t.(handle))
  | OpenOrCreate n :: l =>
      match o.(named) !! n with
      | Some i => Some (o, mk_thread l (<[n := i]> t.(handle)))
      | None =>
          let i := o.(next_object) in
          Some (mk_objects (<[n := i]> o.(named)) (S i), mk_thread l (<[n := i]> t.(handle)))
      end
  end.

Section node.
(** [unique_suffix()] *)
Variable suffix : string.

Definition IPC_BUFFER : string := "veloc-ipc-buffer-" +:+ suffix.
Definition IPC_MUTEX : string := "veloc-ipc-mutex-" +:+ suffix.
Definition IPC_COND : string := "veloc-ipc-cond-" +:+ suffix.
Definition names : list string := [IPC_BUFFER; IPC_MUTEX; IPC_COND].

Definition backend_cleanup : list op := [Remove IPC_BUFFER; Remove IPC_MUTEX; Remove IPC_COND].
Definition comm_backend : list op := [OpenOrCreate IPC_BUFFER; OpenOrCreate IPC_MUTEX; OpenOrCreate IPC_COND].
Definition comm_client : list op := [OpenOrCreate IPC_BUFFER; OpenOrCreate IPC_MUTEX; OpenOrCreate IPC_COND].

(** What the thread of [start_main_loop] does before [init_finished]. *)
Definition init_queue : list op := backend_cleanup ++ comm_backend.

(** ** Asynchronous mode: launched backends and their clients *)

(** [answered] are the backends that found another one running, whose exit status
    is 0. *)
Record world := mk_world {
  the_node : node;
  objs : objects;
  servers : gmap nat thread;
  clients : gmap nat thread;
  answered : gset nat
}.

(** Backend [p] has finished [start_main_loop]. *)
Definition initialised (w : world) (p : nat) : bool :=
  match w.(servers) !! p with Some t => bool_decide (t.(todo) = []) | None => false end.

(** [launch_backend] has returned: the process that it launched has signalled that
    its daemon is initialised, or has found another instance. *)
Definition launch_returned (w : world) (p : nat) : bool :=
  bool_decide (p ∈ w.(answered)) ||
  match w.(the_node).(backends) !! p with
  | Some (Starting _ | Written _ | Running) => initialised w p
  | _ => false
  end.

Inductive event :=
| Act (p : nat) (a : action)        (* [main] of backend [p] *)
| Init (p : nat)                    (* its [start_main_loop], or its [exit_handler] *)
| Attach (c p : nat)                (* client [c], past the launch of [p] *)
| Construct (c : nat).              (* its [comm_client_t] *)

Definition after_check (p : nat) (n : node) (w : world) : world :=
  match n.(backends) !! p with
  | Some (Starting _) => mk_world n w.(objs) (<[p := mk_thread init_queue ∅]> w.(servers)) w.(clients) w.(answered)
  | _ => mk_world n w.(objs) w.(servers) w.(clients) ({[p]} ∪ w.(answered))
  end.

(** The handler of [SIGTERM] is there once [start_main_loop] has returned; it removes
    the names before it exits. *)
Definition happen (e : event) (w : world) : option world :=
  match e with
  | Act p Write =>
      n ← act p Write w.(the_node);
      if initialised w p then Some (mk_world n w.(objs) w.(servers) w.(clients) w.(answered)) else None
  | Act p Check => n ← act p Check w.(the_node); Some (after_check p n w)
  | Act p Sigterm =>
      n ← act p Sigterm w.(the_node);
      if initialised w p then
        Some (mk_world n w.(objs) (<[p := mk_thread backend_cleanup ∅]> w.(servers)) w.(clients) w.(answered))
      else None
  | Act p Exit_ =>
      n ← act p Exit_ w.(the_node);
      if initialised w p then Some (mk_world n w.(objs) w.(servers) w.(clients) w.(answered)) else None
  | Act p a => n ← act p a w.(the_node); Some (mk_world n w.(objs) w.(servers) w.(clients) w.(answered))
  | Init p =>
      match w.(the_node).(backends) !! p, w.(servers) !! p with
      | Some (Starting _ | Terminating), Some t =>
          '(o, t') ← exec w.(objs) t;
          Some (mk_world w.(the_node) o (<[p := t']> w.(servers)) w.(clients) w.(answered))
      | _, _ => None
      end
  | Attach c p =>
      match w.(clients) !! c with
      | None => if launch_returned w p
                then Some (mk_world w.(the_node) w.(objs) w.(servers)
                             (<[c := mk_thread comm_client ∅]> w.(clients)) w.(answered))
                else None
      | Some _ => None
      end
  | Construct c =>
      t ← w.(clients) !! c;
      '(o, t') ← exec w.(objs) t;
      Some (mk_world w.(the_node) o w.(servers) (<[c := t']> w.(clients)) w.(answered))
  end.

Definition initial : world := mk_world Backend.start (mk_objects ∅ 0) ∅ ∅ ∅.

Inductive happened (acts : event → Prop) : world → Prop :=
| happened_start : happened acts initial
| happened_event e w w' : happened acts w → acts e → happen e w = Some w' → happened acts w'.

(** No backend dies or is told to terminate. *)
Definition undisturbed (e : event) : Prop :=
  match e with Act _ (Die | Sigterm) => False | _ => True end.

(** ** All processes of a node share the queue *)

(** The removals of a thread come before it has opened anything; what it has opened
    still has its name; and it gets all the objects. *)
Record thread_ok (o : objects) (t : thread) : Prop := {
  ok_todo : ∃ rs os, t.(todo) = (Remove <$> rs) ++ (OpenOrCreate <$> os) ∧ (rs ≠ [] → t.(handle) = ∅);
  ok_sound : t.(handle) ⊆ o.(named);
  ok_complete n : n ∈ names → is_Some (t.(handle) !! n) ∨ OpenOrCreate n ∈ t.(todo);
  ok_only n i : t.(handle) !! n = Some i → n ∈ names;
  ok_names n : OpenOrCreate n ∈ t.(todo) → n ∈ names
}.

Definition removes (t : thread) : Prop := ∃ n l, t.(todo) = Remove n :: l.

(** Some backend is ready to serve. *)
Definition serving (w : world) : Prop :=
  ∃ p s t, w.(the_node).(backends) !! p = Some s ∧ active s = true ∧ w.(servers) !! p = Some t ∧ t.(todo) = [].

Record world_inv (w : world) : Prop := {
  wi_node : node_inv w.(the_node);
  wi_pid i q : w.(the_node).(pid_in) !! i = Some q →
    ∃ s, w.(the_node).(backends) !! q = Some s ∧ (s = Running ∨ ∃ j, s = Written j);
  wi_server p s : w.(the_node).(backends) !! p = Some s → active s = true →
    ∃ t, w.(servers) !! p = Some t ∧ thread_ok w.(objs) t ∧ ((∀ i, s ≠ Starting i) → t.(todo) = []);
  wi_client c t : w.(clients) !! c = Some t → serving w ∧ thread_ok w.(objs) t ∧ ¬ removes t;
  wi_answered p : p ∈ w.(answered) → serving w
}.

Lemma exec_ok o t o' t' : thread_ok o t → exec o t = Some (o', t') → thread_ok o' t'.
Proof.
  intros [(rs & os & Htodo & Hrs) Hs Hc Ho Hn] He. destruct t as [td h]. simpl in *. unfold exec in He. simpl in He.
  destruct rs as [|r rs].
  - destruct os as [|n os]; simpl in Htodo; subst td; [done|]. simpl in *.
    assert (n ∈ names) as Hin by (apply Hn; left).
    assert (∃ i, named o' !! n = Some i ∧ t' = mk_thread (OpenOrCreate <$> os) (<[n := i]> h) ∧ h ⊆ named o')
      as (i & Hi & -> & Hsub).
    { destruct (named o !! n) as [i|] eqn:E; simplify_eq/=; [by exists i|].
      exists (next_object o). rewrite lookup_insert_eq. split_and!; [done..|].
      etrans; [exact Hs|]. by apply insert_subseteq. }
    split; simpl.
    + by exists [], os.
    + by apply insert_subseteq_l.
    + intros m Hm. rewrite lookup_insert. case_decide; [left; eauto|].
      destruct (Hc m Hm) as [Hl|Hl]; [by left|]. apply elem_of_cons in Hl as [[= ->]|]; [done|by right].
    + intros m j. rewrite lookup_insert. case_decide; [intros; by subst|apply Ho].
    + intros m Hm. apply Hn. by right.
  - simpl in Htodo. subst td. simplify_eq/=. rewrite Hrs in * by done. split; simpl; try done.
    + by exists rs, os.
    + apply map_empty_subseteq.
    + intros m Hm. destruct (Hc m Hm) as [[? Hl]|Hl]; [by rewrite lookup_empty in Hl|].
      apply elem_of_cons in Hl as [|]; [done|by right].
    + intros m Hm. apply Hn. by right.
Qed.

(** A thread that opens objects takes no name away. *)
Lemma exec_other o t o' t' u : exec o t = Some (o', t') → ¬ removes t → thread_ok o u → thread_ok o' u.
Proof.
  intros He Hr [Ht Hs Hc Ho Hn]. split; try done. etrans; [exact Hs|].
  unfold exec, removes in *. destruct (todo t) as [|[n|n] l]; [done|by exfalso; eauto|].
  destruct (named o !! n) eqn:E; simplify_eq/=; [done|]. by apply insert_subseteq.
Qed.

Lemma exec_removes o t o' t' : thread_ok o t → exec o t = Some (o', t') → ¬ removes t → ¬ removes t'.
Proof.
  intros [(rs & os & Htodo & _) _ _ _ _] He Hr. unfold exec, removes in *. destruct rs as [|r rs].
  - intros (m & l & Hl). destruct os as [|n os]; rewrite Htodo in He; simpl in He; [done|].
    assert (todo t' = OpenOrCreate <$> os) as E by (destruct (named o !! n); by simplify_eq/=).
    rewrite E in Hl. by destruct os.
  - exfalso. apply Hr. rewrite Htodo. simpl. eauto.
Qed.

Lemma init_queue_ok o : thread_ok o (mk_thread init_queue ∅).
Proof.
  split; simpl.
  - by exists names, names.
  - apply map_empty_subseteq.
  - unfold names. set_solver.
  - intros n i. by rewrite lookup_empty.
  - unfold init_queue, backend_cleanup, comm_backend, names. set_solver.
Qed.

Lemma comm_client_ok o : thread_ok o (mk_thread comm_client ∅) ∧ ¬ removes (mk_thread comm_client ∅).
Proof.
  split; [|by intros (? & ? & ?)]. split; simpl.
  - by exists [], names.
  - apply map_empty_subseteq.
  - unfold names, comm_client. set_solver.
  - intros n i. by rewrite lookup_empty.
  - unfold comm_client, names. set_solver.
Qed.

Definition settled (s : pc) : bool := match s with Written _ | Running => true | _ => false end.

(** What a step of [main] does to the places of the backends, when none dies. *)
Lemma act_forward p a n n' q s :
  undisturbed (Act p a) → act p a n = Some n' → n.(backends) !! q = Some s →
  ∃ s', n'.(backends) !! q = Some s' ∧ (active s = true → active s' = true) ∧ (settled s = true → settled s' = true).
Proof.
  intros Hu Ha Hq. destruct (decide (p = q)) as [->|Hne].
  - destruct a; try done; unfold act in Ha; rewrite Hq in Ha; destruct s; try done; repeat case_match; simplify_eq/=;
      rewrite ?lookup_insert_eq; eauto.
  - exists s. split; [|done]. unfold act in Ha.
    destruct a, (backends n !! p) as [[]|]; try done; repeat case_match; simplify_eq/=; by rewrite lookup_insert_ne.
Qed.

Lemma act_backward p a n n' q s' :
  act p a n = Some n' → n'.(backends) !! q = Some s' → active s' = true →
  (q = p ∧ a = Check ∧ ∃ i, s' = Starting i) ∨
  (∃ s, n.(backends) !! q = Some s ∧ active s = true ∧
     (settled s' = true → settled s = true ∨ (a = Write ∧ q = p))).
Proof.
  intros Ha Hq Hs. destruct (decide (p = q)) as [->|Hne].
  - unfold act in Ha. destruct a, (backends n !! q) as [[]|]; try done; repeat case_match; simplify_eq/=;
      rewrite lookup_insert_eq in Hq; simplify_eq/=; eauto; right; eexists; split_and!; eauto.
  - right. exists s'. split; [|by auto]. unfold act in Ha.
    destruct a, (backends n !! p) as [[]|]; try done; repeat case_match; simplify_eq/=;
      by rewrite lookup_insert_ne in Hq.
Qed.

Lemma act_pid p a n n' i q :
  act p a n = Some n' → n'.(pid_in) !! i = Some q →
  n.(pid_in) !! i = Some q ∨ n'.(backends) !! q = Some (Written i).
Proof.
  intros Ha Hi. unfold act in Ha. destruct a, (backends n !! p) as [[]|]; try done; repeat case_match;
    simplify_eq/=; try by left. rewrite lookup_insert in Hi. case_decide; simplify_eq; [|by left].
  right. by rewrite lookup_insert_eq.
Qed.

Lemma settled_active s : settled s = true → active s = true.
Proof. by destruct s. Qed.

Lemma settled_starting s : active s = true → (∀ i, s ≠ Starting i) → settled s = true.
Proof. destruct s; naive_solver. Qed.

Lemma initialised_todo w p : initialised w p = true ↔ ∃ t, w.(servers) !! p = Some t ∧ t.(todo) = [].
Proof. unfold initialised. destruct (servers w !! p); [rewrite bool_decide_eq_true|]; naive_solver. Qed.

(** [servers'] has the threads of the backends that have come to [start_main_loop]. *)
Lemma inv_act p a w n' servers' answered' :
  undisturbed (Act p a) → world_inv w → act p a w.(the_node) = Some n' →
  (a = Write → initialised w p = true) →
  (∀ q s, w.(the_node).(backends) !! q = Some s → active s = true → servers' !! q = w.(servers) !! q) →
  (a = Check → ∀ i, n'.(backends) !! p = Some (Starting i) → servers' !! p = Some (mk_thread init_queue ∅)) →
  (∀ q, q ∈ answered' → q ∈ w.(answered) ∨ serving w) →
  world_inv (mk_world n' w.(objs) servers' w.(clients) answered').
Proof.
  intros Hu [Hn Hpid Hserver Hclient Hanswered] Ha Hw Hother Hnew Hans.
  assert (serving w → serving (mk_world n' (objs w) servers' (clients w) answered')) as Hserving.
  { intros (q & s & t & Hq & Hs & Ht & Htd). destruct (act_forward _ _ _ _ _ _ Hu Ha Hq) as (s' & Hs' & Hact & _).
    exists q, s', t. simpl. rewrite (Hother q s Hq Hs). auto. }
  split; simpl.
  - eapply act_inv; [|done..]. by intros ->.
  - intros i q Hi. destruct (act_pid _ _ _ _ _ _ Ha Hi) as [Hold|Hw']; [|by eauto].
    destruct (Hpid i q Hold) as (s & Hq & Hs). destruct (act_forward _ _ _ _ _ _ Hu Ha Hq) as (s' & Hs' & _ & Hset).
    exists s'. split; [done|]. assert (settled s' = true) as H by (apply Hset; destruct Hs as [->|[j ->]]; done).
    destruct s'; naive_solver.
  - intros q s' Hq Hs'. destruct (act_backward _ _ _ _ _ _ Ha Hq Hs') as [(-> & -> & i & ->)|(s & Hs & Hact & Hset)].
    + exists (mk_thread init_queue ∅). split; [by eapply Hnew|]. split; [apply init_queue_ok|]. naive_solver.
    + destruct (Hserver q s Hs Hact) as (t & Ht & Hok & Htd). exists t. rewrite (Hother q s Hs Hact).
      split_and!; [done..|]. intros Hns. destruct (Hset (settled_starting _ Hs' Hns)) as [H|[-> ->]].
      * apply Htd. by intros i ->.
      * destruct (proj1 (initialised_todo w p) (Hw eq_refl)) as (t' & Ht' & Htd'). by simplify_eq.
  - intros c t Hc. destruct (Hclient c t Hc) as (H1 & H2 & H3). auto.
  - intros q Hq. destruct (Hans q Hq) as [H|H]; [|by auto]. apply Hserving. by eapply Hanswered.
Qed.

(** A backend that finds another one alive: that one serves. *)
Lemma check_serving p w n' :
  world_inv w → act p Check w.(the_node) = Some n' → (∀ i, n'.(backends) !! p ≠ Some (Starting i)) → serving w.
Proof.
  intros [Hn Hpid Hserver _ _] Ha Hns. unfold act in Ha. destruct (backends (the_node w) !! p) as [[]|]; try done.
  destruct (pid_in (the_node w) !! i) as [q|] eqn:Hi; simplify_eq/=; [|by edestruct Hns; rewrite lookup_insert_eq].
  destruct (alive (the_node w) q); simplify_eq/=; [|by edestruct Hns; rewrite lookup_insert_eq].
  destruct (Hpid i q Hi) as (s & Hq & Hs).
  assert (active s = true ∧ ∀ j, s ≠ Starting j) as [Hact Hst] by (destruct Hs as [->|[? ->]]; done).
  destruct (Hserver q s Hq Hact) as (t & Ht & _ & Htd). exists q, s, t. auto.
Qed.

Lemma act_check_fresh p w n' q s :
  act p Check w.(the_node) = Some n' → w.(the_node).(backends) !! q = Some s → active s = true → q ≠ p.
Proof. unfold act. intros Ha Hq Hs ->. rewrite Hq in Ha. by destruct s. Qed.

Lemma inv_init p w w' : world_inv w → happen (Init p) w = Some w' → world_inv w'.
Proof.
  intros [Hn Hpid Hserver Hclient Hanswered] He. simpl in He.
  destruct (backends (the_node w) !! p) as [[]|] eqn:Hp; try done; [|by apply (inv_terminating _ Hn) in Hp].
  destruct (Hserver p _ Hp eq_refl) as (t & Ht & Hok & _). rewrite Ht in He.
  destruct (exec (objs w) t) as [[o t']|] eqn:Hx; simplify_eq/=.
  assert (¬ serving w) as Hnot.
  { intros (q & s & u & Hq & Hs & Hu & Htd). pose proof (active_unique _ _ _ _ _ Hn Hp eq_refl Hq Hs). subst q.
    simplify_eq. unfold exec in Hx. by rewrite Htd in Hx. }
  split; simpl; try done.
  - intros q s Hq Hs. pose proof (active_unique _ _ _ _ _ Hn Hp eq_refl Hq Hs). subst q. simplify_eq.
    exists t'. rewrite lookup_insert_eq. split_and!; [done|by eapply exec_ok|naive_solver].
  - intros c u Hc. by destruct (Hclient c u Hc).
  - intros q Hq. by destruct Hnot; eapply Hanswered.
Qed.

Lemma inv_construct c w w' : world_inv w → happen (Construct c) w = Some w' → world_inv w'.
Proof.
  intros [Hn Hpid Hserver Hclient Hanswered] He. simpl in He.
  destruct (clients w !! c) as [t|] eqn:Hc; simplify_eq/=.
  destruct (exec (objs w) t) as [[o t']|] eqn:Hx; simplify_eq/=.
  destruct (Hclient c t Hc) as (Hserving & Hok & Hr). split; simpl; try done.
  - intros p s Hp Hs. destruct (Hserver p s Hp Hs) as (u & Hu & Huok & Htd). exists u.
    split_and!; [done|by eapply exec_other|done].
  - intros d u. rewrite lookup_insert. case_decide; intros Hd; simplify_eq.
    + split_and!; [done|by eapply exec_ok|by eapply exec_removes].
    + destruct (Hclient d u Hd) as (_ & Huok & Hur). split_and!; [done|by eapply exec_other|done].
Qed.

Lemma inv_attach c p w w' : world_inv w → happen (Attach c p) w = Some w' → world_inv w'.
Proof.
  intros [Hn Hpid Hserver Hclient Hanswered] He. simpl in He. destruct (clients w !! c) eqn:Hc; [done|].
  destruct (launch_returned w p) eqn:Hl; simplify_eq/=.
  assert (serving w) as Hserving.
  { unfold launch_returned in Hl. apply orb_true_iff in Hl as [Hin%bool_decide_eq_true|Hl]; [by eapply Hanswered|].
    destruct (backends (the_node w) !! p) as [s|] eqn:Hp; [|done].
    assert (active s = true ∧ initialised w p = true) as [Hs (t & Ht & Htd)%initialised_todo] by by destruct s.
    exists p, s, t. auto. }
  split; simpl; try done. intros d t. rewrite lookup_insert. case_decide; intros Hd; simplify_eq; [|by eapply Hclient].
  split; [done|apply comm_client_ok].
Qed.

Lemma inv_check p w n' : world_inv w → act p Check w.(the_node) = Some n' → world_inv (after_check p n' w).
Proof.
  intros Hw Ha. unfold after_check.
  assert ((∀ i, backends n' !! p ≠ Some (Starting i)) →
    world_inv (mk_world n' (objs w) (servers w) (clients w) ({[p]} ∪ answered w))) as Hgone.
  { intros Hns. apply (inv_act p Check w); try done; [naive_solver|].
    intros q _. right. by eapply check_serving. }
  destruct (backends n' !! p) as [[]|] eqn:Hp; try (apply Hgone; naive_solver).
  apply (inv_act p Check w); try done.
  - intros q s Hq Hs. rewrite lookup_insert_ne; [done|]. apply not_eq_sym. by eapply act_check_fresh.
  - intros _ j _. by rewrite lookup_insert_eq.
  - auto.
Qed.

Lemma inv_happen e w w' : undisturbed e → world_inv w → happen e w = Some w' → world_inv w'.
Proof.
  intros Hu Hw He. destruct e as [p a|p|c p|c]; [|by eapply inv_init|by eapply inv_attach|by eapply inv_construct].
  assert (∃ n', act p a (the_node w) = Some n') as [n' Ha].
  { destruct (act p a (the_node w)) as [n'|] eqn:Ha; [by exists n'|].
    destruct a; cbn [happen] in He; rewrite Ha in He; done. }
  destruct a; try done; cbn [happen] in He; rewrite Ha in He; cbn in He; try (simplify_eq; by apply inv_check);
    try (simplify_eq; by apply (inv_act p _ w n' (servers w) (answered w) Hu Hw Ha); auto).
  all: destruct (initialised w p) eqn:Hi; simplify_eq; by apply (inv_act p _ w n' (servers w) (answered w) Hu Hw Ha); auto.
Qed.

Lemma inv_happened w : happened undisturbed w → world_inv w.
Proof.
  induction 1 as [|e w w' _ IH He Hh]; [|by eapply inv_happen].
  split; [apply start_inv|intros *; simpl; rewrite ?lookup_empty; set_solver..].
Qed.

(** C23: in asynchronous mode clients and backend find each other.  However many
    clients start at once, each launching a backend, and however the steps of these
    processes interleave, a client that has been constructed shares the segment, the
    mutex and the condition with a backend that serves (there is at most one), as
    long as no backend dies or is told to terminate. *)
Theorem attach_same_queue (w : world) (c : nat) (t : thread) :
  happened undisturbed w → w.(clients) !! c = Some t → t.(todo) = [] →
  ∃ p s u, w.(the_node).(backends) !! p = Some s ∧ active s = true ∧ w.(servers) !! p = Some u ∧
    u.(todo) = [] ∧ t.(handle) = u.(handle) ∧ Forall (λ n, is_Some (t.(handle) !! n)) names.
Proof.
  intros Hw Hc Ht. apply inv_happened in Hw as [Hn _ Hserver Hclient _].
  destruct (Hclient c t Hc) as ((p & s & u & Hp & Hs & Hu & Htd) & Hok & _).
  destruct (Hserver p s Hp Hs) as (u' & Hu' & Huok & _). simplify_eq.
  assert (∀ x, thread_ok (objs w) x → todo x = [] → ∀ n, handle x !! n = if decide (n ∈ names) then named (objs w) !! n else None)
    as Hall.
  { intros x Hx Hd n. case_decide as Hin.
    - destruct (ok_complete _ _ Hx n Hin) as [[i Hi]|H]; [|rewrite Hd in H; by apply elem_of_nil in H].
      rewrite Hi. symmetry. eapply lookup_weaken; [exact Hi|apply (ok_sound _ _ Hx)].
    - destruct (handle x !! n) eqn:Hi; [|done]. by apply (ok_only _ _ Hx) in Hi. }
  exists p, s, u. split_and!; try done.
  - apply map_eq. intros n. by rewrite (Hall t), (Hall u).
  - apply Forall_forall. intros n Hin. destruct (ok_complete _ _ Hok n Hin) as [|H]; [done|].
    rewrite Ht in H. by apply elem_of_nil in H.
Qed.

Definition run_events (l : list event) (w : world) : option world :=
  foldl (λ w e, w ≫= happen e) (Some w) l.

Lemma run_events_happened acts l w w' :
  happened acts w → Forall acts l → run_events l w = Some w' → happened acts w'.
Proof.
  revert w. induction l as [|e l IH]; intros w Hw Hl; unfold run_events; simpl; [by intros [= <-]|].
  apply Forall_cons in Hl as [He Hl]. destruct (happen e w) as [w1|] eqn:E.
  - apply IH; [|done]. by eapply happened_event.
  - assert (∀ k, foldl (λ w e, w ≫= happen e) (None : option world) k = None) as -> by (by induction k). done.
Qed.

(** ** Synchronous mode: every process has its own backend *)

(** A process: the thread of its [start_main_loop], for which the constructor of
    [client_impl_t] waits, and then its client. *)
Record process := mk_process {
  worker : thread;
  own_client : thread
}.

Definition sync_start : process := mk_process (mk_thread init_queue ∅) (mk_thread comm_client ∅).

Definition sync_step (p : nat) (x : objects * gmap nat process) : option (objects * gmap nat process) :=
  let '(o, ps) := x in
  q ← ps !! p;
  match q.(worker).(todo) with
  | [] => '(o', t) ← exec o q.(own_client); Some (o', <[p := mk_process q.(worker) t]> ps)
  | _ => '(o', t) ← exec o q.(worker); Some (o', <[p := mk_process t q.(own_client)]> ps)
  end.

Definition sync_run (l : list nat) (x : objects * gmap nat process) : option (objects * gmap nat process) :=
  foldl (λ x p, x ≫= sync_step p) (Some x) l.

End node.

(** ** Two clients that start together *)

Definition demo_suffix : string := "node-0".

(** Client 10 goes on as soon as its backend has signalled; client 11 launches one
    that finds the first. *)
Definition demo_start : list event :=
  (Act 1 <$> [Launch; Open; Lock]) ++ (Act 2 <$> [Launch; Open]) ++ [Act 1 Check] ++ replicate 6 (Init 1) ++
  [Attach 10 1; Construct 10; Act 1 Write; Act 1 Unlock] ++ (Act 2 <$> [Lock; Check]) ++
  [Attach 11 2] ++ replicate 3 (Construct 11) ++ replicate 2 (Construct 10).

Lemma attach_same_queue_witness :
  ∃ w t10 t11, run_events demo_suffix demo_start initial = Some w ∧
    w.(clients) !! 10 = Some t10 ∧ w.(clients) !! 11 = Some t11 ∧
    ∃ p s u, w.(the_node).(backends) !! p = Some s ∧ active s = true ∧ w.(servers) !! p = Some u ∧ u.(todo) = [] ∧
      t11.(handle) = u.(handle) ∧ Forall (λ n, is_Some (t11.(handle) !! n)) (names demo_suffix).
Proof.
  set (w := default initial (run_events demo_suffix demo_start initial)).
  set (client c := default (mk_thread [] ∅) (w.(clients) !! c)).
  assert (run_events demo_suffix demo_start initial = Some w) as Hw by (vm_compute; reflexivity).
  assert (w.(clients) !! 11 = Some (client 11)) as Hc by (vm_compute; reflexivity).
  exists w, (client 10), (client 11). split; [exact Hw|]. split; [vm_compute; reflexivity|]. split; [exact Hc|].
  refine (attach_same_queue demo_suffix w 11 (client 11) _ Hc _); [|vm_compute; reflexivity].
  apply (run_events_happened demo_suffix _ demo_start initial);
    [apply happened_start|repeat (constructor; [exact I|]); constructor|exact Hw].
Defined.

(** ** What is lost when a backend is replaced *)

Definition demo_restart : list event :=
  demo_start ++ [Act 1 Die] ++ (Act 3 <$> [Launch; Open; Lock; Check]) ++ replicate 6 (Init 3) ++
  (Act 3 <$> [Write; Unlock]).
Definition demo_restarted : world := default initial (run_events demo_suffix demo_restart initial).

(** A backend that dies is replaced at the next launch, and the new one makes new
    objects.  A client that was attached before keeps the old ones: none of them
    belongs to a backend that is alive, and what it enqueues is never served. *)
Theorem attach_orphaned :
  ∃ w t u, happened demo_suffix (λ e, ∀ p, e ≠ Act p Sigterm) w ∧
    w.(clients) !! 10 = Some t ∧ t.(todo) = [] ∧ w.(servers) !! 3 = Some u ∧
    map_Forall (λ p s, active s = true → p = 3) w.(the_node).(backends) ∧
    w.(the_node).(backends) !! 3 = Some Running ∧
    Forall (λ n, is_Some (t.(handle) !! n) ∧ t.(handle) !! n ≠ u.(handle) !! n) (names demo_suffix).
Proof.
  exists demo_restarted, (default (mk_thread [] ∅) (demo_restarted.(clients) !! 10)),
    (default (mk_thread [] ∅) (demo_restarted.(servers) !! 3)).
  split_and!; try (vm_compute; reflexivity).
  - eapply (run_events_happened demo_suffix _ demo_restart initial);
      [apply happened_start|repeat (constructor; [discriminate|]); constructor|vm_compute; reflexivity].
  - apply (bool_decide_unpack _). vm_compute. exact I.
  - apply (bool_decide_unpack _). vm_compute. exact I.
Qed.

(** The client of [p1] and the backend of [p2] share the queue, and the backend of
    [p1] has another one. *)
Definition crossed (p1 p2 : process) : Prop :=
  p1.(own_client).(todo) = [] ∧ p1.(own_client).(handle) = p2.(worker).(handle) ∧
  p2.(own_client).(handle) = p2.(worker).(handle) ∧
  Forall (λ n, p1.(own_client).(handle) !! n ≠ p1.(worker).(handle) !! n) (names demo_suffix).
Global Instance crossed_dec p1 p2 : Decision (crossed p1 p2).
Proof. unfold crossed. apply _. Defined.

Lemma crossed_check (x : option (objects * gmap nat process)) :
  match x with
  | Some (_, ps) => match ps !! 1, ps !! 2 with Some p1, Some p2 => bool_decide (crossed p1 p2) | _, _ => false end
  | None => false
  end = true →
  ∃ o ps p1 p2, x = Some (o, ps) ∧ ps !! 1 = Some p1 ∧ ps !! 2 = Some p2 ∧ crossed p1 p2.
Proof.
  destruct x as [[o ps]|]; [|done]. destruct (ps !! 1) as [p1|] eqn:H1, (ps !! 2) as [p2|] eqn:H2; try done.
  intros H%bool_decide_eq_true. by exists o, ps, p1, p2.
Qed.

(** Two processes of a node in synchronous mode use the same names, and each of
    them removes them when it starts.  When the second starts between the backend
    and the client of the first, the client of the first is attached to the queue of
    the second process, and its own backend has no clients. *)
Theorem sync_processes_cross :
  ∃ l o ps p1 p2,
    sync_run l (mk_objects ∅ 0, {[ 1 := sync_start demo_suffix; 2 := sync_start demo_suffix ]}) = Some (o, ps) ∧
    ps !! 1 = Some p1 ∧ ps !! 2 = Some p2 ∧ crossed p1 p2.
Proof.
  exists (replicate 6 1 ++ replicate 6 2 ++ replicate 3 1 ++ replicate 3 2).
  apply crossed_check. vm_compute. reflexivity.
Qed.
