(* ===== verification/Cache.v ===== *)
(** * Cache: [src/lib/posix_cache.cpp], [include/veloc/cache.hpp]

    Cached files: writes go to a local file at once, and a background thread
    copies the ranges written to the remote file later.  The state is the file
    system, the shared [static_context] and the command the thread works on.  An
    operation that waits for a condition is a function to [option]: [None] is a
    state in which it still waits.  The copy of a range is one step of the thread. *)

From S2P Require Import Prelude Text FileSystem FileUtil.

Local Open Scope Z_scope.

Module async_command_t.

Record t := mk {
  op : Z;
  fl : string;
  fr : string;
  offset : Z;
  size : Z
}.

Definition WRITE : Z := 1.
Definition CLOSE : Z := 2.

End async_command_t.
Import async_command_t.

Record async_context_t := mk_context {
  MAX_QUEUE_SIZE : Z;
  async_op_size : Z;
  async_op_queue : list async_command_t.t;
  started : bool;
  finished : bool;
  fail_status : bool
}.

Definition DEFAULT_QUEUE_SIZE : Z := Z.shiftl 1 16.

(** [cmd] is the local variable of the thread. *)
Record cache := mk_cache {
  c_sys : sys;
  context : async_context_t;
  cmd : option async_command_t.t
}.

Definition set_context (c : cache) (x : async_context_t) : cache := mk_cache c.(c_sys) x c.(cmd).

(** ** The background thread *)

(** The first half of an iteration of [async_write]: take a command. *)
Definition async_take (c : cache) : option cache :=
  let x := c.(context) in
  match c.(cmd), x.(async_op_queue) with
  | None, q :: queue =>
      Some (mk_cache c.(c_sys)
        (mk_context x.(MAX_QUEUE_SIZE) x.(async_op_size) queue x.(started) x.(finished) x.(fail_status))
        (Some q))
  | _, _ => None
  end.

(** The second half: execute it. *)
Definition async_execute : comp cache unit := λ c,
  let x := c.(context) in
  match c.(cmd) with
  | None => (Val tt, c)
  | Some q =>
      if q.(op) =? CLOSE then (Val tt, mk_cache c.(c_sys) x None)
      else if q.(op) =? WRITE then
        let '(o, s) := file_transfer_loop q.(fl) q.(offset) q.(fr) q.(offset) q.(size) c.(c_sys) in
        match o with
        | Val result =>
            (Val tt, mk_cache s
              (mk_context x.(MAX_QUEUE_SIZE) (u64 (x.(async_op_size) - q.(size))) x.(async_op_queue)
                 x.(started) x.(finished) (x.(fail_status) || result)) None)
        | Raise e => (Raise e, mk_cache s x c.(cmd))
        | Exit n => (Exit n, mk_cache s x c.(cmd))
        | Hang => (Hang, mk_cache s x c.(cmd))
        | Undef => (Undef, mk_cache s x c.(cmd))
        end
      else (FATAL, c)
  end.

Definition send_command (q : async_command_t.t) (c : cache) : option cache :=
  let x := c.(context) in
  if x.(finished) then Some c
  else if x.(MAX_QUEUE_SIZE) <? u64 (x.(async_op_size) + q.(size)) then None
  else Some (set_context c
    (mk_context x.(MAX_QUEUE_SIZE) (u64 (x.(async_op_size) + q.(size))) (x.(async_op_queue) ++ [q])
       x.(started) x.(finished) x.(fail_status))).

(** ** Files *)

Module posix_cached_file_t.

(** [fl] and [fr] are -1 ([None]) while no file is open. *)
Record t := mk {
  scratch : string;
  fl : option string;
  fr : option string
}.

(** The constructor; [cache_size] is what [VELOC_POSIX_CACHE_SIZE] holds, when it
    is a number. *)
Definition make (scratch_path : string) (cache_size : option Z) : comp cache t := λ c,
  let '(ok, s) := check_dir scratch_path c.(c_sys) in
  match ok with
  | Val true =>
      let x := c.(context) in
      (Val (mk scratch_path None None),
       mk_cache s (mk_context (default DEFAULT_QUEUE_SIZE cache_size) x.(async_op_size) x.(async_op_queue)
                     true x.(finished) x.(fail_status)) c.(cmd))
  | _ => (FATAL, mk_cache s c.(context) c.(cmd))
  end.

(** [open_remote] is [::open(fname, flags, mode)].  A failure leaves what has been
    opened before. *)
Definition open (fname : string) (open_remote : string → posix (option string)) :
    comp (sys * t) bool := λ '(s, f),
  match f.(fl), f.(fr) with
  | None, None =>
      match open_wr false (f.(scratch) +:+ "/" +:+ basename fname) s with
      | (Val None, s1) => (Val false, (s1, f))
      | (Val (Some l), s1) =>
          match open_remote fname s1 with
          | (Val None, s2) => (Val false, (s2, mk f.(scratch) (Some l) None))
          | (Val (Some r), s2) => (Val true, (s2, mk f.(scratch) (Some l) (Some r)))
          | (_, s2) => (Undef, (s2, f))
          end
      | (_, s1) => (Undef, (s1, f))
      end
  | _, _ => (Val false, (s, f))
  end.

(** The loop of [pread]: every read stores its bytes at the start of the buffer. *)
Fixpoint read_loop (fuel : nat) (fd : string) (buf : list byte) (count offset : Z) :
    posix (option (list byte)) :=
  if count <=? 0 then mret (Some buf) else
  match fuel with
  | O => stop Hang
  | S fuel =>
      r ← FileSystem.pread fd count offset;
      match r with
      | None | Some [] => mret None
      | Some bs => read_loop fuel fd (bs ++ zdrop (zlen bs) buf) (count - zlen bs) (offset + zlen bs)
      end
  end.

Definition pread (f : t) (buf : list byte) (count offset : Z) : posix (option (list byte)) :=
  match f.(fl), f.(fr) with
  | Some _, Some r => read_loop (Z.to_nat count) r buf count offset
  | _, _ => mret None
  end.

(** The loop of [pwrite]: every write takes its bytes from the start of the
    buffer. *)
Fixpoint write_loop (fuel : nat) (fd : string) (buf : list byte) (count off : Z) : posix bool :=
  if count <=? 0 then mret true else
  match fuel with
  | O => stop Hang
  | S fuel =>
      br ← FileSystem.pwrite fd (ztake count buf) off;
      match br with
      | None => mret false
      | Some br => write_loop fuel fd buf (count - br) (off + br)
      end
  end.

(** The part of [pwrite] before the command is sent, and that command. *)
Definition pwrite (f : t) (buf : list byte) (offset : Z) : posix (option async_command_t.t) :=
  match f.(fl), f.(fr) with
  | Some l, Some r =>
      let size := zlen buf in
      ok ← write_loop (Z.to_nat size) l buf size offset;
      mret (if (ok : bool) then Some (async_command_t.mk WRITE l r offset size) else None)
  | _, _ => mret None
  end.

(** The command that [close] sends, and the object afterwards. *)
Definition close (f : t) : option async_command_t.t * t :=
  match f.(fl), f.(fr) with
  | Some l, Some r => (Some (async_command_t.mk CLOSE l r 0 0), mk f.(scratch) None None)
  | _, _ => (None, f)
  end.

End posix_cached_file_t.

(** ** [cached_file_t] *)

Definition flush (c : cache) : option (bool * cache) :=
  let x := c.(context) in
  match x.(async_op_queue) with
  | [] => Some (negb x.(fail_status),
            set_context c (mk_context x.(MAX_QUEUE_SIZE) x.(async_op_size) [] x.(started) x.(finished) false))
  | _ => None
  end.

Definition shutdown (c : cache) : cache :=
  let x := c.(context) in
  set_context c (mk_context x.(MAX_QUEUE_SIZE) x.(async_op_size) x.(async_op_queue) x.(started) true x.(fail_status)).

(** ** Write-back *)

(** A client that writes to one file while the thread runs: what the client still
    has to send is the second component. *)
Inductive event :=
| Write (offset : Z) (buf : list byte)
| Send
| Take
| Execute.

Definition event_step (f : posix_cached_file_t.t) (e : event) (st : cache * option async_command_t.t) :
    option (cache * option async_command_t.t) :=
  let '(c, sending) := st in
  match e, sending with
  | Write offset buf, None =>
      match posix_cached_file_t.pwrite f buf offset c.(c_sys) with
      | (Val (Some q), s) => Some (mk_cache s c.(context) c.(cmd), Some q)
      | _ => None
      end
  | Send, Some q => (λ c, (c, None)) <$> send_command q c
  | Take, _ => (λ c, (c, sending)) <$> async_take c
  | Execute, _ =>
      match c.(cmd), async_execute c with
      | Some _, (Val _, c') => Some (c', sending)
      | _, _ => None
      end
  | _, _ => None
  end.

Fixpoint run_events (f : posix_cached_file_t.t) (l : list event) st :
    option (cache * option async_command_t.t) :=
  match l with
  | [] => Some st
  | e :: l => event_step f e st ≫= run_events f l
  end.

(** The writes of a schedule, and their effect on a file. *)
Definition writes (l : list event) : list (Z * list byte) :=
  omap (λ e, match e with Write offset buf => Some (offset, buf) | _ => None end) l.

Definition write_all (w : list (Z * list byte)) (d : list byte) : list byte :=
  foldl (λ d e, splice e.1 e.2 d) d w.

Definition write_ok (e : event) : Prop :=
  match e with Write offset buf => 0 ≤ offset ∧ offset + zlen buf ≤ LONG_MAX | _ => True end.

(** Position [i] is in the range. *)
Definition in_range (off n : Z) (i : nat) : Prop := off ≤ Z.of_nat i < off + n.

Definition covered (w : list (Z * list byte)) (i : nat) : Prop :=
  ∃ off buf, (off, buf) ∈ w ∧ in_range off (zlen buf) i.

(** The commands that are still to be executed. *)
Definition pending (st : cache * option async_command_t.t) : list async_command_t.t :=
  option_list st.1.(cmd) ++ st.1.(context).(async_op_queue) ++ option_list st.2.

Section write_back.
Variables (scratch l r : string).
Hypothesis l_r : l ≠ r.

Abbreviation the_file := (posix_cached_file_t.mk scratch (Some l) (Some r)).

(** The remote file agrees with the local one wherever no command is pending. *)
Record cache_inv (st : cache * option async_command_t.t) (w : list (Z * list byte))
    (L R : list byte) : Prop := {
  ci_sched : st.1.(c_sys).(sched) = [];
  ci_local : st.1.(c_sys).(files) !! l = Some (Reg L);
  ci_remote : st.1.(c_sys).(files) !! r = Some (Reg R);
  ci_finished : st.1.(context).(finished) = false;
  ci_max : zlen L ≤ LONG_MAX;
  ci_pending q : q ∈ pending st →
    q.(op) = WRITE ∧ q.(fl) = l ∧ q.(fr) = r ∧
    0 ≤ q.(offset) ∧ 0 ≤ q.(size) ∧ (0 < q.(size) → q.(offset) + q.(size) ≤ zlen L);
  ci_length i : covered w i → Z.of_nat i < zlen L;
  ci_agree i : covered w i →
    (∃ q, q ∈ pending st ∧ in_range q.(offset) q.(size) i) ∨ R !! i = L !! i
}.

(** Outside of what is written, and inside of the file, nothing changes. *)
Lemma splice_outside off bs data i :
  0 ≤ off → Z.of_nat i < zlen data → ¬ in_range off (zlen bs) i → splice off bs data !! i = data !! i.
Proof.
  intros Hoff Hi Hr. destruct (decide (bs = [])) as [->|Hbs]; [done|].
  rewrite splice_lookup by done. unfold in_range in Hr.
  repeat match goal with |- context [?a <? ?b] => destruct (Z.ltb_spec a b) end; (done || lia).
Qed.

Lemma splice_inside off bs data i :
  0 ≤ off → in_range off (zlen bs) i → splice off bs data !! i = bs !! (i - Z.to_nat off)%nat.
Proof.
  intros Hoff Hr. unfold in_range in Hr. pose proof (zlen_nonneg bs).
  destruct (decide (bs = [])) as [->|Hbs]; [change (zlen []) with 0 in Hr; lia|].
  rewrite splice_lookup by done.
  repeat match goal with |- context [?a <? ?b] => destruct (Z.ltb_spec a b) end; (done || lia).
Qed.

Lemma write_loop_free fd buf off f data :
  off + zlen buf ≤ LONG_MAX → f !! fd = Some (Reg data) →
  posix_cached_file_t.write_loop (Z.to_nat (zlen buf)) fd buf (zlen buf) off (mk_sys f []) =
    (Val true, mk_sys (<[fd := Reg (splice off buf data)]> f) []).
Proof.
  intros Hoff Hf. destruct (decide (buf = [])) as [->|Hne].
  { simpl. unfold mret, comp_ret. by rewrite insert_id. }
  assert (0 < zlen buf) as Hpos by (destruct buf; [done|]; unfold zlen; simpl length; lia).
  destruct (Z.to_nat (zlen buf)) as [|n] eqn:Hn; [lia|].
  cbn [posix_cached_file_t.write_loop]. destruct (Z.leb_spec (zlen buf) 0); [lia|].
  rewrite ztake_all by lia.
  erewrite comp_bind_val by (eapply pwrite_free; [lia|done]). cbn beta iota.
  rewrite Z.sub_diag. by destruct n.
Qed.

Lemma write_inv c w L R off buf st' :
  cache_inv (c, None) w L R → 0 ≤ off → off + zlen buf ≤ LONG_MAX →
  event_step the_file (Write off buf) (c, None) = Some st' →
  cache_inv st' (w ++ [(off, buf)]) (splice off buf L) R.
Proof.
  intros [Hsch Hl Hr Hfin Hmax Hpend Hlen Hagr] Hoff Hle. simpl in *.
  destruct (c_sys c) as [f sch] eqn:Hsys. simpl in *. subst sch.
  unfold posix_cached_file_t.pwrite. simpl.
  erewrite comp_bind_val by (by eapply write_loop_free). simpl. intros [= <-].
  assert (zlen L ≤ zlen (splice off buf L) ∧ zlen (splice off buf L) ≤ LONG_MAX ∧
    (0 < zlen buf → off + zlen buf ≤ zlen (splice off buf L))) as (HL1 & HL2 & HL3).
  { destruct (decide (buf = [])) as [->|Hb]; [done|]. rewrite zlen_splice by done. lia. }
  assert (∀ q, q ∈ pending (mk_cache (mk_sys (<[l := Reg (splice off buf L)]> f) []) (context c) (cmd c),
      Some (async_command_t.mk WRITE l r off (zlen buf))) ↔
    q ∈ pending (c, None) ∨ q = async_command_t.mk WRITE l r off (zlen buf)) as Hp.
  { intros q. unfold pending. simpl. rewrite app_nil_r, app_assoc, elem_of_app. set_solver. }
  assert (∀ i, covered (w ++ [(off, buf)]) i → covered w i ∨ in_range off (zlen buf) i) as Hcov.
  { intros i (o & b & Hin & Hi). apply elem_of_app in Hin as [Hin|Hin]; [left; by exists o, b|].
    apply list_elem_of_singleton in Hin. simplify_eq. by right. }
  pose proof (zlen_nonneg buf). split; simpl; try done; try by simplify_map_eq.
  - intros q [Hq| ->]%Hp; [|done]. destruct (Hpend q Hq) as (? & ? & ? & ? & ? & ?).
    split_and!; try done. intros. lia.
  - intros i [Hi|Hi]%Hcov; [specialize (Hlen i Hi); lia|]. unfold in_range in Hi. lia.
  - intros i Hi%Hcov. destruct (decide (off ≤ Z.of_nat i < off + zlen buf)) as [Hin|Hout].
    + left. eexists. split; [apply Hp; by right|done].
    + destruct Hi as [Hi|Hi]; [|done].
      destruct (Hagr i Hi) as [(q & Hq & Hqi)|Heq]; [left; exists q; split; [apply Hp; by left|done]|].
      right. rewrite splice_outside; auto.
Qed.

Lemma execute_inv c sending w L R st' :
  cache_inv (c, sending) w L R → event_step the_file Execute (c, sending) = Some st' →
  ∃ R', cache_inv st' w L R'.
Proof.
  intros [Hsch Hl Hr Hfin Hmax Hpend Hlen Hagr]. simpl in *.
  destruct (cmd c) as [q|] eqn:Hcmd; [|done].
  assert (q ∈ pending (c, sending)) as Hq by (unfold pending; simpl; rewrite Hcmd; left).
  destruct (Hpend q Hq) as (Hop & Hfl & Hfr & Ho & Hs & Hle).
  unfold async_execute. rewrite Hcmd, Hop, Hfl, Hfr. simpl.
  destruct (c_sys c) as [f sch] eqn:Hsys. simpl in *. subst sch.
  set (R' := splice (offset q) (ztake (size q) (zdrop (offset q) L)) R).
  assert (file_transfer_loop l (offset q) r (offset q) (size q) (mk_sys f []) =
    (Val true, mk_sys (<[r := Reg R']> f) [])) as ->.
  { destruct (decide (0 < size q)); [apply file_transfer_loop_free; try done; lia|].
    assert (size q = 0) as Hz by lia. subst R'. rewrite Hz, ztake_0 by done. simpl.
    rewrite insert_id by done. unfold file_transfer_loop, transfer_loop, transfer_fuel. simpl.
    by rewrite Hl. }
  intros [= <-]. exists R'.
  assert (0 < size q → zlen (ztake (size q) (zdrop (offset q) L)) = size q) as Hz
    by (intros; rewrite zlen_ztake, zlen_zdrop by lia; lia).
  assert (∀ q', q' ∈ pending (c, sending) → q' = q ∨ q' ∈ async_op_queue (context c) ++ option_list sending) as Hp.
  { intros q'. unfold pending. simpl. rewrite Hcmd. simpl. set_solver. }
  split; simpl; try done; try by simplify_map_eq.
  - intros q' Hq'. apply Hpend. unfold pending in *. simpl in *. rewrite Hcmd. by right.
  - intros i Hi. unfold pending. simpl.
    destruct (decide (offset q ≤ Z.of_nat i < offset q + size q)) as [Hin|Hout].
    + right. subst R'. rewrite splice_inside; [| |rewrite Hz; [exact Hin|lia]].
      * rewrite ztake_take, zdrop_drop, lookup_take_lt, lookup_drop by lia. f_equal. lia.
      * done.
    + destruct (Hagr i Hi) as [(q' & Hq' & Hqi)|Heq].
      * left. exists q'. split; [|done]. by destruct (Hp q' Hq') as [->|?].
      * right. subst R'. rewrite <-Heq. specialize (Hlen i Hi).
        assert (Z.of_nat i < zlen R) as HR.
        { apply Z.nle_gt. intros Hge. rewrite lookup_ge_None_2 in Heq by (unfold zlen in Hge; lia).
          symmetry in Heq. apply lookup_ge_None_1 in Heq. unfold zlen in Hlen. lia. }
        destruct (decide (0 < size q)) as [Hpos|Hnp].
        -- apply splice_outside; [done|done|]. by rewrite Hz.
        -- by rewrite ztake_0 by lia.
Qed.

Lemma step_inv e st w L R st' :
  write_ok e → cache_inv st w L R → event_step the_file e st = Some st' →
  ∃ R', cache_inv st' (w ++ writes [e]) (write_all (writes [e]) L) R'.
Proof.
  intros Hok Hi. destruct st as [c sending]. destruct e as [off buf| | |].
  - destruct sending; [done|]. intros H. exists R. destruct Hok. by eapply write_inv.
  - rewrite app_nil_r. destruct sending as [q|]; [|done]. simpl. unfold send_command.
    pose proof Hi as [Hsch Hl Hr Hfin Hmax Hpend Hlen Hagr]. simpl in Hfin. rewrite Hfin.
    destruct (_ <? _); [done|]. intros [= <-]. exists R.
    assert (∀ x b, pending (set_context c (mk_context (MAX_QUEUE_SIZE (context c)) x
      (async_op_queue (context c) ++ [q]) (started (context c)) b
      (fail_status (context c))), None) = pending (c, Some q)) as Hp
      by (intros x b; unfold pending; simpl; by rewrite app_nil_r).
    by split; simpl; rewrite ?Hp.
  - rewrite app_nil_r. simpl. unfold async_take. destruct (cmd c) eqn:Hcmd; [done|].
    destruct (async_op_queue (context c)) as [|q queue] eqn:Hq; [done|]. intros [= <-]. exists R.
    destruct Hi as [Hsch Hl Hr Hfin Hmax Hpend Hlen Hagr].
    assert (∀ x, pending (mk_cache (c_sys c) (mk_context (MAX_QUEUE_SIZE (context c)) x queue
      (started (context c)) (finished (context c)) (fail_status (context c))) (Some q), sending) =
      pending (c, sending)) as Hp by (intros x; unfold pending; simpl; by rewrite Hcmd, Hq).
    by split; simpl; rewrite ?Hp.
  - rewrite app_nil_r. intros H. by eapply execute_inv.
Qed.

Lemma run_inv evs st w L R st' :
  Forall write_ok evs → cache_inv st w L R → run_events the_file evs st = Some st' →
  ∃ R', cache_inv st' (w ++ writes evs) (write_all (writes evs) L) R'.
Proof.
  revert st w L R. induction evs as [|e evs IH]; intros st w L R Hok Hi; cbn [run_events].
  - intros [= <-]. rewrite app_nil_r. by exists R.
  - apply Forall_cons in Hok as [He Hok]. destruct (event_step the_file e st) as [st1|] eqn:E; [|done].
    cbn [mbind option_bind]. intros Hrun. destruct (step_inv e st w L R st1 He Hi E) as (R1 & Hi1).
    destruct (IH st1 _ _ _ Hok Hi1 Hrun) as (R2 & Hi2). exists R2.
    assert (writes (e :: evs) = writes [e] ++ writes evs) as -> by (by destruct e).
    unfold write_all. rewrite foldl_app, app_assoc. exact Hi2.
Qed.

(** C25: write-back.  A client writes ranges to a cached file while the background
    thread copies them, in any interleaving and in any state of the queue.  When
    everything sent has been copied, the remote file holds, at every position ever
    written, the byte that the last write put there. *)
Theorem cache_write_back (c : cache) (L R : list byte) (evs : list event) (c' : cache) :
  sched c.(c_sys) = [] → files c.(c_sys) !! l = Some (Reg L) → files c.(c_sys) !! r = Some (Reg R) →
  zlen L ≤ LONG_MAX → c.(context).(finished) = false →
  c.(context).(async_op_queue) = [] → c.(cmd) = None → Forall write_ok evs →
  run_events the_file evs (c, None) = Some (c', None) →
  c'.(context).(async_op_queue) = [] → c'.(cmd) = None →
  ∃ R', files c'.(c_sys) !! r = Some (Reg R') ∧
    ∀ i, covered (writes evs) i → R' !! i = write_all (writes evs) L !! i.
Proof.
  intros Hs Hl Hr HL Hfin Hq Hc Hok Hrun Hq' Hc'.
  destruct (run_inv evs (c, None) [] L R (c', None)) as (R' & Hi); [done| |done|].
  - split; simpl; try done.
    + intros q. unfold pending. simpl. rewrite Hq, Hc. by intros ?%elem_of_nil.
    + by intros i (? & ? & ?%elem_of_nil & _).
    + by intros i (? & ? & ?%elem_of_nil & _).
  - exists R'. split; [apply (ci_remote _ _ _ _ Hi)|]. intros i Hcov.
    destruct (ci_agree _ _ _ _ Hi i Hcov) as [(q & Hin & _)|Heq]; [|done].
    unfold pending in Hin. simpl in Hin. rewrite Hq', Hc' in Hin. by apply elem_of_nil in Hin.
Qed.
End write_back.

(** A local and a remote file. *)
Definition demo_pair : gmap string node :=
  <["/s/f" := Reg []]> (<["/r/f" := Reg [Byte.x0a; Byte.x0b]]> ∅).
Definition demo_cache (sch : list decision) : cache :=
  mk_cache (mk_sys demo_pair sch) (mk_context DEFAULT_QUEUE_SIZE 0 [] true false false) None.
Definition demo_file : posix_cached_file_t.t := posix_cached_file_t.mk "/s" (Some "/s/f") (Some "/r/f").

(** Two overlapping writes, the second one before the first is copied. *)
Definition demo_events : list event :=
  [Write 1 [Byte.x01; Byte.x02; Byte.x03]; Send; Take; Write 2 [Byte.x07]; Execute; Send; Take; Execute].

(** The state after a schedule. *)
Definition after (l : list event) : cache :=
  from_option fst (demo_cache []) (run_events demo_file l (demo_cache [], None)).

Lemma cache_write_back_witness :
  ∃ R', files (after demo_events).(c_sys) !! "/r/f" = Some (Reg R') ∧
    ∀ i, covered (writes demo_events) i → R' !! i = write_all (writes demo_events) [] !! i.
Proof.
  apply (cache_write_back "/s" "/s/f" "/r/f" ltac:(discriminate) (demo_cache []) []
    [Byte.x0a; Byte.x0b] demo_events (after demo_events));
    [reflexivity|reflexivity|reflexivity|vm_compute; discriminate|reflexivity|reflexivity|reflexivity
    | |vm_compute; reflexivity|vm_compute; reflexivity|vm_compute; reflexivity].
  repeat constructor; vm_compute; discriminate.
Defined.

(** [flush] reports the opposite of what happened: after a write whose copy
    ends with [result], it returns the negation of [result]. *)
Theorem cache_flush_inverted (c : cache) (q : async_command_t.t) (result : bool) (s : sys) :
  c.(cmd) = Some q → q.(op) = WRITE →
  c.(context).(async_op_queue) = [] → c.(context).(fail_status) = false →
  file_transfer_loop q.(fl) q.(offset) q.(fr) q.(offset) q.(size) c.(c_sys) = (Val result, s) →
  ∃ c1 c2, async_execute c = (Val tt, c1) ∧ c1.(c_sys) = s ∧ flush c1 = Some (negb result, c2).
Proof.
  intros Hc Hop Hq Hf Hrun. unfold async_execute. rewrite Hc, Hop. simpl. rewrite Hrun.
  eexists _, _. split; [reflexivity|]. split; [done|]. unfold flush. simpl. by rewrite Hq, Hf.
Qed.

Lemma cache_flush_inverted_witness :
  let c := after [Write 0 [Byte.x01]; Send; Take] in
  ∃ c1 c2, async_execute c = (Val tt, c1) ∧
    c1.(c_sys) = mk_sys (<["/r/f" := Reg [Byte.x01; Byte.x0b]]> (files c.(c_sys))) [] ∧
    flush c1 = Some (negb true, c2).
Proof.
  intros c. apply (cache_flush_inverted c (async_command_t.mk WRITE "/s/f" "/r/f" 0 1) true);
    vm_compute; reflexivity.
Defined.

(** [pwrite] does not advance its buffer: when the kernel takes only the first
    byte, the rest of the file gets the start of the buffer again, and the call
    reports success. *)
Theorem cache_short_write :
  let buf := [Byte.x01; Byte.x02; Byte.x03] in
  ∃ q s, posix_cached_file_t.pwrite demo_file buf 0 (mk_sys demo_pair [Short 1]) = (Val (Some q), s) ∧
    files s !! "/s/f" = Some (Reg [Byte.x01; Byte.x01; Byte.x02]).
Proof. eexists _, _. split; vm_compute; reflexivity. Qed.

(** [flush] does not wait for the command that is being executed. *)
Lemma cache_flush_early :
  ∃ c c', run_events demo_file [Write 0 [Byte.x01]; Send; Take] (demo_cache [], None) = Some (c, None) ∧
    flush c = Some (true, c') ∧ files c'.(c_sys) !! "/r/f" = files (demo_cache []).(c_sys) !! "/r/f".
Proof. eexists _, _. split; [vm_compute; reflexivity|]. split; vm_compute; reflexivity. Qed.

(** A write larger than the queue waits for ever: no step of the thread enables it. *)
Lemma cache_oversize_waits q c :
  c.(context).(finished) = false → c.(context).(MAX_QUEUE_SIZE) < q.(size) →
  0 ≤ q.(size) → 0 ≤ c.(context).(async_op_size) → c.(context).(async_op_size) + q.(size) ≤ SIZE_MAX →
  send_command q c = None.
Proof.
  intros Hf Hs Hq H0 Hmax. unfold send_command. rewrite Hf. rewrite u64_small by (split; lia).
  destruct (Z.ltb_spec (MAX_QUEUE_SIZE (context c)) (async_op_size (context c) + size q)); [done|lia].
Qed.
